(* ===== verification/_CoqProject ===== *)
-Q . S2P
Prelude.v
Machine.v
Errors.v
Handle.v
Delayer.v
Queue.v
Work.v
Fs.v
Streamer.v
AddrInfo.v
Stream.v
Server.v
Resolver.v
ResolverLoop.v
Connect.v
Util.v
Timer.v
FsPoll.v
Udp.v
SslBio.v
SslFilter.v
SecureStream.v
StreamerStream.v
Watchers.v
LoadAverage.v
SslContext.v
Loops.v
Sockets.v
