(* ===== verification/Prelude.v ===== *)
(** UniEvent: a verification development for the event framework under [src/].

    UniEvent is an object-oriented cover of libuv.  A loop ([Loop.h], over
    [backend/LoopImpl.h] and [backend-uv/src/UVLoop.h]) has handles (streams, timers,
    watchers), which own an object of the backend each; the backend calls libuv and is called
    back by it.  Requests (connect, write, send, shutdown, resolve, work, file operations)
    are objects with callbacks.  Callbacks may call the framework again, at any depth, and
    may throw; most of what is hard in this program comes from there.

    ** How the program is modelled

    Code that is called back is run by the call machine of [Machine]: a C++ function is a
    statement whose body changes the state and lists the calls it makes next, in order; the
    pending calls are an explicit stack; an exception unwinds it through the guards and the
    handlers of the code; a failed assertion or a null dereference aborts.  The user's code is
    a parameter of each model: any function of the state to a list of calls, or an exception.
    Reachable configurations are those of any sequence of turns of the loop.  Nothing bounds
    the recursion or the length of a run: fuel occurs only in examples, where a run of the
    machine is evaluated, and a run that has ended does not depend on it ([run_steps]).

    Code that is not called back (file system calls, descriptors, tables, buffers) is
    translated to functions of explicit state.  Unsigned integers that the code lets wrap are
    integers with the wrap written out ([wrap], [swrap]).

    libuv, c-ares, OpenSSL, the system, [panda::ErrorCode], [panda::string], the destructor
    of [panda::excepted] and socket addresses are not in the repository: they are parameters, as classes of operations with
    the laws that their documentation states.  Each class with laws has an instance, and each
    property with hypotheses a witness.

    ** The files

    - [Prelude]: machine integers, tactics, lemmas on lists.
    - [Machine]: the call machine, its determinism, reachability and invariants.
    - [Errors]: the enumerations, categories and messages of [error.h] and [error.cc];
      [uvx_error] of [util.cc]; nesting of errors; [handle_fd_excepted].
    - [Handle]: [BackendHandle.h], [Handle.h], the list of handles of [Loop.h], [UVHandle.h],
      the libuv handles of a loop itself and its destructor, the run of a loop and its captured exceptions ([UVLoop.h], [LoopImpl.h],
      [backend/Backend.cc]), and the layout of read buffers ([backend-uv/src/inc.h]).
    - [Delayer]: [backend/Delayer.h] and [UVDelayer.h], callbacks for the next turn of the
      loop.  It is offered to the others as the class [DelayService], with [DelayLaws] (always)
      and [DelayExact] (the abstract service, for well-formed delayers).
    - [Queue]: [Queue.h] with the part of [Request.h] it drives, against an arbitrary [client].
    - [Work]: [Work.h], [Work.cc], [UVWork.h] and the thread pool, as a step relation.
    - [Fs]: [Fs.h], [Fs.cc]; the synchronous operations in a state and error monad over an
      arbitrary file system, the asynchronous ones as work.
    - [Streamer]: [Streamer.cc] against any input and output, with [streamer/File.cc].
    - [Stream]: [Stream.cc], [StreamFilter.cc], [Tcp.cc], [Pipe.cc], [Tty.cc] and their
      backends, a client of [Queue], with the chain of filters.
    - [Server]: a listening stream with its clients ([Stream::handle_connection], [accept],
      [finalize_handle_connection] of [Stream.cc]), each client being the machine of [Stream].
    - [AddrInfo]: [AddrInfo.cc] and the cache of [Resolver.cc].
    - [Resolver]: [Resolver.cc]: requests, workers, queue, cache, timeouts, cancelling.
    - [ResolverLoop]: the resolver that belongs to a loop, from its creation to the death of
      the loop ([disable_loop_resolver]), and [sync_resolve] of [util.cc] over it.
    - [Connect]: the requests of [Tcp.h], [Pipe.h], [Stream.h] and [Resolver.h] as their users build them,
      and connections by name, run with [Stream], [Resolver] and the cache.
    - [Util]: [util.cc] and [util_unix.icc].
    - [Timer]: [Timer.cc] and [UVTimer.h].  [FsPoll]: [FsPoll.cc], over [Timer] and [Fs].
    - [Udp]: [Udp.cc] and [UVUdp.h], a client of [Queue].
    - [SslBio]: [ssl/SslBio.cc], the buffers between OpenSSL and the filter.
    - [SslFilter]: [ssl/SslFilter.cc], whose input and output are such buffers.
    - [SecureStream]: the stream of [Stream] with the filter of [SslFilter]: their code calls
      each other, under one queue; [Stream::use_ssl], [no_ssl].
    - [StreamerStream]: [streamer/Stream.cc], streams as the ends of [Streamer].
    - [Watchers]: signals, async, idle, check, prepare, poll and fs event handles.
    - [LoadAverage]: [backend/LAMetrics.h].  [SslContext]: [SslContext.cc].
    - [Loops]: [Loop.cc] with [SyncLoop] of [Loop.h] and the loop of [backend/LoopImpl.h]: the
      loops of a process and of its threads, what keeps one alive, the handler of fork.
    - [Sockets]: [open], [bind], [pair], addresses and options of [Tcp.cc], [Pipe.cc] and
      [Tty.cc], with the descriptors of the system ([Util]) and the state flags of [Stream].

    Definitions have the names of the functions they translate; a comment says so where a
    name is taken.  State is a record with the fields of the class; fields said to be ghosts
    are logs that no code looks at.

    ** What is proved

    The doc comment of each property lists all that it needs; where the code breaks
    something beyond that, the theorem that shows so is named there.

    - The request queue: it is a FIFO server, loses no wake-up, keeps its lock exact through
      exceptions, and [cancel] ends every request of a client that lets it
      ([queue_...]).  The order and the wake-up need that no callback
      was put off by the recursion limit ([split_free]), and for the wake-up that no request
      was done within its own push ([stall_free]): [queue_split_executes_twice] and
      [queue_stalls] show what happens otherwise.
    - Delayed callbacks come in order, all of them, not after they were cancelled; the object
      implements the abstract service ([delayer_...]).
    - The resolver calls back each request exactly once and forgets none ([resolver_...]), in
      [regular] histories: no request object is run twice, and none is answered from the
      cache while it is queued ([resolver_wrong_answer]); its cache finds what was stored until it expires; connections by name that fail go round the
      addresses of the host ([connections_go_round]).
      [sync_resolve] returns the answer of its request and cannot hang ([sync_resolve_...]);
      the resolver of a loop that dies without running requests leaves nothing behind.
    - Loops: one is destroyed only when nothing points to it and it does not run; a fork is
      told to each loop of the thread, once; the default loops of threads are their own.
    - [Tcp::pair] gives each stream a descriptor of its own or leaves none open.
    - Streams: reset and a failed connect end every request in order, when the callbacks call
      nothing and there are no filters; the state flags agree in every reachable state; a
      chain of filters that override nothing is transparent, and is kept in order.
    - Connections of a listening stream are told of exactly once, with filters that do not
      double them, and arrive when nobody interferes.
    - SSL: the buffers are queues of bytes; over an established connection the other side
      reads what one side writes, filter to filter ([ssl_end_to_end]) and user to user, through
      the streams and their queues ([secure_streams_end_to_end]).  Of input that the peer did
      not write OpenSSL promises nothing ([sound], [genuine]).
    - UDP gives datagrams to libuv in order, once, unchanged, as long as [split_free].
    - The streamer writes everything before it reports success, bounds its buffer, and never
      waits for nobody; between streams it gives both back as it found them.  Short writes
      ([streamer_short_write]) and writes of the user on the output
      ([streamer_counts_foreign_writes]) are mistaken for complete ones of its own.
    - Handles own what libuv has open, and a loop whose handles are gone closes, whatever was done with it; a run of the loop
      rethrows the last exception of the turn in which callbacks threw
      ([loop_exception_lost]).
    - Work runs once and reports once, in every interleaving with the threads; a work that
      libuv refuses stays in the chain of the loop for ever ([work_queue_error_leaks]);
      cancelling is exact.  File operations: [mkpath], [truncate], the agreement of an asynchronous operation with the
      synchronous one.  Watches of paths report the changes and nothing stale, to a user who
      does not call back on a path without errors; timers
      resume where they paused; [file_dup] leaks nothing; contexts of SSL are counted; the
      load average is that of the last samples; a cleared watcher is as new; errors are
      translated one to one.

    At the end of a file, "What the code does not do" has the theorems that exhibit
    misbehaviour: runs of the model, and of the code, that do what they should not.

    ** What is not modelled

    Logging; getters that return a field or what libuv returns; [test/]; Windows files;
    memory, except where the lifetime of an object is the question ([Handle], [Work], [FsPoll],
    [SslBio]), and its exhaustion; [LATracker.h], which nothing uses; data races between threads (those of
    [Loops] take turns, those of [Work] are the pool of libuv); the rounding of the load
    average, a [double]. *)
From stdpp Require Export base tactics option list numbers gmap strings relations.
From Stdlib Require Export ZArith Lia.

#[export] Set Default Proof Using "Type".

(** ** Notations, automation and generic lemmas shared by the components *)

Declare Scope ue_scope.
Delimit Scope ue_scope with ue.
Open Scope ue_scope.
#[local] Open Scope Z_scope.

Create HintDb ue.

(** *** Machine integers

    An unsigned integer of [w] bits is a [Z] kept in range by [wrap w]; the
    C++ operators on it are the operations of [Z] followed by a wrap. *)

Definition wrap (w x : Z) : Z := x `mod` 2 ^ w.

Notation "x +₃₂ y" := (wrap 32 (x + y)) (at level 50, left associativity) : ue_scope.
Notation "x +₆₄ y" := (wrap 64 (x + y)) (at level 50, left associativity) : ue_scope.
Notation "x -₆₄ y" := (wrap 64 (x - y)) (at level 50, left associativity) : ue_scope.

Lemma wrap_range w x : 0 ≤ w → 0 ≤ wrap w x < 2 ^ w.
Proof. intros Hw. apply Z.mod_pos_bound. by apply Z.pow_pos_nonneg. Qed.

Lemma wrap_small w x : 0 ≤ x < 2 ^ w → wrap w x = x.
Proof. apply Z.mod_small. Qed.

Lemma wrap_add_l w x y : wrap w (wrap w x + y) = wrap w (x + y).
Proof. unfold wrap. apply Zplus_mod_idemp_l. Qed.

Lemma wrap_add_r w x y : wrap w (x + wrap w y) = wrap w (x + y).
Proof. unfold wrap. apply Zplus_mod_idemp_r. Qed.

Lemma wrap_sub_l w x y : wrap w (wrap w x - y) = wrap w (x - y).
Proof. unfold wrap. apply Zminus_mod_idemp_l. Qed.

#[export] Hint Resolve wrap_range wrap_small : ue.

(** The signed integer of [w] bits that an integer is converted to. *)
Definition swrap (w x : Z) : Z := wrap w (x + 2 ^ (w - 1)) - 2 ^ (w - 1).

Lemma swrap_small w x : 0 < w → - 2 ^ (w - 1) ≤ x < 2 ^ (w - 1) → swrap w x = x.
Proof.
  intros Hw Hx. unfold swrap. rewrite wrap_small; [lia|].
  replace (2 ^ w) with (2 * 2 ^ (w - 1)); [lia|].
  rewrite <-Z.pow_succ_r by lia. f_equal. lia.
Qed.

(** *** Tactics *)

(** Split a hypothesis into its parts, substitute, and discharge the
    contradictory cases. *)
Ltac inv_eq H := inversion H; simplify_eq/=.

(** Case analysis on every [match], [if] and [decide] of the context. *)
Ltac crush_match :=
  repeat (case_decide || case_match || simplify_eq/=).

(** Destruct the conjunctions and existentials of the context. *)
Ltac flat := repeat match goal with
  | H : _ ∧ _ |- _ => destruct H
  | H : ∃ _, _ |- _ => destruct H
  end.

(** *** Lists *)

Lemma drop_seqZ a n (i : nat) :
  Z.of_nat i ≤ n → drop i (seqZ a n) = seqZ (a + Z.of_nat i) (n - Z.of_nat i).
Proof.
  intros Hi. replace n with (Z.of_nat i + (n - Z.of_nat i)) at 1 by lia.
  rewrite seqZ_app by lia. rewrite drop_app_length'; [done|].
  rewrite length_seqZ. lia.
Qed.

Lemma seqZ_snoc a n : 0 ≤ n → seqZ a (n + 1) = seqZ a n ++ [a + n].
Proof.
  intros Hn. rewrite seqZ_app by lia. rewrite (seqZ_cons (a + n)) by lia.
  rewrite (seqZ_nil _ (Z.pred 1)) by lia. done.
Qed.

Lemma elem_of_tail {A} (x : A) l : x ∈ tail l → x ∈ l.
Proof. destruct l; simpl; [done|by right]. Qed.

Lemma filter_all {A} (P : A → Prop) `{∀ x, Decision (P x)} (l : list A) : (∀ x, x ∈ l → P x) → filter P l = l.
Proof.
  induction l as [|x l IH]; intros Hl; [done|]. rewrite filter_cons_True by (apply Hl; by left).
  f_equal. apply IH. intros y Hy. apply Hl. by right.
Qed.
