(* ===== verification/Machine.v ===== *)
(** The call machine: how a re-entrant C++ call graph is executed.

    The code of UniEvent is full of calls that come back: a request's
    [exec()] calls the backend, which completes the request synchronously,
    which calls a user callback, which pushes another request into the very
    queue that is executing.  A C++ function is therefore modelled as a [Call]
    (a statement with its arguments captured) whose [body] changes the state
    and lists the calls that the function makes next, in their order; the
    machine keeps the pending calls on an explicit [stack].  Exceptions travel
    down that stack: [unwind] says what a pending call does when an exception
    reaches it (nothing for plain code, the guard of a [scope_guard], the
    [catch] of an [etry]).  A violated [assert], or a null dereference, aborts. *)
From S2P Require Import Prelude.

Section Machine.
Context {St Call Exn : Type}.

Inductive outcome :=
| Calls (cs : list Call)   (** return, after making these calls *)
| Throws (e : Exn)         (** leave by an exception *)
| Aborts.                  (** failed assertion or null dereference *)

Inductive mode := Normal | Unwinding (e : Exn) | Aborted.

Record program := Program {
  body : Call → St → St * outcome;
  unwind : Call → Exn → St → St * outcome
}.

Record config := Config {
  stack : list Call;
  mem : St;
  cmode : mode
}.

(** The configuration a function leaves when it ends with [r] above the
    pending calls [k]. *)
Definition settle (k : list Call) (r : St * outcome) : config :=
  match r with
  | (s, Calls cs) => Config (cs ++ k) s Normal
  | (s, Throws e) => Config k s (Unwinding e)
  | (s, Aborts) => Config k s Aborted
  end.

Definition step (p : program) (c : config) : option config :=
  match stack c, cmode c with
  | f :: k, Normal => Some (settle k (body p f (mem c)))
  | f :: k, Unwinding e => Some (settle k (unwind p f e (mem c)))
  | _, _ => None
  end.

Definition steps (p : program) : relation config :=
  rtc (λ c c', step p c = Some c').

(** Run at most [n] steps. *)
Fixpoint run (p : program) (n : nat) (c : config) : config :=
  match n with
  | O => c
  | S n => match step p c with Some c' => run p n c' | None => c end
  end.

Definition halted (c : config) : Prop := stack c = [] ∨ cmode c = Aborted.

Lemma steps_refl p c : steps p c c.
Proof. apply rtc_refl. Qed.

Lemma steps_trans p c1 c2 c3 : steps p c1 c2 → steps p c2 c3 → steps p c1 c3.
Proof. intros. by etrans. Qed.

Lemma steps_once p c c' : step p c = Some c' → steps p c c'.
Proof. intros. by apply rtc_once. Qed.

Lemma steps_cons p c c' c'' : step p c = Some c' → steps p c' c'' → steps p c c''.
Proof. intros. by eapply rtc_l. Qed.

Lemma run_steps p n c : steps p c (run p n c).
Proof.
  revert c. induction n as [|n IH]; intros c; simpl; [apply steps_refl|].
  destruct (step p c) as [c'|] eqn:E; [|apply steps_refl].
  eapply rtc_l; [exact E|apply IH].
Qed.

Lemma step_None_halted p c : step p c = None ↔ halted c.
Proof.
  unfold step, halted. destruct c as [[|f k] s []]; simpl;
    split; intros H; naive_solver.
Qed.

Lemma run_add p n m c : run p (n + m) c = run p m (run p n c).
Proof.
  revert c. induction n as [|n IH]; intros c; simpl; [done|].
  destruct (step p c) as [c'|] eqn:E; [apply IH|].
  destruct m; simpl; [done|]. by rewrite E.
Qed.

(** The machine is deterministic: a run that ends goes through every
    configuration that is reached before. *)
Lemma steps_det p c c1 c2 : steps p c c1 → steps p c c2 → halted c2 → steps p c1 c2.
Proof.
  intros H1 H2 Hh. induction H1 as [|c c' c1 Hs _ IH]; [done|]. apply IH.
  destruct H2 as [|c c'' c2 Hs' H2]; cbv beta in *.
  - apply (step_None_halted p) in Hh. congruence.
  - by assert (c'' = c') as -> by congruence.
Qed.

Lemma steps_end p s m s' m' : steps p (Config [] s m) (Config [] s' m') → s' = s ∧ m' = m.
Proof.
  intros Hs. remember (Config [] s m) as c eqn:Ec. remember (Config [] s' m') as c' eqn:Ec'.
  destruct Hs as [|c c1 c2 Hs _]; [by simplify_eq|]. subst. by destruct m.
Qed.

(** A property of configurations kept by every step is kept by a run. *)
Lemma steps_inv p (I : config → Prop) :
  (∀ c c', I c → step p c = Some c' → I c') →
  ∀ c c', steps p c c' → I c → I c'.
Proof. intros HI c c'. induction 1; eauto. Qed.

(** *** The environment

    Between two turns of the event loop the stack is empty; the loop (or the
    user, from outside of any callback) then makes a call.  An exception
    that reaches the bottom of the stack is kept by the loop, which goes on:
    see [LoopImpl::ltry]. *)
Inductive reachable (p : program) (init : St → Prop)
    (input : St → list Call → St → Prop) : config → Prop :=
| reach_init s : init s → reachable p init input (Config [] s Normal)
| reach_step c c' :
    reachable p init input c → step p c = Some c' → reachable p init input c'
| reach_input s m cs s' :
    reachable p init input (Config [] s m) → m ≠ Aborted →
    input s cs s' → reachable p init input (Config cs s' Normal).

Lemma reachable_inv p init input (I : config → Prop) :
  (∀ s, init s → I (Config [] s Normal)) →
  (∀ c c', I c → step p c = Some c' → I c') →
  (∀ s m cs s', I (Config [] s m) → m ≠ Aborted → input s cs s' → I (Config cs s' Normal)) →
  ∀ c, reachable p init input c → I c.
Proof. intros H1 H2 H3 c. induction 1; eauto. Qed.

Lemma reachable_weaken p (init init' : St → Prop) input c :
  (∀ s, init s → init' s) → reachable p init input c → reachable p init' input c.
Proof. intros Hi. induction 1; eauto using reachable. Qed.

Lemma reachable_mono p init (init' : St → Prop) input (input' : St → list Call → St → Prop) c :
  (∀ s, init s → init' s) → (∀ s cs s', input s cs s' → input' s cs s') →
  reachable p init input c → reachable p init' input' c.
Proof. intros Hi Hn. induction 1; eauto using reachable. Qed.

Lemma reachable_steps p init input c c' :
  reachable p init input c → steps p c c' → reachable p init input c'.
Proof. intros Hr. induction 1; eauto using reachable. Qed.
End Machine.

Arguments outcome : clear implicits.
Arguments mode : clear implicits.
Arguments program : clear implicits.
Arguments config : clear implicits.
#[export] Hint Resolve steps_refl steps_once run_steps : ue.
