(* ===== verification/Errors.v ===== *)
(** Errors: [error.h], [error.cc], the translation of libuv error numbers in
    [util.cc] and [backend-uv/src/inc.h], and [handle_fd_excepted] of [inc.h].

    A [std::error_code] is a category and a value; here, one constructor per
    category. An [excepted<T, E>] is a sum. [panda::ErrorCode], an error with the
    stack of the errors that caused it, is code of another library: the class
    [ErrorStack] names what the program relies on. *)
From S2P Require Import Prelude.
#[local] Open Scope string_scope.
#[local] Open Scope Z_scope.

(** ** The enumerations *)

(** [errc] *)
Inductive errc :=
  | unknown_error | read_start_error | bind_error | listen_error | ssl_error | resolve_error
  | ai_address_family_not_supported | ai_temporary_failure | ai_bad_flags | ai_bad_hints
  | ai_request_canceled | ai_permanent_failure | ai_family_not_supported | ai_out_of_memory
  | ai_no_address | ai_unknown_node_or_service | ai_argument_buffer_overflow
  | ai_resolved_protocol_unknown | ai_service_not_available_for_socket_type
  | ai_socket_type_not_supported | invalid_unicode_character | not_on_network
  | transport_endpoint_shutdown | host_down | remote_io.

(** [resolve_errc] *)
Inductive resolve_errc :=
  | r_host_not_found | r_not_implemented | r_service_not_found | r_no_data | r_bad_format
  | r_server_failed | r_refused | r_bad_query | r_bad_name | r_bad_response | r_eof
  | r_file_read_error | r_bad_string | r_bad_flags | r_noname | r_bad_hints | r_not_initialized
  | r_iphlpapi_load_error | r_no_get_network_params.

(** [streamer_errc] *)
Inductive streamer_errc := read_error | write_error.

(** The conditions of [std::errc] that the code uses. *)
Inductive std_errc :=
  | argument_list_too_long | permission_denied | address_in_use | address_not_available
  | address_family_not_supported | resource_unavailable_try_again
  | connection_already_in_progress | bad_file_descriptor | device_or_resource_busy
  | operation_canceled | connection_aborted | connection_refused | connection_reset
  | destination_address_required | file_exists | bad_address | file_too_large
  | host_unreachable | interrupted | invalid_argument | io_error | already_connected
  | is_a_directory | too_many_symbolic_link_levels | too_many_files_open | message_size
  | filename_too_long | network_down | network_unreachable | too_many_files_open_in_system
  | no_buffer_space | no_such_device | no_such_file_or_directory | not_enough_memory
  | no_protocol_option | no_space_on_device | function_not_supported | not_connected
  | not_a_directory | directory_not_empty | not_a_socket | not_supported
  | operation_not_permitted | broken_pipe | protocol_error | protocol_not_supported
  | wrong_protocol_type | result_out_of_range | read_only_file_system | invalid_seek
  | no_such_process | timed_out | text_file_busy | cross_device_link
  | no_such_device_or_address | too_many_links | inappropriate_io_control_operation
  | operation_in_progress.

(** The error numbers of libuv that the code knows, and any other one. *)
Inductive uv_errno :=
  | UV_E2BIG | UV_EACCES | UV_EADDRINUSE | UV_EADDRNOTAVAIL | UV_EAFNOSUPPORT | UV_EAGAIN
  | UV_EAI_ADDRFAMILY | UV_EAI_AGAIN | UV_EAI_BADFLAGS | UV_EAI_BADHINTS | UV_EAI_CANCELED
  | UV_EAI_FAIL | UV_EAI_FAMILY | UV_EAI_MEMORY | UV_EAI_NODATA | UV_EAI_NONAME
  | UV_EAI_OVERFLOW | UV_EAI_PROTOCOL | UV_EAI_SERVICE | UV_EAI_SOCKTYPE | UV_EALREADY
  | UV_EBADF | UV_EBUSY | UV_ECANCELED | UV_ECHARSET | UV_ECONNABORTED | UV_ECONNREFUSED
  | UV_ECONNRESET | UV_EDESTADDRREQ | UV_EEXIST | UV_EFAULT | UV_EFBIG | UV_EHOSTUNREACH
  | UV_EINTR | UV_EINVAL | UV_EIO | UV_EISCONN | UV_EISDIR | UV_ELOOP | UV_EMFILE | UV_EMSGSIZE
  | UV_ENAMETOOLONG | UV_ENETDOWN | UV_ENETUNREACH | UV_ENFILE | UV_ENOBUFS | UV_ENODEV
  | UV_ENOENT | UV_ENOMEM | UV_ENONET | UV_ENOPROTOOPT | UV_ENOSPC | UV_ENOSYS | UV_ENOTCONN
  | UV_ENOTDIR | UV_ENOTEMPTY | UV_ENOTSOCK | UV_ENOTSUP | UV_EPERM | UV_EPIPE | UV_EPROTO
  | UV_EPROTONOSUPPORT | UV_EPROTOTYPE | UV_ERANGE | UV_EROFS | UV_ESHUTDOWN | UV_ESPIPE
  | UV_ESRCH | UV_ETIMEDOUT | UV_ETXTBSY | UV_EXDEV | UV_UNKNOWN | UV_ENXIO | UV_EMLINK
  | UV_EHOSTDOWN | UV_EREMOTEIO | UV_ENOTTY
  | UV_other (n : Z).

(** [std::error_code]; the default one, success, is [None] where it may occur. *)
Inductive error_code :=
  | Std (e : std_errc)
  | Unievent (e : errc)
  | ResolveErr (e : resolve_errc)
  | SslErr (code : Z)
  | OpenSslErr (code : Z)
  | StreamerErr (e : streamer_errc).

#[global] Instance errc_eq_dec : EqDecision errc.
Proof. solve_decision. Defined.
#[global] Instance resolve_errc_eq_dec : EqDecision resolve_errc.
Proof. solve_decision. Defined.
#[global] Instance streamer_errc_eq_dec : EqDecision streamer_errc.
Proof. solve_decision. Defined.
#[global] Instance std_errc_eq_dec : EqDecision std_errc.
Proof. solve_decision. Defined.
#[global] Instance uv_errno_eq_dec : EqDecision uv_errno.
Proof. solve_decision. Defined.
#[global] Instance error_code_eq_dec : EqDecision error_code.
Proof. solve_decision. Defined.

(** [excepted<T, E>] *)
Abbreviation excepted T E := (T + E)%type.

(** ** Translation of libuv errors *)

(** [uvx_error] *)
Definition uvx_error (uverr : uv_errno) : error_code :=
  match uverr with
  | UV_E2BIG => Std argument_list_too_long
  | UV_EACCES => Std permission_denied
  | UV_EADDRINUSE => Std address_in_use
  | UV_EADDRNOTAVAIL => Std address_not_available
  | UV_EAFNOSUPPORT => Std address_family_not_supported
  | UV_EAGAIN => Std resource_unavailable_try_again
  | UV_EAI_ADDRFAMILY => Unievent ai_address_family_not_supported
  | UV_EAI_AGAIN => Unievent ai_temporary_failure
  | UV_EAI_BADFLAGS => Unievent ai_bad_flags
  | UV_EAI_BADHINTS => Unievent ai_bad_hints
  | UV_EAI_CANCELED => Unievent ai_request_canceled
  | UV_EAI_FAIL => Unievent ai_permanent_failure
  | UV_EAI_FAMILY => Unievent ai_family_not_supported
  | UV_EAI_MEMORY => Unievent ai_out_of_memory
  | UV_EAI_NODATA => Unievent ai_no_address
  | UV_EAI_NONAME => Unievent ai_unknown_node_or_service
  | UV_EAI_OVERFLOW => Unievent ai_argument_buffer_overflow
  | UV_EAI_PROTOCOL => Unievent ai_resolved_protocol_unknown
  | UV_EAI_SERVICE => Unievent ai_service_not_available_for_socket_type
  | UV_EAI_SOCKTYPE => Unievent ai_socket_type_not_supported
  | UV_EALREADY => Std connection_already_in_progress
  | UV_EBADF => Std bad_file_descriptor
  | UV_EBUSY => Std device_or_resource_busy
  | UV_ECANCELED => Std operation_canceled
  | UV_ECHARSET => Unievent invalid_unicode_character
  | UV_ECONNABORTED => Std connection_aborted
  | UV_ECONNREFUSED => Std connection_refused
  | UV_ECONNRESET => Std connection_reset
  | UV_EDESTADDRREQ => Std destination_address_required
  | UV_EEXIST => Std file_exists
  | UV_EFAULT => Std bad_address
  | UV_EFBIG => Std file_too_large
  | UV_EHOSTUNREACH => Std host_unreachable
  | UV_EINTR => Std interrupted
  | UV_EINVAL => Std invalid_argument
  | UV_EIO => Std io_error
  | UV_EISCONN => Std already_connected
  | UV_EISDIR => Std is_a_directory
  | UV_ELOOP => Std too_many_symbolic_link_levels
  | UV_EMFILE => Std too_many_files_open
  | UV_EMSGSIZE => Std message_size
  | UV_ENAMETOOLONG => Std filename_too_long
  | UV_ENETDOWN => Std network_down
  | UV_ENETUNREACH => Std network_unreachable
  | UV_ENFILE => Std too_many_files_open_in_system
  | UV_ENOBUFS => Std no_buffer_space
  | UV_ENODEV => Std no_such_device
  | UV_ENOENT => Std no_such_file_or_directory
  | UV_ENOMEM => Std not_enough_memory
  | UV_ENONET => Unievent not_on_network
  | UV_ENOPROTOOPT => Std no_protocol_option
  | UV_ENOSPC => Std no_space_on_device
  | UV_ENOSYS => Std function_not_supported
  | UV_ENOTCONN => Std not_connected
  | UV_ENOTDIR => Std not_a_directory
  | UV_ENOTEMPTY => Std directory_not_empty
  | UV_ENOTSOCK => Std not_a_socket
  | UV_ENOTSUP => Std not_supported
  | UV_EPERM => Std operation_not_permitted
  | UV_EPIPE => Std broken_pipe
  | UV_EPROTO => Std protocol_error
  | UV_EPROTONOSUPPORT => Std protocol_not_supported
  | UV_EPROTOTYPE => Std wrong_protocol_type
  | UV_ERANGE => Std result_out_of_range
  | UV_EROFS => Std read_only_file_system
  | UV_ESHUTDOWN => Unievent transport_endpoint_shutdown
  | UV_ESPIPE => Std invalid_seek
  | UV_ESRCH => Std no_such_process
  | UV_ETIMEDOUT => Std timed_out
  | UV_ETXTBSY => Std text_file_busy
  | UV_EXDEV => Std cross_device_link
  | UV_UNKNOWN => Unievent unknown_error
  | UV_ENXIO => Std no_such_device_or_address
  | UV_EMLINK => Std too_many_links
  | UV_EHOSTDOWN => Unievent host_down
  | UV_EREMOTEIO => Unievent remote_io
  | UV_ENOTTY => Std inappropriate_io_control_operation
  | UV_other _ => Unievent unknown_error
  end.

(** [uvx_ce]: the result of a libuv call, [None] for 0. *)
Definition uvx_ce (err : option uv_errno) : option error_code := uvx_error <$> err.

(** [uvx_strict]: throws. *)
Definition uvx_strict (err : option uv_errno) : excepted unit error_code :=
  match err with Some e => inr (uvx_error e) | None => inl tt end.

(** ** Messages *)

(** The enumeration counts from 1. *)
Definition errc_values : list errc :=
  [unknown_error; read_start_error; bind_error; listen_error; ssl_error; resolve_error;
   ai_address_family_not_supported; ai_temporary_failure; ai_bad_flags; ai_bad_hints;
   ai_request_canceled; ai_permanent_failure; ai_family_not_supported; ai_out_of_memory;
   ai_no_address; ai_unknown_node_or_service; ai_argument_buffer_overflow;
   ai_resolved_protocol_unknown; ai_service_not_available_for_socket_type;
   ai_socket_type_not_supported; invalid_unicode_character; not_on_network;
   transport_endpoint_shutdown; host_down; remote_io].

Definition errc_value (e : errc) : Z :=
  match list_find (λ x, x = e) errc_values with Some (i, _) => Z.of_nat i + 1 | None => 0 end.

(** The cast [(errc)condition] with the [switch] of [ErrorCategory::message]. *)
Definition errc_of (condition : Z) : option errc :=
  if decide (condition ≤ 0) then None else errc_values !! Z.to_nat (condition - 1).

Definition errc_message (e : errc) : string :=
  match e with
  | unknown_error => "unknown error"
  | read_start_error => "read start error"
  | ssl_error => "ssl error"
  | bind_error => "bind error"
  | listen_error => "listen error"
  | resolve_error => "resolve error"
  | ai_address_family_not_supported => "address family not supported"
  | ai_temporary_failure => "temporary failure"
  | ai_bad_flags => "bad ai_flags value"
  | ai_bad_hints => "invalid value for hints"
  | ai_request_canceled => "request canceled"
  | ai_permanent_failure => "permanent failure"
  | ai_family_not_supported => "ai_family not supported"
  | ai_out_of_memory => "out of memory"
  | ai_no_address => "no address"
  | ai_unknown_node_or_service => "unknown node or service"
  | ai_argument_buffer_overflow => "argument buffer overflow"
  | ai_resolved_protocol_unknown => "resolved protocol is unknown"
  | ai_service_not_available_for_socket_type => "service not available for socket type"
  | ai_socket_type_not_supported => "socket type not supported"
  | invalid_unicode_character => "invalid Unicode character"
  | not_on_network => "machine is not on the network"
  | transport_endpoint_shutdown => "cannot send after transport endpoint shutdown"
  | host_down => "host is down"
  | remote_io => "remote I/O error"
  end.

(** [ErrorCategory::message] *)
Definition ErrorCategory_message (condition : Z) : string :=
  match errc_of condition with Some e => errc_message e | None => "" end.

(** [StreamerErrorCategory::message] *)
Definition StreamerErrorCategory_message (condition : Z) : string :=
  match condition with
  | 1 => "streamer read error"
  | 2 => "streamer write error"
  | _ => ""
  end.

(** The names of the categories. *)
Definition category_name (e : error_code) : string :=
  match e with
  | Std _ => "generic"
  | Unievent _ => "unievent"
  | ResolveErr _ => "unievent-resolve"
  | SslErr _ => "unievent-ssl"
  | OpenSslErr _ => "unievent-openssl"
  | StreamerErr _ => "unievent-streamer"
  end.

(** [make_ssl_error_code], given the queue of errors that [ERR_get_error] pops
    (oldest first): the last one counts. [SSL_ERROR_SSL] is 1. *)
Definition make_ssl_error_code (ssl_code : Z) (errors : list Z) : error_code * list Z :=
  if decide (ssl_code = 1) then (OpenSslErr (default 0 (last errors)), [])
  else (SslErr ssl_code, errors).

(** ** Results *)

(** [make_excepted (const std::error_code&)] *)
Definition make_excepted (code : option error_code) : excepted unit error_code :=
  match code with Some e => inr e | None => inl tt end.

(** [make_excepted (const expected<T, std::error_code>&)] *)
Definition make_excepted_val {T E} (into : error_code → E) (e : excepted T error_code) : excepted T E :=
  match e with inl v => inl v | inr c => inr (into c) end.

(** [handle_fd_excepted]: a handle without a socket has the default value. *)
Definition handle_fd_excepted {T} (dflt : T) (r : excepted T error_code) : excepted T error_code :=
  match r with
  | inl v => inl v
  | inr (Std (not_connected | bad_file_descriptor | invalid_argument)) => inl dflt
  | inr err => inr err
  end.

(** ** Nested errors *)

(** What the code relies on of [panda::ErrorCode]: [ec_codes], the codes it
    holds, outermost first, none for success; [ec_nest e s] is [ErrorCode(e, s)];
    [stack & code] asks whether the stack holds the code. *)
Class ErrorStack (EC : Type) := {
  ec_codes : EC → list error_code;
  ec_ok : EC;
  ec_nest : error_code → EC → EC;
  ec_codes_ok : ec_codes ec_ok = [];
  ec_codes_nest e s : ec_codes (ec_nest e s) = e :: ec_codes s
}.

Section Nested.
Context `{ErrorStack EC}.

Definition ec_bool (s : EC) : bool := match ec_codes s with [] => false | _ => true end.
Definition ec_has (s : EC) (e : error_code) : bool := bool_decide (e ∈ ec_codes s).
Definition ec_of (e : error_code) : EC := ec_nest e ec_ok.

(** [nest_error] *)
Definition nest_error (err : error_code) (stack : EC) : EC :=
  if negb (ec_bool stack) then stack
  else if ec_has stack (Std operation_canceled) then stack else ec_nest err stack.

Lemma ec_has_of e e' : ec_has (ec_of e) e' = bool_decide (e' = e).
Proof.
  unfold ec_has, ec_of. rewrite ec_codes_nest, ec_codes_ok. apply bool_decide_ext.
  by rewrite elem_of_cons, elem_of_nil; split; [intros [?|[]]|left].
Qed.

Lemma ec_bool_of e : ec_bool (ec_of e) = true.
Proof. unfold ec_bool, ec_of. by rewrite ec_codes_nest. Qed.

Lemma nest_error_codes err s :
  ec_codes (nest_error err s) =
  if negb (ec_bool s) || ec_has s (Std operation_canceled) then ec_codes s else err :: ec_codes s.
Proof.
  unfold nest_error. destruct (ec_bool s); simpl; [|done].
  destruct (ec_has s _); [done|]. apply ec_codes_nest.
Qed.
End Nested.

(** *** The exception [Error] *)

(** [Error]: its code, empty when it was made of a text, and the text of the
    [panda::exception] that it is. *)
Record Error (EC : Type) := mkError { e_code : EC; e_text : string }.
Arguments mkError {EC}.
Arguments e_code {EC}.
Arguments e_text {EC}.

Section Exceptions.
Context `{ErrorStack EC} (no_text : string) (what : EC → string).

(** [Error(ec)], [whats], [clone]; [no_text]: what an exception without a text has;
    [what]: [ErrorCode::what]. *)
Definition Error_of (ec : EC) : Error EC := mkError ec no_text.
Definition whats (e : Error EC) : string := if ec_bool (e_code e) then what (e_code e) else e_text e.
Definition clone (e : Error EC) : Error EC :=
  if ec_bool (e_code e) then Error_of (e_code e) else mkError ec_ok (e_text e).

(** A clone says the same, and is an error of the same code. *)
Lemma clone_says_same e :
  whats (clone e) = whats e ∧ ec_bool (e_code (clone e)) = ec_bool (e_code e) ∧
  (ec_bool (e_code e) = true → e_code (clone e) = e_code e).
Proof.
  unfold whats, clone. destruct (ec_bool (e_code e)) eqn:E; simpl; rewrite ?E; [done|].
  assert (ec_bool ec_ok = false) as -> by (unfold ec_bool; by rewrite ec_codes_ok). done.
Qed.
End Exceptions.

(** The plain implementation: the list of the codes. *)
#[export] Instance error_list : ErrorStack (list error_code) := {|
  ec_codes s := s; ec_ok := []; ec_nest := cons;
  ec_codes_ok := eq_refl; ec_codes_nest _ _ := eq_refl
|}.

(** ** Properties *)

(** The error number that [uvx_error] translates to a code. *)
Definition uv_of (e : error_code) : option uv_errno :=
  match e with
  | Std argument_list_too_long => Some UV_E2BIG
  | Std permission_denied => Some UV_EACCES
  | Std address_in_use => Some UV_EADDRINUSE
  | Std address_not_available => Some UV_EADDRNOTAVAIL
  | Std address_family_not_supported => Some UV_EAFNOSUPPORT
  | Std resource_unavailable_try_again => Some UV_EAGAIN
  | Unievent ai_address_family_not_supported => Some UV_EAI_ADDRFAMILY
  | Unievent ai_temporary_failure => Some UV_EAI_AGAIN
  | Unievent ai_bad_flags => Some UV_EAI_BADFLAGS
  | Unievent ai_bad_hints => Some UV_EAI_BADHINTS
  | Unievent ai_request_canceled => Some UV_EAI_CANCELED
  | Unievent ai_permanent_failure => Some UV_EAI_FAIL
  | Unievent ai_family_not_supported => Some UV_EAI_FAMILY
  | Unievent ai_out_of_memory => Some UV_EAI_MEMORY
  | Unievent ai_no_address => Some UV_EAI_NODATA
  | Unievent ai_unknown_node_or_service => Some UV_EAI_NONAME
  | Unievent ai_argument_buffer_overflow => Some UV_EAI_OVERFLOW
  | Unievent ai_resolved_protocol_unknown => Some UV_EAI_PROTOCOL
  | Unievent ai_service_not_available_for_socket_type => Some UV_EAI_SERVICE
  | Unievent ai_socket_type_not_supported => Some UV_EAI_SOCKTYPE
  | Std connection_already_in_progress => Some UV_EALREADY
  | Std bad_file_descriptor => Some UV_EBADF
  | Std device_or_resource_busy => Some UV_EBUSY
  | Std operation_canceled => Some UV_ECANCELED
  | Unievent invalid_unicode_character => Some UV_ECHARSET
  | Std connection_aborted => Some UV_ECONNABORTED
  | Std connection_refused => Some UV_ECONNREFUSED
  | Std connection_reset => Some UV_ECONNRESET
  | Std destination_address_required => Some UV_EDESTADDRREQ
  | Std file_exists => Some UV_EEXIST
  | Std bad_address => Some UV_EFAULT
  | Std file_too_large => Some UV_EFBIG
  | Std host_unreachable => Some UV_EHOSTUNREACH
  | Std interrupted => Some UV_EINTR
  | Std invalid_argument => Some UV_EINVAL
  | Std io_error => Some UV_EIO
  | Std already_connected => Some UV_EISCONN
  | Std is_a_directory => Some UV_EISDIR
  | Std too_many_symbolic_link_levels => Some UV_ELOOP
  | Std too_many_files_open => Some UV_EMFILE
  | Std message_size => Some UV_EMSGSIZE
  | Std filename_too_long => Some UV_ENAMETOOLONG
  | Std network_down => Some UV_ENETDOWN
  | Std network_unreachable => Some UV_ENETUNREACH
  | Std too_many_files_open_in_system => Some UV_ENFILE
  | Std no_buffer_space => Some UV_ENOBUFS
  | Std no_such_device => Some UV_ENODEV
  | Std no_such_file_or_directory => Some UV_ENOENT
  | Std not_enough_memory => Some UV_ENOMEM
  | Unievent not_on_network => Some UV_ENONET
  | Std no_protocol_option => Some UV_ENOPROTOOPT
  | Std no_space_on_device => Some UV_ENOSPC
  | Std function_not_supported => Some UV_ENOSYS
  | Std not_connected => Some UV_ENOTCONN
  | Std not_a_directory => Some UV_ENOTDIR
  | Std directory_not_empty => Some UV_ENOTEMPTY
  | Std not_a_socket => Some UV_ENOTSOCK
  | Std not_supported => Some UV_ENOTSUP
  | Std operation_not_permitted => Some UV_EPERM
  | Std broken_pipe => Some UV_EPIPE
  | Std protocol_error => Some UV_EPROTO
  | Std protocol_not_supported => Some UV_EPROTONOSUPPORT
  | Std wrong_protocol_type => Some UV_EPROTOTYPE
  | Std result_out_of_range => Some UV_ERANGE
  | Std read_only_file_system => Some UV_EROFS
  | Unievent transport_endpoint_shutdown => Some UV_ESHUTDOWN
  | Std invalid_seek => Some UV_ESPIPE
  | Std no_such_process => Some UV_ESRCH
  | Std timed_out => Some UV_ETIMEDOUT
  | Std text_file_busy => Some UV_ETXTBSY
  | Std cross_device_link => Some UV_EXDEV
  | Std no_such_device_or_address => Some UV_ENXIO
  | Std too_many_links => Some UV_EMLINK
  | Unievent host_down => Some UV_EHOSTDOWN
  | Unievent remote_io => Some UV_EREMOTEIO
  | Std inappropriate_io_control_operation => Some UV_ENOTTY
  | _ => None
  end.

(** The translation of libuv errors loses nothing: each number that the code
    names has its own code, that none of the others has, and only an unnamed one is
    an unknown error. *)
Theorem uvx_error_faithful (a b : uv_errno) (Hab : uvx_error a = uvx_error b) :
  a = b ∨ uvx_error a = Unievent unknown_error ∧ uv_of (uvx_error a) = None.
Proof.
  assert (∀ x, uv_of (uvx_error x) = Some x ∨ uvx_error x = Unievent unknown_error) as Hinv
    by by intros []; (right; reflexivity) || (left; reflexivity).
  destruct (Hinv a) as [Ha|Ha]; [|by right; rewrite Ha].
  destruct (Hinv b) as [Hb|Hb]; [left; congruence|].
  right. rewrite Hab, Hb. done.
Qed.

Lemma uvx_error_faithful_witness :
  UV_ECANCELED = UV_ECANCELED ∨ uvx_error UV_ECANCELED = Unievent unknown_error ∧ uv_of (uvx_error UV_ECANCELED) = None.
Proof. apply (uvx_error_faithful UV_ECANCELED UV_ECANCELED). reflexivity. Defined.

(** Every value of [errc] has a message of its own, and a condition that is
    not a value has the empty message. *)
Theorem error_messages_distinct (a b : Z) (Hab : ErrorCategory_message a = ErrorCategory_message b) :
  (errc_of a = None ∧ errc_of b = None) ∨ (errc_of a = errc_of b ∧ ErrorCategory_message a ≠ "").
Proof.
  unfold ErrorCategory_message in *.
  assert (∀ e, errc_message e ≠ "") as Hne by by intros [].
  destruct (errc_of a) as [ea|], (errc_of b) as [eb|]; [| | |by left].
  - right. split; [|done]. f_equal. revert Hab. by destruct ea; destruct eb.
  - by destruct (Hne ea).
  - by destruct (Hne eb).
Qed.

Lemma error_messages_distinct_witness :
  (errc_of 5 = None ∧ errc_of 5 = None) ∨ (errc_of 5 = errc_of 5 ∧ ErrorCategory_message 5 ≠ "").
Proof. apply (error_messages_distinct 5 5). reflexivity. Defined.

(** Nesting keeps what happened: success stays success, a cancelled
    operation is reported as it is, and any other error is put below the new code
    with every code it held. *)
Theorem nest_error_keeps `{ErrorStack EC} (err : error_code) (s : EC) :
  ec_bool (nest_error err s) = ec_bool s ∧
  (ec_has s (Std operation_canceled) = true → nest_error err s = s) ∧
  (ec_bool s = true → ec_has s (Std operation_canceled) = false →
     ec_codes (nest_error err s) = err :: ec_codes s) ∧
  (∀ e, ec_has s e = true → ec_has (nest_error err s) e = true).
Proof.
  pose proof (nest_error_codes err s) as L. unfold nest_error in *.
  destruct (ec_bool s) eqn:B; simpl in *; [|done].
  destruct (ec_has s (Std operation_canceled)) eqn:C; [done|]. split_and!; try done.
  - unfold ec_bool. by rewrite L.
  - intros e He. unfold ec_has in *. rewrite L. apply bool_decide_eq_true.
    right. by apply bool_decide_eq_true in He.
Qed.
