(* ===== verification/Handle.v ===== *)
(** Handles and the loop they live in: [Handle.h], [BackendHandle.h], the
    registration of [Loop.h], [UVHandle.h], what a loop of the backend owns itself and
    its destructor ([UVLoop.h], [UVDelayer.h], [LAMetrics.h]), the run and the exceptions of
    [LoopImpl.h], [LoopImpl::capture_exception] and [UVLoop.h], and the layout of
    read buffers ([HandleImpl::buf_alloc] and [inc.h] of the backend).

    A handle owns at most one libuv handle, which it creates when it needs it and
    closes when it is reset, cleared or destroyed.  libuv is a parameter: the
    class [UvCore] states what its documentation says of initialising, referencing
    and closing handles. *)
From S2P Require Import Prelude.
#[local] Open Scope Z_scope.

(** ** libuv handles *)

(** [uv_opened]: initialised and not closed; [uv_closing]: [uv_close] was called,
    the close callback was not yet; a handle is born referenced. *)
Class UvCore (S B : Type) `{Countable B} := {
  uv_init : S → S * B;
  uv_ref : B → S → S;
  uv_unref : B → S → S;
  uv_close : B → S → S;
  uv_run_closed : S → S;
  uv_opened : S → gset B;
  uv_closing : S → gset B;
  uv_has_ref : S → B → bool
}.

Class UvLaws (S B : Type) `{UvCore S B} := {
  uv_init_fresh s : (uv_init s).2 ∉ uv_opened s;
  uv_init_opened s : uv_opened (uv_init s).1 = {[(uv_init s).2]} ∪ uv_opened s;
  uv_init_ref s b : uv_has_ref (uv_init s).1 b = if decide (b = (uv_init s).2) then true else uv_has_ref s b;
  uv_ref_opened b s : uv_opened (uv_ref b s) = uv_opened s;
  uv_ref_ref b s b' : uv_has_ref (uv_ref b s) b' = if decide (b' = b) then true else uv_has_ref s b';
  uv_unref_opened b s : uv_opened (uv_unref b s) = uv_opened s;
  uv_unref_ref b s b' : uv_has_ref (uv_unref b s) b' = if decide (b' = b) then false else uv_has_ref s b';
  uv_close_opened b s : uv_opened (uv_close b s) = uv_opened s ∖ {[b]};
  uv_close_closing b s : uv_closing (uv_close b s) = {[b]} ∪ uv_closing s;
  uv_close_ref b s b' : b' ≠ b → uv_has_ref (uv_close b s) b' = uv_has_ref s b';
  uv_run_closed_opened s : uv_opened (uv_run_closed s) = uv_opened s;
  uv_run_closed_closing s : uv_closing (uv_run_closed s) = ∅;
  uv_run_closed_ref s b : uv_has_ref (uv_run_closed s) b = uv_has_ref s b
}.

(** ** Handles *)

(** [BackendHandle]: [_impl] and [Handle::_weak]. *)
Record bhandle (B : Type) := mkHandle { _impl : option B; _weak : bool }.
Arguments mkHandle {B}.
Arguments _impl {B}.
Arguments _weak {B}.

Section BackendHandle.
Context {S B : Type} `{UvCore S B}.

(** [UVHandle::set_weak], [unset_weak]; [UVHandle::destroy], whose close callback
    deletes the object. *)
Definition impl_set_weak (b : B) (s : S) : S := uv_unref b s.
Definition impl_unset_weak (b : B) (s : S) : S := uv_ref b s.
Definition impl_destroy (b : B) (s : S) : S := uv_close b s.

(** [BackendHandle::impl] *)
Definition impl (h : bhandle B) (s : S) : bhandle B * S * B :=
  match _impl h with
  | Some b => (h, s, b)
  | None =>
      let (s, b) := uv_init s in
      let s := if _weak h then impl_set_weak b s else s in
      (mkHandle (Some b) (_weak h), s, b)
  end.

(** [BackendHandle::set_weak], [unset_weak] *)
Definition set_weak (h : bhandle B) (s : S) : bhandle B * S :=
  let '(h, s, b) := impl h s in (h, impl_set_weak b s).
Definition unset_weak (h : bhandle B) (s : S) : bhandle B * S :=
  let '(h, s, b) := impl h s in (h, impl_unset_weak b s).

(** [Handle::weak(bool)] *)
Definition weak (value : bool) (h : bhandle B) (s : S) : bhandle B * S :=
  if decide (_weak h = value) then (h, s) else
  let (h, s) := if value then set_weak h s else unset_weak h s in
  (mkHandle (_impl h) value, s).

(** [BackendHandle::reset], [clear], and the destructor *)
Definition reset (h : bhandle B) (s : S) : bhandle B * S :=
  match _impl h with
  | None => (h, s)
  | Some b => (mkHandle None (_weak h), impl_destroy b s)
  end.
Definition clear (h : bhandle B) (s : S) : bhandle B * S :=
  match _impl h with
  | None => (h, s)
  | Some b => (mkHandle None false, impl_destroy b s)
  end.
Definition destroy (h : bhandle B) (s : S) : S :=
  match _impl h with Some b => impl_destroy b s | None => s end.
End BackendHandle.

(** ** The handles of a loop *)

Abbreviation hid := nat.

Record lworld (S B : Type) := mkLoop { uv : S; objects : gmap hid (bhandle B); _handles : list hid }.
Arguments mkLoop {S B}.
Arguments uv {S B}.
Arguments objects {S B}.
Arguments _handles {S B}.

Section Loop.
Context {S B : Type} `{UvCore S B}.

(** [Handle::_init] with [Loop::register_handle]; [Loop::unregister_handle]. *)
Definition register_handle (h : hid) (o : bhandle B) (w : lworld S B) : lworld S B :=
  mkLoop (uv w) (<[h := o]> (objects w)) (_handles w ++ [h]).
Definition unregister_handle (h : hid) (w : lworld S B) : lworld S B :=
  mkLoop (uv w) (delete h (objects w)) (filter (λ x, x ≠ h) (_handles w)).

(** Constructors of handles: [BackendHandle::_init(loop, loop->impl()->new_xxx(this))]. *)
Definition new_handle (h : hid) (w : lworld S B) : lworld S B :=
  let (s, b) := uv_init (uv w) in
  register_handle h (mkHandle (Some b) false) (mkLoop s (objects w) (_handles w)).

Inductive hop :=
| New (h : hid)
| Use (h : hid)                    (* any method that calls [impl()] *)
| Weak (h : hid) (value : bool)
| Reset (h : hid)
| Clear (h : hid)
| Delete (h : hid)                 (* [~BackendHandle], [~Handle] *)
| RunClosed.                       (* the loop calls the close callbacks *)

Definition on_handle (h : hid) (f : bhandle B → S → bhandle B * S) (w : lworld S B) : lworld S B :=
  match objects w !! h with
  | Some o => let (o, s) := f o (uv w) in mkLoop s (<[h := o]> (objects w)) (_handles w)
  | None => w
  end.

Definition hstep (op : hop) (w : lworld S B) : lworld S B :=
  match op with
  | New h => if decide (is_Some (objects w !! h)) then w else new_handle h w
  | Use h => on_handle h (λ o s, (impl o s).1) w
  | Weak h v => on_handle h (weak v) w
  | Reset h => on_handle h reset w
  | Clear h => on_handle h clear w
  | Delete h =>
      match objects w !! h with
      | Some o => unregister_handle h (mkLoop (destroy o (uv w)) (objects w) (_handles w))
      | None => w
      end
  | RunClosed => mkLoop (uv_run_closed (uv w)) (objects w) (_handles w)
  end.

Definition hrun (ops : list hop) (w : lworld S B) : lworld S B := fold_left (λ w op, hstep op w) ops w.

(** Every handle that owns a libuv handle owns an open one, alone, whose
    reference flag is the handle's; the libuv handles of [ex], which belong to no
    handle, are open; nothing else is open. *)
Record handles_ok (ex : gset B) (w : lworld S B) : Prop := {
  ok_owned h o b : objects w !! h = Some o → _impl o = Some b →
    b ∈ uv_opened (uv w) ∧ uv_has_ref (uv w) b = negb (_weak o);
  ok_alone h h' o o' b : objects w !! h = Some o → objects w !! h' = Some o' →
    _impl o = Some b → _impl o' = Some b → h = h';
  ok_opened b : b ∈ uv_opened (uv w) → b ∈ ex ∨ ∃ h o, objects w !! h = Some o ∧ _impl o = Some b;
  ok_extra b : b ∈ ex → b ∈ uv_opened (uv w) ∧ ∀ h o, objects w !! h = Some o → _impl o ≠ Some b;
  ok_listed h : h ∈ _handles w ↔ is_Some (objects w !! h);
  ok_nodup : NoDup (_handles w)
}.
End Loop.

(** *** Every operation keeps them well-formed *)

Section Invariant.
#[local] Set Default Proof Using "Type*".
Context {S B : Type} `{UvLaws S B}.
Implicit Types (w : lworld S B) (o : bhandle B) (s : S) (ex : gset B).

(** How an operation on one handle changes it and libuv: it keeps its libuv
    handle, or gets a fresh one, or gives it up. *)
Inductive changes o s : bhandle B → S → Prop :=
| keeps o' s' : _impl o' = _impl o → uv_opened s' = uv_opened s →
    (∀ b, _impl o = Some b → uv_has_ref s' b = if decide (_weak o' = _weak o) then uv_has_ref s b else negb (_weak o')) →
    (∀ b, _impl o ≠ Some b → uv_has_ref s' b = uv_has_ref s b) → changes o s o' s'
| creates o' s' b : _impl o = None → _impl o' = Some b → b ∉ uv_opened s →
    uv_opened s' = {[b]} ∪ uv_opened s → uv_has_ref s' b = negb (_weak o') →
    (∀ b', b' ≠ b → uv_has_ref s' b' = uv_has_ref s b') → changes o s o' s'
| closes o' s' b : _impl o = Some b → _impl o' = None → uv_opened s' = uv_opened s ∖ {[b]} →
    (∀ b', b' ≠ b → uv_has_ref s' b' = uv_has_ref s b') → changes o s o' s'.

Lemma impl_changes o s : changes o s (impl o s).1.1 (impl o s).1.2 ∧ _weak (impl o s).1.1 = _weak o ∧
  _impl (impl o s).1.1 = Some (impl o s).2.
Proof.
  unfold impl. destruct (_impl o) as [b|] eqn:E.
  - split_and!; [|done..]. apply keeps; try done. intros b' _. simpl. by rewrite decide_True.
  - pose proof (uv_init_fresh s). pose proof (uv_init_opened s). pose proof (uv_init_ref s) as Hr.
    destruct (uv_init s) as [s1 b] eqn:I. simpl in *. split_and!; [|done..].
    apply creates with b; simpl; try done.
    + destruct (_weak o); by rewrite ?uv_unref_opened.
    + destruct (_weak o); simpl; rewrite ?uv_unref_ref, ?Hr; by rewrite decide_True.
    + intros b' Hb. destruct (_weak o); rewrite ?uv_unref_ref, ?decide_False by done; rewrite Hr; by rewrite decide_False.
Qed.

Lemma weak_changes v o s : changes o s (weak v o s).1 (weak v o s).2.
Proof.
  unfold weak. case_decide as Hv.
  - simpl. apply keeps; try done. intros b _. by rewrite decide_True.
  - unfold set_weak, unset_weak. destruct (impl_changes o s) as (Hc & Hw & Hi).
    destruct (impl o s) as [[o1 s1] b]. simpl in *.
    assert (∀ b', uv_has_ref (if v then uv_unref b s1 else uv_ref b s1) b' =
      if decide (b' = b) then negb v else uv_has_ref s1 b') as Hr.
    { intros b'. destruct v; [apply uv_unref_ref|apply uv_ref_ref]. }
    assert (uv_opened (if v then uv_unref b s1 else uv_ref b s1) = uv_opened s1) as Ho.
    { destruct v; [apply uv_unref_opened|apply uv_ref_opened]. }
    enough (changes o s (mkHandle (_impl o1) v) (if v then uv_unref b s1 else uv_ref b s1)) by by destruct v.
    generalize dependent (if v then uv_unref b s1 else uv_ref b s1). intros s2 Hr Ho.
    destruct Hc as [o1 s1 E1 E2 E3 E4|o1 s1 b1 E1 E2 E3 E4 E5 E6|o1 s1 b1 E1 E2 E3 E4]; [| |congruence].
    + apply keeps; simpl; try congruence.
      * intros b' Hb. rewrite decide_False by done. rewrite Hr. rewrite decide_True by congruence. done.
      * intros b' Hb. rewrite Hr. rewrite decide_False by congruence. by apply E4.
    + assert (b1 = b) as -> by congruence. apply creates with b; simpl; try congruence.
      * rewrite Hr. by rewrite decide_True.
      * intros b' Hb. rewrite Hr. rewrite decide_False by done. by apply E6.
Qed.

Lemma reset_changes o s : changes o s (reset o s).1 (reset o s).2.
Proof.
  unfold reset. destruct (_impl o) as [b|] eqn:E; simpl.
  - apply closes with b; try done; [apply uv_close_opened|]. intros. by apply uv_close_ref.
  - apply keeps; try done. intros b Hb. by rewrite decide_True.
Qed.

Lemma clear_changes o s : changes o s (clear o s).1 (clear o s).2.
Proof.
  unfold clear. destruct (_impl o) as [b|] eqn:E; simpl.
  - apply closes with b; try done; [apply uv_close_opened|]. intros. by apply uv_close_ref.
  - apply keeps; try done. intros b Hb. by rewrite decide_True.
Qed.

Lemma changes_extra ex h o o' s' w b :
  handles_ok ex w → objects w !! h = Some o → changes o (uv w) o' s' → b ∈ ex →
  b ∈ uv_opened s' ∧ ∀ h' o1, <[h := o']> (objects w) !! h' = Some o1 → _impl o1 ≠ Some b.
Proof.
  intros [_ _ _ Hex _ _] Ho Hc Hb. destruct (Hex b Hb) as [Hin Hno]. pose proof (Hno h o Ho) as Hnb. split.
  - inversion Hc as [? ? E1 E2 E3 E4|? ? b1 E1 E2 E3 E4 E5 E6|? ? b1 E1 E2 E3 E4]; subst; set_solver.
  - intros h' o1 G1. apply lookup_insert_Some in G1 as [[<- <-]|[N1 G1]]; [|by eapply Hno].
    inversion Hc as [? ? E1 E2 E3 E4|? ? b1 E1 E2 E3 E4 E5 E6|? ? b1 E1 E2 E3 E4]; subst; congruence.
Qed.

Lemma changes_ok ex h o o' s' w :
  handles_ok ex w → objects w !! h = Some o → changes o (uv w) o' s' →
  handles_ok ex (mkLoop s' (<[h := o']> (objects w)) (_handles w)).
Proof.
  intros Hok Ho Hc. pose proof (λ b, changes_extra ex h o o' s' w b Hok Ho Hc) as Hex'.
  destruct Hok as [Hown Hal Hop Hex Hli Hnd].
  assert (∀ h1 h2 o1 o2 b, <[h := o']> (objects w) !! h1 = Some o1 → <[h := o']> (objects w) !! h2 = Some o2 →
    _impl o1 = Some b → _impl o2 = Some b → h1 = h2) as Hal'.
  { assert (∀ h2 o2 b, h2 ≠ h → objects w !! h2 = Some o2 → _impl o2 = Some b → _impl o' ≠ Some b) as Hne.
    { intros h2 o2 b Hn G2 Hb Hb'. inversion Hc; subst; [|destruct (Hown _ _ _ G2 Hb); congruence|congruence].
      apply Hn. eapply Hal; eauto. congruence. }
    intros h1 h2 o1 o2 b G1 G2 Hb1 Hb2.
    apply lookup_insert_Some in G1 as [[<- <-]|[N1 G1]], G2 as [[<- <-]|[N2 G2]]; try done.
    - by destruct (Hne h2 o2 b).
    - by destruct (Hne h1 o1 b).
    - by eapply Hal. }
  split; simpl; [|done| |done|intros h1|done].
  - intros h1 o1 b G1 Hb. apply lookup_insert_Some in G1 as [[<- <-]|[N1 G1]].
    + inversion Hc as [? ? E1 E2 E3 E4|? ? b1 E1 E2 E3 E4 E5 E6|? ? b1 E1 E2 E3 E4]; subst; [| |congruence].
      * destruct (Hown h o b Ho) as [Hin Href]; [congruence|]. rewrite E2. split; [done|].
        rewrite E3 by congruence. case_decide; [congruence|done].
      * assert (b1 = b) as -> by congruence. rewrite E4. set_solver.
    + destruct (Hown h1 o1 b G1 Hb) as [Hin Href].
      inversion Hc as [? ? E1 E2 E3 E4|? ? b1 E1 E2 E3 E4 E5 E6|? ? b1 E1 E2 E3 E4]; subst.
      * rewrite E2, E4; [done|]. intros Hb'. apply N1. by eapply Hal.
      * rewrite E4, E6; [|set_solver]. set_solver.
      * assert (b ≠ b1) as Hne by (intros ->; apply N1; by eapply Hal).
        rewrite E3, E4 by done. set_solver.
  - intros b Hb. destruct (decide (_impl o' = Some b)) as [Hb'|Hb'].
    { right. exists h, o'. by rewrite lookup_insert_eq. }
    assert (b ∈ uv_opened (uv w) ∧ _impl o ≠ Some b) as [Hin Hno].
    { inversion Hc as [? ? E1 E2 E3 E4|? ? b1 E1 E2 E3 E4 E5 E6|? ? b1 E1 E2 E3 E4]; subst.
      - rewrite E2 in Hb. by rewrite <-E1.
      - rewrite E4 in Hb. split; [|congruence]. set_solver.
      - rewrite E3 in Hb. split; [set_solver|]. rewrite E1. set_solver. }
    destruct (Hop b Hin) as [?|(h1 & o1 & G1 & Hb1)]; [by left|]. right. exists h1, o1. split; [|done].
    rewrite lookup_insert_ne; [done|]. intros <-. congruence.
  - rewrite Hli. destruct (decide (h1 = h)) as [->|]; [|by rewrite lookup_insert_ne].
    rewrite lookup_insert_eq, Ho. split; eauto.
Qed.

Lemma new_handle_ok ex h w : handles_ok ex w → objects w !! h = None → handles_ok ex (new_handle h w).
Proof.
  intros [Hown Hal Hop Hex Hli Hnd] Ho. unfold new_handle.
  pose proof (uv_init_fresh (uv w)) as Hf. pose proof (uv_init_opened (uv w)) as Hopd.
  pose proof (uv_init_ref (uv w)) as Hr. destruct (uv_init (uv w)) as [s b0]. simpl in *.
  split; simpl.
  - intros h1 o1 b G1 Hb. apply lookup_insert_Some in G1 as [[<- <-]|[N1 G1]]; simpl in *.
    + injection Hb as <-. rewrite Hopd, Hr, decide_True by done. set_solver.
    + destruct (Hown h1 o1 b G1 Hb) as [Hin Href]. rewrite Hopd, Hr, decide_False by set_solver. set_solver.
  - intros h1 h2 o1 o2 b G1 G2 Hb1 Hb2.
    apply lookup_insert_Some in G1 as [[<- <-]|[N1 G1]], G2 as [[<- <-]|[N2 G2]]; try done; simpl in *.
    + injection Hb1 as ->. by destruct (Hown h2 o2 b).
    + injection Hb2 as ->. by destruct (Hown h1 o1 b).
    + by eapply Hal.
  - intros b Hb. rewrite Hopd in Hb. apply elem_of_union in Hb as [->%elem_of_singleton|Hb].
    + right. exists h. eexists. by rewrite lookup_insert_eq.
    + destruct (Hop b Hb) as [?|(h1 & o1 & G1 & Hb1)]; [by left|]. right. exists h1, o1.
      rewrite lookup_insert_ne; [done|]. intros <-. congruence.
  - intros b Hb. destruct (Hex b Hb) as [Hin Hno]. split; [rewrite Hopd; set_solver|].
    intros h1 o1 G1. apply lookup_insert_Some in G1 as [[<- <-]|[N1 G1]]; [|by eapply Hno]. simpl. congruence.
  - intros h1. rewrite elem_of_app, list_elem_of_singleton, Hli.
    destruct (decide (h1 = h)) as [->|]; [rewrite lookup_insert_eq; naive_solver|].
    rewrite lookup_insert_ne by done. naive_solver.
  - apply NoDup_app. split_and!; [done| |apply NoDup_singleton].
    intros h1 Hh1 ->%list_elem_of_singleton. apply Hli in Hh1 as [? ?]. congruence.
Qed.

Lemma delete_ok ex h o w :
  handles_ok ex w → objects w !! h = Some o →
  handles_ok ex (unregister_handle h (mkLoop (destroy o (uv w)) (objects w) (_handles w))).
Proof.
  intros Hok Ho. unfold unregister_handle. simpl.
  assert (destroy o (uv w) = (reset o (uv w)).2 ∧ _impl (reset o (uv w)).1 = None) as [-> Hn].
  { unfold destroy, reset. by destruct (_impl o) eqn:?. }
  pose proof (changes_ok ex h o _ _ w Hok Ho (reset_changes o (uv w))) as [Hown Hal Hop Hex Hli Hnd]. simpl in *.
  assert (∀ h1, h1 ≠ h → <[h := (reset o (uv w)).1]> (objects w) !! h1 = delete h (objects w) !! h1) as E.
  { intros h1 N. by rewrite lookup_insert_ne, lookup_delete_ne. }
  assert (∀ h1 o1, delete h (objects w) !! h1 = Some o1 → h1 ≠ h) as Nd.
  { intros h1 o1 G1 ->. by rewrite lookup_delete_eq in G1. }
  split; simpl.
  - intros h1 o1 b G1. rewrite <-(E h1) in G1 by eauto. by eapply Hown.
  - intros h1 h2 o1 o2 b G1 G2. rewrite <-(E h1) in G1 by eauto. rewrite <-(E h2) in G2 by eauto. by eapply Hal.
  - intros b Hb. destruct (Hop b Hb) as [?|(h1 & o1 & G1 & Hb1)]; [by left|]. right. exists h1, o1. split; [|done].
    rewrite <-E; [done|]. intros ->. rewrite lookup_insert_eq in G1. congruence.
  - intros b Hb. destruct (Hex b Hb) as [Hin Hno]. split; [done|].
    intros h1 o1 G1. rewrite <-(E h1) in G1 by eauto. by eapply Hno.
  - intros h1. rewrite list_elem_of_filter, Hli. destruct (decide (h1 = h)) as [->|N].
    + rewrite lookup_delete_eq. split; [naive_solver|by intros [? ?]].
    + rewrite E by done. naive_solver.
  - by apply NoDup_filter.
Qed.

Lemma hstep_ok ex op w : handles_ok ex w → handles_ok ex (hstep op w).
Proof.
  intros Hok.
  assert (∀ h f, (∀ o s, changes o s (f o s).1 (f o s).2) → handles_ok ex (on_handle h f w)) as Hon.
  { intros h f Hf. unfold on_handle. destruct (objects w !! h) as [o|] eqn:Ho; [|done].
    specialize (Hf o (uv w)). destruct (f o (uv w)) as [o' s']. by eapply changes_ok. }
  destruct op as [h|h|h v|h|h|h|]; simpl.
  - case_decide as Hd; [done|]. apply new_handle_ok; [done|]. by apply eq_None_not_Some.
  - apply Hon. intros o s. apply impl_changes.
  - apply Hon. apply weak_changes.
  - apply Hon. apply reset_changes.
  - apply Hon. apply clear_changes.
  - destruct (objects w !! h) as [o|] eqn:Ho; [|done]. by apply delete_ok.
  - destruct Hok as [Hown Hal Hop Hex Hli Hnd]. split; simpl; try done.
    + intros h o b Ho Hb. rewrite uv_run_closed_opened, uv_run_closed_ref. by eapply Hown.
    + intros b. rewrite uv_run_closed_opened. apply Hop.
    + intros b. rewrite uv_run_closed_opened. apply Hex.
Qed.

Lemma hrun_ok ex ops w : handles_ok ex w → handles_ok ex (hrun ops w).
Proof.
  unfold hrun. revert w. induction ops as [|op ops IH]; intros w Hw; simpl; [done|]. by apply IH, hstep_ok.
Qed.

Lemma empty_loop_ok s : uv_opened s = ∅ → handles_ok ∅ (mkLoop s ∅ []).
Proof.
  intros Hs. split; simpl; try done.
  - intros b. rewrite Hs. set_solver.
  - intros h. split; [by intros ?%elem_of_nil|by intros [? ?]].
  - constructor.
Qed.
End Invariant.

(** ** The libuv handles of the loop itself

    [UVLoop] owns the idle handle of its delayer, made when first needed, and the timer
    of its load average; the resolver of the loop has timers and polls of the backend
    without handles around them. *)

Record uvloop (S B : Type) `{Countable B} := mkUvLoop {
  lw : lworld S B; idle : option B; la_timer : option B; direct : gset B
}.
Arguments mkUvLoop {S B _ _}.
Arguments lw {S B _ _}.
Arguments idle {S B _ _}.
Arguments la_timer {S B _ _}.
Arguments direct {S B _ _}.

(** What is done with a loop: with its handles, [delay] on a delayer with nothing to
    call, [track_load_average], and what the resolver makes and destroys. *)
Inductive lop (B : Type) :=
| HandleOp (op : hop)
| Delay
| TrackLoad (nsec : Z)
| NewImpl
| DestroyImpl (b : B).
Arguments HandleOp {B}.
Arguments Delay {B}.
Arguments TrackLoad {B}.
Arguments NewImpl {B}.
Arguments DestroyImpl {B}.

Section UVLoop.
Context {S B : Type} `{UvCore S B}.
Abbreviation uvloop := (uvloop S B).

Definition with_uv (f : S → S) (w : lworld S B) : lworld S B := mkLoop (f (uv w)) (objects w) (_handles w).

(** [new_idle], [new_timer], [new_poll_sock]: a libuv handle for the loop itself. *)
Definition new_own (w : lworld S B) : lworld S B * B :=
  let (s, b) := uv_init (uv w) in (mkLoop s (objects w) (_handles w), b).

(** [UVDelayer::add]: its handle; [UVDelayer::destroy] *)
Definition delayer_handle (l : uvloop) : uvloop :=
  match idle l with
  | Some _ => l
  | None => let (w, b) := new_own (lw l) in mkUvLoop w (Some b) (la_timer l) (direct l)
  end.
Definition delayer_destroy (l : uvloop) : uvloop :=
  mkUvLoop (match idle l with Some b => with_uv (impl_destroy b) (lw l) | None => lw l end)
    None (la_timer l) (direct l).

(** [_la_metrics.reset()], whose destructor is [LAMetrics::~LAMetrics];
    [UVLoop::track_load_average] with the constructor of [LAMetrics]. *)
Definition la_reset (l : uvloop) : uvloop :=
  mkUvLoop (match la_timer l with Some b => with_uv (impl_destroy b) (lw l) | None => lw l end)
    (idle l) None (direct l).
Definition track_load (nsec : Z) (l : uvloop) : uvloop :=
  let l := la_reset l in
  if nsec =? 0 then l else
  let (w, b) := new_own (lw l) in
  mkUvLoop (with_uv (impl_set_weak b) w) (idle l) (Some b) (direct l).

Definition lstep (op : lop B) (l : uvloop) : uvloop :=
  match op with
  | HandleOp op => mkUvLoop (hstep op (lw l)) (idle l) (la_timer l) (direct l)
  | Delay => delayer_handle l
  | TrackLoad nsec => track_load nsec l
  | NewImpl => let (w, b) := new_own (lw l) in mkUvLoop w (idle l) (la_timer l) ({[b]} ∪ direct l)
  | DestroyImpl b =>
      if decide (b ∈ direct l)
      then mkUvLoop (with_uv (impl_destroy b) (lw l)) (idle l) (la_timer l) (direct l ∖ {[b]}) else l
  end.

(** [UVLoop::UVLoop], with the state [s] of libuv, and what is done with the loop. *)
Definition new_uvloop (s : S) : uvloop := mkUvLoop (mkLoop s ∅ []) None None ∅.
Definition lrun (ops : list (lop B)) (s : S) : uvloop := fold_left (λ l op, lstep op l) ops (new_uvloop s).

(** [UVLoop::~UVLoop], where the loop runs twice without waiting: each run calls
    the close callbacks of what was closed. *)
Definition UVLoop_dtor (l : uvloop) : uvloop :=
  let l := la_reset (delayer_destroy l) in
  let w := with_uv uv_run_closed (with_uv uv_run_closed (lw l)) in
  mkUvLoop w (idle l) (la_timer l) (direct l).

(** The libuv handles that are no handle's: no two are the same, and the timer of the
    load average does not keep the loop running. *)
Definition own (l : uvloop) : gset B :=
  from_option singleton ∅ (idle l) ∪ from_option singleton ∅ (la_timer l) ∪ direct l.
Record loop_ok (l : uvloop) : Prop := {
  lo_handles : handles_ok (own l) (lw l);
  lo_idle b : idle l = Some b → la_timer l ≠ Some b ∧ b ∉ direct l;
  lo_la b : la_timer l = Some b → b ∉ direct l ∧ uv_has_ref (uv (lw l)) b = false
}.
End UVLoop.

Section UVLoopInvariant.
#[local] Set Default Proof Using "Type*".
Context {S B : Type} `{UvLaws S B}.
Implicit Types (w : lworld S B) (o : bhandle B) (s : S) (ex : gset B) (l : uvloop S B).

Lemma own_new ex w : handles_ok ex w →
  handles_ok ({[(new_own w).2]} ∪ ex) (new_own w).1 ∧ (new_own w).2 ∉ ex ∧ uv_has_ref (uv (new_own w).1) (new_own w).2 = true ∧
  ∀ b, b ∈ ex → uv_has_ref (uv (new_own w).1) b = uv_has_ref (uv w) b.
Proof.
  intros [Hown Hal Hop Hex Hli Hnd]. unfold new_own.
  pose proof (uv_init_fresh (uv w)) as Hf. pose proof (uv_init_opened (uv w)) as Ho. pose proof (uv_init_ref (uv w)) as Hr.
  destruct (uv_init (uv w)) as [s b0]. simpl in *.
  assert (b0 ∉ ex) as Hne by (intros Hb; by destruct (Hex b0 Hb)).
  split_and!; [split; simpl; try done| done | by rewrite Hr, decide_True | ].
  - intros h o b G Hb. destruct (Hown h o b G Hb) as [Hin Href]. rewrite Ho, Hr, decide_False by set_solver. set_solver.
  - intros b Hb. rewrite Ho in Hb. apply elem_of_union in Hb as [Hb|Hb]; [set_solver|].
    destruct (Hop b Hb) as [?|?]; [set_solver|by right].
  - intros b Hb. apply elem_of_union in Hb as [->%elem_of_singleton|Hb].
    + split; [set_solver|]. intros h o G Hb. by destruct (Hown h o b0 G Hb).
    + destruct (Hex b Hb) as [Hin Hno]. split; [set_solver|done].
  - intros b Hb. rewrite Hr, decide_False; [done|]. by intros ->.
Qed.

Lemma own_unref ex w b : handles_ok ex w → b ∈ ex → handles_ok ex (with_uv (impl_set_weak b) w).
Proof.
  intros [Hown Hal Hop Hex Hli Hnd] Hb. destruct (Hex b Hb) as [_ Hno]. unfold impl_set_weak.
  split; simpl; rewrite ?uv_unref_opened; try done.
  - intros h o b' G Hb'. rewrite uv_unref_ref, decide_False; [by eapply Hown|]. intros ->. by eapply Hno.
Qed.

Lemma own_close ex w b : handles_ok ex w → b ∈ ex → handles_ok (ex ∖ {[b]}) (with_uv (impl_destroy b) w).
Proof.
  intros [Hown Hal Hop Hex Hli Hnd] Hb. destruct (Hex b Hb) as [_ Hno]. unfold impl_destroy.
  split; simpl; try done.
  - intros h o b' G Hb'. assert (b' ≠ b) as Hne by (intros ->; by eapply Hno).
    destruct (Hown h o b' G Hb') as [Hin Href]. rewrite uv_close_opened, uv_close_ref by done. set_solver.
  - intros b'. rewrite uv_close_opened. intros Hb'. destruct (Hop b') as [?|?]; [set_solver|set_solver|by right].
  - intros b'. rewrite uv_close_opened. intros Hb'. destruct (Hex b') as [Hin Hno']; [set_solver|]. split; [set_solver|done].
Qed.

(** What is done with the handles leaves the flags of the others. *)
Lemma hstep_ref ex op w b : handles_ok ex w → b ∈ ex → uv_has_ref (uv (hstep op w)) b = uv_has_ref (uv w) b.
Proof.
  intros Hok Hb. destruct (ok_extra _ _ Hok b Hb) as [Hin Hno].
  assert (∀ h f, (∀ o s, changes o s (f o s).1 (f o s).2) → uv_has_ref (uv (on_handle h f w)) b = uv_has_ref (uv w) b) as Hon.
  { intros h f Hf. unfold on_handle. destruct (objects w !! h) as [o|] eqn:Ho; [|done].
    specialize (Hf o (uv w)). destruct (f o (uv w)) as [o' s']. simpl in *. specialize (Hno h o Ho).
    inversion Hf as [? ? E1 E2 E3 E4|? ? b1 E1 E2 E3 E4 E5 E6|? ? b1 E1 E2 E3 E4]; subst; [by apply E4|apply E6|apply E4]; congruence. }
  destruct op as [h|h|h v|h|h|h|]; simpl.
  - case_decide; [done|]. unfold new_handle. pose proof (uv_init_fresh (uv w)) as Hf. pose proof (uv_init_ref (uv w) b) as Hr.
    destruct (uv_init (uv w)) as [s b0]. simpl in *. rewrite Hr, decide_False; [done|]. by intros ->.
  - apply (Hon h (λ o s, (impl o s).1)). intros o s. apply impl_changes.
  - apply Hon, weak_changes.
  - apply Hon, reset_changes.
  - apply Hon, clear_changes.
  - destruct (objects w !! h) as [o|] eqn:Ho; [|done]. specialize (Hno h o Ho). simpl. unfold destroy.
    destruct (_impl o) as [b'|]; [|done]. unfold impl_destroy. apply uv_close_ref. congruence.
  - apply uv_run_closed_ref.
Qed.

Lemma ok_ex_eq ex ex' w : handles_ok ex w → ex = ex' → handles_ok ex' w.
Proof. by intros ? <-. Qed.

Lemma la_reset_ok l : loop_ok l → loop_ok (la_reset l).
Proof.
  intros [Hh Hi Ha]. unfold la_reset. destruct (la_timer l) as [b|] eqn:E.
  - destruct (Ha b eq_refl) as [Hd _]. split; simpl; [|by intros b' Hb'; destruct (Hi b' Hb')|done].
    eapply ok_ex_eq; [apply (own_close _ _ b Hh); unfold own; rewrite E; set_solver|].
    unfold own. rewrite E. simpl. destruct (idle l) as [b'|] eqn:Ei; simpl; [destruct (Hi b' eq_refl)|]; set_solver.
  - split; simpl; [|by intros b' Hb'; destruct (Hi b' Hb')|done]. eapply ok_ex_eq; [exact Hh|]. unfold own. by rewrite E.
Qed.

Lemma delayer_destroy_ok l : loop_ok l → loop_ok (delayer_destroy l).
Proof.
  intros [Hh Hi Ha]. unfold delayer_destroy. destruct (idle l) as [b|] eqn:E.
  - destruct (Hi b eq_refl) as [Hla Hd]. split; simpl; [|done|].
    + eapply ok_ex_eq; [apply (own_close _ _ b Hh); unfold own; rewrite E; set_solver|].
      unfold own. rewrite E. simpl. destruct (la_timer l) as [b'|]; simpl; [|set_solver].
      assert (b' ≠ b) by congruence. set_solver.
    + intros b' Hb'. destruct (Ha b' Hb') as [Hd' Hr']. split; [done|]. unfold impl_destroy.
      rewrite uv_close_ref; [done|]. congruence.
  - split; simpl; [|done|done]. eapply ok_ex_eq; [exact Hh|]. unfold own. by rewrite E.
Qed.

Lemma in_own l b : b ∈ own l ↔ idle l = Some b ∨ la_timer l = Some b ∨ b ∈ direct l.
Proof. unfold own. destruct (idle l), (la_timer l); simpl; set_solver. Qed.

Lemma delayer_handle_ok l : loop_ok l → loop_ok (delayer_handle l).
Proof.
  intros Hl. unfold delayer_handle. destruct (idle l) as [b|] eqn:E; [done|]. destruct Hl as [Hh Hi Ha].
  destruct (own_new _ _ Hh) as (Hn & Hf & _ & Hr). destruct (new_own (lw l)) as [w b]. simpl in *.
  assert (∀ b', b' ∈ own l → b' ≠ b) as Hne by (intros b' Hb' ->; done).
  split; simpl.
  - eapply ok_ex_eq; [exact Hn|]. unfold own. rewrite E. simpl. set_solver.
  - intros b' [= <-]. split; [intros Hla|intros Hd]; apply Hf, in_own; auto.
  - intros b' Hb'. destruct (Ha b' Hb') as [Hd Href]. split; [done|]. rewrite Hr; [done|]. apply in_own. auto.
Qed.

Lemma track_load_ok nsec l : loop_ok l → loop_ok (track_load nsec l).
Proof.
  intros Hl. unfold track_load. case_match; [by apply la_reset_ok|].
  pose proof (la_reset_ok l Hl) as Hl'. assert (la_timer (la_reset l) = None) as El by done.
  generalize dependent (la_reset l). intros l0 [Hh Hi Ha] El.
  destruct (own_new _ _ Hh) as (Hn & Hf & _ & Hr). destruct (new_own (lw l0)) as [w b]. simpl in *.
  rewrite in_own, El in Hf. split; simpl.
  - eapply ok_ex_eq; [apply (own_unref _ _ b Hn); set_solver|]. unfold own. rewrite El. simpl. set_solver.
  - intros b' Hb'. split; [|by eapply Hi]. intros [= ->]. apply Hf. auto.
  - intros b' [= <-]. split; [intros Hd; apply Hf; auto|]. unfold impl_set_weak. by rewrite uv_unref_ref, decide_True.
Qed.

Lemma lstep_ok op l : loop_ok l → loop_ok (lstep op l).
Proof.
  intros Hl. destruct op as [op| |nsec| |b]; simpl; [| by apply delayer_handle_ok| by apply track_load_ok| |].
  - destruct Hl as [Hh Hi Ha]. split; simpl; [by apply (hstep_ok (own l))|done|]. intros b Hb.
    destruct (Ha b Hb) as [Hd Hr]. split; [done|]. rewrite (hstep_ref (own l)); [done|done|]. apply in_own. auto.
  - destruct Hl as [Hh Hi Ha]. destruct (own_new _ _ Hh) as (Hn & Hf & _ & Hr). destruct (new_own (lw l)) as [w b]. simpl in *.
    rewrite in_own in Hf. split; simpl.
    + eapply ok_ex_eq; [exact Hn|]. unfold own. simpl. set_solver.
    + intros b' Hb'. destruct (Hi b' Hb'). split; [done|]. set_solver.
    + intros b' Hb'. destruct (Ha b' Hb') as [Hd Href]. split; [set_solver|]. rewrite Hr; [done|]. apply in_own. auto.
  - case_decide as Hb; [|done]. destruct Hl as [Hh Hi Ha]. split; simpl.
    + eapply ok_ex_eq; [apply (own_close _ _ b Hh); apply in_own; auto|]. apply set_eq. intros b'.
      rewrite elem_of_difference, !in_own. simpl. rewrite elem_of_difference, elem_of_singleton. split; [naive_solver|].
      intros [Hb'|[Hb'|[Hb' Hne]]]; (split; [by auto|]); [intros ->; by destruct (Hi b Hb')|intros ->; by destruct (Ha b Hb')|done].
    + intros b' Hb'. destruct (Hi b' Hb'). split; [done|set_solver].
    + intros b' Hb'. destruct (Ha b' Hb') as [Hd Hr]. split; [set_solver|]. unfold impl_destroy. rewrite uv_close_ref; [done|].
      by intros ->.
Qed.

Lemma lrun_ok ops s : uv_opened s = ∅ → loop_ok (lrun ops s).
Proof.
  intros Hs. unfold lrun.
  assert (loop_ok (new_uvloop s : uvloop S B)) as Hl.
  { split; simpl; [|done|done]. eapply ok_ex_eq; [by apply empty_loop_ok|]. unfold own. simpl. set_solver. }
  revert Hl. generalize (new_uvloop s : uvloop S B). induction ops as [|op ops IH]; intros l Hl; simpl; [done|].
  by apply IH, lstep_ok.
Qed.
End UVLoopInvariant.

(** ** Running the loop *)

Inductive run_mode := DEFAULT | ONCE | NOWAIT | NOWAIT_FORCE.

(** What a callback of the backend does: it changes the program's state, may ask
    the loop to stop, and may throw. *)
Record cb_effect (X Exn : Type) := mkEffect { cb_state : X; cb_stop : bool; cb_throws : option Exn }.
Arguments mkEffect {X Exn}.
Arguments cb_state {X Exn}.
Arguments cb_stop {X Exn}.
Arguments cb_throws {X Exn}.

(** What [uv_run] does: the callbacks it makes, turn by turn, in the order of their
    calls; whether active handles are left; and the [stop_flag] it leaves. *)
Record uv_run_result (X Exn : Type) := mkUvRun {
  turns : list (list (X → cb_effect X Exn));
  handles_left : bool;
  flag_left : bool
}.
Arguments mkUvRun {X Exn}.
Arguments turns {X Exn}.
Arguments handles_left {X Exn}.
Arguments flag_left {X Exn}.

Section Run.
Context {X Exn : Type} (recursion : Exn).

(** [LoopImpl::_exception], [UVLoop::_running], and the two fields of [uv_loop_t]
    that [UVLoop] writes. *)
Record loop_impl := mkLoopImpl {
  _exception : option Exn;
  _running : bool;
  stop_flag : bool;
  active_handles : Z;
  prog : X
}.

Definition set_running (b : bool) (l : loop_impl) : loop_impl :=
  mkLoopImpl (_exception l) b (stop_flag l) (active_handles l) (prog l).
Definition set_stop (b : bool) (l : loop_impl) : loop_impl :=
  mkLoopImpl (_exception l) (_running l) b (active_handles l) (prog l).
Definition add_active (n : Z) (l : loop_impl) : loop_impl :=
  mkLoopImpl (_exception l) (_running l) (stop_flag l) (active_handles l + n) (prog l).

(** [UVLoop::stop] *)
Definition stop (l : loop_impl) : loop_impl := set_stop true l.

(** [LoopImpl::capture_exception] *)
Definition capture_exception (e : Exn) (l : loop_impl) : loop_impl :=
  stop (mkLoopImpl (Some e) (_running l) (stop_flag l) (active_handles l) (prog l)).

(** [LoopImpl::ltry] around a callback. *)
Definition ltry (f : X → cb_effect X Exn) (l : loop_impl) : loop_impl :=
  let r := f (prog l) in
  let l := mkLoopImpl (_exception l) (_running l) (stop_flag l || cb_stop r) (active_handles l) (cb_state r) in
  match cb_throws r with Some e => capture_exception e l | None => l end.

(** Callbacks one after the other, each in its [ltry]. *)
Definition make_callbacks (cbs : list (X → cb_effect X Exn)) (l : loop_impl) : loop_impl :=
  fold_left (λ l f, ltry f l) cbs l.

Variable uv_run : run_mode → loop_impl → uv_run_result X Exn.

Definition run_callbacks (m : run_mode) (l : loop_impl) : loop_impl * bool :=
  let r := uv_run m l in (set_stop (flag_left r) (make_callbacks (concat (turns r)) l), handles_left r).

(** [UVLoop::_run]; the destructor of [AutoResetFlag] at the end. *)
Definition _run (mode : run_mode) (l : loop_impl) : loop_impl * (bool + Exn) :=
  if _running l then (l, inr recursion) else
  let l := set_stop false (set_running true l) in
  let (l, ret) :=
    match mode with
    | NOWAIT_FORCE =>
        let l := add_active 1 l in
        let (l, ret) := run_callbacks NOWAIT l in
        (add_active (-1) l, ret)
    | m => run_callbacks m l
    end in
  (set_running false l, inl ret).

(** [LoopImpl::run] with [throw_exception]: a throw of [_run] passes. *)
Definition run (mode : run_mode) (l : loop_impl) : loop_impl * (bool + Exn) :=
  match _run mode l with
  | (l, inr e) => (l, inr e)
  | (l, inl ret) =>
      match _exception l with
      | Some e => (mkLoopImpl None (_running l) (stop_flag l) (active_handles l) (prog l), inr e)
      | None => (l, inl ret)
      end
  end.

(** The exceptions that a list of callbacks throws, in their order. *)
Fixpoint thrown (cbs : list (X → cb_effect X Exn)) (x : X) : list Exn :=
  match cbs with
  | [] => []
  | f :: cbs =>
      let r := f x in
      (match cb_throws r with Some e => [e] | None => [] end) ++ thrown cbs (cb_state r)
  end.

Lemma make_callbacks_spec cbs l :
  let l' := make_callbacks cbs l in
  _exception l' = match last (thrown cbs (prog l)) with Some e => Some e | None => _exception l end ∧
  _running l' = _running l ∧ active_handles l' = active_handles l ∧
  (thrown cbs (prog l) ≠ [] → stop_flag l' = true) ∧ (stop_flag l = true → stop_flag l' = true).
Proof.
  revert l. induction cbs as [|f cbs IH]; intros l; simpl; [by split_and!|].
  specialize (IH (ltry f l)). simpl in IH.
  assert (prog (ltry f l) = cb_state (f (prog l)) ∧ _running (ltry f l) = _running l ∧
    active_handles (ltry f l) = active_handles l ∧
    _exception (ltry f l) = match cb_throws (f (prog l)) with Some e => Some e | None => _exception l end ∧
    (is_Some (cb_throws (f (prog l))) → stop_flag (ltry f l) = true) ∧
    (stop_flag l = true → stop_flag (ltry f l) = true)) as (P & R & A & Ex & St & St').
  { unfold ltry. destruct (cb_throws (f (prog l))); split_and!; simpl; try done;
      first [by intros []|by intros ->]. }
  rewrite P in IH. destruct IH as (I1 & I2 & I3 & I4 & I5). rewrite I1, I2, I3, Ex.
  split_and!; [|done|done| |by auto].
  - destruct (cb_throws (f (prog l))) as [e|]; simpl; [|done].
    destruct (thrown cbs (cb_state (f (prog l)))) as [|e' es] eqn:Et; [done|].
    rewrite last_cons_cons. by destruct (last (e' :: es)) eqn:La; [|apply last_None in La].
  - intros Hne. destruct (cb_throws (f (prog l))) eqn:Ec; [apply I5, St; eauto|]. by apply I4.
Qed.

(** The turns of a run in this mode. *)
Definition turns_of (mode : run_mode) (l : loop_impl) : list (list (X → cb_effect X Exn)) :=
  let l := set_stop false (set_running true l) in
  match mode with NOWAIT_FORCE => turns (uv_run NOWAIT (add_active 1 l)) | m => turns (uv_run m l) end.

(** What libuv documents of [uv_stop]: a run ends with the turn in which it was asked
    to stop. *)
Definition uv_stops : Prop :=
  ∀ m l before t after, turns (uv_run m l) = before ++ t :: after → after ≠ [] →
    stop_flag (make_callbacks (concat (before ++ [t])) l) = false.

Lemma thrown_prog cbs x l : prog l = x → thrown cbs x = [] ∨ stop_flag (make_callbacks cbs l) = true.
Proof.
  intros <-. destruct (make_callbacks_spec cbs l) as (_ & _ & _ & P & _).
  destruct (thrown cbs (prog l)); [by left|right]. by apply P.
Qed.

(** Only the last turn of a run throws. *)
Lemma turns_before m l ts : uv_stops → turns (uv_run m l) = ts → ts ≠ [] →
  ∃ before t, ts = before ++ [t] ∧ thrown (concat before) (prog l) = [].
Proof.
  intros Hs E Hne. destruct (exists_last Hne) as (before & t & E'). exists before, t. split; [done|].
  destruct before as [|t0 before' _] using rev_ind; [done|].
  destruct (thrown_prog (concat (before' ++ [t0])) (prog l) l eq_refl) as [|Hf]; [done|].
  rewrite (Hs m l before' t0 [t]) in Hf; [done| |done]. by rewrite E, E', <-app_assoc.
Qed.

Lemma run_spec mode l :
  uv_stops → _running l = false → _exception l = None →
  let l' := (run mode l).1 in
  _running l' = false ∧ _exception l' = None ∧ active_handles l' = active_handles l ∧
  match last (thrown (concat (turns_of mode l)) (prog l)) with
  | Some e => (run mode l).2 = inr e ∧
      ∃ before t, turns_of mode l = before ++ [t] ∧ thrown (concat before) (prog l) = []
  | None => ∃ ret, (run mode l).2 = inl ret
  end.
Proof.
  intros Hs Hr He. unfold run, _run. rewrite Hr. unfold turns_of, run_callbacks.
  set (l0 := set_stop false (set_running true l)).
  assert (∀ m n, let ts := turns (uv_run m (add_active n l0)) in
    let p := make_callbacks (concat ts) (add_active n l0) in
    _exception p = last (thrown (concat ts) (prog l)) ∧ active_handles p = active_handles l + n ∧
    (thrown (concat ts) (prog l) ≠ [] →
      ∃ before t, ts = before ++ [t] ∧ thrown (concat before) (prog l) = [])) as Hp.
  { intros m n. destruct (make_callbacks_spec (concat (turns (uv_run m (add_active n l0)))) (add_active n l0))
      as (P1 & _ & P3 & _).
    simpl in *. rewrite P1, P3. simpl. rewrite He. split_and!; [by destruct (last _)|done|].
    intros Hne. apply (turns_before m (add_active n l0)); [done..|]. by intros E; rewrite E in Hne. }
  assert (add_active 0 l0 = l0) as E0 by (unfold add_active, l0; simpl; unfold set_stop; simpl; f_equal; lia).
  assert (∀ es : list Exn, is_Some (last es) → es ≠ []) as Hl by (intros []; [by intros []|done]).
  destruct mode; [specialize (Hp DEFAULT 0)|specialize (Hp ONCE 0)|specialize (Hp NOWAIT 0)|specialize (Hp NOWAIT 1)];
    rewrite ?E0 in Hp;
    match goal with |- context [uv_run ?m ?x] => destruct (uv_run m x) as [ts left flag] end; simpl in *;
    destruct Hp as (P1 & P2 & P3); rewrite P1; destruct (last (thrown (concat ts) (prog l))) as [e|] eqn:La; simpl;
    rewrite ?P1, ?P2; (split_and!; try done; try lia; try (by eexists)); apply P3, Hl; by rewrite La.
Qed.
End Run.
Arguments loop_impl : clear implicits.

(** ** Read buffers

    The [string] that owns a read buffer is kept at the end of the buffer itself
    while libuv has it; [size] is [sizeof(string)], [p] the address of the buffer
    and [cap] its capacity. *)

Definition MIN_ALLOC_SIZE : Z := 1024.
Definition sizeof_ptr : Z := 8.

(** [HandleImpl::buf_alloc]: the size it asks the allocator for. *)
Definition buf_alloc_size (size : Z) : Z := if decide (size < MIN_ALLOC_SIZE) then MIN_ALLOC_SIZE else size.

(** [uvx_buf_alloc]: where the string is put, and the buffer given to libuv. *)
Record uv_buf := mkBuf { base : Z; len : Z }.

Definition uvx_buf_alloc (size p cap : Z) : uv_buf * Z :=
  let align := wrap 64 (p + cap) `mod` sizeof_ptr in
  let cap := cap -₆₄ align in
  let availcap := cap -₆₄ size in
  (mkBuf p availcap, p +₆₄ availcap).

(** [uvx_detach_buf]: where it looks for the string. *)
Definition uvx_detach_buf (b : uv_buf) : option Z :=
  if decide (base b = 0) then None else Some (base b +₆₄ len b).

(** [Stream::buf_alloc], [Udp::buf_alloc]: the user's callback, or [string(cap)]; [None]:
    it throws, and [empty], the empty string, is returned.  [_buf_alloc] of the backend:
    the string, and what is lent to libuv, where [n] is the size that libuv suggests. *)
Section BufAlloc.
Context {Str : Type} (empty : Str) (string_of_cap : Z → option Str) (shared_buf shared_capacity : Str → Z).

Definition buf_alloc (callback : option (Z → option Str)) (cap : Z) : Str :=
  default empty (match callback with Some f => f cap | None => string_of_cap cap end).
Definition uv_buf_alloc (callback : option (Z → option Str)) (size n : Z) : Str * (uv_buf * Z) :=
  let buf := buf_alloc callback (buf_alloc_size n) in
  (buf, uvx_buf_alloc size (shared_buf buf) (shared_capacity buf)).
End BufAlloc.

Lemma uvx_buf_alloc_fits size p cap :
  0 < p → p + cap < 2 ^ 64 → 0 < size → size `mod` sizeof_ptr = 0 → size + sizeof_ptr ≤ cap →
  let (b, at_) := uvx_buf_alloc size p cap in
  base b = p ∧ at_ = p + len b ∧ at_ `mod` sizeof_ptr = 0 ∧
  0 < len b ∧ cap - size - sizeof_ptr < len b ∧ at_ + size ≤ p + cap.
Proof.
  intros Hp Hc Hs Ha Hcap. unfold uvx_buf_alloc, sizeof_ptr in *. simpl.
  assert (wrap 64 (p + cap) = p + cap) as E1 by (apply wrap_small; lia). rewrite E1.
  pose proof (Z.mod_pos_bound (p + cap) 8 ltac:(lia)) as Hm.
  set (a := (p + cap) `mod` 8) in *.
  assert (wrap 64 (cap - a) = cap - a) as E2 by (apply wrap_small; lia). rewrite E2.
  assert (wrap 64 (cap - a - size) = cap - a - size) as E3 by (apply wrap_small; lia). rewrite E3.
  assert (wrap 64 (p + (cap - a - size)) = p + (cap - a - size)) as E4 by (apply wrap_small; lia). rewrite E4.
  split_and!; try lia.
  apply Z.mod_divide in Ha as [j Hj]; [|lia]. pose proof (Z.div_mod (p + cap) 8 ltac:(lia)) as Hd. fold a in Hd.
  apply Z.mod_divide; [lia|]. exists ((p + cap) / 8 - j). lia.
Qed.

(** ** A libuv to run *)

(** Handles are numbered; a closed number is not used again. *)
Record ex_uv := mkUv { next_b : nat; opened_b : gset nat; closing_b : gset nat; unref_b : gset nat }.

#[export] Instance ex_core : UvCore ex_uv nat := {|
  uv_init s := (mkUv (Datatypes.S (next_b s)) ({[next_b s]} ∪ opened_b s) (closing_b s) (unref_b s ∖ {[next_b s]}), next_b s);
  uv_ref b s := mkUv (next_b s) (opened_b s) (closing_b s) (unref_b s ∖ {[b]});
  uv_unref b s := mkUv (next_b s) (opened_b s) (closing_b s) ({[b]} ∪ unref_b s);
  uv_close b s := mkUv (next_b s) (opened_b s ∖ {[b]}) ({[b]} ∪ closing_b s) (unref_b s);
  uv_run_closed s := mkUv (next_b s) (opened_b s) ∅ (unref_b s);
  uv_opened s := filter (λ b, b < next_b s)%nat (opened_b s);
  uv_closing := closing_b;
  uv_has_ref s b := negb (bool_decide (b ∈ unref_b s))
|}.

#[export] Instance ex_laws : UvLaws ex_uv nat.
Proof.
  split; intros; simpl.
  - rewrite elem_of_filter. lia.
  - apply set_eq. intros b. rewrite elem_of_union, !elem_of_filter, elem_of_union, !elem_of_singleton.
    destruct (decide (b = next_b s)); naive_solver lia.
  - case_decide; subst; [rewrite bool_decide_false; [done|set_solver]|].
    f_equal. apply bool_decide_ext. set_solver.
  - done.
  - case_decide; subst; [rewrite bool_decide_false; [done|set_solver]|].
    f_equal. apply bool_decide_ext. set_solver.
  - done.
  - case_decide; subst; [rewrite bool_decide_true; [done|set_solver]|].
    f_equal. apply bool_decide_ext. set_solver.
  - apply set_eq. intros b'. rewrite elem_of_difference, !elem_of_filter, elem_of_difference. tauto.
  - done.
  - done.
  - done.
  - done.
  - done.
Qed.

Definition ex_uv0 : ex_uv := mkUv 0 ∅ ∅ ∅.

(** ** Properties *)

(** C25: whatever is done with the handles of a loop, each handle owns at most
    one libuv handle, which is open, is nobody else's, and is referenced exactly
    when the handle is not weak (also when it is created anew after a [reset]);
    nothing else is open; and the loop lists exactly the handles that exist. *)
Theorem handles_stay_faithful {S B : Type} `{UvLaws S B} (ops : list hop) (s : S)
    (Hs : uv_opened s = ∅) :
  handles_ok ∅ (hrun ops (mkLoop s ∅ [])).
Proof.
  by apply hrun_ok, empty_loop_ok.
Qed.

Lemma handles_stay_faithful_witness :
  handles_ok ∅ (hrun [New 1; New 2; Weak 1 true; Reset 1; Use 1; Clear 2; Delete 2] (mkLoop ex_uv0 ∅ [])).
Proof. apply handles_stay_faithful. reflexivity. Defined.

(** C26: whatever was done with a loop, its handles, the delayer, the load average
    and the resolver's own timers and polls, when all the handles are gone and the
    resolver has destroyed what it made, the destructor of the loop leaves neither an
    open nor a closing libuv handle, so that [uv_loop_close] succeeds; and until then the
    timer of the load average never keeps the loop running. *)
Theorem loop_closes_clean {S B : Type} `{UvLaws S B} (ops : list (lop B)) (s : S)
    (Hs : uv_opened s = ∅) (Hgone : objects (lw (lrun ops s)) = ∅)
    (Hdirect : direct (lrun ops s) = ∅) :
  (∀ n b, la_timer (lrun (take n ops) s) = Some b →
    b ∈ uv_opened (uv (lw (lrun (take n ops) s))) ∧ uv_has_ref (uv (lw (lrun (take n ops) s))) b = false) ∧
  let w := lw (UVLoop_dtor (lrun ops s)) in
  uv_opened (uv w) = ∅ ∧ uv_closing (uv w) = ∅ ∧ _handles w = [].
Proof.
  split.
  { intros n b Hb. destruct (lrun_ok (take n ops) s Hs) as [Hh _ Ha]. split; [|by apply Ha].
    apply (ok_extra _ _ Hh b), in_own. auto. }
  pose proof (lrun_ok ops s Hs) as Hl. generalize dependent (lrun ops s). intros l Hgone Hdirect Hl w.
  pose proof (la_reset_ok _ (delayer_destroy_ok l Hl)) as [[_ _ Hop _ Hli _] _ _].
  assert (objects (lw (la_reset (delayer_destroy l))) = ∅) as Hobj.
  { rewrite <-Hgone. unfold la_reset, delayer_destroy. simpl. by destruct (la_timer l), (idle l). }
  split_and!.
  - simpl. rewrite !uv_run_closed_opened. apply set_eq. intros b. split; [|set_solver].
    intros Hb. destruct (Hop b Hb) as [Hown|(h & o & Ho & _)]; [|by rewrite Hobj, lookup_empty in Ho].
    apply in_own in Hown as [?|[?|Hown]]; [done|done|]. simpl in Hown. by rewrite Hdirect in Hown.
  - apply uv_run_closed_closing.
  - change (_handles (lw (la_reset (delayer_destroy l))) = []).
    destruct (_handles _) as [|h hs] eqn:E; [done|]. destruct (proj1 (Hli h)) as [o Ho]; [by left|].
    by rewrite Hobj, lookup_empty in Ho.
Qed.

Definition ex_lops : list (lop nat) :=
  [HandleOp (New 1); TrackLoad 5; HandleOp (Weak 1 true); Delay; NewImpl; HandleOp (Reset 1); HandleOp (Use 1);
   TrackLoad 7; DestroyImpl 3%nat; HandleOp (Delete 1); HandleOp RunClosed].

Lemma loop_closes_clean_witness :
  uv_closing (uv (lw (UVLoop_dtor (lrun ex_lops ex_uv0)))) = ∅ ∧ is_Some (la_timer (lrun ex_lops ex_uv0)).
Proof.
  split; [|vm_compute; by eexists].
  destruct (loop_closes_clean ex_lops ex_uv0) as (_ & _ & Hc & _);
    [reflexivity|vm_compute; reflexivity|vm_compute; reflexivity|exact Hc].
Defined.


(** Two turns of callbacks that count; the second one throws, after a callback that does
    not. *)
Definition ex_uv_run (m : run_mode) (l : loop_impl nat nat) : uv_run_result nat nat :=
  let count x := mkEffect (S x) false None in
  if stop_flag l then mkUvRun [] true false
  else mkUvRun [[count]; [count; λ x, mkEffect (S x) false (Some 7%nat)]] true false.

Lemma ex_uv_stops : uv_stops ex_uv_run.
Proof.
  intros m [ex ru [] n x] before t after; unfold ex_uv_run; simpl; [by destruct before|].
  by destruct before as [|t0 [|t1 [|t2 before]]]; simpl; intros [=]; subst.
Qed.


(** C32: when libuv asks for a buffer, of whatever size, and the user's callback, if there
    is one, returns a string with room for a [string] and a word (without a callback there
    always is room), the string that owns the buffer is put inside it, aligned, past the
    part that libuv may write, which has all of the capacity but the string's and less
    than a word; and [uvx_detach_buf] finds it again. *)
Theorem read_buffer_roundtrip {Str : Type} (empty : Str) (string_of_cap : Z → option Str)
    (shared_buf shared_capacity : Str → Z) (callback : option (Z → option Str)) (size n : Z) (s : Str)
    (Hsize : 0 < size ≤ MIN_ALLOC_SIZE - sizeof_ptr ∧ size `mod` sizeof_ptr = 0)
    (Hstring : ∀ cap s, string_of_cap cap = Some s → cap ≤ shared_capacity s)
    (Hs : match callback with
          | Some f => f (buf_alloc_size n) = Some s ∧ size + sizeof_ptr ≤ shared_capacity s
          | None => string_of_cap (buf_alloc_size n) = Some s
          end)
    (Hmem : 0 < shared_buf s ∧ shared_buf s + shared_capacity s < 2 ^ 64) :
  let '(buf, (b, at_)) := uv_buf_alloc empty string_of_cap shared_buf shared_capacity callback size n in
  buf = s ∧ base b = shared_buf s ∧ uvx_detach_buf b = Some at_ ∧ at_ = shared_buf s + len b ∧
  at_ `mod` sizeof_ptr = 0 ∧ shared_buf s < at_ ∧ at_ + size ≤ shared_buf s + shared_capacity s ∧
  shared_capacity s - size - sizeof_ptr < len b.
Proof.
  destruct Hsize as [Hsz Ha], Hmem as [Hp Htop].
  assert (buf_alloc empty string_of_cap callback (buf_alloc_size n) = s ∧ size + sizeof_ptr ≤ shared_capacity s) as [E Hcap].
  { unfold buf_alloc. destruct callback as [f|]; [by destruct Hs as [-> ?]|]. split; [by rewrite Hs|].
    pose proof (Hstring _ _ Hs) as Hc. unfold buf_alloc_size, sizeof_ptr in *. case_decide; lia. }
  unfold uv_buf_alloc. rewrite E.
  pose proof (uvx_buf_alloc_fits size _ _ Hp Htop ltac:(lia) Ha Hcap) as Hf.
  destruct (uvx_buf_alloc size _ _) as [b a]. destruct Hf as (Hb & Hat & Hal & Hl & Hc & Hin).
  unfold uvx_detach_buf. rewrite Hb, decide_False by lia. rewrite wrap_small by lia.
  split_and!; try done; [by rewrite Hat|lia].
Qed.

(** Strings are their address and capacity; those of the library are at one address. *)
Lemma read_buffer_roundtrip_witness :
  let lent cb n := (uv_buf_alloc (0, 0) (λ cap, Some (4097, cap + 7)) fst snd cb 40 n).2 in
  uvx_detach_buf (lent None 3).1 = Some (lent None 3).2 ∧
  uvx_detach_buf (lent (Some (λ _, Some (8191, 64))) 65536).1 = Some (lent (Some (λ _, Some (8191, 64))) 65536).2.
Proof.
  split.
  - eapply (read_buffer_roundtrip (0, 0) (λ cap, Some (4097, cap + 7)) fst snd None 40 3 (4097, 1031));
      [split; [vm_compute; split; congruence|reflexivity]|intros cap s [= <-]; simpl; lia|reflexivity|vm_compute; done].
  - eapply (read_buffer_roundtrip (0, 0) (λ cap, Some (4097, cap + 7)) fst snd (Some (λ _, Some (8191, 64))) 40 65536 (8191, 64));
      [split; [vm_compute; split; congruence|reflexivity]|intros cap s [= <-]; simpl; lia|split; [reflexivity|vm_compute; congruence]|vm_compute; done].
Defined.

(** *** What the model shows of the code *)

(** A buffer that is smaller than a [string], as a user's [buf_alloc_callback] may
    return it: the string is put before the buffer, and libuv is told of a buffer
    of nearly 2^64 bytes. *)
Theorem read_buffer_too_small :
  uvx_buf_alloc 40 4096 16 = (mkBuf 4096 (2 ^ 64 - 24), 4096 - 24).
Proof. vm_compute. reflexivity. Qed.

(** Two callbacks of one turn throw: the first exception is lost. *)
Theorem loop_exception_lost :
  (run 0%nat (λ _ _, mkUvRun [[λ x, mkEffect x false (Some 1%nat); λ x, mkEffect x false (Some 2%nat)]] true false)
     DEFAULT (mkLoopImpl None false false 0 tt)).2 = inr 2%nat.
Proof. reflexivity. Qed.
