(* ===== verification/Delayer.v ===== *)
(** The delayed-callback service of the loop: [backend/Delayer.h] and the
    idle handle that drives it, [backend-uv/src/UVDelayer.h].

    [Loop::delay(f)] queues [f] for "a little bit later" and returns an id,
    [Loop::cancel_delay(id)] forgets it.  The two vectors of the code, the
    id arithmetic of [_delayer_cancel], the loop of [call()] with its
    [scope_guard], and the start and stop of the idle handle are modelled as
    they are written; callbacks are arbitrary user code that may add, cancel
    and throw. *)
From S2P Require Import Prelude Machine.
#[local] Open Scope Z_scope.
#[local] Coercion Z.of_nat : nat >-> Z.

(** ** Data *)

Section Delayer.
(** [F]: the closures, [G]: the guard objects, which may die. *)
Context {F G : Type}.

Record Callback := mkCallback {
  id : Z;
  cb : option F;
  guard : option G
}.

Record Delayer := mkDelayer {
  callbacks : list Callback;
  reserve : list Callback;
  lastid : Z
}.

Definition new_delayer : Delayer := mkDelayer [] [] 0.

(** ** Operations *)

(** [Delayer::add] *)
Definition add (f : option F) (g : option G) (d : Delayer) : Delayer * Z :=
  let lastid' := lastid d +₆₄ 1 in
  (mkDelayer (callbacks d ++ [mkCallback lastid' f g]) (reserve d) lastid', lastid').

(** [_delayer_cancel]: [None] when it returns false. *)
Definition _delayer_cancel (l : list Callback) (i : Z) : option (list Callback) :=
  match l with
  | [] => None
  | front :: _ =>
      if decide (i < id front) then None else
      let idx := i -₆₄ id front in
      if decide (Z.of_nat (length l) ≤ idx) then None else
      Some (alter (λ row, mkCallback (id row) None (guard row)) (Z.to_nat idx) l)
  end.

(** [Delayer::cancel] *)
Definition cancel (i : Z) (d : Delayer) : Delayer * bool :=
  match _delayer_cancel (callbacks d) i with
  | Some l => (mkDelayer l (reserve d) (lastid d), true)
  | None =>
      match _delayer_cancel (reserve d) i with
      | Some l => (mkDelayer (callbacks d) l (lastid d), true)
      | None => (d, false)
      end
  end.

(** The prologue of [Delayer::call]: swap the pools. *)
Definition call_prologue (d : Delayer) : Delayer :=
  mkDelayer (reserve d) (callbacks d) (lastid d).

(** The guard of [Delayer::call]: what was not processed goes back to the
    front of the pool. *)
Definition call_epilogue (i : nat) (d : Delayer) : Delayer :=
  mkDelayer
    (if decide (i < length (reserve d))%nat
     then drop i (reserve d) ++ callbacks d else callbacks d)
    [] (lastid d).

(** The test of the loop: the callback is skipped when it was cancelled or
    when it has a guard and the guard is dead. *)
Definition skipped (alive : G → bool) (row : Callback) : bool :=
  match cb row, guard row with
  | None, _ => true
  | Some _, Some g => negb (alive g)
  | Some _, None => false
  end.
End Delayer.

Arguments Callback : clear implicits.
Arguments Delayer : clear implicits.

(** ** The machine: [UVDelayer] with user callbacks *)

Section UVDelayer.
Context {F G V Exn : Type}.

(** What user code may ask of the loop. *)
Inductive api :=
| Add (f : option F) (g : option G)
| Cancel (i : Z).

(** What happened, in order; a ghost of the model. *)
Inductive event :=
| EvAdd (i : Z)
| EvCancel (i : Z)
| EvRun (i : Z)
| EvSkip (i : Z).

(** [handle]: the idle handle, absent until the first [add]; then whether
    it is started. [ret] is the result of the last API call, [user] the
    user's own state. *)
Record state := mkState {
  dl : Delayer F G;
  handle : option bool;
  ret : Z;
  user : V;
  log : list event
}.

Inductive call :=
| CApi (a : api)
| CUser (f : F)
| HandleIdle
| HandleIdleEnd
| DCall
| DLoop (i : nat).

(** The code of a user callback: it sees the result of its last API call,
    changes the user's state and makes further calls, or throws. *)
Context (code : F → Z → V → V * outcome (api + F) Exn).
Context (alive : V → G → bool).

Definition user_call (c : api + F) : call :=
  match c with inl a => CApi a | inr f => CUser f end.

Definition lift_outcome (o : outcome (api + F) Exn) : outcome call Exn :=
  match o with
  | Calls cs => Calls (user_call <$> cs)
  | Throws e => Throws e
  | Aborts => Aborts
  end.

(** [UVDelayer::add]: the idle handle is created on first use and started
    when the pool was empty. *)
Definition uv_add (f : option F) (g : option G) (s : state) : state :=
  let h := match callbacks (dl s) with [] => Some true | _ => handle s end in
  let (d, i) := add f g (dl s) in
  mkState d h i (user s) (log s ++ [EvAdd i]).

Definition uv_cancel (i : Z) (s : state) : state :=
  let (d, b) := cancel i (dl s) in
  mkState d (handle s) (if b then 1 else 0) (user s)
    (if b then log s ++ [EvCancel i] else log s).

Definition with_dl (d : Delayer F G) (s : state) : state :=
  mkState d (handle s) (ret s) (user s) (log s).

Definition note (e : event) (s : state) : state :=
  mkState (dl s) (handle s) (ret s) (user s) (log s ++ [e]).

Definition dbody (c : call) (s : state) : state * outcome call Exn :=
  match c with
  | CApi (Add f g) => (uv_add f g s, Calls [])
  | CApi (Cancel i) => (uv_cancel (wrap 64 i) s, Calls [])  (* a uint64_t *)
  | CUser f =>
      let (v, o) := code f (ret s) (user s) in
      (mkState (dl s) (handle s) (ret s) v (log s), lift_outcome o)
  | HandleIdle => (s, Calls [DCall; HandleIdleEnd])
  | HandleIdleEnd =>
      (match callbacks (dl s) with
       | [] => mkState (dl s) (Some false) (ret s) (user s) (log s)
       | _ => s
       end, Calls [])
  | DCall =>
      match reserve (dl s) with
      | [] => (with_dl (call_prologue (dl s)) s, Calls [DLoop 0])
      | _ => (s, Aborts)
      end
  | DLoop i =>
      match reserve (dl s) !! i with
      | Some row =>
          if skipped (alive (user s)) row
          then (note (EvSkip (id row)) s, Calls [DLoop (S i)])
          else match cb row with
               | Some f => (note (EvRun (id row)) s, Calls [CUser f; DLoop (S i)])
               | None => (s, Calls [DLoop (S i)])
               end
      | None => (with_dl (call_epilogue i (dl s)) s, Calls [])
      end
  end.

(** Only the [scope_guard] of [call()] reacts to an exception. *)
Definition dunwind (c : call) (e : Exn) (s : state) : state * outcome call Exn :=
  match c with
  | DLoop i => (with_dl (call_epilogue i (dl s)) s, Throws e)
  | _ => (s, Throws e)
  end.

Definition delayer_program : program state call Exn := Program dbody dunwind.

Definition initial (s : state) : Prop := ∃ v, s = mkState new_delayer None 0 v [].

(** The loop calls the idle handle while it is started; anybody may use the
    API from outside. *)
Definition input (s : state) (cs : list call) (s' : state) : Prop :=
  s' = s ∧ ((cs = [HandleIdle] ∧ handle s = Some true) ∨ ∃ a, cs = [CApi a]).

Abbreviation dreachable := (reachable delayer_program initial input).
End UVDelayer.

(** ** The vectors: ids are consecutive, so the index arithmetic is exact *)

Section Vectors.
Context {F G : Type}.
Implicit Types (l : list (Callback F G)) (d : Delayer F G).

Definition ids l : list Z := id <$> l.

(** What [_delayer_cancel] is meant to do: forget the closure of the row
    whose id is [i]. *)
Definition kill (i : Z) l : list (Callback F G) :=
  (λ row, if decide (id row = i) then mkCallback (id row) None (guard row) else row) <$> l.

Lemma ids_app l1 l2 : ids (l1 ++ l2) = ids l1 ++ ids l2.
Proof. apply fmap_app. Qed.

Lemma ids_kill i l : ids (kill i l) = ids l.
Proof.
  unfold ids, kill. rewrite <-list_fmap_compose. apply list_fmap_ext.
  intros k row _. simpl. by case_decide.
Qed.

Lemma kill_app i l1 l2 : kill i (l1 ++ l2) = kill i l1 ++ kill i l2.
Proof. apply fmap_app. Qed.

Lemma kill_drop i n l : kill i (drop n l) = drop n (kill i l).
Proof. apply fmap_drop. Qed.

Lemma length_kill i l : length (kill i l) = length l.
Proof. apply length_fmap. Qed.

Lemma length_ids l : length (ids l) = length l.
Proof. apply length_fmap. Qed.

Lemma kill_absent i l : i ∉ ids l → kill i l = l.
Proof.
  intros Hi. unfold kill. rewrite <-(list_fmap_id l) at 2.
  apply list_fmap_ext. intros k row Hk. simpl. case_decide as E; [|done].
  destruct Hi. rewrite <-E. apply list_elem_of_fmap.
  exists row. split; [done|]. by eapply list_elem_of_lookup_2.
Qed.

Lemma kill_dead i l row : row ∈ kill i l → id row = i → cb row = None.
Proof.
  intros (r & -> & Hr)%list_elem_of_fmap. case_decide; simpl; naive_solver.
Qed.

Lemma kill_still_dead i l row :
  row ∈ kill i l → ∃ row', row' ∈ l ∧ id row' = id row ∧ (cb row' = None → cb row = None).
Proof.
  intros (r & -> & Hr)%list_elem_of_fmap. exists r. case_decide; simpl; naive_solver.
Qed.

Lemma seqZ_elem a n i : i ∈ seqZ a n ↔ a ≤ i < a + n.
Proof. apply elem_of_seqZ. Qed.

Lemma contig_lookup l a (k : nat) row :
  ids l = seqZ a (length l) → l !! k = Some row → id row = a + Z.of_nat k.
Proof.
  intros Hl Hk. assert (ids l !! k = Some (id row)) as H.
  { unfold ids. rewrite list_lookup_fmap, Hk. done. }
  rewrite Hl in H. apply lookup_seqZ in H as [-> _]. done.
Qed.

Lemma _delayer_cancel_spec l a i :
  ids l = seqZ a (length l) → 0 ≤ a → a + length l ≤ 2 ^ 64 → i < 2 ^ 64 →
  _delayer_cancel l i = if decide (a ≤ i < a + length l) then Some (kill i l) else None.
Proof.
  intros Hl Ha Hmax Hi. unfold _delayer_cancel.
  destruct l as [|front l']; [rewrite decide_False by (simpl; lia); done|].
  assert (id front = a) as Hf.
  { rewrite (contig_lookup _ a 0 front Hl); [lia|done]. }
  remember (front :: l') as l eqn:El. rewrite Hf.
  destruct (decide (i < a)); [by rewrite decide_False by lia|].
  rewrite wrap_small by lia.
  destruct (decide (Z.of_nat (length l) ≤ i - a)); [by rewrite decide_False by lia|].
  rewrite decide_True by lia. f_equal. apply list_eq. intros k. unfold kill.
  rewrite list_lookup_fmap, list_lookup_alter.
  case_decide as Hidx; [subst k|];
    (destruct (l !! _) as [row|] eqn:Hk; simpl; [|done]);
    pose proof (contig_lookup l a _ row Hl Hk) as Hrow;
    case_decide; try done; lia.
Qed.

(** The delayer holds consecutive ids that end at [lastid]. *)
Definition wf d : Prop :=
  0 ≤ lastid d < 2 ^ 64 ∧
  let n := Z.of_nat (length (reserve d ++ callbacks d)) in
  n ≤ lastid d ∧ ids (reserve d ++ callbacks d) = seqZ (lastid d + 1 - n) n.

Lemma wf_split d :
  wf d →
  ids (reserve d) = seqZ (lastid d + 1 - length (callbacks d) - length (reserve d)) (length (reserve d)) ∧
  ids (callbacks d) = seqZ (lastid d + 1 - length (callbacks d)) (length (callbacks d)).
Proof.
  intros (_ & Hn & H). rewrite ids_app, length_app, Nat2Z.inj_add in H.
  rewrite seqZ_app in H by lia.
  apply app_inj_1 in H as [H1 H2]; [|rewrite length_ids, length_seqZ; lia].
  rewrite H1, H2. split; f_equal; lia.
Qed.

Lemma cancel_kill d i :
  wf d → i < 2 ^ 64 →
  cancel i d = (mkDelayer (kill i (callbacks d)) (kill i (reserve d)) (lastid d),
                bool_decide (i ∈ ids (reserve d ++ callbacks d))).
Proof.
  intros Hwf Hi. pose proof (wf_split d Hwf) as [Hr Hc].
  destruct Hwf as (Hlast & Hn & _). rewrite length_app, Nat2Z.inj_add in Hn.
  unfold cancel. rewrite (_delayer_cancel_spec _ _ i Hc) by lia.
  rewrite (_delayer_cancel_spec _ _ i Hr) by lia.
  assert (∀ l a, ids l = seqZ a (length l) →
    ¬ (a ≤ i < a + length l) → kill i l = l) as Hout.
  { intros l a Hl Ho. apply kill_absent. rewrite Hl, seqZ_elem. done. }
  rewrite ids_app, Hc, Hr.
  case_decide as C; [|case_decide as R].
  - rewrite (Hout (reserve d) _ Hr) by lia. f_equal.
    symmetry. apply bool_decide_eq_true. apply elem_of_app. right.
    apply seqZ_elem. lia.
  - rewrite (Hout (callbacks d) _ Hc) by lia. f_equal.
    symmetry. apply bool_decide_eq_true. apply elem_of_app. left.
    apply seqZ_elem. lia.
  - rewrite (Hout (callbacks d) _ Hc), (Hout (reserve d) _ Hr) by lia.
    destruct d; simpl. f_equal. symmetry. apply bool_decide_eq_false.
    rewrite elem_of_app, !seqZ_elem. simpl in *. lia.
Qed.

Lemma wf_kill d i :
  wf d → wf (mkDelayer (kill i (callbacks d)) (kill i (reserve d)) (lastid d)).
Proof.
  intros (H1 & H2 & H3). split; [done|]. simpl.
  rewrite <-kill_app, length_kill, ids_kill. done.
Qed.

Lemma wf_add d f g : wf d → lastid d + 1 < 2 ^ 64 → wf (add f g d).1.
Proof.
  intros (H1 & H2 & H3) Hroom. unfold add. rewrite wrap_small by lia.
  split; simpl; [lia|]. rewrite app_assoc, length_app, ids_app, H3.
  rewrite Nat2Z.inj_add. simpl. split; [lia|].
  rewrite seqZ_app by lia. f_equal; [f_equal; lia|].
  unfold ids. simpl. rewrite seqZ_cons by lia. rewrite seqZ_nil by lia.
  f_equal. lia.
Qed.

Lemma wf_prologue d : reserve d = [] → wf d → wf (call_prologue d).
Proof.
  intros Hr (H1 & H2). rewrite Hr in H2. split; simpl; [done|].
  rewrite Hr, app_nil_r. done.
Qed.

Lemma epilogue_rows i d :
  callbacks (call_epilogue i d) = drop i (reserve d) ++ callbacks d.
Proof.
  simpl. case_decide as Hi; [done|]. rewrite drop_ge by lia. done.
Qed.

Lemma wf_epilogue d i : wf d → wf (call_epilogue i d).
Proof.
  intros Hwf. pose proof (wf_split d Hwf) as [Hr Hc].
  destruct Hwf as (H1 & H2 & H3). split; [done|].
  change (reserve (call_epilogue i d)) with (@nil (Callback F G)).
  cbv zeta. rewrite app_nil_l, epilogue_rows.
  change (lastid (call_epilogue i d)) with (lastid d).
  rewrite length_app in *. rewrite length_drop.
  split; [lia|]. rewrite ids_app, Hc. unfold ids in *.
  rewrite fmap_drop, Hr.
  destruct (decide (i < length (reserve d))%nat).
  - rewrite drop_seqZ by lia.
    rewrite Nat2Z.inj_add, seqZ_app by lia.
    f_equal; f_equal; lia.
  - rewrite drop_ge by (rewrite length_seqZ; lia). simpl. f_equal; lia.
Qed.
End Vectors.

(** ** The service: order, cancellation, and the idle handle *)

Arguments api : clear implicits.
Arguments call : clear implicits.
Arguments state : clear implicits.

(** The ids that [add] returned, and the ids whose turn has come (run, or
    skipped because cancelled or because the guard is dead), in order. *)
Definition added (l : list event) : list Z :=
  omap (λ e, match e with EvAdd i => Some i | _ => None end) l.
Definition processed (l : list event) : list Z :=
  omap (λ e, match e with EvRun i | EvSkip i => Some i | _ => None end) l.

Lemma added_app l1 l2 : added (l1 ++ l2) = added l1 ++ added l2.
Proof. apply omap_app. Qed.
Lemma processed_app l1 l2 : processed (l1 ++ l2) = processed l1 ++ processed l2.
Proof. apply omap_app. Qed.

Section Service.
Context {F G V Exn : Type}.
Context (code : F → Z → V → V * outcome (api F G + F) Exn) (alive : V → G → bool).
Implicit Types (s : state F G V) (k : list (call F G)) (o : option nat).

Abbreviation prog := (delayer_program code alive).

(** The call stacks of the delayer: user code above at most one turn of the
    idle handle, whose loop index is [o]. *)
Inductive shape : list (call F G) → option nat → Prop :=
| shape_nil : shape [] None
| shape_idle : shape [HandleIdle] None
| shape_call : shape [DCall; HandleIdleEnd] None
| shape_loop i : shape [DLoop i; HandleIdleEnd] (Some i)
| shape_end : shape [HandleIdleEnd] None
| shape_user f k o : shape k o → shape (CUser f :: k) o
| shape_api a k o : shape k o → shape (CApi a :: k) o.
Hint Constructors shape : core.

(** The rows that wait for their turn. *)
Definition waiting o (d : Delayer F G) : list (Callback F G) :=
  match o with Some i => drop i (reserve d) ++ callbacks d | None => callbacks d end.

Definition loop_index k : option nat :=
  last (omap (λ c, match c with DLoop i => Some i | _ => None end) k).

Lemma shape_loop_index k o : shape k o → loop_index k = o.
Proof. induction 1; simpl; done. Qed.

Lemma shape_user_calls cs k o : shape k o → shape ((user_call <$> cs) ++ k) o.
Proof. intros Hk. induction cs as [|[a|f] cs IH]; simpl; auto. Qed.

Definition good o s : Prop :=
  wf (dl s) ∧ lastid (dl s) = length (added (log s)) ∧
  match o with None => reserve (dl s) = [] | Some i => (i ≤ length (reserve (dl s)))%nat end ∧
  added (log s) = processed (log s) ++ ids (waiting o (dl s)) ∧
  added (log s) = seqZ 1 (length (added (log s))) ∧
  (∀ i, EvCancel i ∈ log s → i ≤ lastid (dl s)) ∧
  (∀ i row, EvCancel i ∈ log s → row ∈ waiting o (dl s) → id row = i → cb row = None).

Lemma waiting_sub o (d : Delayer F G) row : row ∈ waiting o d → row ∈ reserve d ++ callbacks d.
Proof.
  destruct o as [i|]; simpl; rewrite ?elem_of_app; [|auto].
  intros [H|H]; [|auto]. left. rewrite <-(take_drop i (reserve d)), elem_of_app. auto.
Qed.

Lemma waiting_kill o i (d : Delayer F G) :
  waiting o (mkDelayer (kill i (callbacks d)) (kill i (reserve d)) (lastid d)) =
  kill i (waiting o d).
Proof. destruct o; simpl; [|done]. by rewrite kill_app, kill_drop. Qed.

Lemma waiting_add o (d : Delayer F G) f g :
  waiting o (add f g d).1 = waiting o d ++ [mkCallback (lastid d +₆₄ 1) f g].
Proof. destruct o; simpl; [by rewrite app_assoc|done]. Qed.

Lemma wf_ids_range (d : Delayer F G) i : wf d → i ∈ ids (reserve d ++ callbacks d) → i ≤ lastid d.
Proof. intros (_ & _ & ->). rewrite seqZ_elem. lia. Qed.

Lemma good_add o s f g :
  good o s → length (added (log (uv_add f g s))) < 2 ^ 64 → good o (uv_add f g s).
Proof.
  intros (Hwf & Hlast & Ho & Hadd & Hseq & Hle & Hdead) Hroom.
  assert (wf (add f g (dl s)).1 ∧ lastid (dl s) +₆₄ 1 = lastid (dl s) + 1) as [Hwf' E].
  { unfold uv_add, add in Hroom. simpl in Hroom. rewrite added_app, length_app in Hroom.
    simpl in Hroom. split; [apply wf_add; [done|lia]|].
    apply wrap_small. destruct Hwf. lia. }
  unfold good, uv_add. unfold add in *. simpl in *.
  rewrite !added_app, !processed_app, !length_app, !Nat2Z.inj_add. simpl.
  rewrite app_nil_r. rewrite E in *.
  split_and!; [done|lia|done| | | |].
  - pose proof (waiting_add o (dl s) f g) as W. simpl in W. rewrite E in W.
    destruct o; simpl in *; rewrite ?W, Hadd, ?app_assoc, ids_app; simpl;
      rewrite ?ids_app, ?app_assoc; done.
  - rewrite seqZ_snoc by lia. rewrite <-Hseq, Hlast. do 2 f_equal. lia.
  - intros i [Hi|?%list_elem_of_singleton]%elem_of_app; [|done]. specialize (Hle i Hi). lia.
  - intros i row [Hi|?%list_elem_of_singleton]%elem_of_app Hrow Hid; [|done].
    pose proof (waiting_add o (dl s) f g) as W. simpl in W. rewrite E in W.
    assert (row ∈ waiting o (dl s) ++ [mkCallback (lastid (dl s) + 1) f g]) as H.
    { destruct o; simpl in *; rewrite <-?W; done. }
    apply elem_of_app in H as [H|H%list_elem_of_singleton]; [by eapply Hdead|].
    subst row. specialize (Hle i Hi). simpl in Hid. lia.
Qed.

Lemma good_cancel o s i : good o s → i < 2 ^ 64 → good o (uv_cancel i s).
Proof.
  intros (Hwf & Hlast & Ho & Hadd & Hseq & Hle & Hdead) Hi.
  unfold good, uv_cancel. rewrite (cancel_kill _ _ Hwf Hi). simpl.
  set (log' := if bool_decide _ then _ else _).
  assert (added log' = added (log s) ∧ processed log' = processed (log s)) as [-> ->].
  { unfold log'. case_bool_decide; [|done].
    rewrite added_app, processed_app. simpl. by rewrite !app_nil_r. }
  split_and!; [by apply wf_kill|done| | |done| |].
  - destruct o; simpl; [by rewrite length_kill|by rewrite Ho].
  - by rewrite waiting_kill, ids_kill.
  - intros j. unfold log'. case_bool_decide as B; [|apply Hle].
    intros [Hj|Hj]%elem_of_app; [by apply Hle|].
    apply list_elem_of_singleton in Hj as [= ->]. by apply wf_ids_range.
  - intros j row Hj Hrow Hid. rewrite waiting_kill in Hrow.
    unfold log' in Hj. case_bool_decide as B; [|].
    + apply elem_of_app in Hj as [Hj|Hj%list_elem_of_singleton].
      * destruct (kill_still_dead _ _ _ Hrow) as (r & Hr & Hrid & Hnone).
        apply Hnone. eapply Hdead; [exact Hj|done|congruence].
      * injection Hj as ->. by eapply kill_dead.
    + destruct (kill_still_dead _ _ _ Hrow) as (r & Hr & Hrid & Hnone).
      apply Hnone. eapply Hdead; [exact Hj|done|congruence].
Qed.

Lemma good_ext o s s' : good o s → dl s' = dl s → log s' = log s → good o s'.
Proof. unfold good. by intros ? -> ->. Qed.

Lemma good_prologue s : good None s → good (Some 0%nat) (with_dl (call_prologue (dl s)) s).
Proof.
  intros (Hwf & Hlast & Ho & Hadd & Hseq & Hle & Hdead). simpl in *.
  unfold good. simpl. rewrite Ho. rewrite app_nil_r. split_and!; try done.
  - by apply wf_prologue.
  - lia.
Qed.

Lemma good_epilogue i s : good (Some i) s → good None (with_dl (call_epilogue i (dl s)) s).
Proof.
  intros (Hwf & Hlast & Ho & Hadd & Hseq & Hle & Hdead).
  unfold good. cbn [dl with_dl log waiting].
  rewrite epilogue_rows. split_and!; try done. by apply wf_epilogue.
Qed.

Lemma good_turn i s row e :
  good (Some i) s → reserve (dl s) !! i = Some row →
  e = EvSkip (id row) ∨ e = EvRun (id row) →
  good (Some (S i)) (note e s).
Proof.
  intros (Hwf & Hlast & Ho & Hadd & Hseq & Hle & Hdead) Hi He.
  assert (drop i (reserve (dl s)) = row :: drop (S i) (reserve (dl s))) as D
    by (by apply drop_S).
  unfold good, note. cbn [dl log]. simpl in *. rewrite D in *.
  assert (added (log s ++ [e]) = added (log s) ∧
    processed (log s ++ [e]) = processed (log s) ++ [id row]) as [-> ->].
  { rewrite added_app, processed_app. destruct He as [-> | ->]; simpl; by rewrite app_nil_r. }
  split_and!; try done.
  - apply lookup_lt_Some in Hi. lia.
  - rewrite Hadd. simpl. by rewrite <-app_assoc.
  - intros j [Hj|Hj%list_elem_of_singleton]%elem_of_app; [by apply Hle|].
    destruct He; congruence.
  - intros j r [Hj|Hj%list_elem_of_singleton]%elem_of_app Hr Hid; [|destruct He; congruence].
    eapply Hdead; [done|by right|done].
Qed.

Definition service_inv (c : config (state F G V) (call F G) Exn) : Prop :=
  ∃ o, shape (stack c) o ∧
    (length (added (log (mem c))) < 2 ^ 64 → good o (mem c)).

Lemma service_inv_step c c' :
  service_inv c → step prog c = Some c' → service_inv c'.
Proof.
  intros (o & Hsh & Hg) Hstep. destruct c as [k s m]; simpl in *.
  destruct k as [|f k]; [by destruct m|].
  destruct m; simpl in Hstep; [| |done]; unfold settle, step in Hstep; simpl in Hstep.
  - destruct f as [[f g|i]|f| | | |i]; simpl in Hstep.
    + injection Hstep as <-. inv_eq Hsh. exists o. split; [done|]. simpl.
      intros Hroom. apply good_add; [|done]. apply Hg.
      unfold uv_add, add in Hroom. simpl in Hroom.
      rewrite added_app, length_app in Hroom. lia.
    + injection Hstep as <-. inv_eq Hsh. exists o. split; [done|]. simpl. intros Hroom.
      apply good_cancel; [|apply wrap_range; lia]. apply Hg. revert Hroom.
      unfold uv_cancel. destruct (cancel _ _) as [d []]; simpl; [|done].
      rewrite added_app, app_nil_r. done.
    + destruct (code f (ret s) (user s)) as [v [cs|e|]]; simpl in Hstep;
        injection Hstep as <-; inv_eq Hsh; exists o; simpl; split; auto using shape_user_calls.
    + injection Hstep as <-. inv_eq Hsh. exists None. split; simpl; auto.
    + injection Hstep as <-. inv_eq Hsh. exists None. split; [simpl; auto|].
      intros Hroom. apply (good_ext _ s); destruct (callbacks (dl s)); simpl in *; auto.
    + destruct (reserve (dl s)) eqn:R; injection Hstep as <-; inv_eq Hsh;
        [|exists None; split; simpl; auto].
      exists (Some 0%nat). split; [simpl; auto|].
      intros Hroom. apply good_prologue. by apply Hg.
    + inversion Hsh; subst; clear Hsh. destruct (reserve (dl s) !! i) as [row|] eqn:Hi.
      * destruct (skipped (alive (user s)) row) eqn:Sk; [|destruct (cb row) eqn:C].
        -- injection Hstep as <-. exists (Some (S i)). split; [simpl; auto|]. simpl.
           rewrite added_app, app_nil_r. intros Hroom. apply (good_turn i s row); auto.
        -- injection Hstep as <-. exists (Some (S i)). split; [simpl; auto|]. simpl.
           rewrite added_app, app_nil_r. intros Hroom. apply (good_turn i s row); auto.
        -- unfold skipped in Sk. rewrite C in Sk. done.
      * injection Hstep as <-. exists None. split; [simpl; auto|].
        intros Hroom. apply good_epilogue. by apply Hg.
  - destruct f; simpl in Hstep; injection Hstep as <-; inv_eq Hsh;
      try (exists None; split; simpl; auto; done); try (exists o; split; simpl; auto; done).
    exists None. split; [simpl; auto|]. intros. apply good_epilogue. by apply Hg.
Qed.

Lemma service_inv_reachable c :
  reachable prog initial input c → service_inv c.
Proof.
  induction 1 as [s [v ->]|c c' _ IH|s m cs s' _ IH _ Hin].
  - exists None. split; [constructor|]. intros _. split_and!; simpl; try done; try set_solver.
  - by eapply service_inv_step.
  - destruct IH as (o & Hsh & Hg). inv_eq Hsh. destruct Hin as [-> [[-> _]|[a ->]]];
      exists None; split; simpl; auto.
Qed.

(** *** A cancelled callback is never run *)

Definition no_run_after_cancel (l : list event) : Prop :=
  ∀ l1 i l2, l = l1 ++ EvCancel i :: l2 → EvRun i ∉ l2.

Lemma no_run_snoc l e :
  no_run_after_cancel l → (∀ i, e = EvRun i → EvCancel i ∉ l) →
  no_run_after_cancel (l ++ [e]).
Proof.
  intros Hl He l1 i l2 Heq. destruct l2 as [|x l2 _] using rev_ind; [set_solver|].
  rewrite app_comm_cons, app_assoc in Heq. apply app_inj_tail in Heq as [Hl' ->].
  rewrite not_elem_of_app, not_elem_of_cons. split_and!; [by eapply Hl| |set_solver].
  intros [= <-]. eapply (He i); [done|]. rewrite Hl'. set_solver.
Qed.

Lemma no_run_add f g s : no_run_after_cancel (log s) → no_run_after_cancel (log (uv_add f g s)).
Proof. intros H. by apply no_run_snoc. Qed.

Lemma no_run_cancel i s : no_run_after_cancel (log s) → no_run_after_cancel (log (uv_cancel i s)).
Proof.
  intros H. unfold uv_cancel. destruct (cancel i (dl s)) as [d []]; simpl; [|done].
  by apply no_run_snoc.
Qed.

Lemma no_run_step c c' :
  service_inv c → length (added (log (mem c))) < 2 ^ 64 →
  no_run_after_cancel (log (mem c)) → step prog c = Some c' →
  no_run_after_cancel (log (mem c')).
Proof.
  intros (o & Hsh & Hg) Hroom Hlog Hstep. specialize (Hg Hroom).
  destruct c as [[|f k] s []]; simpl in *; try done; unfold step in Hstep; simpl in Hstep.
  - destruct f as [[f g|i]|f| | | |i]; simpl in Hstep.
    + injection Hstep as <-. by apply no_run_add.
    + injection Hstep as <-. by apply no_run_cancel.
    + destruct (code f (ret s) (user s)) as [v [cs|e|]]; by injection Hstep as <-.
    + by injection Hstep as <-.
    + injection Hstep as <-. simpl. by destruct (callbacks (dl s)).
    + destruct (reserve (dl s)); by injection Hstep as <-.
    + assert (o = Some i) as -> by (by inversion Hsh).
      destruct (reserve (dl s) !! i) as [row|] eqn:Hi; [|by injection Hstep as <-].
      destruct (skipped _ row); [injection Hstep as <-; by apply no_run_snoc|].
      destruct (cb row) eqn:C; injection Hstep as <-; [|done].
      apply no_run_snoc; [done|]. intros j [= <-] Hin.
      destruct Hg as (_ & _ & _ & _ & _ & _ & Hdead).
      rewrite (Hdead _ row Hin) in C; [done| |done].
      simpl. rewrite (drop_S _ _ _ Hi). set_solver.
  - destruct f; by injection Hstep as <-.
Qed.

Lemma added_step c c' :
  step prog c = Some c' → length (added (log (mem c))) ≤ length (added (log (mem c'))).
Proof.
  destruct c as [[|f k] s []]; simpl; try done; unfold step; simpl.
  - destruct f as [[f g|i]|f| | | |i]; simpl; intros Hstep; crush_match; simpl; try done;
      unfold uv_cancel in *; crush_match; simpl; rewrite ?added_app, ?length_app; lia.
  - destruct f; simpl; intros [= <-]; done.
Qed.

(** *** The idle handle *)

Definition dispatching (c : call F G) : bool :=
  match c with HandleIdle | DCall | DLoop _ => true | _ => false end.

Definition idle_ok (c : config (state F G V) (call F G) Exn) : Prop :=
  callbacks (dl (mem c)) ≠ [] ∨ existsb dispatching (stack c) = true →
  handle (mem c) = Some true.

Lemma dispatching_user cs k :
  existsb dispatching ((user_call (F:=F) (G:=G) <$> cs) ++ k) = existsb dispatching k.
Proof. induction cs as [|[] cs IH]; simpl; done. Qed.

Lemma idle_ok_step c c' :
  service_inv c → idle_ok c → step prog c = Some c' → idle_ok c'.
Proof.
  intros (o & Hsh & _) Hok Hstep. unfold idle_ok in *.
  destruct c as [[|f k] s []]; simpl in *; try done; unfold step in Hstep; simpl in Hstep.
  - destruct f as [[f g|i]|f| | | |i]; simpl in *.
    + injection Hstep as <-. simpl. destruct (callbacks (dl s)); [done|].
      intros _. apply Hok. by left.
    + injection Hstep as <-. unfold uv_cancel, cancel, _delayer_cancel.
      destruct (callbacks (dl s)) eqn:C; simpl; crush_match; simpl; rewrite ?C; auto;
        intros [?|?]; apply Hok; auto; left; done.
    + destruct (code f (ret s) (user s)) as [v [cs|e|]]; injection Hstep as <-; simpl in *;
        rewrite ?dispatching_user; auto.
    + injection Hstep as <-. simpl. auto.
    + injection Hstep as <-. simpl. inv_eq Hsh. destruct (callbacks (dl s)) eqn:C; simpl.
      * rewrite C. intros [?|?]; done.
      * intros _. apply Hok. by left.
    + destruct (reserve (dl s)); injection Hstep as <-; simpl; auto.
    + crush_match; simpl; auto.
  - destruct f as [| | | | |i]; injection Hstep as <-; simpl in *; auto.
Qed.

Lemma idle_ok_reachable c : reachable prog initial input c → idle_ok c.
Proof.
  induction 1 as [s [v ->]|c c' Hr IH|s m cs s' Hr IH _ Hin].
  - intros [?|?]; done.
  - eapply idle_ok_step; [by apply service_inv_reachable|done|done].
  - unfold idle_ok in *. simpl in *. destruct Hin as [-> [[-> Hh]|[a ->]]]; [done|].
    intros [?|?]; [|done]. apply IH. by left.
Qed.

(** *** A whole turn of the idle handle *)

(** User code that returns: it makes API calls and does not throw. *)
Definition quiet : Prop :=
  ∀ f r v, ∃ v' apis, code f r v = (v', Calls (inl <$> apis)).

(** An API call leaves the reserve pool's ids and the processed ids alone. *)
Definition same_turn s s' : Prop :=
  ids (reserve (dl s')) = ids (reserve (dl s)) ∧ processed (log s') = processed (log s).

Lemma alter_ids (l : list (Callback F G)) n :
  ids (alter (λ row, mkCallback (id row) None (guard row)) n l) = ids l.
Proof.
  unfold ids. apply list_eq. intros k. rewrite !list_lookup_fmap, list_lookup_alter.
  case_decide; subst; [|done]. by destruct (l !! k).
Qed.

Lemma cancel_ids l i l' : _delayer_cancel l i = Some l' → ids (F:=F) (G:=G) l' = ids l.
Proof. unfold _delayer_cancel. intros. crush_match. apply alter_ids. Qed.

Lemma api_same_turn a s :
  ∃ s', dbody code alive (CApi a) s = (s', Calls []) ∧ same_turn s s'.
Proof.
  destruct a as [f g|i]; simpl; (eexists; split; [done|]).
  - split; simpl; [done|]. rewrite processed_app. simpl. by rewrite app_nil_r.
  - unfold uv_cancel, cancel, same_turn.
    destruct (_delayer_cancel (callbacks (dl s)) _) eqn:E1;
      [|destruct (_delayer_cancel (reserve (dl s)) _) eqn:E2]; simpl;
      rewrite ?processed_app; simpl; rewrite ?app_nil_r; split; try done.
    by eapply cancel_ids.
Qed.

Lemma apis_steps apis k s :
  ∃ s', steps prog (Config ((user_call <$> (inl <$> apis)) ++ k) s Normal) (Config k s' Normal) ∧
    same_turn s s'.
Proof.
  revert s. induction apis as [|a apis IH]; intros s; simpl.
  - exists s. split; [apply steps_refl|done].
  - destruct (api_same_turn a s) as (s1 & E & H1).
    destruct (IH s1) as (s2 & Hs & H2). exists s2. split.
    + eapply rtc_l; [|exact Hs]. unfold step. simpl in *. by rewrite E.
    + unfold same_turn in *. destruct H1, H2. split; congruence.
Qed.

Lemma loop_steps i s :
  quiet → (i ≤ length (reserve (dl s)))%nat →
  ∃ s', steps prog (Config [DLoop i; HandleIdleEnd] s Normal) (Config [HandleIdleEnd] s' Normal) ∧
    processed (log s') = processed (log s) ++ drop i (ids (reserve (dl s))).
Proof.
  intros Hq. remember (length (reserve (dl s)) - i)%nat as n eqn:En. revert i s En.
  induction n as [|n IH]; intros i s En Hi.
  - exists (with_dl (call_epilogue i (dl s)) s). split.
    + apply steps_once. unfold step. simpl.
      rewrite lookup_ge_None_2 by lia. done.
    + simpl. rewrite drop_ge by (rewrite length_ids; lia). by rewrite app_nil_r.
  - destruct (reserve (dl s) !! i) as [row|] eqn:Hrow;
      [|apply lookup_ge_None in Hrow; lia].
    assert (drop i (ids (reserve (dl s))) = id row :: drop (S i) (ids (reserve (dl s)))) as D.
    { apply drop_S. unfold ids. by rewrite list_lookup_fmap, Hrow. }
    assert (∀ s1, same_turn (note (EvSkip (id row)) s) s1 →
      ∃ s', steps prog (Config [DLoop (S i); HandleIdleEnd] s1 Normal)
               (Config [HandleIdleEnd] s' Normal) ∧
        processed (log s') = processed (log s) ++ drop i (ids (reserve (dl s)))) as Hnext.
    { intros s1 [H1 H2]. assert (length (reserve (dl s1)) = length (reserve (dl s))) as Hlen.
      { rewrite <-!length_ids, H1. done. }
      apply lookup_lt_Some in Hrow.
      destruct (IH (S i) s1) as (s' & Hs & Hp); [lia|lia|]. exists s'. split; [done|].
      rewrite Hp, H2, H1, D. simpl. rewrite processed_app. simpl. by rewrite <-app_assoc. }
    destruct (skipped (alive (user s)) row) eqn:Sk.
    + destruct (Hnext (note (EvSkip (id row)) s)) as (s' & Hs & Hp); [done|].
      exists s'. split; [|done]. eapply rtc_l; [|exact Hs].
      unfold step. simpl. by rewrite Hrow, Sk.
    + destruct (cb row) as [f|] eqn:C; [|unfold skipped in Sk; by rewrite C in Sk].
      destruct (Hq f (ret s) (user s)) as (v' & apis & Hf).
      set (s0 := mkState (dl s) (handle s) (ret s) v' (log s ++ [EvRun (id row)])).
      destruct (apis_steps apis [DLoop (S i); HandleIdleEnd] s0) as (s1 & Hs1 & Hsame).
      destruct (Hnext s1) as (s' & Hs' & Hp).
      { destruct Hsame as [H1 H2]. split; [done|]. rewrite H2. simpl.
        by rewrite !processed_app. }
      exists s'. split; [|done].
      eapply rtc_l; [unfold step; simpl; by rewrite Hrow, Sk, C|].
      eapply rtc_l; [unfold step; simpl; by rewrite Hf|].
      eapply steps_trans; [exact Hs1|exact Hs'].
Qed.
End Service.

(** ** What the loop promises to its clients

    The request queues use the service through this interface: closures that
    wait, with the ids under which they can be cancelled. *)

Class DelayService (D F : Type) := {
  ds_add : F → D → D * Z;
  ds_cancel : Z → D → D;
  ds_waiting : D → list (Z * F)
}.

(** The laws that hold at all times: nothing comes to wait except what was
    added, and cancelling only removes. *)
Class DelayLaws (D F : Type) `{DelayService D F} := {
  ds_add_waiting (f : F) (d : D) x :
    x ∈ ds_waiting (ds_add f d).1 → x ∈ ds_waiting d ∨ x = ((ds_add f d).2, f);
  ds_add_new (f : F) (d : D) : ((ds_add f d).2, f) ∈ ds_waiting (ds_add f d).1;
  ds_cancel_waiting (i : Z) (d : D) x :
    x ∈ ds_waiting (ds_cancel i d) → x ∈ ds_waiting d
}.

(** The laws of the abstract service: what waits is exactly what was added and
    neither cancelled nor called, under ids of its own. A well-formed [Delayer]
    obeys them, see [delayer_refines_service]. *)
Class DelayExact (D F : Type) `{DelayService D F} := {
  dx_add (f : F) (d : D) : ds_waiting (ds_add f d).1 = ds_waiting d ++ [((ds_add f d).2, f)];
  dx_cancel (i : Z) (d : D) : ds_waiting (ds_cancel i d) = filter (λ x, x.1 ≠ i) (ds_waiting d);
  dx_fresh (f : F) (d : D) : (ds_add f d).2 ∉ (ds_waiting d).*1
}.

(** The abstract service itself. *)
Record delays (F : Type) := mkDelays { rows : list (Z * F) }.
Arguments mkDelays {F}.
Arguments rows {F}.

Definition next_id {F} (l : list (Z * F)) : Z := 1 + fold_right Z.max 0 l.*1.

#[global] Instance delays_service (F : Type) : DelayService (delays F) F := {|
  ds_add f d := (mkDelays (rows d ++ [(next_id (rows d), f)]), next_id (rows d));
  ds_cancel i d := mkDelays (filter (λ x, x.1 ≠ i) (rows d));
  ds_waiting d := rows d
|}.

#[global] Instance delays_exact (F : Type) : DelayExact (delays F) F.
Proof.
  split; [done|done|]. intros f d. simpl. unfold next_id.
  assert (∀ x, x ∈ (rows d).*1 → x ≤ fold_right Z.max 0 (rows d).*1) as H.
  { induction (rows d).*1 as [|y l IH]; intros x; [by intros ?%elem_of_nil|].
    intros [->|Hx]%elem_of_cons; simpl; [lia|]. specialize (IH x Hx). lia. }
  intros Hx. specialize (H _ Hx). lia.
Qed.

Section Interface.
Context {F G : Type}.

Definition live_rows (l : list (Callback F G)) : list (Z * F) :=
  omap (λ row, (λ f, (id row, f)) <$> cb row) l.

#[export] Instance delayer_service : DelayService (Delayer F G) F := {|
  ds_add f d := add (Some f) None d;
  ds_cancel i d := (cancel i d).1;
  ds_waiting d := live_rows (reserve d ++ callbacks d)
|}.

Lemma live_rows_app l1 l2 : live_rows (l1 ++ l2) = live_rows l1 ++ live_rows l2.
Proof. apply omap_app. Qed.

Lemma live_rows_alter n (l : list (Callback F G)) x :
  x ∈ live_rows (alter (λ row, mkCallback (id row) None (guard row)) n l) → x ∈ live_rows l.
Proof.
  unfold live_rows. rewrite !list_elem_of_omap. intros (row & Hrow & Hx).
  apply list_elem_of_lookup in Hrow as [k Hk]. rewrite list_lookup_alter in Hk.
  case_decide; [|exists row; eauto using list_elem_of_lookup_2].
  by destruct (l !! n); simplify_eq/=.
Qed.

Lemma live_rows_cancel l i l' x :
  _delayer_cancel l i = Some l' → x ∈ live_rows l' → x ∈ live_rows l.
Proof.
  unfold _delayer_cancel. destruct l as [|front l]; [done|].
  repeat (case_decide; [done|]). intros [= <-]. apply live_rows_alter.
Qed.

#[export] Instance delayer_laws : DelayLaws (Delayer F G) F.
Proof.
  split.
  - intros f d x. simpl. rewrite !live_rows_app, !elem_of_app. simpl. set_solver.
  - intros f d. simpl. rewrite !live_rows_app, !elem_of_app. simpl. set_solver.
  - intros i d x. simpl. unfold cancel.
    destruct (_delayer_cancel (callbacks d) i) eqn:E1;
      [|destruct (_delayer_cancel (reserve d) i) eqn:E2]; simpl; [| |done];
      rewrite !live_rows_app, !elem_of_app; intros [?|?]; auto;
      [right|left]; by eapply live_rows_cancel.
Qed.

(** On a well-formed delayer the interface is implemented exactly: the new
    closure waits last, and cancelling [i] removes what waits under [i]. *)
Lemma live_rows_cons row (l : list (Callback F G)) :
  live_rows (row :: l) =
  match cb row with Some f => (id row, f) :: live_rows l | None => live_rows l end.
Proof. unfold live_rows. simpl. by destruct (cb row). Qed.

Lemma live_rows_kill i (l : list (Callback F G)) :
  live_rows (kill i l) = filter (λ x, x.1 ≠ i) (live_rows l).
Proof.
  induction l as [|row l IH]; [done|].
  change (kill i (row :: l)) with
    ((if decide (id row = i) then mkCallback (id row) None (guard row) else row) :: kill i l).
  rewrite !live_rows_cons, IH. case_decide as E; simpl; destruct (cb row); try done.
  - by rewrite filter_cons_False by (simpl; tauto).
  - by rewrite filter_cons_True by done.
Qed.
End Interface.

(** ** Properties *)

(** C20: at every moment, whatever user code does (adding, cancelling and
    throwing from inside of callbacks), the callbacks that were ever added are
    those whose turn has come, in the order of [add], followed by those that
    wait, in the same order: no callback is lost, duplicated or overtaken.  The
    ids returned by [add] are 1, 2, 3, ...  (The hypothesis: fewer than [2^64]
    calls of [add], so that the 64-bit counter did not wrap.) *)
Theorem delayer_fifo {F G V Exn : Type}
    (code : F → Z → V → V * outcome (api F G + F) Exn) (alive : V → G → bool)
    (c : config (state F G V) (call F G) Exn)
    (Hc : reachable (delayer_program code alive) initial input c)
    (Hroom : Z.of_nat (length (added (log (mem c)))) < 2 ^ 64) :
  added (log (mem c)) = seqZ 1 (length (added (log (mem c)))) ∧
  added (log (mem c)) =
    processed (log (mem c)) ++ ids (waiting (loop_index (stack c)) (dl (mem c))).
Proof.
  destruct (service_inv_reachable code alive c Hc) as (o & Hsh & Hg).
  destruct (Hg Hroom) as (_ & _ & _ & H1 & H2 & _).
  by rewrite (shape_loop_index (stack c) o Hsh).
Qed.

(** Once [cancel_delay(id)] has found the callback, the callback is never
    run, even when it is cancelled by a callback of the same turn. *)
Theorem delayer_cancelled_never_runs {F G V Exn : Type}
    (code : F → Z → V → V * outcome (api F G + F) Exn) (alive : V → G → bool)
    (c : config (state F G V) (call F G) Exn) (before after : list event) (i : Z)
    (Hc : reachable (delayer_program code alive) initial input c)
    (Hroom : Z.of_nat (length (added (log (mem c)))) < 2 ^ 64)
    (Hcancel : log (mem c) = before ++ EvCancel i :: after) :
  EvRun i ∉ after.
Proof.
  enough (no_run_after_cancel (log (mem c))) as H by (by eapply H).
  clear Hcancel. induction Hc as [s [v ->]|c c' Hr IH Hstep|s m cs s' Hr IH _ [-> Hin]].
  - intros l1 j l2 H. by destruct l1.
  - pose proof (added_step code alive c c' Hstep).
    eapply no_run_step; [by apply (service_inv_reachable code alive)| |apply IH|exact Hstep]; lia.
  - by apply IH.
Qed.

(** A waiting callback is never forgotten by the loop: whenever the pool is
    not empty the idle handle is started, also after a turn cut short by an
    exception.  (Between turns; during a turn the handle is started anyway.) *)
Theorem delayer_pool_keeps_loop_awake {F G V Exn : Type}
    (code : F → Z → V → V * outcome (api F G + F) Exn) (alive : V → G → bool)
    (c : config (state F G V) (call F G) Exn)
    (Hc : reachable (delayer_program code alive) initial input c)
    (Hpool : callbacks (dl (mem c)) ≠ []) :
  handle (mem c) = Some true.
Proof. apply (idle_ok_reachable code alive c Hc). by left. Qed.

(** The index arithmetic of [_delayer_cancel] is exact: on a well-formed
    delayer [cancel id] removes the closure of the row with that id, in either
    pool, changes nothing else, and returns whether there was such a row. *)
Theorem delayer_cancel_exact {F G : Type} (d : Delayer F G) (i : Z)
    (Hwf : wf d) (Hi : 0 ≤ i < 2 ^ 64) :
  cancel i d = (mkDelayer (kill i (callbacks d)) (kill i (reserve d)) (lastid d),
                bool_decide (i ∈ ids (reserve d ++ callbacks d))).
Proof. apply cancel_kill; [done|lia]. Qed.

(** C21: a turn of the idle handle terminates, and then every callback that waited when
    the turn began has had its turn, in order; what the callbacks add waits for the next
    turn. This when no callback throws, and each only adds and cancels ([quiet]), and no
    turn is under way; a callback that throws ends the turn, and those behind it are put
    off ([delayer_fifo]). *)
Theorem delayer_turn_completes {F G V Exn : Type}
    (code : F → Z → V → V * outcome (api F G + F) Exn) (alive : V → G → bool)
    (s : state F G V) (Hquiet : quiet (Exn:=Exn) code) (Hreserve : reserve (dl s) = []) :
  ∃ s', steps (delayer_program code alive) (Config [HandleIdle] s Normal) (Config [] s' Normal) ∧
    processed (log s') = processed (log s) ++ ids (callbacks (dl s)).
Proof.
  destruct (loop_steps code alive 0 (with_dl (call_prologue (dl s)) s) Hquiet) as (s1 & Hs & Hp);
    [lia|].
  eexists. split; [|shelve].
  eapply rtc_l; [done|]. eapply rtc_l; [unfold step; simpl; by rewrite Hreserve|].
  eapply steps_trans; [exact Hs|]. apply steps_once. unfold step. simpl. done.
  Unshelve. simpl in *. destruct (callbacks (dl s1)); exact Hp.
Qed.

(** C17: the delayer refines the abstract service: on a well-formed delayer,
    [add] appends the closure under the id it returns, and [cancel id] removes
    exactly what waits under [id]. *)
Theorem delayer_refines_service {F G : Type} (d : Delayer F G) (f : F) (i : Z)
    (Hwf : wf d) (Hi : 0 ≤ i < 2 ^ 64) :
  ds_waiting (ds_add f d).1 = ds_waiting d ++ [((ds_add f d).2, f)] ∧
  ds_waiting (ds_cancel i d) = filter (λ x, x.1 ≠ i) (ds_waiting d).
Proof.
  split.
  - simpl. by rewrite app_assoc, live_rows_app.
  - simpl. rewrite (cancel_kill d i Hwf) by lia. simpl.
    rewrite <-kill_app. apply live_rows_kill.
Qed.

(** *** Witnesses: three closures, the first of which cancels id 2 *)

Definition ex_code (f : nat) (r : Z) (v : nat) : nat * outcome (api nat nat + nat) unit :=
  match f with
  | 0%nat => (S v, Calls [inl (Cancel 2); inl (Add (Some 1%nat) None)])
  | _ => (S v, Calls [])
  end.

Definition ex_alive (v g : nat) : bool := Nat.eqb g 0.

Definition ex_start : state nat nat nat :=
  uv_add (Some 1%nat) (Some 0%nat) (uv_add (Some 1%nat) None
    (uv_add (Some 0%nat) None (mkState new_delayer None 0 0%nat []))).

Definition ex_program := delayer_program ex_code ex_alive.

Definition ex_turn : config (state nat nat nat) (call nat nat) unit :=
  run ex_program 20 (Config [HandleIdle] ex_start Normal).

Lemma ex_api_reachable (s : state nat nat nat) f g :
  reachable ex_program initial input (Config [] s Normal) →
  reachable ex_program initial input (Config [] (uv_add f g s) Normal).
Proof.
  intros H. eapply reach_step; [eapply (reach_input _ _ _ s Normal [CApi (Add f g)]); [done|done|]|].
  - split; [done|]. right. eauto.
  - done.
Qed.

Lemma ex_turn_reachable : reachable ex_program initial input ex_turn.
Proof.
  eapply reachable_steps; [|apply run_steps].
  eapply (reach_input _ _ _ ex_start Normal); [|done|].
  - do 3 apply ex_api_reachable. apply reach_init. by exists 0%nat.
  - split; [done|]. left. done.
Qed.

Lemma delayer_fifo_witness :
  processed (log (mem ex_turn)) = [1; 2; 3] ∧
  added (log (mem ex_turn)) =
    processed (log (mem ex_turn)) ++ ids (waiting (loop_index (stack ex_turn)) (dl (mem ex_turn))).
Proof.
  split; [vm_compute; reflexivity|].
  apply (delayer_fifo ex_code ex_alive ex_turn ex_turn_reachable). vm_compute. reflexivity.
Defined.

Lemma delayer_cancelled_never_runs_witness :
  EvRun 2 ∉ [EvAdd 4; EvSkip 2; EvRun 3].
Proof.
  apply (delayer_cancelled_never_runs ex_code ex_alive ex_turn
           [EvAdd 1; EvAdd 2; EvAdd 3; EvRun 1] _ 2 ex_turn_reachable);
    vm_compute; reflexivity.
Defined.

Lemma delayer_pool_keeps_loop_awake_witness : handle (mem ex_turn) = Some true.
Proof.
  apply (delayer_pool_keeps_loop_awake ex_code ex_alive ex_turn ex_turn_reachable).
  vm_compute. discriminate.
Defined.

Lemma delayer_cancel_exact_witness :
  cancel 2 (dl ex_start) =
    (mkDelayer (kill 2 (callbacks (dl ex_start))) [] 3, true).
Proof.
  apply (delayer_cancel_exact (dl ex_start) 2); [|lia].
  split; [vm_compute; split; [discriminate|reflexivity]|].
  split; [vm_compute; discriminate|vm_compute; reflexivity].
Defined.

Lemma delayer_turn_completes_witness :
  ∃ s', steps ex_program (Config [HandleIdle] ex_start Normal) (Config [] s' Normal) ∧
    processed (log s') = [] ++ [1; 2; 3].
Proof.
  apply (delayer_turn_completes ex_code ex_alive ex_start); [|reflexivity].
  intros [|f] r v.
  - exists (S v), [Cancel 2; Add (Some 1%nat) None]. reflexivity.
  - exists (S v), []. reflexivity.
Defined.

Lemma delayer_refines_service_witness :
  ds_waiting (ds_cancel 2 (dl ex_start)) = [(1, 0%nat); (3, 1%nat)].
Proof.
  apply (λ H1 H2, proj2 (delayer_refines_service (dl ex_start) 0%nat 2 H1 H2)); [|lia].
  split; [vm_compute; split; [discriminate|reflexivity]|].
  split; [vm_compute; discriminate|vm_compute; reflexivity].
Defined.
