(* ===== verification/Queue.v ===== *)
(** The request queue of a handle, [Queue.h], with the part of [Request.h] it
    drives ([delay], [delay_cancel], [finish_exec], [async]).

    A queue runs one request at a time: [push] executes the request when it is
    alone and nothing holds the lock, [done] ends the request at the front and
    calls the user callback now or from a delayed callback, [cancel] ends all of
    them.  Requests are objects with virtual methods ([exec], [cancel],
    [notify]) whose code, and the user callbacks, may call back into the queue
    at any point and may throw; here they are an arbitrary [client]. *)
From S2P Require Import Prelude Machine Delayer.
#[local] Open Scope Z_scope.

(** The identity of a request object. *)
Abbreviation rid := nat.

(** [SPLIT_RECURSION] *)
Definition SPLIT_RECURSION : nat := 300.

(** ** Data *)

(** A closure given to the loop: the callback of a finished request, with the
    [resume()] of the split branch or without, or code of the client. *)
Inductive closure (U : Type) :=
| DelayedDone (r : rid) (f : U) (then_resume : bool)
| DelayedCode (u : U).
Arguments DelayedDone {U}.
Arguments DelayedCode {U}.

(** [Queue]; [locked] and [resume_recursion] count C++ stack frames. *)
Record queue := mkQueue {
  requests : list rid;
  finalized_requests : list rid;
  locked : nat;
  cancel_gen : Z;
  cancel_till : option rid;
  resume_recursion : nat
}.

Definition new_queue : queue := mkQueue [] [] 0 0 None 0.

(** [Queue::size], [Queue::canceling] *)
Definition queue_size (q : queue) : nat := length (requests q).
Definition canceling (q : queue) : bool := bool_decide (is_Some (cancel_till q)).

(** The calls a client may make. *)
Inductive qapi (U : Type) :=
| Push (r : rid)
| Done (r : rid) (f : U)
| Cancel (pre post : U) (till : option rid)
| Delay (r : rid) (u : U)
| DelayCancel (r : rid)
| Ltry (u : U).          (* [loop->ltry] of a piece of code *)
Arguments Push {U}.
Arguments Done {U}.
Arguments Cancel {U}.
Arguments Delay {U}.
Arguments DelayCancel {U}.
Arguments Ltry {U}.

(** A client: the code points [U] it consists of, the virtual methods of its
    requests, the destructor of a request's backend part, and what the loop does
    with an exception it captures. Code sees the queue it works with. *)
Record client (X U E Exn : Type) := mkClient {
  v_exec : rid → U;
  v_cancel : rid → E → U;
  v_notify : rid → E → U;
  v_destroy_impl : rid → X → X;
  v_capture : Exn → X → X;
  v_code : U → queue → X → X * outcome (qapi U + U) Exn;
  canceled_err : E
}.
Arguments v_exec {X U E Exn}.
Arguments v_cancel {X U E Exn}.
Arguments v_notify {X U E Exn}.
Arguments v_destroy_impl {X U E Exn}.
Arguments v_capture {X U E Exn}.
Arguments v_code {X U E Exn}.
Arguments canceled_err {X U E Exn}.

(** What happened, in order; a ghost of the model. *)
Inductive qevent :=
| EvPush (r : rid)
| EvExec (r : rid)
| EvDone (r : rid)
| EvSplit (r : rid)                 (* the callback waits, too deep a recursion *)
| EvLater (r : rid) (left : nat).   (* it waits, and [left] requests are behind *)

#[global] Instance qevent_eq_dec : EqDecision qevent.
Proof. solve_decision. Defined.

(** The pending calls: the functions of the class and the pieces of code that
    remain to be run in them. *)
Inductive qcall (U : Type) :=
| CApi (a : qapi U)
| CCode (u : U)
| SetAsync (r : rid)
| Resume
| DelayFn (r : rid) (f : U)
| DoneGuard
| DecRecursion
| CancelFinalized
| CancelTest (gen : Z) (post : U)
| CancelIter (gen : Z) (post : U)
| CancelCheck (cur : rid) (gen : Z) (post : U)
| CancelPost (gen : Z) (post : U)
| IncGen
| CancelEnd
| EtryEnd
| LtryEnd
| ThrowIfAny.
Arguments CApi {U}.
Arguments CCode {U}.
Arguments SetAsync {U}.
Arguments Resume {U}.
Arguments DelayFn {U}.
Arguments DoneGuard {U}.
Arguments DecRecursion {U}.
Arguments CancelFinalized {U}.
Arguments CancelTest {U}.
Arguments CancelIter {U}.
Arguments CancelCheck {U}.
Arguments CancelPost {U}.
Arguments IncGen {U}.
Arguments CancelEnd {U}.
Arguments EtryEnd {U}.
Arguments LtryEnd {U}.
Arguments ThrowIfAny {U}.

Section Queue.
Context {X U E Exn D : Type} `{DelayService D (closure U)}.
Context (cl : client X U E Exn).

(** The fields of the requests that the queue uses ([async], [_delay_id]),
    the queue, the loop's delayer, the client's state, and the exception
    keepers of the [cancel] calls that are running, innermost first. *)
Record world := mkWorld {
  q : queue;
  async : gset rid;
  delay_id : gmap rid Z;
  loop : D;
  keepers : list (list Exn);
  ext : X;
  qlog : list qevent
}.

Abbreviation stmt := (qcall U).

Definition with_q (f : queue → queue) (w : world) : world :=
  mkWorld (f (q w)) (async w) (delay_id w) (loop w) (keepers w) (ext w) (qlog w).
Definition with_async (r : rid) (b : bool) (w : world) : world :=
  mkWorld (q w) (if b then {[r]} ∪ async w else async w ∖ {[r]})
    (delay_id w) (loop w) (keepers w) (ext w) (qlog w).
Definition with_keepers (f : list (list Exn) → list (list Exn)) (w : world) : world :=
  mkWorld (q w) (async w) (delay_id w) (loop w) (f (keepers w)) (ext w) (qlog w).
Definition with_ext (x : X) (w : world) : world :=
  mkWorld (q w) (async w) (delay_id w) (loop w) (keepers w) x (qlog w).
Definition note_q (e : qevent) (w : world) : world :=
  mkWorld (q w) (async w) (delay_id w) (loop w) (keepers w) (ext w) (qlog w ++ [e]).

Definition set_requests (l : list rid) (q : queue) : queue :=
  mkQueue l (finalized_requests q) (locked q) (cancel_gen q) (cancel_till q) (resume_recursion q).
Definition set_finalized (l : list rid) (q : queue) : queue :=
  mkQueue (requests q) l (locked q) (cancel_gen q) (cancel_till q) (resume_recursion q).
Definition set_locked (n : nat) (q : queue) : queue :=
  mkQueue (requests q) (finalized_requests q) n (cancel_gen q) (cancel_till q) (resume_recursion q).
Definition set_gen (n : Z) (q : queue) : queue :=
  mkQueue (requests q) (finalized_requests q) (locked q) n (cancel_till q) (resume_recursion q).
Definition set_till (r : option rid) (q : queue) : queue :=
  mkQueue (requests q) (finalized_requests q) (locked q) (cancel_gen q) r (resume_recursion q).
Definition set_recursion (n : nat) (q : queue) : queue :=
  mkQueue (requests q) (finalized_requests q) (locked q) (cancel_gen q) (cancel_till q) n.

(** [Request::delay_cancel] *)
Definition delay_cancel (r : rid) (w : world) : world :=
  match delay_id w !! r with
  | Some i =>
      mkWorld (q w) (async w) (delete r (delay_id w)) (ds_cancel i (loop w))
        (keepers w) (ext w) (qlog w)
  | None => w
  end.

(** [Request::delay] *)
Definition delay (r : rid) (k : closure U) (w : world) : world :=
  let w := delay_cancel r w in
  let (d, i) := ds_add k (loop w) in
  mkWorld (q w) (async w) (<[r := i]> (delay_id w)) d (keepers w) (ext w) (qlog w).

(** [Request::finish_exec] *)
Definition finish_exec (r : rid) (w : world) : world :=
  let w := delay_cancel r w in with_ext (v_destroy_impl cl r (ext w)) w.

(** The virtual call [req->exec()]. *)
Definition exec (r : rid) (w : world) : world * list stmt :=
  (note_q (EvExec r) w, [CCode (v_exec cl r)]).

(** [Queue::push] *)
Definition push (r : rid) (w : world) : world * list stmt :=
  let w := with_async r false w in
  let w := note_q (EvPush r) (with_q (set_requests (requests (q w) ++ [r])) w) in
  if decide (length (requests (q w)) = 1%nat ∧ locked (q w) = 0%nat)
  then let (w, c) := exec r w in (w, c ++ [SetAsync r])
  else (w, [SetAsync r]).

(** [Queue::done], up to the choice of the way to call [f]. *)
Definition done_pop (r : rid) (rest : list rid) (w : world) : world :=
  let w := if decide (cancel_till (q w) = Some r) then with_q (set_till None) w else w in
  let w := finish_exec r w in
  note_q (EvDone r) (with_q (set_requests rest) w).

Definition push_finalized (r : rid) (w : world) : world :=
  with_q (set_finalized (finalized_requests (q w) ++ [r])) w.

(** [Queue::done] *)
Definition done (r : rid) (f : U) (w : world) : world * outcome stmt Exn :=
  match requests (q w) with
  | front :: rest =>
      if decide (front = r) then
        let w := done_pop r rest w in
        if decide (SPLIT_RECURSION < resume_recursion (q w))%nat
        then (note_q (EvSplit r) (delay r (DelayedDone r f true) (push_finalized r w)), Calls [])
        else if decide (r ∈ async w)
        then (with_q (set_locked (S (locked (q w)))) w, Calls [CCode f; DoneGuard])
        else (note_q (EvLater r (queue_size (q w)))
                (delay r (DelayedDone r f false) (push_finalized r w)), Calls [])
      else (w, Aborts)
  | [] => (w, Aborts)
  end.

(** [Queue::resume] *)
Definition resume (w : world) : world * list stmt :=
  match requests (q w), locked (q w) with
  | r :: _, O => exec r w
  | _, _ => (w, [])
  end.

(** [Queue::cancel], up to its first loop. *)
Definition cancel (pre post : U) (till : option rid) (w : world) : world * list stmt :=
  let q0 := q w in
  let till := match till with Some _ => till | None => last (requests q0) end in
  let w := with_q (λ q, set_till till (set_locked (S (locked q)) q)) w in
  let w := with_keepers (cons []) w in
  (w, [CancelFinalized; CCode pre; EtryEnd; CancelTest (cancel_gen q0) post]).

(** The loop [while (finalized_requests.size())]. *)
Definition cancel_finalized (w : world) : world * list stmt :=
  match finalized_requests (q w) with
  | [] => (w, [])
  | cur :: rest =>
      let w := delay_cancel cur (with_q (set_finalized rest) w) in
      (w, [CCode (v_notify cl cur (canceled_err cl)); EtryEnd; CancelFinalized])
  end.

(** [ExceptionKeeper::etry]: the [catch] adds to the innermost keeper. *)
Definition keep (e : Exn) (ks : list (list Exn)) : list (list Exn) :=
  match ks with k :: ks => (k ++ [e]) :: ks | [] => [[e]] end.

Definition lift_client (o : outcome (qapi U + U) Exn) : outcome stmt Exn :=
  match o with
  | Calls cs => Calls ((λ c, match c with inl a => CApi a | inr u => CCode u end) <$> cs)
  | Throws e => Throws e
  | Aborts => Aborts
  end.

Definition ret_calls (r : world * list stmt) : world * outcome stmt Exn :=
  (r.1, Calls r.2).

Definition qbody (c : stmt) (w : world) : world * outcome stmt Exn :=
  match c with
  | CApi (Push r) => ret_calls (push r w)
  | CApi (Done r f) => done r f w
  | CApi (Cancel pre post till) => ret_calls (cancel pre post till w)
  | CApi (Delay r u) => (delay r (DelayedCode u) w, Calls [])
  | CApi (DelayCancel r) => (delay_cancel r w, Calls [])
  | CApi (Ltry u) => (w, Calls [CCode u; LtryEnd])
  | CCode u => let (x, o) := v_code cl u (q w) (ext w) in (with_ext x w, lift_client o)
  | SetAsync r => (with_async r true w, Calls [])
  | Resume => ret_calls (resume w)
  | DelayFn r f =>
      match finalized_requests (q w) with
      | front :: rest =>
          if decide (front = r)
          then (with_q (set_finalized rest) w, Calls [CCode f])
          else (w, Aborts)
      | [] => (w, Aborts)
      end
  | DoneGuard =>
      (with_q (λ q, set_recursion (S (resume_recursion q)) (set_locked (pred (locked q)) q)) w,
       Calls [Resume; DecRecursion])
  | DecRecursion => (with_q (λ q, set_recursion (pred (resume_recursion q)) q) w, Calls [])
  | CancelFinalized => ret_calls (cancel_finalized w)
  | CancelTest gen post =>
      match requests (q w), cancel_till (q w) with
      | _ :: _, Some _ => (w, Calls [CancelIter gen post])
      | _, _ => (w, Calls [CancelPost gen post])
      end
  | CancelIter gen post =>
      match requests (q w) with
      | cur :: _ =>
          (w, Calls [CCode (v_cancel cl cur (canceled_err cl)); EtryEnd; CancelCheck cur gen post])
      | [] => (w, Aborts)   (* a call on the null request *)
      end
  | CancelCheck cur gen post =>
      if decide (head (requests (q w)) = Some cur) then (w, Aborts) else
      match cancel_till (q w) with
      | Some t => if decide (t = cur) then (w, Calls [CancelPost gen post])
                  else (w, Calls [CancelIter gen post])
      | None => (w, Calls [CancelPost gen post])
      end
  | CancelPost gen post =>
      (w, Calls (if decide (gen = cancel_gen (q w))
                 then [CCode post; IncGen; EtryEnd; CancelEnd] else [CancelEnd]))
  | IncGen => (with_q (λ q, set_gen (cancel_gen q +₃₂ 1) q) w, Calls [])
  | CancelEnd =>
      (with_q (λ q, set_till None (set_locked (pred (locked q)) q)) w, Calls [Resume; ThrowIfAny])
  | EtryEnd | LtryEnd => (w, Calls [])
  | ThrowIfAny =>
      (with_keepers tail w,
       match keepers w with (e :: _) :: _ => Throws e | _ => Calls [] end)
  end.

(** The guard of [done] runs and the exception goes on: [catch (...) {
    guard(); throw; }]; an [etry] and an [ltry] stop it; leaving [cancel] destroys its
    keeper; other code just ends. *)
Inductive frame := Frame (c : stmt) | Rethrow (e : Exn).

Definition lift_frames (o : outcome stmt Exn) : outcome frame Exn :=
  match o with
  | Calls cs => Calls (Frame <$> cs)
  | Throws e => Throws e
  | Aborts => Aborts
  end.

Definition fbody (f : frame) (w : world) : world * outcome frame Exn :=
  match f with
  | Frame c => let (w, o) := qbody c w in (w, lift_frames o)
  | Rethrow e => (w, Throws e)
  end.

Definition funwind (f : frame) (e : Exn) (w : world) : world * outcome frame Exn :=
  match f with
  | Frame DoneGuard =>
      let (w, o) := qbody DoneGuard w in
      (w, match lift_frames o with Calls cs => Calls (cs ++ [Rethrow e]) | o => o end)
  | Frame EtryEnd => (with_keepers (keep e) w, Calls [])
  | Frame LtryEnd => (with_ext (v_capture cl e (ext w)) w, Calls [])
  | Frame ThrowIfAny => (with_keepers tail w, Throws e)
  | _ => (w, Throws e)
  end.

Definition queue_program : program world frame Exn := Program fbody funwind.

Definition queue_initial (w : world) : Prop :=
  ∃ d x, (∀ p, p ∉ ds_waiting d) ∧ w = mkWorld new_queue ∅ ∅ d [] x [].

(** What a closure that the loop calls does: see the two lambdas of [done]. *)
Definition closure_calls (k : closure U) : list stmt :=
  match k with
  | DelayedDone r f true => [DelayFn r f; Resume]
  | DelayedDone r f false => [DelayFn r f]
  | DelayedCode u => [CCode u]
  end.

(** The loop calls a waiting closure (which then waits no more), or code of
    the client runs: an event of the backend, or the user's own code. *)
Definition queue_input (w : world) (cs : list frame) (w' : world) : Prop :=
  (∃ i k, (i, k) ∈ ds_waiting (loop w) ∧ cs = Frame <$> closure_calls k ∧
     w' = mkWorld (q w) (async w) (delay_id w) (ds_cancel i (loop w)) (keepers w) (ext w) (qlog w)) ∨
  (∃ u, cs = [Frame (CCode u)] ∧ w' = w).
End Queue.

Arguments world : clear implicits.
#[global] Arguments done_pop : simpl never.
#[global] Arguments finish_exec : simpl never.
#[global] Arguments delay_cancel : simpl never.
#[global] Arguments delay : simpl never.
Arguments frame : clear implicits.

(** ** The abstract server that a queue implements *)

(** A FIFO server: requests wait in the order they came; the first one is
    either running or not started yet; it leaves when it is done. *)
Record server := mkServer { pending : list rid; running : bool }.

Definition serve (s : server) (e : qevent) : option server :=
  match e with
  | EvPush r => Some (mkServer (pending s ++ [r]) (running s))
  | EvExec r =>
      if decide (head (pending s) = Some r ∧ running s = false)
      then Some (mkServer (pending s) true) else None
  | EvDone r =>
      match pending s with
      | h :: rest => if decide (h = r) then Some (mkServer rest false) else None
      | [] => None
      end
  | EvSplit _ | EvLater _ _ => Some s
  end.

Fixpoint serve_all (s : server) (l : list qevent) : option server :=
  match l with
  | [] => Some s
  | e :: l => s' ← serve s e; serve_all s' l
  end.

Lemma serve_all_snoc s l e :
  serve_all s (l ++ [e]) = s' ← serve_all s l; serve s' e.
Proof.
  revert s. induction l as [|x l IH]; intros s; simpl.
  - by destruct (serve s e).
  - destruct (serve s x); simpl; [apply IH|done].
Qed.

(** ** Invariants of the call stack *)

Section Invariants.
#[local] Set Default Proof Using "Type*".
Context {X U E Exn D : Type} `{DelayLaws D (closure U)}.
Context (cl : client X U E Exn).
Implicit Types (w : world X Exn D) (k : list (frame U Exn)).

Abbreviation qprog := (queue_program cl).
Abbreviation qconf := (config (world X Exn D) (frame U Exn) Exn).

(** The frames of a [cancel] between its [++locked] and its [--locked]. *)
Definition cancel_frame (f : frame U Exn) : bool :=
  match f with
  | Frame (CancelTest _ _ | CancelIter _ _ | CancelCheck _ _ _ | CancelPost _ _ | CancelEnd) => true
  | _ => false
  end.

(** The frames that hold the lock. *)
Definition lock_frame (f : frame U Exn) : bool :=
  cancel_frame f || match f with Frame DoneGuard => true | _ => false end.

Definition locks k : nat := length (filter (λ f, lock_frame f = true) k).

(** Every exception that could reach a [cancel] is stopped by an [etry]. *)
Fixpoint protected k : Prop :=
  match k with
  | a :: (b :: _) as k => (cancel_frame b = true → a = Frame EtryEnd) ∧ protected k
  | _ => True
  end.

Definition lock_inv (c : qconf) : Prop :=
  cmode c ≠ Aborted →
  locked (q (mem c)) = locks (stack c) ∧ protected (stack c) ∧
  (∀ e f, cmode c = Unwinding e → head (stack c) = Some f → cancel_frame f = false).

Lemma locks_cons f k : locks (f :: k) = ((if lock_frame f then 1 else 0) + locks k)%nat.
Proof.
  unfold locks. destruct (lock_frame f) eqn:L.
  - by rewrite filter_cons_True.
  - rewrite filter_cons_False; [done|congruence].
Qed.

Lemma locks_client (cs : list (qapi U + U)) k :
  locks ((Frame <$> ((λ c, match c with inl a => CApi a | inr u => CCode u end) <$> cs)) ++ k) = locks k.
Proof. induction cs as [|[] cs IH]; simpl; [done| |]; by rewrite locks_cons. Qed.

Lemma protected_cons_inv a k :
  protected (a :: k) →
  protected k ∧ (a = Frame EtryEnd ∨ ∀ f, head k = Some f → cancel_frame f = false).
Proof.
  destruct k as [|b k]; simpl; [intros _; split; [done|]; by right|].
  intros [Hb Hk]. split; [done|]. destruct (cancel_frame b) eqn:C; [by left; apply Hb|].
  right. by intros f [= <-].
Qed.

Lemma protected_cons a k :
  protected k → (∀ f, head k = Some f → cancel_frame f = false ∨ a = Frame EtryEnd) →
  protected (a :: k).
Proof.
  intros Hk Hh. destruct k as [|b k]; [done|]. split; [|done].
  intros C. destruct (Hh b eq_refl); congruence.
Qed.

Lemma protected_client (cs : list (qapi U + U)) k :
  protected k → (∀ f, head k = Some f → cancel_frame f = false) →
  let k' := (Frame <$> ((λ c, match c with inl a => CApi a | inr u => CCode u end) <$> cs)) ++ k in
  protected k' ∧ (∀ f, head k' = Some f → cancel_frame f = false).
Proof.
  intros Hk Hh. induction cs as [|c cs [IH1 IH2]]; [done|].
  change (protected (Frame (match c with inl a => CApi a | inr u => CCode u end) ::
    ((Frame <$> ((λ c, match c with inl a => CApi a | inr u => CCode u end) <$> cs)) ++ k)) ∧
    (∀ f, Some (Frame (U:=U) (Exn:=Exn) (match c with inl a => CApi a | inr u => CCode u end)) = Some f →
      cancel_frame f = false)).
  split.
  - apply protected_cons; [done|]. intros f Hf. left. by apply IH2.
  - intros f [= <-]. by destruct c.
Qed.

(** What the parts of the state keep. *)
Lemma q_delay_cancel r w : q (delay_cancel r w) = q w.
Proof. unfold delay_cancel. by destruct (delay_id w !! r). Qed.
Lemma q_delay r (x : closure U) w : q (delay r x w) = q w.
Proof. unfold delay. destruct (ds_add _ _) as [d i] eqn:A. simpl. apply q_delay_cancel. Qed.
Lemma q_finish_exec r w : q (finish_exec cl r w) = q w.
Proof. unfold finish_exec. simpl. apply q_delay_cancel. Qed.
Lemma log_delay_cancel r w : qlog (delay_cancel r w) = qlog w.
Proof. unfold delay_cancel. by destruct (delay_id w !! r). Qed.
Lemma log_delay r (x : closure U) w : qlog (delay r x w) = qlog w.
Proof. unfold delay. destruct (ds_add _ _) as [d i] eqn:A. simpl. apply log_delay_cancel. Qed.
Lemma log_finish_exec r w : qlog (finish_exec cl r w) = qlog w.
Proof. unfold finish_exec. simpl. apply log_delay_cancel. Qed.

Lemma done_pop_q r rest w :
  q (done_pop cl r rest w) =
  set_requests rest (if decide (cancel_till (q w) = Some r) then set_till None (q w) else q w).
Proof. unfold done_pop. cbn [q note_q with_q]. rewrite q_finish_exec. by case_decide. Qed.
Lemma done_pop_log r rest w : qlog (done_pop cl r rest w) = qlog w ++ [EvDone r].
Proof. unfold done_pop. cbn [qlog note_q with_q]. rewrite log_finish_exec. by case_decide. Qed.

Ltac lock_arith :=
  repeat match goal with Hl : _ = true → (1 ≤ _)%nat |- _ => simpl in Hl; try specialize (Hl eq_refl) end;
  rewrite ?fmap_cons, ?locks_cons; simpl; split_and?; try done;
  rewrite ?locks_cons; simpl; change (locks []) with 0%nat; try lia.

(** How a statement changes the lock and what it leaves to be run. *)
Lemma qbody_locks c w w' cs :
  qbody cl c w = (w', Calls cs) → (lock_frame (Frame c) = true → 1 ≤ locked (q w))%nat →
  (locked (q w') + (if lock_frame (Frame c) then 1 else 0) =
   locked (q w) + locks (Frame <$> cs))%nat ∧
  protected (Frame (Exn:=Exn) <$> cs).
Proof.
  intros Hb Hl. destruct c as [[r|r f|pre post till|r u|r|u]|u|r| |r f| | | |g p|g p|cur g p|g p| | | | |];
    simpl in Hb.
  - unfold push in Hb. case_decide; injection Hb as <- <-; simpl; split; auto; done.
  - unfold done in Hb. destruct (requests (q w)) as [|h rest]; [done|].
    case_decide; [|done]. pose proof (done_pop_q r rest w) as Q.
    generalize dependent (done_pop cl r rest w). intros w0 Hb Q.
    assert (locked (q w0) = locked (q w)) as L by (rewrite Q; by case_decide). clear Q.
    case_decide; [|case_decide]; injection Hb as <- <-; unfold push_finalized;
      cbn [q with_q note_q]; rewrite ?q_delay; simpl; rewrite L;
      split_and!; try done; rewrite ?locks_cons; simpl; lia.
  - injection Hb as <- <-. lock_arith.
  - injection Hb as <- <-. rewrite q_delay. lock_arith.
  - injection Hb as <- <-. rewrite q_delay_cancel. lock_arith.
  - injection Hb as <- <-. lock_arith.
  - destruct (v_code cl u (q w) (ext w)) as [x [l|e|]]; simpl in Hb; try done.
    injection Hb as <- <-. rewrite <-(app_nil_r (Frame <$> _)), locks_client.
    split; [by lock_arith|]. by apply protected_client.
  - injection Hb as <- <-. lock_arith.
  - unfold resume in Hb. destruct (requests (q w)) as [|h t]; [|destruct (locked (q w)) eqn:L];
      simpl in Hb; injection Hb as <- <-; simpl; rewrite ?L; lock_arith.
  - destruct (finalized_requests (q w)); [done|]. case_decide; [|done].
    injection Hb as <- <-. lock_arith.
  - injection Hb as <- <-. lock_arith.
  - injection Hb as <- <-. lock_arith.
  - unfold cancel_finalized in Hb. destruct (finalized_requests (q w)); simpl in Hb;
      injection Hb as <- <-; simpl; rewrite ?q_delay_cancel; lock_arith.
  - destruct (requests (q w)), (cancel_till (q w)); injection Hb as <- <-; lock_arith.
  - destruct (requests (q w)); [done|]. injection Hb as <- <-. lock_arith.
  - case_decide; [done|]. destruct (cancel_till (q w)); [case_decide|];
      injection Hb as <- <-; lock_arith.
  - injection Hb as <- <-. case_decide; lock_arith.
  - injection Hb as <- <-. lock_arith.
  - injection Hb as <- <-. lock_arith.
  - injection Hb as <- <-. lock_arith.
  - injection Hb as <- <-. lock_arith.
  - destruct (keepers w) as [|[|e l] ks]; simpl in Hb; try done; injection Hb as <- <-;
      lock_arith.
Qed.

Lemma qbody_throws c w w' e :
  qbody cl c w = (w', Throws e) →
  lock_frame (Frame c) = false ∧ q w' = q w ∧ (qlog w' = qlog w ∧ loop w' = loop w) ∧ c ≠ EtryEnd.
Proof.
  intros Hb. destruct c as [[r|r f|pre post till|r u|r|u]|u|r| |r f| | | |g p|g p|cur g p|g p| | | | |];
    cbn [qbody] in Hb; unfold ret_calls in Hb; try discriminate Hb.
  - unfold done in Hb. destruct (requests (q w)); [done|].
    repeat (case_decide; try discriminate Hb).
  - destruct (v_code cl u (q w) (ext w)) as [x [l|e'|]]; simpl in Hb; try done.
    by injection Hb as <- <-.
  - destruct (finalized_requests (q w)); [done|]. by case_decide.
  - by destruct (requests (q w)), (cancel_till (q w)).
  - by destruct (requests (q w)).
  - case_decide; [done|]. destruct (cancel_till (q w)); [|done]. by case_decide.
  - by injection Hb as <- _.
Qed.

Lemma locks_app k1 k2 : locks (k1 ++ k2) = (locks k1 + locks k2)%nat.
Proof. induction k1 as [|f k1 IH]; simpl; [done|]. rewrite !locks_cons, IH. lia. Qed.

Lemma protected_app k1 k2 :
  protected k1 → protected k2 → (∀ f, head k2 = Some f → cancel_frame f = false) →
  protected (k1 ++ k2).
Proof.
  intros H1 H2 Hh. induction k1 as [|a [|b k1] IH]; simpl; [done| |].
  - apply protected_cons; [done|]. auto.
  - destruct H1 as [Hab H1]. split; [done|]. by apply IH.
Qed.

Lemma locks_ge f k : lock_frame f = true → (1 ≤ locks (f :: k))%nat.
Proof. intros L. rewrite locks_cons, L. lia. Qed.

Lemma lock_inv_step (c c' : qconf) :
  lock_inv c → step qprog c = Some c' → lock_inv c'.
Proof.
  intros Hinv Hstep. destruct c as [[|f k] w [|e|]]; simpl in *; try done;
    unfold step in Hstep; simpl in Hstep;
    destruct Hinv as (Hlock & Hprot & Hunw); try done; simpl in *;
    destruct (protected_cons_inv _ _ Hprot) as [Hk Hhead].
  - destruct f as [c|e]; simpl in Hstep; [|injection Hstep as <-].
    + destruct (qbody cl c w) as [w' [cs|e|]] eqn:B; simpl in Hstep; injection Hstep as <-.
      * destruct (qbody_locks c w w' cs B) as [L P].
        { intros Lf. rewrite Hlock. by apply locks_ge. }
        rewrite locks_cons in Hlock.
        intros _. simpl. split; [rewrite locks_app; destruct (lock_frame (Frame c)); lia|].
        split; [|done]. destruct Hhead as [[= ->]|Hhead]; [|by apply protected_app].
        simpl in B. injection B as <- <-. done.
      * destruct (qbody_throws c w w' e B) as (L & Q & _ & Ne).
        rewrite locks_cons, L in Hlock. intros _. simpl. rewrite Q. split; [lia|].
        split; [done|]. intros e' f [= <-] Hf. destruct Hhead as [[= ->]|Hhead]; [done|].
        by apply Hhead.
      * intros []. done.
    + rewrite locks_cons in Hlock. simpl in Hlock. intros _. simpl. split; [lia|]. split; [done|].
      intros e' f [= <-] Hf. destruct Hhead as [|Hhead]; [done|]. by apply Hhead.
  - specialize (Hunw e f eq_refl eq_refl).
    assert (f = Frame DoneGuard ∨ (f = Frame EtryEnd ∨ f = Frame LtryEnd) ∨
      (lock_frame f = false ∧ f ≠ Frame EtryEnd ∧
       ∃ w', funwind cl f e w = (w', Throws e) ∧ q w' = q w)) as [-> | [[-> | ->] | (L & Ne & w' & B & Q)]].
    { destruct f as [c|e']; [|right; right; eauto].
      destruct c; simpl in Hunw; try done; auto; right; right; eauto. }
    + simpl in Hstep. injection Hstep as <-. rewrite locks_cons in Hlock. simpl in Hlock. intros _. simpl.
      split; [rewrite !locks_cons; simpl; lia|]. split; [|done].
      destruct Hhead as [|Hhead]; [done|].
      apply (protected_app [Frame Resume; Frame DecRecursion; Rethrow e]); [|done|done].
      by split_and!.
    + simpl in Hstep. injection Hstep as <-. rewrite locks_cons in Hlock. by intros _.
    + simpl in Hstep. injection Hstep as <-. rewrite locks_cons in Hlock. by intros _.
    + rewrite B in Hstep. simpl in Hstep. injection Hstep as <-.
      rewrite locks_cons, L in Hlock. intros _. simpl. rewrite Q. split; [lia|].
      split; [done|]. intros e' f' [= <-] Hf. destruct Hhead as [|Hhead]; [done|]. by apply Hhead.
Qed.

Lemma closure_calls_locks x :
  locks (Frame <$> closure_calls x) = 0%nat ∧ protected (Frame (Exn:=Exn) <$> closure_calls x).
Proof. destruct x as [r f []|u]; simpl; rewrite ?locks_cons; done. Qed.

Lemma lock_inv_reachable (c : qconf) :
  reachable qprog queue_initial queue_input c → lock_inv c.
Proof.
  induction 1 as [w (d & x & _ & ->)|c c' _ IH Hstep|w m cs w' _ IH Hm Hin].
  - intros _. done.
  - by eapply lock_inv_step.
  - destruct (IH Hm) as (Hl & _ & _). simpl in Hl.
    intros _. simpl. destruct Hin as [(i & x & _ & -> & ->)|(u & -> & ->)]; simpl.
    + destruct (closure_calls_locks x) as [-> ?]. done.
    + rewrite locks_cons. done.
Qed.

(** *** First in, first out, one at a time *)

(** What a pending frame relies on, [b] saying whether the front request is
    running: nobody runs under the lock of [done], and after the loop of
    [cancel]; before that loop a running request is below [cancel_till]. *)
Definition frame_ok (b : bool) (qq : queue) (f : frame U Exn) : Prop :=
  match f with
  | Frame (DoneGuard | CancelPost _ _ | CancelEnd | Resume) => b = false
  | Frame (CancelTest _ _) => b = true → cancel_till qq ≠ None
  | Frame (CancelCheck cur _ _) => head (requests qq) = Some cur ∨ b = false
  | _ => True
  end.

Lemma frame_ok_idle qq f : frame_ok false qq f.
Proof. destruct f as [[]|]; simpl; auto; done. Qed.

Lemma frame_ok_keep b qq qq' f :
  (b = true → head (requests qq') = head (requests qq) ∧
              (cancel_till qq ≠ None → cancel_till qq' ≠ None)) →
  frame_ok b qq f → frame_ok b qq' f.
Proof.
  destruct b; [|intros; apply frame_ok_idle]. intros Hq. destruct (Hq eq_refl) as [Hh Ht].
  destruct f as [[]|]; simpl; auto. by rewrite Hh.
Qed.

Lemma frame_ok_free b qq f : lock_frame f = false → f ≠ Frame Resume → frame_ok b qq f.
Proof. destruct f as [[]|]; simpl; done. Qed.

Lemma locks_zero k f : locks k = 0%nat → f ∈ k → lock_frame f = false.
Proof.
  induction k as [|g k IH]; [intros _ H1; by apply not_elem_of_nil in H1|].
  rewrite locks_cons. destruct (lock_frame g) eqn:L; [done|].
  intros Hk [->|Hf]%elem_of_cons; auto.
Qed.

Definition split_free (l : list qevent) : Prop := ∀ r, EvSplit r ∉ l.

(** [b]: the front request runs; [k]: the pending frames. *)
Definition fifo_ok (b : bool) k w : Prop :=
  serve_all (mkServer [] false) (qlog w) = Some (mkServer (requests (q w)) b) ∧
  (b = true → requests (q w) ≠ []) ∧
  Forall (frame_ok b (q w)) k ∧
  (∀ r f i, (i, DelayedDone r f true) ∉ ds_waiting (loop w)).

Lemma delay_cancel_waiting r w x : x ∈ ds_waiting (loop (delay_cancel r w)) → x ∈ ds_waiting (loop w).
Proof. unfold delay_cancel. destruct (delay_id w !! r); simpl; [apply ds_cancel_waiting|done]. Qed.

Lemma finish_exec_waiting r w x : x ∈ ds_waiting (loop (finish_exec cl r w)) → x ∈ ds_waiting (loop w).
Proof. unfold finish_exec. apply delay_cancel_waiting. Qed.

Lemma done_pop_waiting r rest w x :
  x ∈ ds_waiting (loop (done_pop cl r rest w)) → x ∈ ds_waiting (loop w).
Proof.
  unfold done_pop. cbn [loop note_q with_q]. intros Hx%finish_exec_waiting. by case_decide.
Qed.

Lemma delay_waiting r (y : closure U) w i x :
  (i, x) ∈ ds_waiting (loop (delay r y w)) → (i, x) ∈ ds_waiting (loop w) ∨ x = y.
Proof.
  unfold delay. destruct (ds_add y (loop (delay_cancel r w))) as [d j] eqn:A. simpl.
  intros Hx. pose proof (ds_add_waiting y (loop (delay_cancel r w)) (i, x)) as L.
  rewrite A in L. simpl in L.
  destruct (L Hx) as [Hw|[= -> ->]]; [left; by eapply delay_cancel_waiting|by right].
Qed.

(** The requests after [exec] of the front: it runs now. *)
Lemma fifo_exec r w k :
  fifo_ok false k w → head (requests (q w)) = Some r →
  (∀ f, f ∈ k → lock_frame f = false ∧ f ≠ Frame Resume) →
  fifo_ok true k (note_q (EvExec r) w).
Proof.
  intros (Hs & _ & _ & Hw) Hh Hk. split_and!; simpl; [|by destruct (requests (q w))| |done].
  - rewrite serve_all_snoc, Hs. simpl. by rewrite decide_True.
  - apply Forall_forall. intros f Hf. destruct (Hk f Hf). by apply frame_ok_free.
Qed.

Lemma fifo_done r rest w k :
  requests (q w) = r :: rest → (∃ b, fifo_ok b k w) → fifo_ok false k (done_pop cl r rest w).
Proof.
  intros Hr (b & Hs & _ & _ & Hw). unfold fifo_ok. rewrite done_pop_log, done_pop_q.
  split_and!; [|done| |].
  - rewrite serve_all_snoc, Hs, Hr. simpl. by rewrite decide_True.
  - apply Forall_true. intros. apply frame_ok_idle.
  - intros r' f i Hx. eapply Hw. by eapply done_pop_waiting.
Qed.

Lemma fifo_same b k w w' :
  fifo_ok b k w → qlog w' = qlog w → requests (q w') = requests (q w) →
  (b = true → cancel_till (q w) ≠ None → cancel_till (q w') ≠ None) →
  (∀ r f i, (i, DelayedDone r f true) ∉ ds_waiting (loop w')) →
  fifo_ok b k w'.
Proof.
  intros (Hs & Hb & Hk & _) Hl Hr Ht Hw. split_and!; rewrite ?Hl, ?Hr; try done.
  eapply Forall_impl; [exact Hk|]. intros f. apply frame_ok_keep. rewrite Hr. auto.
Qed.

Lemma fifo_push r b k w :
  fifo_ok b k w → fifo_ok b k (note_q (EvPush r) (with_q (set_requests (requests (q w) ++ [r])) (with_async r false w))).
Proof.
  intros (Hs & Hb & Hk & Hw). split_and!; simpl; [|by destruct (requests (q w))| |done].
  - by rewrite serve_all_snoc, Hs.
  - eapply Forall_impl; [exact Hk|]. intros f. apply frame_ok_keep. intros E'.
    specialize (Hb E'). simpl. by destruct (requests (q w)).
Qed.

(** The frames may change as long as they stay consistent. *)
Lemma fifo_frames b k k' w : fifo_ok b k w → Forall (frame_ok b (q w)) k' → fifo_ok b k' w.
Proof. intros (Hs & Hb & _ & Hw) Hk. by split_and!. Qed.

Lemma fifo_tail b f k w : fifo_ok b (f :: k) w → frame_ok b (q w) f ∧ fifo_ok b k w.
Proof.
  intros (Hs & Hb & Hk & Hw). apply Forall_cons_1 in Hk as [Hf Hk]. by split_and!.
Qed.

Lemma fifo_app b k1 k2 w :
  fifo_ok b k2 w → Forall (frame_ok b (q w)) k1 → fifo_ok b (k1 ++ k2) w.
Proof.
  intros Hk H1. apply (fifo_frames _ _ _ _ Hk). apply Forall_app. split; [done|].
  by destruct Hk as (_ & _ & ? & _).
Qed.

Lemma frame_ok_code b qq (cs : list (qapi U + U)) :
  Forall (frame_ok b qq) (Frame (Exn:=Exn) <$> ((λ c, match c with inl a => CApi a | inr u => CCode u end) <$> cs)).
Proof. induction cs as [|[] cs IH]; constructor; done. Qed.

(** A statement that makes the loop wait for a closure without [resume()]. *)
Lemma fifo_delay b k r (x : closure U) w :
  fifo_ok b k w → (∀ r' f, x ≠ DelayedDone r' f true) → fifo_ok b k (delay r x w).
Proof.
  intros Hk Hx. pose proof Hk as (_ & _ & _ & Hw).
  apply (fifo_same b k w); rewrite ?log_delay, ?q_delay; try done.
  intros r' f i [?|<-]%delay_waiting; [by eapply Hw|by eapply Hx].
Qed.

Lemma fifo_later b k w r n : fifo_ok b k w → fifo_ok b k (note_q (EvLater r n) w).
Proof. intros (Hs & Hb & Hk & Hw). split_and!; try done. simpl. by rewrite serve_all_snoc, Hs. Qed.

Lemma fifo_delay_cancel b k r w : fifo_ok b k w → fifo_ok b k (delay_cancel r w).
Proof.
  intros Hk. pose proof Hk as (_ & _ & _ & Hw).
  apply (fifo_same b k w); rewrite ?log_delay_cancel, ?q_delay_cancel; try done.
  intros r' f i ?%delay_cancel_waiting. by eapply Hw.
Qed.

(** Nothing of the queue that the invariant looks at has changed. *)
Lemma fifo_quiet b k w (f : queue → queue) ks a x :
  fifo_ok b k w → requests (f (q w)) = requests (q w) →
  (b = true → cancel_till (q w) ≠ None → cancel_till (f (q w)) ≠ None) →
  fifo_ok b k (mkWorld (f (q w)) a (delay_id w) (loop w) ks x (qlog w)).
Proof.
  intros Hk Hr Ht. pose proof Hk as (_ & _ & _ & Hw). by apply (fifo_same b k w).
Qed.

Definition fifo_next (k : list (frame U Exn)) w : Prop :=
  ∃ b, fifo_ok b k w ∧ Frame Resume ∉ tail k.

Lemma unlocked_frames k :
  locks k = 0%nat → Frame Resume ∉ k → ∀ f, f ∈ k → lock_frame f = false ∧ f ≠ Frame Resume.
Proof. intros Hl Hr f Hf. split; [by eapply locks_zero|]. by intros ->. Qed.

Lemma fifo_next_intro b (cs : list (qcall U)) k w :
  fifo_ok b k w → Forall (frame_ok b (q w)) (Frame (Exn:=Exn) <$> cs) → Resume ∉ tail cs →
  Frame Resume ∉ k → fifo_next ((Frame <$> cs) ++ k) w.
Proof.
  intros Hk Hcs Ht Hr. exists b. split; [by apply fifo_app|].
  destruct cs as [|c cs]; simpl.
  - intros Hin. apply Hr. by destruct k; simpl in *; [|right].
  - rewrite elem_of_app. intros [(x & [= <-] & Hx)%list_elem_of_fmap|]; done.
Qed.

Ltac frames := repeat constructor; simpl; auto.
Ltac no_resume := simpl; rewrite ?not_elem_of_cons; repeat split; try done; apply not_elem_of_nil.

Lemma fifo_push_step r b k w w' cs :
  push cl r w = (w', cs) → fifo_ok b k w → locked (q w) = locks k → Frame Resume ∉ k →
  fifo_next ((Frame <$> cs) ++ k) w'.
Proof.
  intros Hb Hk Hl Hr. unfold push in Hb.
  assert (requests (q w) = [] → b = false) as N.
  { intros N. destruct Hk as (_ & Hb' & _). destruct b; [|done]. by destruct (Hb' eq_refl). }
  apply (fifo_push r) in Hk. revert Hb. cbn [q with_async]. case_decide as D0.
  - destruct D0 as [D1 D2]. cbn [q note_q with_q with_async] in D1, D2.
    simpl in D1, D2. rewrite length_app in D1. rewrite N in Hk by (destruct (requests (q w)); [done|simpl in D1; lia]).
    intros [= <- <-]. rewrite Hl in D2.
    apply (fifo_next_intro true); [|by frames|by no_resume|done].
    apply fifo_exec; [done| |by apply unlocked_frames].
    simpl. destruct (requests (q w)); [done|simpl in D1; lia].
  - intros [= <- <-]. apply (fifo_next_intro b); [done|by frames|by no_resume|done].
Qed.

Lemma fifo_done_step r f b k w w' cs :
  done cl r f w = (w', Calls cs) → fifo_ok b k w → Frame Resume ∉ k → split_free (qlog w') →
  fifo_next ((Frame <$> cs) ++ k) w'.
Proof.
  intros Hb Hk Hr Hsplit. unfold done in Hb. destruct (requests (q w)) as [|h rest] eqn:R; [done|].
  case_decide as E1; [subst h|done].
  pose proof (fifo_done r rest w k R (ex_intro _ b Hk)) as Hp.
  generalize dependent (done_pop cl r rest w). intros w0 Hb Hp.
  case_decide; [|case_decide]; injection Hb as <- <-.
  - destruct (Hsplit r). simpl. rewrite log_delay. simpl. apply elem_of_app. right. by left.
  - apply (fifo_next_intro false); [|by frames|by no_resume|done].
    by apply (fifo_quiet false k w0 (set_locked (S (locked (q w0))))).
  - apply (fifo_next_intro false); [|by frames|by no_resume|done].
    eapply (fifo_later false). apply fifo_delay; [|done].
    by apply (fifo_quiet false k w0 (set_finalized _)).
Qed.

Lemma fifo_resume_step b k w w' cs :
  resume cl w = (w', cs) → fifo_ok b (Frame Resume :: k) w → locked (q w) = locks k →
  Frame Resume ∉ k → fifo_next ((Frame <$> cs) ++ k) w'.
Proof.
  intros Hb Hk Hl Hr. apply fifo_tail in Hk as [Hf Hk]. simpl in Hf. subst b. unfold resume in Hb.
  destruct (requests (q w)) as [|r rest] eqn:R; [|destruct (locked (q w)) eqn:L];
    injection Hb as <- <-; (apply (fifo_next_intro _ _ _ _) || idtac).
  - apply (fifo_next_intro false); [done|by frames|by no_resume|done].
  - apply (fifo_next_intro true); [|by frames|by no_resume|done].
    apply fifo_exec; [done|by rewrite R|]. by apply unlocked_frames.
  - apply (fifo_next_intro false); [done|by frames|by no_resume|done].
Qed.

(** The statements of the loops of [cancel], and the rest. *)
Lemma fifo_body_step c b k w w' cs :
  qbody cl c w = (w', Calls cs) → fifo_ok b (Frame c :: k) w →
  locked (q w) = locks (Frame c :: k) → Frame Resume ∉ k → split_free (qlog w') →
  fifo_next ((Frame <$> cs) ++ k) w'.
Proof.
  intros Hb Hk Hl Hr Hs. rewrite locks_cons in Hl. pose proof (fifo_tail _ _ _ _ Hk) as [Hf Ht].
  destruct c as [[r|r f|pre post till|r u|r|u]|u|r| |r f| | | |g p|g p|cur g p|g p| | | | |];
    simpl in Hb, Hf, Hl; unfold ret_calls in Hb.
  - destruct (push cl r w) as [w1 cs1] eqn:P. simpl in Hb. injection Hb as <- <-.
    by eapply fifo_push_step.
  - by eapply fifo_done_step.
  - injection Hb as <- <-. apply (fifo_next_intro b); [| |by no_resume|done].
    + apply (fifo_quiet b k w (λ q0, set_till _ (set_locked _ q0))); [done|done|].
      intros Eb _. destruct Ht as (_ & Hne & _). specialize (Hne Eb). simpl.
      destruct till; [done|]. by rewrite last_None.
    + frames. destruct b; [|done]. intros _. destruct till; [done|].
      destruct Ht as (_ & Hne & _). rewrite last_None. by apply Hne.
  - injection Hb as <- <-. apply (fifo_next_intro b); [by apply fifo_delay|by frames|by no_resume|done].
  - injection Hb as <- <-. apply (fifo_next_intro b); [by apply fifo_delay_cancel|by frames|by no_resume|done].
  - injection Hb as <- <-. apply (fifo_next_intro b); [done|by frames|by no_resume|done].
  - destruct (v_code cl u (q w) (ext w)) as [x [l|e|]]; simpl in Hb; try done. injection Hb as <- <-.
    apply (fifo_next_intro b); [by apply (fifo_quiet b k w (λ q, q))|apply frame_ok_code| |done].
    intros Hin. assert (Resume ∈ (λ c : qapi U + U, match c with inl a => CApi a | inr u0 => CCode u0 end) <$> l) as Hin'.
    { destruct l; simpl in *; [by apply not_elem_of_nil in Hin|by right]. }
    by apply list_elem_of_fmap in Hin' as ([] & ? & _).
  - injection Hb as <- <-. apply (fifo_next_intro b); [by apply (fifo_quiet b k w (λ q, q))|by frames|by no_resume|done].
  - destruct (resume cl w) as [w1 cs1] eqn:P. simpl in Hb. injection Hb as <- <-.
    by eapply fifo_resume_step.
  - destruct (finalized_requests (q w)); [done|]. case_decide; [|done]. injection Hb as <- <-.
    apply (fifo_next_intro b); [by apply (fifo_quiet b k w (set_finalized _))|by frames|by no_resume|done].
  - injection Hb as <- <-. subst b. apply (fifo_next_intro false); [|by frames|by no_resume|done].
    by apply (fifo_quiet false k w (λ q, set_recursion _ (set_locked _ q))).
  - injection Hb as <- <-. apply (fifo_next_intro b); [|by frames|by no_resume|done].
    by apply (fifo_quiet b k w (λ q, set_recursion _ q)).
  - unfold cancel_finalized in Hb. destruct (finalized_requests (q w)); injection Hb as <- <-.
    + apply (fifo_next_intro b); [done|by frames|by no_resume|done].
    + apply (fifo_next_intro b); [|by frames|by no_resume|done].
      apply fifo_delay_cancel. by apply (fifo_quiet b k w (set_finalized _)).
  - destruct (requests (q w)) as [|h l] eqn:R; [|destruct (cancel_till (q w)) as [t|] eqn:T]; injection Hb as <- <-.
    + apply (fifo_next_intro b); [done| |by no_resume|done]. frames.
      destruct b; [|done]. destruct Ht as (_ & Hne & _). by destruct (Hne eq_refl).
    + apply (fifo_next_intro b); [done|by frames|by no_resume|done].
    + apply (fifo_next_intro b); [done| |by no_resume|done]. frames.
      destruct b; [|done]. by destruct (Hf eq_refl).
  - destruct (requests (q w)) as [|h l] eqn:R; [done|injection Hb as <- <-].
    apply (fifo_next_intro b); [done| |by no_resume|done]. repeat constructor. simpl. by rewrite R.
  - case_decide; [done|]. destruct Hf as [|Eb]; [done|]. subst b.
    destruct (cancel_till (q w)); [case_decide|]; injection Hb as <- <-;
      (apply (fifo_next_intro false); [done|by frames|by no_resume|done]).
  - injection Hb as <- <-. subst b. apply (fifo_next_intro false); [done| | |done]; case_decide; first [by frames|by no_resume].
  - injection Hb as <- <-. apply (fifo_next_intro b); [|by frames|by no_resume|done].
    by apply (fifo_quiet b k w (λ q, set_gen _ q)).
  - injection Hb as <- <-. subst b. apply (fifo_next_intro false); [|by frames|by no_resume|done].
    by apply (fifo_quiet false k w (λ q, set_till _ (set_locked _ q))).
  - injection Hb as <- <-. apply (fifo_next_intro b); [done|by frames|by no_resume|done].
  - injection Hb as <- <-. apply (fifo_next_intro b); [done|by frames|by no_resume|done].
  - destruct (keepers w) as [|[|e l] ks]; try done; injection Hb as <- <-;
      (apply (fifo_next_intro b); [by apply (fifo_quiet b k w (λ q, q))|by frames|by no_resume|done]).
Qed.

Definition fifo_inv (c : qconf) : Prop :=
  cmode c ≠ Aborted → split_free (qlog (mem c)) → fifo_next (stack c) (mem c).

(** The log only grows. *)
Lemma qbody_log c w : ∃ l, qlog (qbody cl c w).1 = qlog w ++ l.
Proof.
  assert (∃ l, qlog w = qlog w ++ l) as Hnil by (exists []; by rewrite app_nil_r).
  destruct c as [[r|r f|pre post till|r u|r|u]|u|r| |r f| | | |g p|g p|cur g p|g p| | | | |]; simpl; try done.
  - unfold push. case_decide; simpl; rewrite <-?app_assoc; eauto.
  - unfold done. destruct (requests (q w)); [done|]. case_decide; [|done].
    pose proof (done_pop_log r l w) as L. generalize dependent (done_pop cl r l w). intros w0 L.
    repeat case_decide; simpl; rewrite ?log_delay; simpl; rewrite L, <-?app_assoc; eauto.
  - rewrite log_delay. done.
  - rewrite log_delay_cancel. done.
  - destruct (v_code cl u (q w) (ext w)); done.
  - unfold resume. destruct (requests (q w)); [done|]. destruct (locked (q w)); simpl; eauto.
  - destruct (finalized_requests (q w)); [done|]. by case_decide.
  - unfold cancel_finalized. destruct (finalized_requests (q w)); simpl; rewrite ?log_delay_cancel; done.
  - by destruct (requests (q w)), (cancel_till (q w)).
  - by destruct (requests (q w)).
  - case_decide; [done|]. destruct (cancel_till (q w)); [by case_decide|done].
Qed.

Lemma split_free_app l l' : split_free (l ++ l') → split_free l.
Proof. intros Hs r Hr. apply (Hs r), elem_of_app. by left. Qed.

Lemma fifo_inv_step (c c' : qconf) :
  lock_inv c → fifo_inv c → step qprog c = Some c' → fifo_inv c'.
Proof.
  intros Hlock Hinv Hstep. destruct c as [[|f k] w [|e|]]; try done;
    unfold step in Hstep; cbn [stack cmode mem body unwind queue_program] in Hstep;
    destruct Hlock as (Hl & _ & Hunw); try done; simpl in Hl;
    unfold fifo_inv in Hinv; simpl in Hinv; intros Hm Hsf.
  - destruct f as [c|e].
    + unfold fbody in Hstep. pose proof (qbody_log c w) as [l L].
      destruct (qbody cl c w) as [w' [cs|e|]] eqn:B; injection Hstep as <-; simpl in *; [| |done].
      * rewrite L in Hsf. destruct Hinv as (b & Hk & Hr); [done|by eapply split_free_app|].
        eapply (fifo_body_step c b k w w' cs); try done. by rewrite L.
      * destruct (qbody_throws c w w' e B) as (_ & Qq & [Q Ql] & _).
        destruct Hinv as (b & Hk & Hr); [done|by rewrite <-Q|].
        exists b. split; [|by contradict Hr; apply elem_of_tail].
        apply fifo_tail in Hk as [_ Hk]. pose proof Hk as (_ & _ & _ & Hw).
        apply (fifo_same b k w); rewrite ?Qq, ?Q, ?Ql; done.
    + injection Hstep as <-. simpl in *. destruct Hinv as (b & Hk & Hr); [done|done|].
      apply fifo_tail in Hk as [_ Hk]. exists b. split; [done|]. by contradict Hr; apply elem_of_tail.
  - assert (split_free (qlog w)) as Hsf0.
    { destruct f as [[]|]; simpl in Hstep; injection Hstep as <-; done. }
    destruct Hinv as (b & Hk & Hr); [done|done|].
    apply fifo_tail in Hk as [Hf Hk]. simpl in Hr.
    assert (Frame Resume ∉ tail k) as Hr' by (contradict Hr; by apply elem_of_tail).
    destruct f as [d|]; [|injection Hstep as <-; simpl in *; exists b; done].
    destruct d; simpl in Hstep; injection Hstep as <-; simpl; try (exists b; done).
    + simpl in Hf. subst b. exists false. split.
      * apply (fifo_app _ [_; _; _]); [|by repeat constructor].
        by apply (fifo_quiet false k w (λ q, set_recursion _ (set_locked _ q))).
      * simpl. rewrite !not_elem_of_cons. done.
Qed.

Lemma fifo_inv_reachable (c : qconf) :
  reachable qprog queue_initial queue_input c → fifo_inv c.
Proof.
  intros Hreach. induction Hreach as [w (d & x & Hd & ->)|c c' Hc IH Hstep|w m cs w' Hw IH Hm Hin].
  - intros _ _. exists false. split; [|by apply not_elem_of_nil]. by split_and!.
  - eapply fifo_inv_step; eauto using lock_inv_reachable.
  - intros _ Hsf. simpl in *.
    assert (qlog w' = qlog w) as L by by destruct Hin as [(i & x & _ & -> & ->)|(u & -> & ->)].
    rewrite L in Hsf. destruct (IH Hm Hsf) as (b & Hk & _). simpl in Hk.
    destruct Hin as [(i & x & Hx & -> & ->)|(u & -> & ->)]; simpl.
    + pose proof Hk as (_ & _ & _ & Hw0). rewrite <-(app_nil_r (Frame <$> closure_calls x)).
      apply (fifo_next_intro b); [| | |by apply not_elem_of_nil].
      * apply (fifo_same b [] w); try done. intros r f j ?%ds_cancel_waiting. by eapply Hw0.
      * destruct x as [r f []|u]; simpl; [by destruct (Hw0 r f i)|..]; by repeat constructor.
      * destruct x as [r f []|u]; simpl; [by destruct (Hw0 r f i)|..]; apply not_elem_of_nil.
    + exists b. split; [|by apply not_elem_of_nil]. apply (fifo_app _ [_]); [done|]. by repeat constructor.
Qed.

(** *** No lost wake-up *)

Definition stall_free (l : list qevent) : Prop := ∀ r n, EvLater r (S n) ∉ l.

(** Waiting requests are run now, or somebody is about to look at them. *)
Definition wake_ok (b : bool) (k : list (frame U Exn)) w : Prop :=
  b = true ∨ requests (q w) = [] ∨ (0 < locked (q w))%nat ∨ head k = Some (Frame Resume).

Definition wake_inv (c : qconf) : Prop :=
  cmode c ≠ Aborted → split_free (qlog (mem c)) → stall_free (qlog (mem c)) →
  (cmode c ≠ Normal → head (stack c) ≠ Some (Frame Resume)) ∧
  ∀ b, fifo_ok b (stack c) (mem c) → wake_ok b (stack c) (mem c).

Lemma fifo_unique b b' k k' w w' :
  fifo_ok b k w → fifo_ok b' k' w' → qlog w' = qlog w → b' = b.
Proof. intros (Hs & _) (Hs' & _) L. rewrite L, Hs in Hs'. by injection Hs'. Qed.

Lemma wake_same b b' c k k' w w' :
  fifo_ok b (Frame c :: k) w → wake_ok b (Frame c :: k) w → c ≠ Resume → fifo_ok b' k' w' →
  qlog w' = qlog w → requests (q w') = requests (q w) → locked (q w') = locked (q w) →
  wake_ok b' k' w'.
Proof.
  intros Hk Hw Hc Hk' L R K. rewrite (fifo_unique _ _ _ _ _ _ Hk Hk' L). unfold wake_ok in *.
  rewrite R, K. destruct Hw as [?|[?|[?|[= ?]]]]; [by left|right; by left| |done].
  right; right; by left.
Qed.

Lemma wake_body_step c b b' k w w' cs :
  qbody cl c w = (w', Calls cs) → fifo_ok b (Frame c :: k) w → wake_ok b (Frame c :: k) w →
  split_free (qlog w') → stall_free (qlog w') →
  fifo_ok b' ((Frame <$> cs) ++ k) w' → wake_ok b' ((Frame <$> cs) ++ k) w'.
Proof.
  intros Hb Hk Hw Hs Hst Hk'.
  assert (c ≠ Resume → qlog w' = qlog w → requests (q w') = requests (q w) →
    locked (q w') = locked (q w) → wake_ok b' ((Frame <$> cs) ++ k) w') as Same.
  { intros. by eapply (wake_same b b' c k). }
  destruct c as [[r|r f|pre post till|r u|r|u]|u|r| |r f| | | |g p|g p|cur g p|g p| | | | |];
    simpl in Hb; unfold ret_calls in Hb.
  - unfold push in Hb. cbn [q note_q with_q with_async set_requests requests locked] in Hb.
    case_decide as D0; injection Hb as <- <-.
    + left. destruct Hk' as (Hs' & _). simpl in Hs'. rewrite !serve_all_snoc in Hs'.
      destruct Hk as (Hs0 & _). rewrite Hs0 in Hs'. simpl in Hs'. by case_decide; simplify_eq/=.
    + assert (b' = b) as ->.
      { destruct Hk' as (Hs' & _), Hk as (Hs0 & _). simpl in Hs'.
        rewrite serve_all_snoc, Hs0 in Hs'. by injection Hs'. }
      destruct Hw as [?|[N|[?|[= ?]]]]; [by left| |right; right; by left].
      right; right; left. simpl. rewrite N in D0. simpl in D0. lia.
  - unfold done in Hb. destruct (requests (q w)) as [|h rest]; [done|]. case_decide; [|done].
    generalize dependent (done_pop cl r rest w). intros w0 Hb.
    case_decide; [|case_decide]; injection Hb as <- <-.
    + destruct (Hs r). simpl. rewrite log_delay. simpl. apply elem_of_app. right. by left.
    + right; right; left. simpl. lia.
    + right; left. simpl. rewrite q_delay. simpl.
      destruct (requests (q w0)) as [|r' l] eqn:R; [done|].
      destruct (Hst r (length l)). simpl. apply elem_of_app. right. unfold queue_size. rewrite R. by left.
  - injection Hb as <- <-. right; right; left. simpl. lia.
  - injection Hb as <- <-. apply Same; rewrite ?log_delay, ?q_delay; done.
  - injection Hb as <- <-. apply Same; rewrite ?log_delay_cancel, ?q_delay_cancel; done.
  - injection Hb as <- <-. by apply Same.
  - destruct (v_code cl u (q w) (ext w)) as [x [l|e|]]; simpl in Hb; try done. injection Hb as <- <-.
    by apply Same.
  - injection Hb as <- <-. by apply Same.
  - unfold resume in Hb. destruct (requests (q w)) as [|r rest] eqn:R; [|destruct (locked (q w)) eqn:L];
      injection Hb as <- <-.
    + right; by left.
    + left. destruct Hk' as (Hs' & _), Hk as (Hs0 & _). simpl in Hs'.
      rewrite serve_all_snoc, Hs0 in Hs'. simpl in Hs'. by case_decide; simplify_eq/=.
    + right; right; left. lia.
  - destruct (finalized_requests (q w)); [done|]. case_decide; [|done]. injection Hb as <- <-. by apply Same.
  - injection Hb as <- <-. by do 3 right.
  - injection Hb as <- <-. by apply Same.
  - unfold cancel_finalized in Hb. destruct (finalized_requests (q w)); injection Hb as <- <-;
      apply Same; rewrite ?log_delay_cancel, ?q_delay_cancel; done.
  - destruct (requests (q w)) eqn:R, (cancel_till (q w)); injection Hb as <- <-; by apply Same.
  - destruct (requests (q w)) eqn:R; [done|]; injection Hb as <- <-; by apply Same.
  - case_decide; [done|]. destruct (cancel_till (q w)); [case_decide|]; injection Hb as <- <-; by apply Same.
  - injection Hb as <- <-. by apply Same.
  - injection Hb as <- <-. by apply Same.
  - injection Hb as <- <-. by do 3 right.
  - injection Hb as <- <-. by apply Same.
  - injection Hb as <- <-. by apply Same.
  - destruct (keepers w) as [|[|e l] ks]; try done; injection Hb as <- <-; by apply Same.
Qed.

Lemma stall_free_app l l' : stall_free (l ++ l') → stall_free l.
Proof. intros Hs r n Hr. apply (Hs r n), elem_of_app. by left. Qed.

Lemma head_not_resume k : Frame Resume ∉ k → head k ≠ Some (Frame (Exn:=Exn) (U:=U) Resume).
Proof. destruct k; simpl; [done|]. intros Hr [= ->]. apply Hr. by left. Qed.

Lemma wake_inv_step (c c' : qconf) :
  lock_inv c → fifo_inv c → wake_inv c → step qprog c = Some c' → wake_inv c'.
Proof.
  intros Hlock Hfifo Hwake Hstep. pose proof (fifo_inv_step c c' Hlock Hfifo Hstep) as Hfifo'.
  destruct c as [[|f k] w [|e|]]; try done;
    unfold step in Hstep; cbn [stack cmode mem body unwind queue_program] in Hstep;
    unfold wake_inv in Hwake; simpl in Hwake; intros Hm Hsf Hst.
  - destruct f as [c|e].
    + unfold fbody in Hstep. pose proof (qbody_log c w) as [l L].
      destruct (qbody cl c w) as [w' [cs|e|]] eqn:B; injection Hstep as <-; simpl in *; [| |done].
      * rewrite L in Hsf, Hst. specialize (Hwake ltac:(done) (split_free_app _ _ Hsf) (stall_free_app _ _ Hst)) as [_ Hw].
        split; [done|]. intros b' Hk'.
        destruct (Hfifo ltac:(done) (split_free_app _ _ Hsf)) as (b & Hk & Hr).
        eapply (wake_body_step c b b' k w w' cs); eauto; rewrite L; done.
      * destruct (qbody_throws c w w' e B) as (_ & Qq & [Q Ql] & Ne).
        rewrite Q in Hsf, Hst. destruct (Hwake ltac:(done) Hsf Hst) as [_ Hw].
        destruct (Hfifo ltac:(done) Hsf) as (b & Hk & Hr). simpl in Hr, Hk.
        split; [intros _; by apply head_not_resume|]. intros b' Hk'.
        eapply (wake_same b b' c k); eauto; [|by rewrite Qq|by rewrite Qq].
        intros ->. simpl in B. by destruct (resume cl w) as [].
    + injection Hstep as <-. simpl in *. destruct (Hwake ltac:(done) Hsf Hst) as [_ Hw].
      destruct (Hfifo ltac:(done) Hsf) as (b & Hk & Hr). simpl in Hr, Hk.
      split; [intros _; by apply head_not_resume|]. intros b' Hk'.
      rewrite (fifo_unique _ _ _ _ _ _ Hk Hk' eq_refl).
      destruct (Hw b Hk) as [?|[?|[?|[= ?]]]]; [by left|right; by left|right; right; by left].
  - assert (qlog (mem c') = qlog w ∧ requests (q (mem c')) = requests (q w)) as [L R].
    { destruct f as [[]|]; simpl in Hstep; injection Hstep as <-; done. }
    rewrite L in Hsf, Hst. destruct (Hwake ltac:(done) Hsf Hst) as [Hh Hw].
    destruct (Hfifo ltac:(done) Hsf) as (b & Hk & Hr). simpl in Hr, Hk.
    split.
    { intros Hn. destruct f as [[]|]; simpl in Hstep; injection Hstep as <-; simpl in *;
        try done; by apply head_not_resume. }
    intros b' Hk'. rewrite (fifo_unique _ _ _ _ _ _ Hk Hk' L).
    specialize (Hw b Hk). destruct f as [[]|]; simpl in Hstep; injection Hstep as <-; simpl in *;
      destruct Hw as [?|[?|[?|Hx]]];
      first [by left|by right; left|by right; right; left|by right; right; right
            |by exfalso; apply Hh, Hx].
Qed.

Lemma wake_inv_reachable (c : qconf) :
  reachable qprog queue_initial queue_input c → wake_inv c.
Proof.
  intros Hreach. induction Hreach as [w (d & x & Hd & ->)|c c' Hc IH Hstep|w m cs w' Hw IH Hm Hin].
  - intros _ _ _. split; [done|]. intros b _. by right; left.
  - eapply wake_inv_step; eauto using lock_inv_reachable, fifo_inv_reachable.
  - intros _ Hsf Hst. simpl in *. split; [done|]. intros b Hk.
    assert (qlog w' = qlog w ∧ q w' = q w) as [L Q]
      by by destruct Hin as [(i & x & _ & -> & ->)|(u & -> & ->)].
    rewrite L in Hsf, Hst. destruct (IH Hm Hsf Hst) as [_ Hw0].
    destruct (fifo_inv_reachable _ Hw Hm Hsf) as (b0 & Hk0 & _). simpl in Hw0, Hk0.
    rewrite (fifo_unique _ _ _ _ _ _ Hk0 Hk L). destruct (Hw0 b0 Hk0) as [?|[?|[?|?]]]; [by left| | |done].
    + right; left. by rewrite Q.
    + right; right; left. by rewrite Q.
Qed.
End Invariants.

(** ** Cancelling ends every request, whatever the callbacks throw *)

Section Cancelling.
#[local] Set Default Proof Using "Type*".
Context {X U E Exn D : Type} `{DelayLaws D (closure U)}.
Context (cl : client X U E Exn).
Implicit Types (w : world X Exn D) (k : list (frame U Exn)) (x : X).

Abbreviation qprog := (queue_program cl).

(** Code that makes no call to the queue: it takes the client from one state to
    another, and may throw. *)
Inductive runs : list U → X → X → option Exn → Prop :=
| runs_nil x : runs [] x x None
| runs_code u us vs x x1 x' o :
    (∀ qq, v_code cl u qq x = (x1, Calls (inr <$> vs))) → runs (vs ++ us) x1 x' o → runs (u :: us) x x' o
| runs_throw u us x x1 e : (∀ qq, v_code cl u qq x = (x1, Throws e)) → runs (u :: us) x x1 (Some e).

(** Code that calls [done] for the request, last of all, in a queue that is
    being cancelled. *)
Inductive ends (r : rid) : U → X → U → X → Prop :=
| ends_done u x f x1 :
    (∀ qq, is_Some (cancel_till qq) → v_code cl u qq x = (x1, Calls [inl (Done r f)])) → ends r u x f x1
| ends_code u us u1 x x1 x2 f x' :
    (∀ qq, is_Some (cancel_till qq) → v_code cl u qq x = (x1, Calls (inr <$> (us ++ [u1])))) →
    runs us x1 x2 None → ends r u1 x2 f x' → ends r u x f x'.

(** The cancellation of one request, of all of them, and of the requests whose
    callbacks wait. *)
Inductive finishes (r : rid) (u : U) (x x' : X) : Prop :=
| finishes_intro f x1 o : ends r u x f x1 → runs [f] (v_destroy_impl cl r x1) x' o → finishes r u x x'.

Inductive drains : list rid → X → X → Prop :=
| drains_nil x : drains [] x x
| drains_cons r rest x x1 x' :
    finishes r (v_cancel cl r (canceled_err cl)) x x1 → drains rest x1 x' → drains (r :: rest) x x'.

Inductive notified : list rid → X → X → Prop :=
| notified_nil x : notified [] x x
| notified_cons r rest x x1 o x' :
    runs [v_notify cl r (canceled_err cl)] x x1 o → notified rest x1 x' → notified (r :: rest) x x'.

(** What is done before the loop over the requests: code that leaves the
    requests alone, or the end of the one at the front. *)
Inductive prepares (pre : U) : list rid → X → list rid → X → Prop :=
| prepares_runs l x x' o : runs [pre] x x' o → prepares pre l x l x'
| prepares_done r rest x x' : finishes r pre x x' → prepares pre (r :: rest) x rest x'.

Definition run_mode (o : option Exn) : mode Exn := match o with Some e => Unwinding e | None => Normal end.

Lemma with_ext_with_ext x x' w : with_ext x (with_ext x' w) = with_ext x w.
Proof. done. Qed.
Lemma with_ext_id w : with_ext (ext w) w = w.
Proof. by destruct w. Qed.

Lemma code_step u k w x o :
  v_code cl u (q w) (ext w) = (x, o) →
  step qprog (Config (Frame (CCode u) :: k) w Normal) =
    Some (settle k (with_ext x w, lift_frames (lift_client o))).
Proof. intros V. unfold step, qprog. simpl. by rewrite V. Qed.

Lemma code_unwinds (us : list U) k w e :
  steps qprog (Config (((λ u, Frame (CCode u)) <$> us) ++ k) w (Unwinding e)) (Config k w (Unwinding e)).
Proof.
  induction us as [|u us IH]; [apply steps_refl|]. by eapply steps_cons; [reflexivity|].
Qed.

Lemma code_frames (us : list U) :
  Frame (Exn:=Exn) <$> ((λ c : qapi U + U, match c with inl a => CApi a | inr u => CCode u end) <$> (inr <$> us)) =
  (λ u, Frame (CCode u)) <$> us.
Proof. by rewrite <-!list_fmap_compose. Qed.

Lemma runs_steps us x x' o k w :
  runs us x x' o → ext w = x →
  steps qprog (Config (((λ u, Frame (CCode u)) <$> us) ++ k) w Normal) (Config k (with_ext x' w) (run_mode o)).
Proof.
  intros Hr. revert w. induction Hr as [x|u us vs x x1 x' o V Hr IH|u us x x1 e V]; intros w Hx; simpl.
  - rewrite <-Hx, with_ext_id. apply steps_refl.
  - eapply steps_cons; [apply (code_step u _ w x1 (Calls (inr <$> vs))); by rewrite Hx|].
    specialize (IH (with_ext x1 w) eq_refl). rewrite with_ext_with_ext in IH.
    assert ((λ u, Frame (Exn:=Exn) (CCode u)) <$> (vs ++ us) =
      (Frame <$> ((λ c : qapi U + U, match c with inl a => CApi a | inr u => CCode u end) <$> (inr <$> vs))) ++
      ((λ u, Frame (CCode u)) <$> us)) as Eq by (by rewrite fmap_app, <-!list_fmap_compose).
    rewrite Eq, <-app_assoc in IH. exact IH.
  - eapply steps_cons; [apply (code_step u _ w x1 (Throws e)); by rewrite Hx|]. apply code_unwinds.
Qed.

Lemma ends_steps r u x f x' k w :
  ends r u x f x' → ext w = x → is_Some (cancel_till (q w)) →
  steps qprog (Config (Frame (CCode u) :: k) w Normal) (Config (Frame (CApi (Done r f)) :: k) (with_ext x' w) Normal).
Proof.
  intros He. revert w. induction He as [u x f x1 V|u us u1 x x1 x2 f x' V Hr He IH]; intros w Hx Ht.
  - apply steps_once. apply (code_step u k w x1 (Calls [inl (Done r f)])). rewrite Hx. by apply V.
  - eapply steps_cons; [apply (code_step u k w x1 (Calls (inr <$> (us ++ [u1])))); rewrite Hx; by apply V|].
    pose proof (runs_steps us x1 x2 None (Frame (CCode u1) :: k) (with_ext x1 w) Hr eq_refl) as S1.
    rewrite !with_ext_with_ext in S1. simpl. rewrite code_frames, fmap_app, <-app_assoc.
    eapply steps_trans; [exact S1|]. specialize (IH (with_ext x2 w) eq_refl Ht). by rewrite with_ext_with_ext in IH.
Qed.

(** What [w'] shares with [w] when code has run in an [etry]. *)
Definition kept (ks : list (list Exn)) w w' : Prop :=
  async w' = async w ∧ ∃ l, keepers w' = l :: ks.

Lemma runs_etry us x x' o w l ks k :
  runs us x x' o → ext w = x → keepers w = l :: ks →
  ∃ w', steps qprog (Config (((λ u, Frame (CCode u)) <$> us) ++ Frame EtryEnd :: k) w Normal) (Config k w' Normal) ∧
    kept ks w w' ∧ q w' = q w ∧ qlog w' = qlog w ∧ ext w' = x'.
Proof.
  intros Hr Hx Hks. pose proof (runs_steps us x x' o (Frame EtryEnd :: k) w Hr Hx) as S1.
  destruct o as [e|]; simpl in S1; eexists;
    (split; [eapply steps_trans; [exact S1|]; apply steps_once; reflexivity|]);
    repeat split; simpl; rewrite ?Hks; simpl; eauto.
Qed.

Lemma delay_cancel_keeps r w :
  async (delay_cancel r w) = async w ∧ keepers (delay_cancel r w) = keepers w ∧ ext (delay_cancel r w) = ext w.
Proof. unfold delay_cancel. by destruct (delay_id w !! r). Qed.

Lemma done_pop_keeps r rest w :
  async (done_pop cl r rest w) = async w ∧ keepers (done_pop cl r rest w) = keepers w ∧
  ext (done_pop cl r rest w) = v_destroy_impl cl r (ext w).
Proof.
  unfold done_pop, finish_exec. simpl.
  destruct (delay_cancel_keeps r (if decide (cancel_till (q w) = Some r) then with_q (set_till None) w else w)) as (-> & -> & ->).
  by case_decide.
Qed.

(** The end of [done] while the lock is held elsewhere. *)
Lemma done_guard_steps w k n o :
  locked (q w) = S (S n) →
  steps qprog (Config (Frame DoneGuard :: k) w (run_mode o))
    (Config k (with_q (set_locked (S n)) w) (run_mode o)).
Proof.
  intros Hl. destruct o as [e|]; simpl; (eapply steps_cons; [reflexivity|]).
  - eapply steps_cons; [unfold step, fbody; simpl; unfold resume; simpl; rewrite Hl; simpl;
      by destruct (requests (q w))|].
    eapply steps_cons; [reflexivity|]. eapply steps_cons; [reflexivity|]. simpl.
    replace (with_q _ _) with (with_q (set_locked (S n)) w); [apply steps_refl|].
    unfold with_q, set_locked, set_recursion. simpl. by rewrite Hl.
  - eapply steps_cons; [unfold step, fbody; simpl; unfold resume; simpl; rewrite Hl; simpl;
      by destruct (requests (q w))|].
    eapply steps_cons; [reflexivity|]. simpl.
    replace (with_q _ _) with (with_q (set_locked (S n)) w); [apply steps_refl|].
    unfold with_q, set_locked, set_recursion. simpl. by rewrite Hl.
Qed.

Lemma finishes_etry r u x x' rest w l ks k n :
  finishes r u x x' → ext w = x → is_Some (cancel_till (q w)) →
  requests (q w) = r :: rest → r ∈ async w → (resume_recursion (q w) ≤ SPLIT_RECURSION)%nat →
  locked (q w) = S n → keepers w = l :: ks →
  ∃ w', steps qprog (Config (Frame (CCode u) :: Frame EtryEnd :: k) w Normal) (Config k w' Normal) ∧
    kept ks w w' ∧ qlog w' = qlog w ++ [EvDone r] ∧ ext w' = x' ∧
    q w' = set_requests rest (if decide (cancel_till (q w) = Some r) then set_till None (q w) else q w).
Proof.
  intros [f x1 o He Hf] Hx Ht R A S L Hks.
  pose proof (ends_steps r u x f x1 (Frame EtryEnd :: k) w He Hx Ht) as S0.
  assert (q (with_ext x1 w) = q w ∧ async (with_ext x1 w) = async w ∧ keepers (with_ext x1 w) = keepers w ∧
    ext (with_ext x1 w) = x1 ∧ qlog (with_ext x1 w) = qlog w) as (Vq & Va & Vk & Vx & Vl) by done.
  generalize dependent (with_ext x1 w). intros v S0 Vq Va Vk Vx Vl.
  pose proof (done_pop_q cl r rest v) as Q0. pose proof (done_pop_keeps r rest v) as (A0 & K0 & X0).
  pose proof (done_pop_log cl r rest v) as L0.
  assert (body qprog (Frame (CApi (Done r f))) v =
    (with_q (set_locked (Datatypes.S (locked (q (done_pop cl r rest v))))) (done_pop cl r rest v),
     Calls [Frame (CCode f); Frame DoneGuard])) as B.
  { cbn [body queue_program fbody qbody]. unfold done. rewrite Vq, R, decide_True by done.
    rewrite decide_False by (rewrite Q0, Vq; destruct (decide (cancel_till (q w) = Some r)); simpl; lia).
    rewrite decide_True by (by rewrite A0, Va). done. }
  rewrite Vq in Q0. rewrite Va in A0. rewrite Vk in K0. rewrite Vx in X0. rewrite Vl in L0. set (q1 := set_requests _ _) in *.
  assert (set_locked (Datatypes.S n) q1 = q1) as E1 by (unfold q1; case_decide; simpl; by rewrite <-L).
  generalize dependent (done_pop cl r rest v). intros w0 Q0 A0 K0 X0 L0 B.
  assert (locked (q w0) = Datatypes.S n) as Lk by (rewrite Q0, <-E1; done).
  set (w1 := with_q (set_locked _) w0) in *.
  assert (locked (q w1) = Datatypes.S (Datatypes.S n)) as Lk1 by (simpl; by rewrite Lk).
  assert (with_q (set_locked (Datatypes.S n)) (with_ext x' w1) = with_ext x' w0) as E2.
  { unfold with_q, with_ext, w1. simpl. rewrite Q0. f_equal. rewrite <-E1 at 2. done. }
  pose proof (runs_steps [f] _ x' o (Frame DoneGuard :: Frame EtryEnd :: k) w1 Hf X0) as S2.
  pose proof (done_guard_steps (with_ext x' w1) (Frame EtryEnd :: k) n o Lk1) as S3. rewrite E2 in S3.
  exists (match o with Some e => with_keepers (keep e) (with_ext x' w0) | None => with_ext x' w0 end).
  split.
  - eapply steps_trans; [exact S0|].
    eapply steps_cons; [unfold step; simpl stack; simpl cmode; simpl mem; cbv iota beta; rewrite B; reflexivity|].
    eapply steps_trans; [exact S2|]. eapply steps_trans; [exact S3|].
    apply steps_once. by destruct o.
  - destruct o; (split_and!; [split; [done|simpl; rewrite K0; simpl; rewrite Hks; simpl; eauto]|done|done|done]).
Qed.

Lemma cancel_finalized_runs fs : ∀ w x' l ks k,
  finalized_requests (q w) = fs → keepers w = l :: ks → notified fs (ext w) x' →
  ∃ w', steps qprog (Config (Frame CancelFinalized :: k) w Normal) (Config k w' Normal) ∧
    kept ks w w' ∧ qlog w' = qlog w ∧ q w' = set_finalized [] (q w) ∧ ext w' = x'.
Proof.
  induction fs as [|r fs IH]; intros w x' l ks k Hf Hks Hn.
  - inversion Hn; subst. exists w. split; [|repeat split; eauto].
    + apply steps_once. unfold step. simpl. unfold cancel_finalized. by rewrite Hf.
    + destruct (q w). simpl in *. by subst.
  - inversion Hn as [|? ? ? x1 o ? Hr Hn']; subst.
    set (w1 := delay_cancel r (with_q (set_finalized fs) w)).
    assert (q w1 = set_finalized fs (q w) ∧ qlog w1 = qlog w ∧ async w1 = async w ∧ keepers w1 = keepers w ∧ ext w1 = ext w)
      as (Q1 & L1 & A1 & K1 & X1).
    { unfold w1. rewrite (q_delay_cancel cl), (log_delay_cancel cl). split_and!; try done; apply (delay_cancel_keeps r (with_q (set_finalized fs) w)). }
    rewrite Hks in K1.
    destruct (runs_etry [v_notify cl r (canceled_err cl)] (ext w) x1 o w1 l ks (Frame CancelFinalized :: k) Hr X1 K1)
      as (w2 & S2 & [A2 [l2 K2]] & Q2 & L2 & X2).
    rewrite Q1 in Q2. destruct (IH w2 x' l2 ks k) as (w3 & S3 & [A3 [l3 K3]] & L3 & Q3 & X3);
      [by rewrite Q2|done|by rewrite X2|].
    exists w3. split.
    + eapply steps_cons; [|eapply steps_trans; [exact S2|exact S3]].
      unfold step. simpl. unfold cancel_finalized. by rewrite Hf.
    + repeat split; [congruence|eauto|congruence| |done]. by rewrite Q3, Q2.
Qed.

(** The [do ... while] loop over the requests. *)
Lemma cancel_iter_runs g p rest : ∀ r w x' l ks k n,
  drains (r :: rest) (ext w) x' →
  requests (q w) = r :: rest → NoDup (r :: rest) → (∀ r', r' ∈ r :: rest → r' ∈ async w) →
  cancel_till (q w) = last (r :: rest) →
  (resume_recursion (q w) ≤ SPLIT_RECURSION)%nat → locked (q w) = S n → keepers w = l :: ks →
  ∃ w', steps qprog (Config (Frame (CancelIter g p) :: k) w Normal) (Config (Frame (CancelPost g p) :: k) w' Normal) ∧
    kept ks w w' ∧ qlog w' = qlog w ++ (EvDone <$> (r :: rest)) ∧ ext w' = x' ∧
    q w' = set_requests [] (set_till None (q w)).
Proof.
  induction rest as [|r2 rest IH]; intros r w x' l ks k n Hd R Nd As Ti Re Lo Ke;
    inversion Hd as [|? ? ? x1 ? Hfin Hd']; subst;
    (destruct (finishes_etry r (v_cancel cl r (canceled_err cl)) (ext w) x1 (tail (requests (q w))) w l ks
        (Frame (CancelCheck r g p) :: k) n Hfin eq_refl)
      as (w1 & S1 & [A1 [l1 K1]] & L1 & X1 & Q1);
      [by rewrite Ti; apply last_is_Some|by rewrite R|by apply As; left|done..|]; rewrite R in Q1; simpl in Q1).
  - inversion Hd'; subst. simpl in Ti. rewrite decide_True in Q1 by done.
    exists w1. split; [|split; [split; [done|eauto]|done]].
    eapply steps_cons; [unfold step; simpl; rewrite R; simpl; reflexivity|].
    eapply steps_trans; [exact S1|]. apply steps_once. unfold step. simpl. rewrite Q1. simpl.
    reflexivity.
  - apply NoDup_cons in Nd as [Nr Nd]. rewrite decide_False in Q1.
    2:{ rewrite Ti. simpl. intros El. apply Nr.
        apply (last_Some_elem_of (r2 :: rest)). by rewrite <-El. }
    destruct (IH r2 w1 x' l1 ks k n) as (w2 & S2 & [A2 [l2 K2]] & L2 & X2 & Q2); try done.
    + by rewrite X1.
    + by rewrite Q1.
    + intros r' Hr'. rewrite A1. apply As. by right.
    + by rewrite Q1.
    + by rewrite Q1.
    + by rewrite Q1.
    + exists w2. split; [|split; [split; [by rewrite A2|eauto]|]].
      2:{ split_and!; [rewrite L2, L1, <-app_assoc; done|done|by rewrite Q2, Q1]. }
      eapply steps_cons; [unfold step; simpl; rewrite R; simpl; reflexivity|].
      eapply steps_trans; [exact S1|]. eapply steps_cons; [|exact S2].
      assert (r ≠ r2) as Ne by (intros ->; apply Nr; by left).
      unfold step. simpl. rewrite Q1. simpl. rewrite decide_False by congruence. rewrite Ti.
      destruct (last (r2 :: rest)) as [t|] eqn:La; [|by apply last_None in La].
      simpl in La |- *. rewrite La. rewrite decide_False; [done|].
      intros ->. apply Nr. by apply (last_Some_elem_of (r2 :: rest)).
Qed.

(** The generation after [fpost]: an exception of [fpost] leaves it as it was. *)
Definition gen_after (o : option Exn) (g : Z) : Z := if o is Some _ then g else g +₃₂ 1.

(** After the loop: [fpost], the generation, the lock and the throw. *)
Lemma cancel_end_runs w x' o l ks k post n :
  keepers w = l :: ks → runs [post] (ext w) x' o → locked (q w) = S n → requests (q w) = [] →
  ∃ w' m, steps qprog (Config (Frame (CancelPost (cancel_gen (q w)) post) :: k) w Normal) (Config k w' m) ∧
    m ≠ Aborted ∧ keepers w' = ks ∧ qlog w' = qlog w ∧ locked (q w') = n ∧ requests (q w') = [] ∧
    cancel_till (q w') = None ∧ finalized_requests (q w') = finalized_requests (q w) ∧
    cancel_gen (q w') = gen_after o (cancel_gen (q w)) ∧ ext w' = x'.
Proof.
  intros Ke Hp Lo Re.
  assert (∀ w1 l1, keepers w1 = l1 :: ks → qlog w1 = qlog w → locked (q w1) = S n → requests (q w1) = [] →
    finalized_requests (q w1) = finalized_requests (q w) → ext w1 = x' →
    ∃ w' m, steps qprog (Config (Frame CancelEnd :: k) w1 Normal) (Config k w' m) ∧
      m ≠ Aborted ∧ keepers w' = ks ∧ qlog w' = qlog w ∧ locked (q w') = n ∧ requests (q w') = [] ∧
      cancel_till (q w') = None ∧ finalized_requests (q w') = finalized_requests (q w) ∧
      cancel_gen (q w') = cancel_gen (q w1) ∧ ext w' = x') as Hend.
  { intros w1 l1 K1 L1 Lo1 Re1 Fi1 X1.
    exists (with_keepers tail (with_q (λ q, set_till None (set_locked (pred (locked q)) q)) w1)),
      (match l1 with [] => Normal | e :: _ => Unwinding e end).
    split; [|split_and!; simpl; rewrite ?K1, ?Lo1; try done; by destruct l1].
    eapply steps_cons; [reflexivity|].
    eapply steps_cons; [unfold step; simpl; unfold resume; simpl; rewrite Re1; reflexivity|].
    apply steps_once. unfold step. simpl. rewrite K1. by destruct l1. }
  assert (step qprog (Config (Frame (CancelPost (cancel_gen (q w)) post) :: k) w Normal) =
    Some (Config ([Frame (CCode post)] ++ Frame IncGen :: Frame EtryEnd :: Frame CancelEnd :: k) w Normal)) as S0
    by (unfold step; simpl; by rewrite decide_True).
  pose proof (runs_steps [post] _ x' o (Frame IncGen :: Frame EtryEnd :: Frame CancelEnd :: k) w Hp eq_refl) as S1.
  destruct o as [e|]; simpl in S1.
  - edestruct (Hend (with_keepers (keep e) (with_ext x' w)) (l ++ [e]))
      as (w' & m & S2 & Rest); try done; [by simpl; rewrite Ke|]. exists w', m. split; [|done].
    eapply steps_cons; [exact S0|]. eapply steps_trans; [exact S1|].
    eapply steps_cons; [reflexivity|]. eapply steps_cons; [reflexivity|]. exact S2.
  - edestruct (Hend (with_q (λ q, set_gen (cancel_gen q +₃₂ 1) q) (with_ext x' w)) l)
      as (w' & m & S2 & Rest); try done. exists w', m. split; [|done].
    eapply steps_cons; [exact S0|]. eapply steps_trans; [exact S1|].
    eapply steps_cons; [reflexivity|]. eapply steps_cons; [reflexivity|]. exact S2.
Qed.

(** The part before the loop. *)
Lemma cancel_pre_runs pre w l ks k n l' x' :
  prepares pre (requests (q w)) (ext w) l' x' → keepers w = l :: ks →
  cancel_till (q w) = last (requests (q w)) → (∀ r', r' ∈ requests (q w) → r' ∈ async w) →
  NoDup (requests (q w)) →
  (resume_recursion (q w) ≤ SPLIT_RECURSION)%nat → locked (q w) = S n →
  ∃ w', steps qprog (Config (Frame (CCode pre) :: Frame EtryEnd :: k) w Normal) (Config k w' Normal) ∧
    kept ks w w' ∧ ext w' = x' ∧
    (∃ d, requests (q w) = d ++ l' ∧ qlog w' = qlog w ++ (EvDone <$> d)) ∧
    q w' = set_requests l' (set_till (last l') (q w)).
Proof.
  intros Hp Ke Ti As Nd Re Lo. remember (requests (q w)) as l0 eqn:R. remember (ext w) as x0 eqn:Ex.
  destruct Hp as [l0 x0 x' o Hr|r rest x0 x' Hf].
  - destruct (runs_etry [pre] x0 x' o w l ks k Hr) as (w' & S1 & Kp & Q & L & X1); [done..|].
    exists w'. split; [exact S1|]. split_and!; try done.
    + exists []. by rewrite L, app_nil_r.
    + rewrite Q. destruct (q w). simpl in *. by subst.
  - destruct (finishes_etry r pre x0 x' rest w l ks k n Hf) as (w' & S1 & Kp & L & X1 & Q);
      [done|by rewrite Ti; apply last_is_Some|done|by apply As; left|done..|].
    exists w'. split; [exact S1|]. split_and!; try done.
    + by exists [r].
    + rewrite Q. destruct rest as [|r2 rest]; [by rewrite decide_True by done|].
      apply NoDup_cons in Nd as [Nr _].
      change (last (r2 :: rest)) with (last (r :: r2 :: rest)).
      rewrite decide_False, <-Ti; [by destruct (q w)|].
      rewrite Ti. simpl. intros El. apply Nr. apply (last_Some_elem_of (r2 :: rest)). by rewrite <-El.
Qed.

Lemma cancel_runs pre post w k x1 l' x2 x3 x' o :
  notified (finalized_requests (q w)) (ext w) x1 → prepares pre (requests (q w)) x1 l' x2 →
  drains l' x2 x3 → runs [post] x3 x' o →
  NoDup (requests (q w)) → (∀ r, r ∈ requests (q w) → r ∈ async w) →
  (resume_recursion (q w) ≤ SPLIT_RECURSION)%nat →
  ∃ w' m, steps qprog (Config (Frame (CApi (Cancel pre post None)) :: k) w Normal) (Config k w' m) ∧
    m ≠ Aborted ∧ keepers w' = keepers w ∧ locked (q w') = locked (q w) ∧
    qlog w' = qlog w ++ (EvDone <$> requests (q w)) ∧
    requests (q w') = [] ∧ finalized_requests (q w') = [] ∧ cancel_till (q w') = None ∧
    cancel_gen (q w') = gen_after o (cancel_gen (q w)) ∧ ext w' = x'.
Proof.
  intros Hn Hpre Hd Hpost Nd As Re.
  set (w0 := with_keepers (cons []) (with_q (λ q0, set_till (last (requests (q w))) (set_locked (S (locked q0)) q0)) w)).
  destruct (cancel_finalized_runs (finalized_requests (q w)) w0 x1 [] (keepers w)
    (Frame (CCode pre) :: Frame EtryEnd :: Frame (CancelTest (cancel_gen (q w)) post) :: k))
    as (w1 & S1 & [A1 [l1 K1]] & L1 & Q1 & X1); [done..|].
  destruct (cancel_pre_runs pre w1 l1 (keepers w) (Frame (CancelTest (cancel_gen (q w)) post) :: k) (locked (q w)) l' x2)
    as (w2 & S2 & [A2 [l2 K2]] & X2 & (d & Hd0 & L2) & Q2);
    [by rewrite Q1, X1|done|by rewrite Q1|rewrite Q1, A1; exact As|by rewrite Q1|by rewrite Q1|by rewrite Q1|].
  assert (steps qprog (Config (Frame (CApi (Cancel pre post None)) :: k) w Normal)
    (Config (Frame (CancelTest (cancel_gen (q w)) post) :: k) w2 Normal)) as S02.
  { eapply steps_cons; [reflexivity|]. eapply steps_trans; [exact S1|exact S2]. }
  clear S1 S2. rewrite Q1 in Q2, Hd0. simpl in Q2, Hd0. rewrite A1 in A2. simpl in A2. rewrite L1 in L2. simpl in L2.
  destruct l' as [|r rest].
  - inversion Hd; subst. destruct (cancel_end_runs w2 x' o l2 (keepers w) k post (locked (q w)) K2)
      as (w3 & m & S3 & Hm & K3 & L3 & Lo3 & Re3 & Ti3 & Fi3 & Ge3 & X3); [done|by rewrite Q2..|].
    exists w3, m. split; [|split_and!; try done].
    + eapply steps_trans; [exact S02|]. eapply steps_cons; [|exact S3].
      unfold step. simpl. by rewrite Q2.
    + by rewrite L3, L2, Hd0, app_nil_r.
    + by rewrite Fi3, Q2.
    + by rewrite Ge3, Q2.
  - destruct (cancel_iter_runs (cancel_gen (q w)) post rest r w2 x3 l2 (keepers w) k (locked (q w)))
      as (w3 & S3 & [A3 [l3 K3]] & L3 & X3 & Q3); try done;
      [by rewrite X2|by rewrite Q2| |intros r' Hr'; rewrite A2; apply As; rewrite Hd0; apply elem_of_app; by right|by rewrite Q2..|].
    { rewrite Hd0 in Nd. by apply NoDup_app in Nd as (_ & _ & ?). }
    rewrite Q2 in Q3.
    destruct (cancel_end_runs w3 x' o l3 (keepers w) k post (locked (q w)) K3)
      as (w4 & m & S4 & Hm & K4 & L4 & Lo4 & Re4 & Ti4 & Fi4 & Ge4 & X4); [by rewrite X3|by rewrite Q3..|].
    exists w4, m. split; [|split_and!; try done].
    + eapply steps_trans; [exact S02|]. eapply steps_cons; [|eapply steps_trans; [exact S3|]].
      * unfold step. simpl. rewrite Q2. simpl. by destruct (last (r :: rest)) eqn:La; [|apply last_None in La].
      * by rewrite Q3 in S4.
    + by rewrite L4, L3, L2, Hd0, fmap_app, app_assoc.
    + by rewrite Fi4, Q3.
    + by rewrite Ge4, Q3.
Qed.

(** A client whose requests always end when they are cancelled, and whose
    callbacks leave the queue alone. *)
Record cancellable : Prop := {
  cancel_finishes r x : ∃ x', finishes r (v_cancel cl r (canceled_err cl)) x x';
  notify_runs r x : ∃ x' o, runs [v_notify cl r (canceled_err cl)] x x' o
}.

Lemma cancellable_drains l : cancellable → ∀ x, ∃ x', drains l x x'.
Proof.
  intros [Hc _]. induction l as [|r l IH]; intros x; [exists x; constructor|].
  destruct (Hc r x) as [x1 H1]. destruct (IH x1) as [x' H2]. exists x'. by econstructor.
Qed.

Lemma cancellable_notified l : cancellable → ∀ x, ∃ x', notified l x x'.
Proof.
  intros [_ Hn]. induction l as [|r l IH]; intros x; [exists x; constructor|].
  destruct (Hn r x) as (x1 & o & H1). destruct (IH x1) as [x' H2]. exists x'. by econstructor.
Qed.
End Cancelling.

(** ** Invariants of the client's state *)

Section ClientState.
#[local] Set Default Proof Using "Type*".
Context {X U E Exn D : Type} `{DelayLaws D (closure U)}.
Context (cl : client X U E Exn) (P : X → Prop).
Implicit Types (w : world X Exn D).

(** The loop starts in a client that is [P]. *)
Definition starts_with (w : world X Exn D) : Prop := queue_initial w ∧ P (ext w).

Context (Hcode : ∀ u qq x, P x → P (v_code cl u qq x).1).
Context (Hdestroy : ∀ r x, P x → P (v_destroy_impl cl r x)).
Context (Hcapture : ∀ e x, P x → P (v_capture cl e x)).

Lemma ext_delay_cancel r w : ext (delay_cancel r w) = ext w.
Proof using Type. unfold delay_cancel. by destruct (delay_id w !! r). Qed.

Lemma ext_delay r (k : closure U) w : ext (delay r k w) = ext w.
Proof using Type. unfold delay. destruct (ds_add _ _). simpl. apply ext_delay_cancel. Qed.

Lemma ext_done_pop r rest w : P (ext w) → P (ext (done_pop cl r rest w)).
Proof.
  intros Hp. unfold done_pop, finish_exec. simpl. rewrite ext_delay_cancel. apply Hdestroy. by case_decide.
Qed.

Lemma qbody_ext c w : P (ext w) → P (ext (qbody cl c w).1).
Proof.
  intros Hp. destruct c as [[r|r f|pre post till|r u|r|u]|u|r| |r f| | | |g p|g p|cur g p|g p| | | | |]; simpl; try done.
  - unfold push. by case_decide.
  - unfold done. destruct (requests (q w)) as [|h l]; [done|]. case_decide; [|done].
    pose proof (ext_done_pop r l w Hp) as Hd. generalize dependent (done_pop cl r l w). intros w0 Hd.
    repeat case_decide; simpl; rewrite ?ext_delay; done.
  - by rewrite ext_delay.
  - by rewrite ext_delay_cancel.
  - pose proof (Hcode u (q w) (ext w) Hp). by destruct (v_code cl u (q w) (ext w)).
  - unfold resume. destruct (requests (q w)); [done|]. by destruct (locked (q w)).
  - destruct (finalized_requests (q w)); [done|]. by case_decide.
  - unfold cancel_finalized. destruct (finalized_requests (q w)); simpl; by rewrite ?ext_delay_cancel.
  - by destruct (requests (q w)), (cancel_till (q w)).
  - by destruct (requests (q w)).
  - case_decide; [done|]. destruct (cancel_till (q w)); [by case_decide|done].
Qed.

Lemma client_invariant (c : config (world X Exn D) (frame U Exn) Exn) :
  reachable (queue_program cl) starts_with queue_input c → P (ext (mem c)).
Proof.
  apply (reachable_inv _ _ _ (λ c, P (ext (mem c)))).
  - by intros w [_ Hw].
  - intros [k w m] c' Hp Hs. simpl in *.
    destruct k as [|f k], m as [|e|]; try done; unfold step in Hs; simpl in Hs; injection Hs as <-.
    + destruct f as [d|e]; simpl; [|done]. pose proof (qbody_ext d w Hp) as Hq.
      by destruct (qbody cl d w) as [w' []].
    + destruct f as [d|e']; simpl; [|done]. destruct d; simpl; auto.
  - intros w m cs w' Hp _ [(i & k & _ & _ & ->)|(u & _ & ->)]; done.
Qed.
End ClientState.

(** ** The order of the executions *)

(** The requests pushed and executed, in their order. *)
Definition pushed (l : list qevent) : list rid := omap (λ e, match e with EvPush r => Some r | _ => None end) l.
Definition executed (l : list qevent) : list rid := omap (λ e, match e with EvExec r => Some r | _ => None end) l.

(** A server executes requests in the order they were pushed, each at most once. *)
Lemma serve_executed l : ∀ s s', serve_all s l = Some s' →
  executed l `sublist_of` (if running s then tail (pending s) else pending s) ++ pushed l.
Proof.
  induction l as [|e l IH]; intros s s' Hs; [apply sublist_nil_l|].
  cbn [serve_all] in Hs. destruct (serve s e) as [s1|] eqn:E; [|done]. simpl in Hs.
  specialize (IH _ _ Hs). destruct s as [p b], e as [r|r|r|r|r n]; simpl in E; simplify_eq/=; try done.
  - etrans; [exact IH|]. replace (r :: pushed l) with ([r] ++ pushed l) by done. rewrite app_assoc.
    apply sublist_app; [|done]. destruct b; [|done]. by destruct p; simpl; [apply sublist_nil_l|].
  - case_decide as Hd; [|done]. simplify_eq/=. destruct Hd as [Hh ->].
    destruct p as [|h p]; simplify_eq/=. by apply sublist_skip.
  - destruct p as [|h p]; [done|]. case_decide; simplify_eq/=. destruct b; [done|]. by apply sublist_cons.
Qed.

Lemma executed_app l l' : executed (l ++ l') = executed l ++ executed l'.
Proof. apply omap_app. Qed.

(** *** Code that carries something

    A piece of code may have something in hand that the client's state does not show yet:
    a request that is to be executed, bytes on their way.  What is carried is only ever
    carried by the code that runs next: the client's code never puts such code behind
    other code, nor into a closure.  [safe] is the code that carries nothing; [holds]
    relates the state of the client and the executions of the queue, given the code that
    runs next if it carries something.  If the client is [calm], nothing is thrown, and
    what the state [owes] is the business of some code that is pending. *)
Section Carrying.
#[local] Set Default Proof Using "Type*".
Context {X U E Exn D : Type} `{DelayLaws D (closure U)}.
Context (cl : client X U E Exn).
Implicit Types (w : world X Exn D) (k : list (frame U Exn)).

Context (safe : U → Prop) (holds : option U → X → list rid → Prop).
Context (calm : Prop) (owes : X → Prop) (pays : U → Prop).
(** [good]: what came from outside has been what the client relies on; once it was not, it
    is not [good] any more, and nothing is claimed. *)
Context (good : X → Prop).

Definition safe_api (a : qapi U) : Prop :=
  match a with
  | Done _ f => safe f
  | Cancel pre post _ => safe pre ∧ safe post
  | Delay _ u | Ltry u => safe u
  | Push _ | DelayCancel _ => True
  end.
Definition safe_call (c : qapi U + U) : Prop := match c with inl a => safe_api a | inr u => safe u end.
Definition safe_stmt (c : qcall U) : Prop :=
  match c with
  | CApi a => safe_api a
  | CCode u => safe u
  | DelayFn _ f => safe f
  | CancelTest _ post | CancelIter _ post | CancelCheck _ _ post | CancelPost _ post => safe post
  | _ => True
  end.
Definition safe_frame (f : frame U Exn) : Prop := match f with Frame c => safe_stmt c | Rethrow _ => True end.
Definition safe_closure (x : closure U) : Prop := match x with DelayedDone _ f _ => safe f | DelayedCode u => safe u end.
Definition waits_safe w : Prop := ∀ i x, (i, x) ∈ ds_waiting (loop w) → safe_closure x.

(** What the code of the client leaves. *)
Definition hands_over (l : list rid) (x : X) (cs : list (qapi U + U)) : Prop :=
  (Forall safe_call cs ∧ holds None x l) ∨ ∃ u cs', cs = inr u :: cs' ∧ Forall safe_call cs' ∧ holds (Some u) x l.
Definition code_result (l : list rid) (o : X * outcome (qapi U + U) Exn) : Prop :=
  match o.2 with Calls cs => hands_over l o.1 cs | Throws _ => ¬ calm ∧ holds None o.1 l | Aborts => holds None o.1 l end.
Definition code_owes (u : U) (x : X) (o : X * outcome (qapi U + U) Exn) : Prop :=
  ∀ cs, o.2 = Calls cs → owes o.1 → (owes x ∧ ¬ pays u) ∨ ∃ v, inr v ∈ cs ∧ pays v.

Record carrier : Prop := {
  carrier_cancel r e : safe (v_cancel cl r e);
  carrier_notify r e : safe (v_notify cl r e);
  carrier_exec r x l : holds None x l → holds (Some (v_exec cl r)) x (l ++ [r]);
  carrier_code u qq x l : good x → (safe u ∧ holds None x l) ∨ holds (Some u) x l → code_result l (v_code cl u qq x);
  carrier_destroy r x l : holds None x l → holds None (v_destroy_impl cl r x) l;
  carrier_capture e x l : holds None x l → holds None (v_capture cl e x) l;
  carrier_owes u qq x l : good x → (safe u ∧ holds None x l) ∨ holds (Some u) x l → calm → code_owes u x (v_code cl u qq x);
  carrier_owes_destroy r x : owes (v_destroy_impl cl r x) → owes x;
  carrier_good u qq x : good (v_code cl u qq x).1 → good x;
  carrier_good_destroy r x : good (v_destroy_impl cl r x) → good x;
  carrier_good_capture e x : good (v_capture cl e x) → good x
}.
Context (Hcarrier : carrier).

(** What is known of a statement before it runs, and after. *)
Definition holds_stmt (o : option (qcall U)) w : Prop :=
  match o with
  | Some (CCode u) => holds (Some u) (ext w) (executed (qlog w))
  | Some _ => False
  | None => holds None (ext w) (executed (qlog w))
  end.
Definition stmts_ready (cs : list (qcall U)) w : Prop :=
  (Forall safe_stmt cs ∧ holds_stmt None w) ∨ ∃ c cs', cs = c :: cs' ∧ Forall safe_stmt cs' ∧ holds_stmt (Some c) w.
Definition pays_stmt (c : qcall U) : Prop := match c with CCode u => pays u | _ => False end.
Definition no_keeper w : Prop := Forall (λ l, l = []) (keepers w).

(** What a statement does. *)
Definition carries (c : qcall U) w (r : world X Exn D * outcome (qcall U) Exn) : Prop :=
  waits_safe r.1 ∧
  match r.2 with Calls cs => stmts_ready cs r.1 | _ => holds_stmt None r.1 end ∧
  (calm → no_keeper w → no_keeper r.1 ∧ (∀ e, r.2 ≠ Throws e) ∧
     ∀ cs, r.2 = Calls cs → owes (ext r.1) → (owes (ext w) ∧ ¬ pays_stmt c) ∨ ∃ v, v ∈ cs ∧ pays_stmt v).

Lemma delay_cancel_safe r w : waits_safe w → waits_safe (delay_cancel r w).
Proof.
  intros Hw i x. unfold delay_cancel. destruct (delay_id w !! r); [|apply Hw]. simpl.
  intros Hx%ds_cancel_waiting. by eapply Hw.
Qed.

Lemma delay_safe r x w : safe_closure x → waits_safe w → waits_safe (delay r x w).
Proof.
  intros Hx Hw i y. unfold delay. pose proof (delay_cancel_safe r w Hw) as Hw'.
  pose proof (ds_add_waiting x (loop (delay_cancel r w)) (i, y)) as Ha.
  destruct (ds_add x (loop (delay_cancel r w))) as [d n]. simpl in *.
  intros [Hy|[= -> ->]]%Ha; [by eapply Hw'|done].
Qed.

Lemma delay_cancel_fields r w :
  qlog (delay_cancel r w) = qlog w ∧ keepers (delay_cancel r w) = keepers w ∧ ext (delay_cancel r w) = ext w.
Proof. unfold delay_cancel. by destruct (delay_id w !! r). Qed.

Lemma delay_fields r (x : closure U) w :
  qlog (delay r x w) = qlog w ∧ keepers (delay r x w) = keepers w ∧ ext (delay r x w) = ext w.
Proof. unfold delay. destruct (ds_add _ _). simpl. apply delay_cancel_fields. Qed.

(** A statement that leaves the client alone. *)
Lemma carries_same c w w' cs :
  holds_stmt None w → pays_stmt c = False → waits_safe w' → ext w' = ext w → executed (qlog w') = executed (qlog w) →
  (no_keeper w → no_keeper w') → Forall safe_stmt cs → carries c w (w', Calls cs).
Proof.
  intros Hh Hp Hw He Hq Hk Hcs. split; [done|]. split; simpl.
  - left. split; [done|]. unfold holds_stmt. by rewrite He, Hq.
  - intros _ Hn. split; [by apply Hk|]. split; [done|]. intros ? _. rewrite He, Hp. intros Ho. left. split; [done|by intros []].
Qed.

(** A statement that executes a request. *)
Lemma carries_exec c w w' i cs :
  holds_stmt None w → pays_stmt c = False → waits_safe w' → ext w' = ext w → executed (qlog w') = executed (qlog w) →
  keepers w' = keepers w → Forall safe_stmt cs → carries c w (note_q (EvExec i) w', Calls (CCode (v_exec cl i) :: cs)).
Proof.
  intros Hh Hp Hw He Hq Hk Hcs. split; [done|]. split; simpl.
  - right. exists (CCode (v_exec cl i)), cs. split; [done|]. split; [done|]. simpl.
    rewrite executed_app, He, Hq. by apply carrier_exec.
  - intros _ Hn. unfold no_keeper in *. simpl. rewrite Hk, He, Hp. split; [done|]. split; [done|].
    intros ? _ Ho. left. split; [done|by intros []].
Qed.

Lemma carries_abort c w : holds_stmt None w → pays_stmt c = False → waits_safe w → carries c w (w, Aborts).
Proof.
  intros Hh Hp Hw. split; [done|]. split; [done|]. intros _ Hn. by split.
Qed.

Lemma done_pop_carries r rest w :
  holds_stmt None w → waits_safe w →
  let w' := done_pop cl r rest w in
  waits_safe w' ∧ holds_stmt None w' ∧ keepers w' = keepers w ∧ (owes (ext w') → owes (ext w)).
Proof.
  intros Hh Hw. unfold done_pop, finish_exec.
  set (w1 := if decide _ then _ else w).
  assert (waits_safe w1 ∧ ext w1 = ext w ∧ qlog w1 = qlog w ∧ keepers w1 = keepers w) as (Hw1 & He1 & Hq1 & Hk1)
    by (unfold w1; by case_decide).
  destruct (delay_cancel_fields r w1) as (Hq & Hk & He). simpl. unfold holds_stmt in *. simpl.
  rewrite executed_app, app_nil_r, Hq, Hk, He, He1, Hq1, Hk1.
  split_and!; [|by apply carrier_destroy|done|by apply carrier_owes_destroy].
  intros i x. simpl. by apply delay_cancel_safe.
Qed.

Lemma done_carries r f w : safe f → holds_stmt None w → waits_safe w → carries (CApi (Done r f)) w (done cl r f w).
Proof.
  intros Hf Hh Hw. unfold done. destruct (requests (q w)) as [|h l]; [by apply carries_abort|].
  case_decide; [|by apply carries_abort].
  destruct (done_pop_carries r l w Hh Hw) as (Hw1 & Hh1 & Hk1 & Ho1). set (w1 := done_pop cl r l w) in *. clearbody w1.
  assert (∀ w2 cs, waits_safe w2 → ext w2 = ext w1 → executed (qlog w2) = executed (qlog w1) → keepers w2 = keepers w1 →
    Forall safe_stmt cs → carries (CApi (Done r f)) w (w2, Calls cs)) as Hdone.
  { intros w2 cs Hw2 He Hq Hk Hcs. split; [done|]. split; simpl.
    - left. split; [done|]. unfold holds_stmt. by rewrite He, Hq.
    - intros _ Hn. unfold no_keeper in *. rewrite Hk, Hk1, He. split; [done|]. split; [done|]. intros ? _ Ho. left. split; [auto|by intros []]. }
  assert (∀ x w2 e, safe_closure x → ext w2 = ext w1 → qlog w2 = qlog w1 → keepers w2 = keepers w1 → waits_safe w2 →
    executed [e] = [] → carries (CApi (Done r f)) w (note_q e (delay r x w2), Calls [])) as Hd.
  { intros x w2 e Hx He Hq Hk Hw2 Hn. destruct (delay_fields r x w2) as (Hq' & Hk' & He').
    apply Hdone; simpl; rewrite ?executed_app, ?Hn, ?app_nil_r, ?He', ?Hq', ?Hk', ?Hq; try done.
    intros i y. simpl. by apply delay_safe. }
  repeat case_decide; try by apply Hd. apply Hdone; try done. by repeat constructor.
Qed.

(** Code of the client. *)
Lemma code_carries u w x o :
  waits_safe w → code_result (executed (qlog w)) (x, o) → (calm → code_owes u (ext w) (x, o)) →
  carries (CCode u) w (with_ext x w, lift_client o).
Proof.
  intros Hw Hr Ho.
  assert (∀ cs, Forall safe_call cs →
    Forall safe_stmt ((λ c, match c with inl a => CApi a | inr u => CCode u end) <$> cs)) as Hcs.
  { intros cs Hcs. apply Forall_fmap. eapply Forall_impl; [exact Hcs|]. by intros [a|v]. }
  split; [done|]. split; simpl.
  - unfold code_result, hands_over in Hr. destruct o as [cs|e|]; simpl in *; [|by apply Hr|exact Hr].
    destruct Hr as [[Hc Hh]|(v & cs' & -> & Hc & Hh)]; [left; auto|].
    right. exists (CCode v). eexists. split_and!; [done|by apply Hcs|done].
  - intros Hcalm Hn. split; [done|]. split.
    + intros e. destruct o as [cs|e'|]; [done| |done]. by destruct Hr as [[] _].
    + intros cs Eo Hx. destruct o as [cs'| |]; simplify_eq/=.
      destruct (Ho Hcalm cs' eq_refl Hx) as [?|(v & Hv & Hp)]; [by left|]. right.
      exists (CCode v). split; [|done]. by apply (list_elem_of_fmap_2 (λ c : qapi U + U, match c with inl a => CApi a | inr u => CCode u end) _ (inr v)).
Qed.

(** Close the goals about a statement that leaves the client alone. *)
Ltac carry_same := apply carries_same; [done|done|done|done|done|done|try (by repeat constructor)].

Lemma qbody_carries c w : good (ext w) → safe_stmt c → holds_stmt None w → waits_safe w → carries c w (qbody cl c w).
Proof.
  intros Hg Hc Hh Hw.
  destruct c as [[r|r f|pre post till|r u|r|u]|u|r| |r f| | | |g p|g p|cur g p|g p| | | | |]; simpl in *.
  - unfold push. set (w1 := note_q _ _). assert (executed (qlog w1) = executed (qlog w)) as Hq.
    { simpl. by rewrite executed_app, app_nil_r. }
    case_decide; [apply carries_exec|apply carries_same]; try done; by repeat constructor.
  - by apply done_carries.
  - apply carries_same; try done; [intros Hn; by constructor|]. destruct Hc. by repeat constructor.
  - destruct (delay_fields r (DelayedCode u) w) as (Hq & Hk & He).
    apply carries_same; try done; [by apply delay_safe|by rewrite Hq|]. unfold no_keeper. by rewrite Hk.
  - destruct (delay_cancel_fields r w) as (Hq & Hk & He).
    apply carries_same; try done; [by apply delay_cancel_safe|by rewrite Hq|]. unfold no_keeper. by rewrite Hk.
  - carry_same.
  - pose proof (carrier_code Hcarrier u (q w) (ext w) _ Hg (or_introl (conj Hc Hh))) as Hr.
    pose proof (carrier_owes Hcarrier u (q w) (ext w) _ Hg (or_introl (conj Hc Hh))) as Ho.
    destruct (v_code cl u (q w) (ext w)) as [x o]. by apply code_carries.
  - carry_same.
  - unfold resume. destruct (requests (q w)) as [|i l]; [carry_same|].
    destruct (locked (q w)); [by apply carries_exec|carry_same].
  - destruct (finalized_requests (q w)) as [|i l]; [by apply carries_abort|]. case_decide; [carry_same|by apply carries_abort].
  - carry_same.
  - carry_same.
  - unfold cancel_finalized. destruct (finalized_requests (q w)) as [|i l]; [carry_same|].
    destruct (delay_cancel_fields i (with_q (set_finalized l) w)) as (Hq & Hk & He). simpl in Hq, Hk, He.
    apply carries_same; try done; simpl; [by apply delay_cancel_safe|by rewrite Hq|unfold no_keeper; by rewrite Hk|].
    repeat constructor. by apply carrier_notify.
  - destruct (requests (q w)), (cancel_till (q w)); carry_same.
  - destruct (requests (q w)); [by apply carries_abort|]. apply carries_same; try done.
    repeat constructor; [by apply carrier_cancel|done].
  - case_decide; [by apply carries_abort|]. destruct (cancel_till (q w)); [case_decide|]; carry_same.
  - case_decide; carry_same.
  - carry_same.
  - carry_same.
  - carry_same.
  - carry_same.
  - destruct (keepers w) as [|l ks] eqn:Ek.
    { apply carries_same; try done. unfold no_keeper. simpl. by rewrite Ek. }
    split; [done|]. split; [destruct l; [by left|done]|].
    intros _ Hn. unfold no_keeper in *. rewrite Ek in Hn. apply Forall_cons in Hn as [-> Hn]. simpl. rewrite Ek.
    split; [done|]. split; [done|]. intros ? _ Ho. left. split; [done|by intros []].
Qed.

(** The invariant. *)
Definition pays_frame (f : frame U Exn) : Prop := match f with Frame c => pays_stmt c | Rethrow _ => False end.
Definition plain_frame (f : frame U Exn) : Prop := match f with Frame _ => True | Rethrow _ => False end.
Definition carry_state (c : config (world X Exn D) (frame U Exn) Exn) : Prop :=
  waits_safe (mem c) ∧
  ((Forall safe_frame (stack c) ∧ holds None (ext (mem c)) (executed (qlog (mem c)))) ∨
   ∃ u k, stack c = Frame (CCode u) :: k ∧ Forall safe_frame k ∧ cmode c = Normal ∧
     holds (Some u) (ext (mem c)) (executed (qlog (mem c)))) ∧
  (calm → (∀ e, cmode c ≠ Unwinding e) ∧ Forall plain_frame (stack c) ∧ no_keeper (mem c) ∧
     (cmode c = Normal → owes (ext (mem c)) → Exists pays_frame (stack c))).
Definition carry_inv (c : config (world X Exn D) (frame U Exn) Exn) : Prop := good (ext (mem c)) → carry_state c.

(** What is [good] was [good] before. *)
Lemma qbody_good c w : good (ext (qbody cl c w).1) → good (ext w).
Proof.
  apply (qbody_ext cl (λ x, good x → good (ext w))); [| | |done].
  - intros u qq x Hx Hg. by eapply Hx, carrier_good.
  - intros r x Hx Hg. by eapply Hx, carrier_good_destroy.
  - intros e x Hx Hg. by eapply Hx, carrier_good_capture.
Qed.
Lemma step_good_before c c' : step (queue_program cl) c = Some c' → good (ext (mem c')) → good (ext (mem c)).
Proof.
  destruct c as [[|f k] w m]; [done|]. destruct m as [|e|]; [| |done]; unfold step; simpl; intros [= <-].
  - destruct f as [d|e]; simpl; [|done]. pose proof (qbody_good d w) as Hg. by destruct (qbody cl d w) as [w' []].
  - destruct f as [d|e']; simpl; [|done]. destruct d; simpl; try done. by apply carrier_good_capture.
Qed.

Lemma carry_settle c k w m r :
  carry_state (Config (Frame c :: k) w m) → m = Normal → carries c w r →
  carry_state (settle k (r.1, lift_frames r.2)).
Proof.
  intros (Hw & Hk & Hcalm) -> (Hw' & Hr & Hc). destruct r as [w' o]. simpl in *.
  assert (Forall safe_frame k) as Hk'.
  { destruct Hk as [[Hk _]|(u & k' & [= -> ->] & ? & _)]; [|done]. by apply Forall_cons in Hk as [_ ?]. }
  assert (∀ cs, Forall safe_stmt cs → Forall safe_frame ((Frame (Exn:=Exn) <$> cs) ++ k)) as Hcs.
  { intros cs Hcs. apply Forall_app. split; [|done]. by apply Forall_fmap. }
  split; [by destruct o|]. split.
  - destruct o as [cs|e|]; simpl in *; [|left; by split..].
    destruct Hr as [[Hs Hh]|(x & cs' & -> & Hs & Hh)]; [left; auto|].
    destruct x as [|u| | | | | | | | | | | | | | |]; try done.
    right. exists u. eexists. split_and!; [done|by apply Hcs|done|exact Hh].
  - intros Hcl. destruct (Hcalm Hcl) as (_ & Hp & Hn & Ho). destruct (Hc Hcl Hn) as (Hn' & Ht & Ho').
    apply Forall_cons in Hp as [_ Hp]. specialize (Ho eq_refl).
    destruct o as [cs|e|]; [|by destruct (Ht e)|split_and!; try done]. simpl.
    split_and!; [done| |done|].
    + apply Forall_app. split; [|done]. apply Forall_fmap, Forall_true. by intros.
    + intros _ Hx. apply Exists_app. destruct (Ho' cs eq_refl Hx) as [[Hx' Hnp]|(v & Hv & Hpv)].
      * right. specialize (Ho Hx'). apply Exists_cons in Ho as [?|?]; [by destruct Hnp|done].
      * left. apply Exists_exists. exists (Frame v). split; [|done]. by apply list_elem_of_fmap_2.
Qed.

Lemma carry_inv_step c c' : carry_inv c → step (queue_program cl) c = Some c' → carry_inv c'.
Proof.
  intros Hinv Hs Hg'. pose proof (step_good_before _ _ Hs Hg') as Hg. specialize (Hinv Hg). clear Hg'. revert Hs.
  destruct c as [[|f k] w m]; [done|]. revert Hinv. intros Hi. pose proof Hi as (Hw & Hk & Hcalm). simpl in *.
  destruct m as [|e|]; [| |done]; unfold step; simpl; intros [= <-].
  - destruct f as [c|e]; simpl.
    + assert (carries c w (qbody cl c w)) as Hc.
      { destruct Hk as [[Hf Hh]|(u & k' & [= -> ->] & _ & _ & Hh)].
        - apply Forall_cons in Hf as [Hf _]. by apply qbody_carries.
        - pose proof (carrier_code Hcarrier u (q w) (ext w) _ Hg (or_intror Hh)) as Hr.
          pose proof (carrier_owes Hcarrier u (q w) (ext w) _ Hg (or_intror Hh)) as Ho. simpl.
          destruct (v_code cl u (q w) (ext w)) as [x o]. by apply code_carries. }
      pose proof (carry_settle c k w Normal _ Hi eq_refl Hc) as Hs. by destruct (qbody cl c w).
    + destruct Hk as [[Hf Hh]|(u & k' & [=] & _)]. apply Forall_cons in Hf as [_ Hf].
      split; [done|]. split; [by left|]. intros Hcl. destruct (Hcalm Hcl) as (_ & Hp & _).
      by apply Forall_cons in Hp as [[] _].
  - destruct Hk as [[Hf Hh]|(u & k' & _ & _ & [=] & _)]. apply Forall_cons in Hf as [_ Hf].
    assert (∀ c' : config (world X Exn D) (frame U Exn) Exn, waits_safe (mem c') ∧ Forall safe_frame (stack c') ∧
      holds None (ext (mem c')) (executed (qlog (mem c'))) → carry_state c') as Hthen.
    { intros c' (Hw' & Hs' & Hh'). split; [done|]. split; [by left|]. intros Hcl.
      destruct (Hcalm Hcl) as (Hm & _). by destruct (Hm e). }
    apply Hthen. destruct f as [c|e']; simpl; [|done]. destruct c; simpl; try done.
    + split_and!; [done| |done]. by repeat constructor.
    + split_and!; [done|done|]. by apply carrier_capture.
Qed.

(** The loop runs code that is safe. *)
Definition safe_input w (cs : list (frame U Exn)) w' : Prop :=
  queue_input w cs w' ∧ ∀ u, cs = [Frame (CCode u)] → w' = w → safe u.

Lemma carry_inv_reachable c :
  reachable (queue_program cl) (λ w, queue_initial w ∧ holds None (ext w) [] ∧ ¬ owes (ext w)) safe_input c → carry_inv c.
Proof.
  apply reachable_inv; [|apply carry_inv_step|].
  - intros w [(d & x & Hd & ->) [Hx Ho]] _. split; [by intros i y ?%Hd|]. split; [by left|].
    intros _. split; [done|]. split; [done|]. split; [by constructor|]. done.
  - intros w m cs w' Hi Hm [Hin Hu] Hg'.
    assert (good (ext w)) as Hg by by destruct Hin as [(i & x & _ & _ & ->)|(u & _ & ->)].
    destruct (Hi Hg) as (Hw & Hk & Hcalm). simpl in *.
    destruct Hk as [[_ Hh]|(? & ? & ? & _)]; [|done].
    assert (waits_safe w' ∧ Forall safe_frame cs ∧ Forall plain_frame cs ∧ ext w' = ext w ∧ qlog w' = qlog w ∧
      keepers w' = keepers w) as (Hw' & Hs & Hp & He & Hq & Hks).
    { destruct Hin as [(i & x & Hx & -> & ->)|(u & -> & ->)].
      - split; [intros j y Hy; simpl in Hy; apply ds_cancel_waiting in Hy; by eapply Hw|].
        pose proof (Hw i x Hx) as Hsx. destruct x as [r f []|u]; simpl; split_and!; by repeat constructor.
      - split_and!; try done; repeat constructor. by apply Hu. }
    split; [done|]. split; [left; split; [done|]; simpl; by rewrite He, Hq|].
    intros Hcl. destruct (Hcalm Hcl) as (Hun & _ & Hn & Ho). split; [done|]. split; [done|].
    unfold no_keeper in *. simpl. rewrite Hks, He. split; [done|]. intros _ Hx.
    destruct m as [|e|]; [|by destruct (Hun e)|done]. specialize (Ho eq_refl Hx). by inversion Ho.
Qed.
End Carrying.

(** *** Executions that the client remembers *)
Section Executions.
#[local] Set Default Proof Using "Type*".
Context {X U E Exn D : Type} `{DelayLaws D (closure U)}.
Context (cl : client X U E Exn).

(** Code that never calls the [exec] of a request itself: it leaves that to the queue;
    [execd]: the executions that the client's state remembers. *)
Context (safe : U → Prop) (execd : X → list rid).
Context (safe_cancel : ∀ r e, safe (v_cancel cl r e)) (safe_notify : ∀ r e, safe (v_notify cl r e)).
Context (code_calls : ∀ u qq x cs, safe u ∨ (∃ r, u = v_exec cl r) →
  (v_code cl u qq x).2 = Calls cs → Forall (safe_call safe) cs).
Context (code_execd : ∀ u qq x, safe u → execd (v_code cl u qq x).1 = execd x).
Context (exec_execd : ∀ r qq x, execd (v_code cl (v_exec cl r) qq x).1 `sublist_of` execd x ++ [r]).
Context (destroy_execd : ∀ r x, execd (v_destroy_impl cl r x) = execd x).
Context (capture_execd : ∀ e x, execd (v_capture cl e x) = execd x).

(** The execution that is being made is not remembered yet. *)
Definition exec_holds (o : option U) (x : X) (l : list rid) : Prop :=
  match o with
  | None => execd x `sublist_of` l
  | Some u => ∃ r l', u = v_exec cl r ∧ l = l' ++ [r] ∧ execd x `sublist_of` l'
  end.

Lemma exec_carrier : carrier cl safe exec_holds False (λ _, False) (λ _, False) (λ _, True).
Proof.
  split; try done.
  - intros r x l Hl. by exists r, l.
  - intros u qq x l _ Hu. assert (execd (v_code cl u qq x).1 `sublist_of` l) as Hl.
    { destruct Hu as [[Hu Hl]|(r & l' & -> & -> & Hl)]; [by rewrite code_execd|].
      etrans; [apply exec_execd|]. by apply sublist_app. }
    assert (safe u ∨ ∃ r, u = v_exec cl r) as Hu'.
    { destruct Hu as [[Hu _]|(r & l' & -> & _)]; [by left|right; by exists r]. }
    pose proof (λ cs, code_calls u qq x cs Hu') as Hcs. destruct (v_code cl u qq x) as [x' o]. simpl in *.
    unfold code_result. simpl. destruct o as [cs|e|]; [|split; [by intros []|done]|done].
    left. split; [|done]. by apply Hcs.
  - intros r x l. simpl. by rewrite destroy_execd.
  - intros e x l. simpl. by rewrite capture_execd.
Qed.

Lemma exec_inv_reachable c :
  reachable (queue_program cl) (λ w, queue_initial w ∧ execd (ext w) = []) (safe_input safe) c →
  execd (ext (mem c)) `sublist_of` executed (qlog (mem c)).
Proof.
  intros Hc. destruct (carry_inv_reachable cl safe exec_holds False (λ _, False) (λ _, False) (λ _, True) exec_carrier c)
    as (_ & Hh & _); [|done|].
  { eapply reachable_weaken; [|exact Hc]. intros w [Hq Hx]. split; [done|]. simpl. rewrite Hx. split; [done|by intros []]. }
  destruct Hh as [[_ Hh]|(u & k & _ & _ & _ & r & l & _ & -> & Hl)]; [done|].
  etrans; [exact Hl|]. by apply sublist_inserts_r.
Qed.
End Executions.

(** ** Properties *)

(** C1: whatever the requests and the callbacks do, throw included, a queue is a
    FIFO server as long as no callback was put off for a too deep recursion: the
    requests pushed, executed and done so far are a run of the abstract server
    whose pending requests are the queue's; so each request is executed at most
    once, only at the front, and never beside another one. *)
Theorem queue_refines_server {X U E Exn D : Type} `{DelayLaws D (closure U)}
    (cl : client X U E Exn) (c : config (world X Exn D) (frame U Exn) Exn)
    (Hreach : reachable (queue_program cl) queue_initial queue_input c)
    (Hm : cmode c ≠ Aborted) (Hsplit : split_free (qlog (mem c))) :
  ∃ b, serve_all (mkServer [] false) (qlog (mem c)) = Some (mkServer (requests (q (mem c))) b).
Proof.
  destruct (fifo_inv_reachable cl c Hreach Hm Hsplit) as (b & (Hs & _) & _). by exists b.
Qed.

(** C2: no wake-up is lost: when the stack has unwound to the loop, the front
    request, if there is one, is being executed; provided that no callback was
    put off by the recursion limit ([split_free]), nor for a request that was done
    within its own [push] while others were already waiting behind it ([stall_free]);
    without the latter it is false, as [queue_stalls] shows. *)
Theorem queue_no_lost_wakeup {X U E Exn D : Type} `{DelayLaws D (closure U)}
    (cl : client X U E Exn) (w : world X Exn D) (m : mode Exn)
    (Hreach : reachable (queue_program cl) queue_initial queue_input (Config [] w m))
    (Hm : m ≠ Aborted) (Hsplit : split_free (qlog w)) (Hstall : stall_free (qlog w))
    (Hne : requests (q w) ≠ []) :
  serve_all (mkServer [] false) (qlog w) = Some (mkServer (requests (q w)) true).
Proof.
  destruct (fifo_inv_reachable cl _ Hreach Hm Hsplit) as (b & Hk & _).
  destruct (wake_inv_reachable cl _ Hreach Hm Hsplit Hstall) as [_ Hw].
  destruct (lock_inv_reachable cl _ Hreach Hm) as (Hl & _).
  pose proof Hk as (Hs & _). simpl in *. destruct (Hw b Hk) as [->|[?|[Hlt|?]]]; [done|done| |done].
  rewrite Hl in Hlt. change (locks []) with 0%nat in Hlt. lia.
Qed.

(** C4: the lock is exact: [locked] is the number of pending frames that hold it,
    so exceptions never leave a queue locked; at rest it is unlocked. *)
Theorem queue_lock_exact {X U E Exn D : Type} `{DelayLaws D (closure U)}
    (cl : client X U E Exn) (c : config (world X Exn D) (frame U Exn) Exn)
    (Hreach : reachable (queue_program cl) queue_initial queue_input c)
    (Hm : cmode c ≠ Aborted) :
  locked (q (mem c)) = locks (stack c) ∧ (stack c = [] → locked (q (mem c)) = 0%nat).
Proof.
  destruct (lock_inv_reachable cl c Hreach Hm) as (Hl & _ & _). split; [done|].
  intros E0. rewrite Hl, E0. done.
Qed.

(** C3: [cancel] terminates and ends every request in the order of the queue,
    whatever the callbacks throw: the queue is then empty, nothing waits for a
    delayed callback, the lock is as it was before the call, nothing is being
    cancelled any more, and the generation is the next one, unless [fpost], which is
    called last, threw. This for a client that is [cancellable]: [Request::cancel] of
    each request ends in a [done] of it, and all its code terminates and makes no
    other call of the queue; for a queue that has each request once, each of them
    pushed by a [push] that has returned; and for a call made below the recursion
    limit. *)
Theorem queue_cancel_completes {X U E Exn D : Type} `{DelayLaws D (closure U)}
    (cl : client X U E Exn) (pre post : U) (w : world X Exn D)
    (Hcl : cancellable cl) (Hpre : ∀ x, ∃ x' o, runs cl [pre] x x' o)
    (Hpost : ∀ x, ∃ x' o, runs cl [post] x x' o)
    (Hnd : NoDup (requests (q w))) (Hasync : ∀ r, r ∈ requests (q w) → r ∈ async w)
    (Hrec : (resume_recursion (q w) ≤ SPLIT_RECURSION)%nat) :
  ∃ w' m, steps (queue_program cl) (Config [Frame (CApi (Cancel pre post None))] w Normal) (Config [] w' m) ∧
    m ≠ Aborted ∧ qlog w' = qlog w ++ (EvDone <$> requests (q w)) ∧
    requests (q w') = [] ∧ finalized_requests (q w') = [] ∧
    locked (q w') = locked (q w) ∧ cancel_till (q w') = None ∧
    ∃ x o, runs cl [post] x (ext w') o ∧ cancel_gen (q w') = gen_after o (cancel_gen (q w)).
Proof.
  destruct (cancellable_notified cl (finalized_requests (q w)) Hcl (ext w)) as [x1 H1].
  destruct (Hpre x1) as (x2 & o2 & H2).
  destruct (cancellable_drains cl (requests (q w)) Hcl x2) as [x3 H3].
  destruct (Hpost x3) as (x' & o & H4).
  destruct (cancel_runs cl pre post w [] x1 (requests (q w)) x2 x3 x' o H1)
    as (w' & m & S1 & Hm & _ & Lo & Lg & Re & Fi & Ti & Ge & X1); try done; [by econstructor|].
  exists w', m. split_and!; try done. exists x3, o. by rewrite X1.
Qed.

(** *** Clients to run *)

(** The code points of a test client; [UStart] is what the user calls first. *)
Inductive ucode :=
| UStart | UExec (r : rid) | UCancel (r : rid) | UNotify (r : rid) | UCallback (r : rid) | UNop.

Definition ex_calls (l : list (qapi ucode + ucode)) : unit * outcome (qapi ucode + ucode) nat := (tt, Calls l).

(** Requests that wait for the backend; callbacks that do nothing but the
    second one, which throws. *)
Definition ex_client : client unit ucode unit nat := {|
  v_exec := UExec; v_cancel r _ := UCancel r; v_notify r _ := UNotify r;
  v_destroy_impl _ x := x; v_capture _ x := x; canceled_err := tt;
  v_code u _ _ := match u with
    | UStart => ex_calls [inl (Push 1); inl (Push 2); inl (Push 3)]
    | UCancel r => ex_calls [inl (Done r (UCallback r))]
    | UCallback 2 => (tt, Throws 7%nat)
    | _ => ex_calls []
    end |}.

#[global] Instance closure_eq_dec `{EqDecision U} : EqDecision (closure U).
Proof. solve_decision. Defined.
#[global] Instance ucode_eq_dec : EqDecision ucode.
Proof. solve_decision. Defined.

Abbreviation ex_world := (world unit nat (Delayer (closure ucode) unit)).
Definition ex_world0 : ex_world := mkWorld new_queue ∅ ∅ new_delayer [] tt [].

Definition ex_run (cl : client unit ucode unit nat) (n : nat) (u : ucode) (w : ex_world) :
    config ex_world (frame ucode nat) nat :=
  run (queue_program cl) n (Config [Frame (CCode u)] w Normal).

Lemma ex_run_reachable cl n u : reachable (queue_program cl) queue_initial queue_input (ex_run cl n u ex_world0).
Proof.
  eapply reachable_steps; [|apply run_steps].
  eapply (reach_input _ _ _ ex_world0 Normal); [|done|right; by exists u].
  apply reach_init. exists new_delayer, tt. split; [|done]. intros p. apply not_elem_of_nil.
Qed.

Definition is_split (e : qevent) : bool := match e with EvSplit _ => true | _ => false end.
Definition is_stall (e : qevent) : bool := match e with EvLater _ (S _) => true | _ => false end.

Lemma split_free_dec l : existsb is_split l = false → split_free l.
Proof.
  intros Hl r Hr%list_elem_of_In. assert (existsb is_split l = true) by (apply existsb_exists; by exists (EvSplit r)).
  congruence.
Qed.

Lemma stall_free_dec l : existsb is_stall l = false → stall_free l.
Proof.
  intros Hl r n Hr%list_elem_of_In. assert (existsb is_stall l = true) by (apply existsb_exists; by exists (EvLater r (S n))).
  congruence.
Qed.

Definition ex_conf : config ex_world (frame ucode nat) nat :=
  Eval vm_compute in ex_run ex_client 9 UStart ex_world0.

Lemma ex_conf_reachable : reachable (queue_program ex_client) queue_initial queue_input ex_conf.
Proof.
  replace ex_conf with (ex_run ex_client 9 UStart ex_world0) by (vm_compute; reflexivity).
  apply ex_run_reachable.
Qed.

Lemma queue_refines_server_witness :
  ∃ b, serve_all (mkServer [] false) [EvPush 1; EvExec 1; EvPush 2; EvPush 3] = Some (mkServer [1; 2; 3]%nat b).
Proof.
  apply (queue_refines_server ex_client ex_conf ex_conf_reachable); [discriminate|].
  by apply split_free_dec.
Defined.

Lemma queue_no_lost_wakeup_witness :
  serve_all (mkServer [] false) [EvPush 1; EvExec 1; EvPush 2; EvPush 3] = Some (mkServer [1; 2; 3]%nat true).
Proof.
  apply (queue_no_lost_wakeup ex_client (mem ex_conf) Normal ex_conf_reachable); [discriminate| | |discriminate].
  - by apply split_free_dec.
  - by apply stall_free_dec.
Defined.

Lemma queue_lock_exact_witness : locked (q (mem ex_conf)) = 0%nat.
Proof. by apply (queue_lock_exact ex_client ex_conf ex_conf_reachable). Defined.

Lemma ex_runs u :
  (∀ qq, ex_client.(v_code) u qq tt = (tt, Calls [])) ∨ (∃ e, ∀ qq, ex_client.(v_code) u qq tt = (tt, Throws e)) →
  ∃ x' o, runs ex_client [u] tt x' o.
Proof.
  intros [V|[e V]]; [exists tt, None|exists tt, (Some e)].
  - apply (runs_code _ _ _ []) with (x1 := tt); [exact V|constructor].
  - by constructor.
Qed.

Lemma ex_cancellable : cancellable ex_client.
Proof.
  split; intros r [].
  - destruct (ex_runs (UCallback r)) as ([] & o & Ho); [destruct r as [|[|[|]]]; simpl; eauto|].
    exists tt. econstructor; [by apply ends_done|exact Ho].
  - apply ex_runs. by left.
Qed.

Lemma queue_cancel_completes_witness :
  ∃ w' m, steps (queue_program ex_client)
      (Config [Frame (CApi (Cancel UNop UNop None))] (mem ex_conf) Normal) (Config [] w' m) ∧
    requests (q w') = [].
Proof.
  destruct (queue_cancel_completes ex_client UNop UNop (mem ex_conf))
    as (w' & m & S1 & _ & _ & Hr & _).
  - exact ex_cancellable.
  - intros []. apply ex_runs. by left.
  - intros []. apply ex_runs. by left.
  - apply (bool_decide_unpack _). vm_compute. exact I.
  - intros r Hr. repeat (apply elem_of_cons in Hr as [->|Hr]; [apply (bool_decide_unpack _); vm_compute; exact I|]).
    by apply not_elem_of_nil in Hr.
  - simpl. unfold SPLIT_RECURSION. lia.
  - exists w', m. by split.
Defined.

(** *** What the model shows of the code *)

(** A chain of requests, each done within its [exec], whose callbacks push the
    next one; the callback of request 302 is put off. *)
Definition chain_client : client unit ucode unit nat := {|
  v_exec := UExec; v_cancel r _ := UCancel r; v_notify r _ := UNotify r;
  v_destroy_impl _ x := x; v_capture _ x := x; canceled_err := tt;
  v_code u _ _ := match u with
    | UStart => ex_calls [inl (Push 0); inl (Done 0 (UCallback 0))]
    | UExec (S r as n) => if decide (r < 301)%nat then ex_calls [inl (Done n (UCallback n))] else ex_calls []
    | UCallback n => ex_calls [inl (Push (S n))]
    | _ => ex_calls []
    end |}.

(** The loop calls the only waiting closure. *)
Definition ex_loop_turn (cl : client unit ucode unit nat) (n : nat) (x : closure ucode) (i : Z) (w : ex_world) :
    config ex_world (frame ucode nat) nat :=
  run (queue_program cl) n (Config (Frame <$> closure_calls x)
    (mkWorld (q w) (async w) (delay_id w) (ds_cancel i (loop w)) (keepers w) (ext w) (qlog w)) Normal).

Lemma ex_loop_turn_reachable cl n m u x i w :
  ex_run cl n u ex_world0 = Config [] w Normal → (i, x) ∈ ds_waiting (loop w) →
  reachable (queue_program cl) queue_initial queue_input (ex_loop_turn cl m x i w).
Proof.
  intros Hw Hx. eapply reachable_steps; [|apply run_steps].
  eapply (reach_input _ _ _ w Normal); [|done|].
  - rewrite <-Hw. apply ex_run_reachable.
  - left. by exists i, x.
Qed.

Definition count_exec (r : rid) (l : list qevent) : nat :=
  length (filter (λ e, e = EvExec r) l).

(** In the branch of the recursion limit the delayed lambda calls [resume()]
    although its callback ran without the lock: what the callback pushed, and
    [push] executed at once, is executed again. *)
Theorem queue_split_executes_twice :
  ∃ c, reachable (queue_program chain_client) queue_initial (queue_input (D:=Delayer (closure ucode) unit)) c ∧
    stack c = [] ∧ cmode c = Normal ∧ requests (q (mem c)) = [302%nat] ∧ count_exec 302 (qlog (mem c)) = 2%nat.
Proof.
  set (w := mem (ex_run chain_client 5000 UStart ex_world0)).
  exists (ex_loop_turn chain_client 20 (DelayedDone 301 (UCallback 301) true) 1 w).
  split; [|split_and!; vm_compute; reflexivity].
  apply (ex_loop_turn_reachable _ 5000 _ UStart); [vm_compute; reflexivity|].
  apply (bool_decide_unpack _). vm_compute. exact I.
Qed.

(** A request that pushes another one into its queue and is done, all within its
    own [push]. *)
Definition stall_client : client unit ucode unit nat := {|
  v_exec := UExec; v_cancel r _ := UCancel r; v_notify r _ := UNotify r;
  v_destroy_impl _ x := x; v_capture _ x := x; canceled_err := tt;
  v_code u _ _ := match u with
    | UStart => ex_calls [inl (Push 1)]
    | UExec 1 => ex_calls [inl (Push 2); inl (Done 1 (UCallback 1))]
    | _ => ex_calls []
    end |}.

(** The delayed lambda of a request done within its [push] does not call
    [resume()]: a request queued meanwhile is never executed, and nothing is left
    that would do it. *)
Theorem queue_stalls :
  ∃ c, reachable (queue_program stall_client) queue_initial (queue_input (D:=Delayer (closure ucode) unit)) c ∧
    stack c = [] ∧ cmode c = Normal ∧ requests (q (mem c)) = [2%nat] ∧
    count_exec 2 (qlog (mem c)) = 0%nat ∧ ds_waiting (loop (mem c)) = [].
Proof.
  set (w := mem (ex_run stall_client 50 UStart ex_world0)).
  exists (ex_loop_turn stall_client 20 (DelayedDone 1 (UCallback 1) false) 1 w).
  split; [|split_and!; vm_compute; reflexivity].
  apply (ex_loop_turn_reachable _ 50 _ UStart); [vm_compute; reflexivity|].
  apply (bool_decide_unpack _). vm_compute. exact I.
Qed.
