(* ===== verification/Work.v ===== *)
(** Background work: [Work.h], [Work.cc], and its backend
    [backend/WorkImpl.h], [backend-uv/src/UVWork.h].

    [queue()] gives the work to the thread pool of libuv, [cancel()] takes it
    back if no thread has started it. The thread pool is libuv's: a request is
    queued, then run by a thread, then finished, and then its [after_work_cb]
    runs in the loop; [uv_cancel] succeeds exactly while it is queued, and the
    callback of a cancelled request is still called. The threads and the loop are
    steps of one relation, so every interleaving of them is covered; so is a
    [uv_queue_work] that fails. *)
From S2P Require Import Prelude Errors.

(** Identities of [Work] and of [UVWork] objects. *)
Abbreviation wid := nat.
Abbreviation uid := nat.

(** ** Data *)

(** Where libuv holds a request. *)
Inductive phase := InPool | OnThread | Finished.

(** [UVWork]: [req] is [None] while libuv does not hold the request; [detached]:
    [after_work_cb] was replaced by the one that deletes the object. *)
Record uvwork := mkUVWork {
  uv_active : bool;
  owner : wid;
  req : option phase;
  detached : bool
}.

(** The fields [_active] and [_impl] of a [Work]. *)
Record work := mkWork { active : bool; impl : option uid }.

Definition new_work : work := mkWork false None.

(** What the callbacks of a work saw, in order; a ghost. *)
Inductive wevent :=
| EvQueued (w : wid)
| EvRefused (w : wid)                             (* [uv_queue_work] failed *)
| EvWork (w : wid)
| EvAfter (w : wid) (err : option error_code).

(** [registered]: the chain [Loop::_works], as the list of the works that were pushed
    to it and not erased. The intrusive chain is a library's: what it does with a work
    that is pushed while it is in the chain, which happens only when [queue()] is called
    again after libuv refused the work, is taken to be what a list does. *)
Record world := mkWorld {
  works : gmap wid work;
  registered : list wid;
  impls : gmap uid uvwork;
  next_impl : uid;
  wlog : list wevent
}.

Definition work_of (s : world) (w : wid) : work := default new_work (works s !! w).

Definition set_work (w : wid) (x : work) (s : world) : world :=
  mkWorld (<[w := x]> (works s)) (registered s) (impls s) (next_impl s) (wlog s).
Definition set_registered (l : list wid) (s : world) : world :=
  mkWorld (works s) l (impls s) (next_impl s) (wlog s).
Definition set_impl (u : uid) (x : uvwork) (s : world) : world :=
  mkWorld (works s) (registered s) (<[u := x]> (impls s)) (next_impl s) (wlog s).
Definition del_impl (u : uid) (s : world) : world :=
  mkWorld (works s) (registered s) (delete u (impls s)) (next_impl s) (wlog s).
Definition note (e : wevent) (s : world) : world :=
  mkWorld (works s) (registered s) (impls s) (next_impl s) (wlog s ++ [e]).

(** ** Operations *)

(** [Loop::register_work], [Loop::unregister_work] *)
Definition register_work (w : wid) (s : world) : world := set_registered (registered s ++ [w]) s.

Fixpoint erase_first (w : wid) (l : list wid) : list wid :=
  match l with [] => [] | x :: l => if decide (x = w) then l else x :: erase_first w l end.
Definition unregister_work (w : wid) (s : world) : world :=
  set_registered (erase_first w (registered s)) s.

(** [Work::impl], with the constructor of [UVWork]. *)
Definition get_impl (w : wid) (s : world) : world * uid :=
  match impl (work_of s w) with
  | Some u => (s, u)
  | None =>
      let u := next_impl s in
      (mkWorld (<[w := mkWork (active (work_of s w)) (Some u)]> (works s)) (registered s)
         (<[u := mkUVWork false w None false]> (impls s)) (S u) (wlog s), u)
  end.

(** [UVWork::queue]; [err] is what [uv_queue_work] returns. *)
Definition uv_queue (u : uid) (err : option uv_errno) (s : world) : world * option error_code :=
  match err, impls s !! u with
  | None, Some x => (set_impl u (mkUVWork true (owner x) (Some InPool) (detached x)) s, None)
  | _, _ => (s, uvx_ce err)
  end.

(** [UVWork::destroy]; [uv_cancel] fails unless the request is in the pool. *)
Definition uv_destroy (u : uid) (s : world) : world * bool :=
  match impls s !! u with
  | Some x =>
      if uv_active x then
        match req x with
        | Some InPool => (set_impl u (mkUVWork true (owner x) (Some Finished) true) s, true)
        | _ => (s, false)
        end
      else (del_impl u s, true)
  | None => (s, true)
  end.

(** [Work::queue] *)
Definition queue (w : wid) (err : option uv_errno) (s : world) : world * option error_code :=
  if active (work_of s w) then (s, Some (Std operation_in_progress)) else
  let s := register_work w s in
  let (s, u) := get_impl w s in
  let (s, e) := uv_queue u err s in
  match e with
  | Some e => (note (EvRefused w) s, Some e)
  | None => (note (EvQueued w) (set_work w (mkWork true (Some u)) s), None)
  end.

(** [Work::handle_after_work] *)
Definition handle_after_work (w : wid) (err : option error_code) (s : world) : world :=
  let s := unregister_work w s in
  note (EvAfter w err) (set_work w (mkWork false (impl (work_of s w))) s).

(** [Work::cancel] *)
Definition cancel (w : wid) (s : world) : world * bool :=
  let x := work_of s w in
  if negb (active x) then (s, true) else
  match impl x with
  | Some u =>
      let (s, ok) := uv_destroy u s in
      if negb ok then (s, false) else
      let s := set_work w (mkWork (active x) None) s in
      (handle_after_work w (Some (Std operation_canceled)) s, true)
  | None => (s, true)
  end.

(** ** The program: user, threads and loop *)

(** [queue()], with any answer [err] of [uv_queue_work]; [cancel()]; [UVWork::on_work] on
    a thread, the end of it, and [UVWork::on_after_work] (or the callback of a detached
    request) in the loop. *)
Inductive wstep : world → world → Prop :=
| step_queue w err s : wstep s (queue w err s).1
| step_cancel w s : wstep s (cancel w s).1
| step_on_work u x s :
    impls s !! u = Some x → req x = Some InPool →
    wstep s (note (EvWork (owner x)) (set_impl u (mkUVWork (uv_active x) (owner x) (Some OnThread) (detached x)) s))
| step_finish u x s :
    impls s !! u = Some x → req x = Some OnThread →
    wstep s (set_impl u (mkUVWork (uv_active x) (owner x) (Some Finished) (detached x)) s)
| step_after u x s :
    impls s !! u = Some x → req x = Some Finished → detached x = false →
    wstep s (handle_after_work (owner x) None (set_impl u (mkUVWork false (owner x) None false) s))
| step_delete u x s :
    impls s !! u = Some x → req x = Some Finished → detached x = true →
    wstep s (del_impl u s).

Definition start_world : world := mkWorld ∅ [] ∅ 0 [].
Definition wreachable (s : world) : Prop := rtc wstep start_world s.

(** ** The contract: the life of a work *)

Inductive life := Idle | Queued | Working.

#[global] Instance life_eq_dec : EqDecision life.
Proof. solve_decision. Defined.

Definition live (e : wevent) (w : wid) (l : life) : option life :=
  match e with
  | EvQueued v => if decide (v = w) then match l with Idle => Some Queued | _ => None end else Some l
  | EvRefused v => if decide (v = w) then match l with Idle => Some Idle | _ => None end else Some l
  | EvWork v => if decide (v = w) then match l with Queued => Some Working | _ => None end else Some l
  | EvAfter v err =>
      if decide (v = w) then
        match l, err with
        | Working, None => Some Idle
        | Queued, Some e => if decide (e = Std operation_canceled) then Some Idle else None
        | _, _ => None
        end
      else Some l
  end.

Fixpoint live_all (w : wid) (l : life) (es : list wevent) : option life :=
  match es with [] => Some l | e :: es => l' ← live e w l; live_all w l' es end.

Lemma live_all_snoc w l es e : live_all w l (es ++ [e]) = l' ← live_all w l es; live e w l'.
Proof.
  revert l. induction es as [|x es IH]; intros l; simpl; [by destruct (live e w l)|].
  destruct (live x w l); simpl; [apply IH|done].
Qed.

(** What a work's fields say of where it is in its life. *)
Definition life_of (s : world) (w : wid) : life :=
  if negb (active (work_of s w)) then Idle else
  match impl (work_of s w) ≫= λ u, impls s !! u with
  | Some x => match req x with Some InPool => Queued | _ => Working end
  | None => Working
  end.

(** How often [queue()] of a work was refused by libuv, and how often the loop has a
    work in its chain. *)
Definition refused (e : wevent) : option wid := match e with EvRefused w => Some w | _ => None end.
Definition refusals (w : wid) (l : list wevent) : nat := count_occ Nat.eq_dec (omap refused l) w.
Definition holds (s : world) (w : wid) : nat := count_occ Nat.eq_dec (registered s) w.

Lemma refusals_snoc w l e : refusals w (l ++ [e]) = refusals w l + (if decide (refused e = Some w) then 1 else 0).
Proof.
  unfold refusals. rewrite omap_app, count_occ_app. f_equal. simpl.
  destruct (refused e) as [v|]; simpl; [|done]. destruct (Nat.eq_dec v w) as [->|Ne].
  - by rewrite decide_True.
  - rewrite decide_False; [done|]. congruence.
Qed.

(** ** The invariant *)

Record winv (s : world) : Prop := {
  inv_life w : live_all w Idle (wlog s) = Some (life_of s w);
  inv_impl w u : impl (work_of s w) = Some u →
    ∃ x, impls s !! u = Some x ∧ owner x = w ∧ detached x = false ∧
         (active (work_of s w) = true ↔ req x ≠ None);
  inv_active w : active (work_of s w) = true → impl (work_of s w) ≠ None;
  inv_req u x : impls s !! u = Some x → uv_active x = true ↔ req x ≠ None;
  inv_owner u x : impls s !! u = Some x →
    if detached x then req x = Some Finished else impl (work_of s (owner x)) = Some u;
  inv_next u x : impls s !! u = Some x → u < next_impl s;
  inv_registered w : holds s w = (if active (work_of s w) then 1 else 0) + refusals w (wlog s)
}.

Lemma work_of_insert s w x v :
  work_of (set_work w x s) v = if decide (w = v) then x else work_of s v.
Proof.
  unfold work_of, set_work. simpl. case_decide; [subst; by rewrite lookup_insert_eq|].
  by rewrite lookup_insert_ne.
Qed.

Lemma erase_first_count w l v :
  count_occ Nat.eq_dec (erase_first w l) v = count_occ Nat.eq_dec l v - (if decide (v = w) then 1 else 0).
Proof.
  induction l as [|x l IH]; simpl; [lia|]. destruct (decide (x = w)) as [->|Ne].
  - destruct (Nat.eq_dec w v) as [->|]; [rewrite decide_True by done; lia|]. rewrite decide_False by congruence. lia.
  - simpl. rewrite IH. destruct (Nat.eq_dec x v) as [->|]; [|done]. rewrite decide_False by done. lia.
Qed.

Lemma count_occ_snoc w (l : list wid) v :
  count_occ Nat.eq_dec (l ++ [w]) v = count_occ Nat.eq_dec l v + (if decide (w = v) then 1 else 0).
Proof. by rewrite count_occ_app. Qed.

Lemma work_of_next s w x v r im n l :
  work_of (mkWorld (<[w := x]> (works s)) r im n l) v = if decide (w = v) then x else work_of s v.
Proof. apply (work_of_insert s w x v). Qed.

Lemma work_of_same s s' : works s' = works s → work_of s' = work_of s.
Proof. intros E. unfold work_of. by rewrite E. Qed.

Lemma life_of_same s s' w :
  work_of s' w = work_of s w →
  (∀ u, impl (work_of s w) = Some u → impls s' !! u = impls s !! u) → life_of s' w = life_of s w.
Proof.
  intros E Hi. unfold life_of. rewrite E. destruct (active _); simpl; [|done].
  destruct (impl (work_of s w)) as [u|]; simpl; [|done]. by rewrite Hi.
Qed.

Lemma get_impl_registered w l s :
  get_impl w (set_registered l s) = (set_registered l (get_impl w s).1, (get_impl w s).2).
Proof. unfold get_impl. simpl. change (work_of (set_registered l s)) with (work_of s). by destruct (impl _). Qed.

Lemma get_impl_spec w s :
  winv s → let (s1, u) := get_impl w s in
  winv s1 ∧ work_of s1 w = mkWork (active (work_of s w)) (Some u) ∧ wlog s1 = wlog s ∧
  registered s1 = registered s.
Proof.
  intros [Hl Hi Ha Hr Ho Hn Hg]. unfold get_impl.
  destruct (impl (work_of s w)) as [u|] eqn:I.
  { split; [by split|]. split; [|done]. rewrite <-I. by destruct (work_of s w). }
  set (s1 := mkWorld _ _ _ _ _).
  assert (∀ v, work_of s1 v = if decide (w = v) then mkWork (active (work_of s w)) (Some (next_impl s)) else work_of s v)
    as W by (intros v; apply work_of_next).
  assert (active (work_of s w) = false) as Aw.
  { destruct (active (work_of s w)) eqn:A; [|done]. by destruct (Ha w A). }
  assert (∀ v u, impl (work_of s v) = Some u → u ≠ next_impl s) as Hnew.
  { intros v u Hv ->. destruct (Hi v _ Hv) as (x & Hx & _). apply Hn in Hx. lia. }
  split; [|split; [by rewrite W, decide_True|done]]. split.
  - intros v. change (wlog s1) with (wlog s). rewrite (Hl v). f_equal. unfold life_of. rewrite W. case_decide; [subst v; by rewrite Aw|].
    destruct (active (work_of s v)); simpl; [|done]. destruct (impl (work_of s v)) as [u|] eqn:V; simpl; [|done].
    rewrite lookup_insert_ne; [done|]. intros <-. by eapply Hnew.
  - intros v u. rewrite W. case_decide; simpl.
    + intros [= <-]. subst v. eexists. rewrite lookup_insert_eq. split; [done|]. by rewrite Aw.
    + intros V. destruct (Hi v u V) as (x & Hx & Hrest). exists x. split; [|done].
      rewrite lookup_insert_ne; [done|]. intros <-. by eapply Hnew.
  - intros v. rewrite W. case_decide; simpl; [done|apply Ha].
  - intros u x. simpl. rewrite lookup_insert_Some. intros [[<- <-]|[_ Hx]]; [done|by eapply Hr].
  - intros u x. simpl. rewrite lookup_insert_Some. intros [[<- <-]|[Hne Hx]]; simpl.
    + by rewrite W, decide_True.
    + specialize (Ho u x Hx). destruct (detached x); [done|]. rewrite W. case_decide; [congruence|done].
  - intros u x. simpl. rewrite lookup_insert_Some. intros [[<- <-]|[Hne Hx]]; [lia|]. apply Hn in Hx. lia.
  - intros v. change (holds s1 v) with (holds s v). rewrite (Hg v), W. case_decide; [by subst v|done].
Qed.

#[global] Instance phase_eq_dec : EqDecision phase.
Proof. solve_decision. Defined.

(** A request moves on in libuv; [l] is what its owner sees. *)
Definition advance (u : uid) (x : uvwork) (p : phase) (l : list wevent) (s : world) : world :=
  mkWorld (works s) (registered s)
    (<[u := mkUVWork (uv_active x) (owner x) (Some p) (detached x)]> (impls s)) (next_impl s) (wlog s ++ l).

Lemma life_of_advance u x p l s v :
  winv s → impls s !! u = Some x → detached x = false →
  life_of (advance u x p l s) v =
    if decide (v = owner x ∧ active (work_of s v) = true)
    then match p with InPool => Queued | _ => Working end else life_of s v.
Proof.
  intros [Hl Hi Ha Hr Ho Hn Hg] Hu Hdet. unfold life_of.
  change (work_of (advance u x p l s)) with (work_of s).
  destruct (active (work_of s v)) eqn:A; simpl; [|by rewrite decide_False by naive_solver].
  pose proof (Ho u x Hu) as Own. rewrite Hdet in Own.
  case_decide as D.
  - destruct D as [-> _]. rewrite Own. simpl. by rewrite lookup_insert_eq.
  - destruct (impl (work_of s v)) as [u'|] eqn:V; simpl; [|done].
    destruct (decide (u = u')) as [<-|]; [|by rewrite lookup_insert_ne].
    destruct (Hi v u V) as (x' & Hx' & O & _). rewrite Hu in Hx'. injection Hx' as <-.
    destruct D. naive_solver.
Qed.

Lemma winv_advance u x p l s :
  winv s → impls s !! u = Some x → req x ≠ None → detached x = false →
  (∀ v, refusals v (wlog s ++ l) = refusals v (wlog s)) →
  (∀ v, live_all v Idle (wlog s ++ l) = Some (life_of (advance u x p l s) v)) →
  winv (advance u x p l s).
Proof.
  intros [Hl Hi Ha Hr Ho Hn Hg] Hu Hreq Hdet Href Hlife. split; try done.
  - intros v u' V. destruct (Hi v u' V) as (x' & Hx' & O & Dt & Iff). simpl.
    destruct (decide (u = u')) as [<-|]; [|exists x'; rewrite lookup_insert_ne by done; done].
    rewrite Hu in Hx'. injection Hx' as <-. eexists. rewrite lookup_insert_eq. split; [done|]. simpl.
    split_and!; try done. change (work_of (advance _ _ _ _ s)) with (work_of s). naive_solver.
  - intros u' x'. simpl. rewrite lookup_insert_Some. intros [[<- <-]|[_ Hx']]; simpl; [|by eapply Hr].
    specialize (Hr u x Hu). naive_solver.
  - intros u' x'. simpl. rewrite lookup_insert_Some. intros [[<- <-]|[_ Hx']]; simpl.
    + specialize (Ho u x Hu). by rewrite Hdet in *.
    + by apply Ho.
  - intros u' x'. simpl. rewrite lookup_insert_Some. intros [[<- <-]|[_ Hx']]; by eapply Hn.
  - intros v. change (wlog (advance u x p l s)) with (wlog s ++ l). rewrite Href. apply Hg.
Qed.

Lemma winv_owner u x s :
  winv s → impls s !! u = Some x → req x ≠ None → detached x = false →
  work_of s (owner x) = mkWork true (Some u).
Proof.
  intros [Hl Hi Ha Hr Ho Hn Hg] Hu Hreq Hdet. specialize (Ho u x Hu). rewrite Hdet in Ho.
  destruct (Hi _ u Ho) as (x' & Hx' & _ & _ & Iff). rewrite Hu in Hx'. injection Hx' as <-.
  destruct (work_of s (owner x)) as [a i]. simpl in *. subst i. f_equal. by apply Iff.
Qed.

Lemma winv_on_work u x s :
  winv s → impls s !! u = Some x → req x = Some InPool →
  winv (advance u x OnThread [EvWork (owner x)] s).
Proof.
  intros Hw Hu Hreq.
  assert (detached x = false) as Hdet.
  { pose proof (inv_owner s Hw u x Hu) as Ho. destruct (detached x); [congruence|done]. }
  assert (req x ≠ None) as Hne by congruence.
  pose proof (winv_owner u x s Hw Hu Hne Hdet) as Own.
  apply winv_advance; try done; [intros v; rewrite refusals_snoc; simpl; lia|].
  intros v. rewrite life_of_advance by done. rewrite live_all_snoc, (inv_life s Hw v). simpl. case_decide as D.
  - rewrite decide_True by (subst v; by rewrite Own). subst v.
    assert (life_of s (owner x) = Queued) as -> by (unfold life_of; rewrite Own; simpl; by rewrite Hu, Hreq). done.
  - by rewrite decide_False by naive_solver.
Qed.

Lemma winv_finish u x s :
  winv s → impls s !! u = Some x → req x = Some OnThread → winv (advance u x Finished [] s).
Proof.
  intros Hw Hu Hreq.
  assert (detached x = false) as Hdet.
  { pose proof (inv_owner s Hw u x Hu) as Ho. destruct (detached x); [congruence|done]. }
  assert (req x ≠ None) as Hne by congruence.
  pose proof (winv_owner u x s Hw Hu Hne Hdet) as Own.
  apply winv_advance; try done; [intros v; by rewrite app_nil_r|].
  intros v. rewrite life_of_advance by done. rewrite app_nil_r, (inv_life s Hw v). case_decide as D; [|done]. destruct D as [-> _].
  unfold life_of. rewrite Own. simpl. by rewrite Hu, Hreq.
Qed.

(** [handle_after_work] once the work has let go of its request. *)
Lemma winv_release w err x' s s1 :
  winv s → active (work_of s w) = true →
  (live (EvAfter w err) w (life_of s w) = Some Idle) →
  wlog s1 = wlog s → registered s1 = registered s → next_impl s1 = next_impl s →
  works s1 = <[w := x']> (works s) ∨ (works s1 = works s ∧ x' = work_of s w) →
  (∀ u x, impls s1 !! u = Some x → (impls s !! u = Some x ∧ (owner x ≠ w ∨ detached x = true)) ∨
     (impl x' = Some u ∧ x = mkUVWork false w None false) ∨
     (impl x' = None ∧ x = mkUVWork true w (Some Finished) true ∧ u < next_impl s)) →
  (∀ u x, impls s !! u = Some x → owner x ≠ w → impls s1 !! u = Some x) →
  (∀ u, impl x' = Some u → impls s1 !! u = Some (mkUVWork false w None false) ∧ u < next_impl s) →
  winv (handle_after_work w err s1).
Proof.
  intros [Hl Hi Ha Hr Ho Hn Hg] Aw Hlive El Er En Ew H1 H2 H3.
  set (s2 := handle_after_work w err s1).
  assert (∀ v, work_of s2 v = if decide (w = v) then mkWork false (impl x') else work_of s v) as W.
  { intros v. unfold s2, handle_after_work, note, set_work, unregister_work, set_registered. simpl.
    unfold work_of at 1. simpl. destruct (decide (w = v)) as [<-|Hne].
    - rewrite lookup_insert_eq. simpl. unfold work_of. simpl.
      destruct Ew as [-> | [-> ->]]; [by rewrite lookup_insert_eq|done].
    - rewrite lookup_insert_ne by done. destruct Ew as [-> | [-> _]]; [by rewrite lookup_insert_ne|done]. }
  assert (impls s2 = impls s1) as Im by done.
  split.
  - intros v. change (wlog s2) with (wlog s1 ++ [EvAfter w err]). rewrite live_all_snoc, El, (Hl v). simpl.
    destruct (decide (w = v)) as [<-|Hne].
    + simpl in Hlive. rewrite decide_True in Hlive by done. rewrite Hlive.
      unfold life_of. by rewrite W, decide_True.
    + f_equal. unfold life_of. rewrite W, decide_False by done. rewrite Im.
      destruct (active (work_of s v)); simpl; [|done].
      destruct (impl (work_of s v)) as [u|] eqn:V; simpl; [|done].
      destruct (Hi v u V) as (x & Hx & O & _). rewrite Hx. symmetry. rewrite (H2 u x Hx) by congruence. done.
  - intros v u. rewrite W, Im. case_decide as D; simpl.
    + intros V. destruct (H3 u V) as [Hx _]. eexists. split; [exact Hx|]. by subst v.
    + intros V. destruct (Hi v u V) as (x & Hx & O & Rest). exists x. split; [|done]. apply H2; congruence.
  - intros v. rewrite W. case_decide; [done|apply Ha].
  - intros u x. rewrite Im. intros Hx. destruct (H1 u x Hx) as [[Hs _]|[[_ ->]|(_ & -> & _)]]; [by eapply Hr|done|done].
  - intros u x. rewrite Im. intros Hx. destruct (H1 u x Hx) as [[Hs O]|[[V ->]|(_ & -> & _)]]; simpl; [|by rewrite W, decide_True|done].
    specialize (Ho u x Hs). destruct (detached x); [done|]. rewrite W, decide_False; [done|]. destruct O; congruence.
  - intros u x. rewrite Im. change (next_impl s2) with (next_impl s1). rewrite En. intros Hx.
    destruct (H1 u x Hx) as [[Hs _]|[[V ->]|(_ & -> & ?)]]; [by eapply Hn|by apply H3|done].
  - intros v. change (wlog s2) with (wlog s1 ++ [EvAfter w err]). rewrite refusals_snoc, El.
    change (holds s2 v) with (count_occ Nat.eq_dec (erase_first w (registered s1)) v).
    rewrite Er, erase_first_count. fold (holds s v). rewrite (Hg v), W.
    destruct (decide (w = v)) as [<-|Ne]; [rewrite Aw, decide_True by done|rewrite decide_False by congruence]; simpl; lia.
Qed.

Lemma winv_after u x s :
  winv s → impls s !! u = Some x → req x = Some Finished → detached x = false →
  winv (handle_after_work (owner x) None (set_impl u (mkUVWork false (owner x) None false) s)).
Proof.
  intros Hw Hu Hreq Hdet. assert (req x ≠ None) as Hne by congruence.
  pose proof (winv_owner u x s Hw Hu Hne Hdet) as Own.
  apply (winv_release (owner x) None (work_of s (owner x)) s); try done; [by rewrite Own| |by right|..].
  - simpl. rewrite decide_True by done. unfold life_of. rewrite Own. simpl. by rewrite Hu, Hreq.
  - intros u' x'. simpl. rewrite lookup_insert_Some. rewrite Own. simpl.
    intros [[<- <-]|[Ne Hx']]; [by right; left|left]. split; [done|].
    destruct (detached x') eqn:D; [by right|left]. intros O.
    pose proof (inv_owner s Hw u' x' Hx') as Ho. rewrite D, O, Own in Ho. simpl in Ho. congruence.
  - intros u' x' Hx' O. simpl. rewrite lookup_insert_ne; [done|]. intros <-. congruence.
  - rewrite Own. simpl. intros u' [= <-]. rewrite lookup_insert_eq. split; [done|]. by eapply inv_next.
Qed.

Lemma winv_cancel w s : winv s → winv (cancel w s).1.
Proof.
  intros Hw. unfold cancel. destruct (active (work_of s w)) eqn:A; simpl; [|done].
  destruct (impl (work_of s w)) as [u|] eqn:I; [|done].
  destruct (inv_impl s Hw w u I) as (x & Hx & O & Hdet & Iff). apply Iff in A as Hne.
  unfold uv_destroy. rewrite Hx, (proj2 (inv_req s Hw u x Hx) Hne).
  destruct (req x) as [[]|] eqn:R; simpl; try done.
  apply (winv_release w _ (mkWork true None) s); try done.
  - simpl. rewrite decide_True by done. unfold life_of. rewrite A, I. simpl. by rewrite Hx, R.
  - by left.
  - intros u' x'. simpl. rewrite lookup_insert_Some. intros [[<- <-]|[Ne Hx']].
    + right; right. rewrite O. split_and!; try done. by eapply inv_next.
    + left. split; [done|]. destruct (detached x') eqn:D; [by right|left]. intros O'.
      pose proof (inv_owner s Hw u' x' Hx') as Ho. rewrite D, O', I in Ho. congruence.
  - intros u' x' Hx' O'. simpl. rewrite lookup_insert_ne; [done|]. intros <-. congruence.
Qed.

(** [queue()] once libuv has accepted the request, and when it refused it: the work
    is in the chain once more than before. *)
Lemma winv_accepted w u x s :
  winv s → work_of s w = mkWork false (Some u) → impls s !! u = Some x →
  winv (note (EvQueued w) (set_work w (mkWork true (Some u))
    (set_impl u (mkUVWork true (owner x) (Some InPool) (detached x)) (register_work w s)))).
Proof.
  intros [Hl Hi Ha Hr Ho Hn Hg] W1 Hx.
  destruct (Hi w u ltac:(by rewrite W1)) as (x0 & Hx0 & O & Hdet & Iff).
  rewrite Hx in Hx0. injection Hx0 as <-. rewrite W1 in Iff. simpl in Iff.
  set (s2 := note _ _).
  assert (∀ v, work_of s2 v = if decide (w = v) then mkWork true (Some u) else work_of s v) as W
    by (intros v; apply (work_of_insert s)).
  split.
  - intros v. change (wlog s2) with (wlog s ++ [EvQueued w]). rewrite live_all_snoc, (Hl v). simpl.
    unfold life_of. rewrite W. destruct (decide (w = v)) as [<-|Ne].
    + rewrite W1. simpl. by rewrite lookup_insert_eq.
    + destruct (active (work_of s v)); simpl; [|done]. destruct (impl (work_of s v)) as [u'|] eqn:V; simpl; [|done].
      rewrite lookup_insert_ne; [done|]. intros <-. destruct (Hi v u V) as (x' & Hx' & O' & _). congruence.
  - intros v u'. rewrite W. case_decide as D; simpl.
    + intros [= <-]. subst v. eexists. rewrite lookup_insert_eq. by split_and!.
    + intros V. destruct (Hi v u' V) as (x' & Hx' & O' & Rest). exists x'. rewrite lookup_insert_ne; [done|].
      intros <-. congruence.
  - intros v. rewrite W. case_decide; [done|apply Ha].
  - intros u' x'. simpl. rewrite lookup_insert_Some. intros [[<- <-]|[_ Hx']]; [done|by eapply Hr].
  - intros u' x'. simpl. rewrite lookup_insert_Some.
    intros [[<- <-]|[Ne Hx']]; simpl; [by rewrite Hdet, O, W, decide_True|].
    specialize (Ho u' x' Hx'). destruct (detached x'); [done|]. rewrite W. case_decide as D; [|done].
    rewrite <-D, W1 in Ho. simpl in *. congruence.
  - intros u' x'. simpl. rewrite lookup_insert_Some. intros [[<- <-]|[_ Hx']]; by eapply Hn.
  - intros v. change (wlog s2) with (wlog s ++ [EvQueued w]). rewrite refusals_snoc, W. unfold holds. simpl.
    rewrite count_occ_snoc. fold (holds s v). rewrite (Hg v).
    case_decide as D; [subst v; rewrite W1|]; simpl; lia.
Qed.

Lemma winv_refused w s :
  winv s → active (work_of s w) = false → winv (note (EvRefused w) (register_work w s)).
Proof.
  intros [Hl Hi Ha Hr Ho Hn Hg] Aw. split; try done.
  - intros v. simpl. rewrite live_all_snoc, (Hl v). simpl.
    change (life_of (note (EvRefused w) (register_work w s)) v) with (life_of s v).
    case_decide as D; [|done]. subst v. unfold life_of. by rewrite Aw.
  - intros v. change (wlog (note _ _)) with (wlog s ++ [EvRefused w]).
    change (work_of (note _ _) v) with (work_of s v). rewrite refusals_snoc. unfold holds. simpl.
    rewrite count_occ_snoc. fold (holds s v). rewrite (Hg v).
    case_decide as D; [subst v; rewrite decide_True by done|rewrite decide_False by congruence]; lia.
Qed.

Lemma winv_queue w err s : winv s → winv (queue w err s).1.
Proof.
  intros Hw. unfold queue. destruct (active (work_of s w)) eqn:A; [done|].
  unfold register_work. rewrite get_impl_registered. pose proof (get_impl_spec w s Hw) as G.
  destruct (get_impl w s) as [s1 u]. destruct G as (Hw1 & W1 & L1 & R1). rewrite A in W1. cbn.
  destruct (inv_impl s1 Hw1 w u ltac:(by rewrite W1)) as (x & Hx & _).
  rewrite <-R1. change (set_registered (registered s1 ++ [w]) s1) with (register_work w s1).
  unfold uv_queue. destruct err as [e|].
  - destruct (uvx_ce (Some e)) eqn:E; [|done]. simpl. apply winv_refused; [done|]. by rewrite W1.
  - change (impls (register_work w s1)) with (impls s1). rewrite Hx. simpl. by apply winv_accepted.
Qed.

Lemma winv_delete u x s :
  winv s → impls s !! u = Some x → detached x = true → winv (del_impl u s).
Proof.
  intros [Hl Hi Ha Hr Ho Hn Hg] Hu Hdet.
  assert (∀ v, impl (work_of s v) ≠ Some u) as Hno.
  { intros v V. destruct (Hi v u V) as (x' & Hx' & _ & D & _). congruence. }
  split; try done.
  - intros v. simpl. rewrite (Hl v). f_equal. unfold life_of. change (work_of (del_impl u s)) with (work_of s).
    destruct (active (work_of s v)); simpl; [|done]. destruct (impl (work_of s v)) as [u'|] eqn:V; simpl; [|done].
    rewrite lookup_delete_ne; [done|]. intros <-. by destruct (Hno v).
  - intros v u' V. destruct (Hi v u' V) as (x' & Hx' & Rest). exists x'. simpl. rewrite lookup_delete_ne; [done|].
    intros <-. by destruct (Hno v).
  - intros u' x'. simpl. rewrite lookup_delete_Some. intros [_ ?]. by eapply Hr.
  - intros u' x'. simpl. rewrite lookup_delete_Some. intros [_ ?]. by apply Ho.
  - intros u' x'. simpl. rewrite lookup_delete_Some. intros [_ ?]. by eapply Hn.
Qed.

Lemma winv_step s s' : winv s → wstep s s' → winv s'.
Proof.
  intros Hw Hs. destruct Hs as [w err s|w s|u x s Hu R|u x s Hu R|u x s Hu R D|u x s Hu R D].
  - by apply winv_queue.
  - by apply winv_cancel.
  - exact (winv_on_work u x s Hw Hu R).
  - pose proof (winv_finish u x s Hw Hu R) as Hf. unfold advance in Hf. by rewrite app_nil_r in Hf.
  - by apply winv_after.
  - by eapply winv_delete.
Qed.

Lemma winv_reachable s : wreachable s → winv s.
Proof.
  intros Hs. assert (winv start_world) as H0.
  { split; done. }
  revert H0. induction Hs as [|s1 s2 s3 Hstep _ IH]; [done|]. intros. by apply IH, (winv_step s1).
Qed.

(** ** Properties *)

(** C16: for every interleaving of the user, the threads and the loop, and whatever
    libuv answers to [uv_queue_work], what each work goes through is a life of the
    contract: every [queue()] that succeeded is followed by exactly one [after_work];
    the work is run at most once between them, never after a successful cancel, and a
    completion without error means that it was run; a [queue()] that libuv refused
    gives neither. The loop has a work in its chain once while it is in progress, and
    once more for every refusal, for ever: a work that was never refused is in the
    chain exactly while it is in progress. *)
Theorem work_lifecycle (s : world) (w : wid) (Hs : wreachable s) :
  live_all w Idle (wlog s) = Some (life_of s w) ∧
  holds s w = (if decide (life_of s w = Idle) then 0 else 1) + refusals w (wlog s).
Proof.
  apply winv_reachable in Hs. split; [by apply inv_life|].
  rewrite (inv_registered s Hs w). f_equal. unfold life_of. destruct (active (work_of s w)); simpl; [|done].
  destruct (impl _ ≫= _) as [x|]; [|done]. by destruct (req x) as [[]|].
Qed.

(** [cancel()] of a work that is in progress succeeds exactly when no thread
    has started it; it then reports the cancellation at once and the work is idle;
    otherwise it changes nothing. *)
Theorem work_cancel_exact (s : world) (w : wid) (Hs : wreachable s) (Ha : life_of s w ≠ Idle) :
  ((cancel w s).2 = true ↔ life_of s w = Queued) ∧
  ((cancel w s).2 = true → life_of (cancel w s).1 w = Idle ∧
     wlog (cancel w s).1 = wlog s ++ [EvAfter w (Some (Std operation_canceled))]) ∧
  ((cancel w s).2 = false → (cancel w s).1 = s).
Proof.
  apply winv_reachable in Hs. revert Ha. unfold life_of at 1 2, cancel.
  destruct (active (work_of s w)) eqn:A; simpl; [|done]. intros _.
  destruct (impl (work_of s w)) as [u|] eqn:I; [|by destruct (inv_active s Hs w A)]. simpl.
  destruct (inv_impl s Hs w u I) as (x & Hx & O & Hdet & Iff). apply Iff in A as Hne.
  unfold uv_destroy. rewrite Hx, (proj2 (inv_req s Hs u x Hx) Hne). simpl.
  destruct (req x) as [[]|]; simpl; try done. split_and!; try done. intros _. split; [|done].
  unfold life_of, work_of. simpl. by rewrite lookup_insert_eq.
Qed.

Definition ex_work : world := (cancel 0 (queue 1 None (queue 0 None (queue 1 (Some UV_EINVAL) start_world).1).1).1).1.

Lemma ex_work_reachable : wreachable ex_work.
Proof.
  eapply rtc_l; [apply (step_queue 1 (Some UV_EINVAL))|]. eapply rtc_l; [apply (step_queue 0 None)|].
  eapply rtc_l; [apply (step_queue 1 None)|]. apply rtc_once, step_cancel.
Qed.

Lemma work_lifecycle_witness :
  live_all 1 Idle [EvRefused 1; EvQueued 0; EvQueued 1; EvAfter 0 (Some (Std operation_canceled))] = Some Queued ∧
  holds ex_work 1 = 2.
Proof. apply (work_lifecycle ex_work 1 ex_work_reachable). Defined.

Lemma work_cancel_exact_witness : (cancel 1 ex_work).2 = true ↔ life_of ex_work 1 = Queued.
Proof. apply (work_cancel_exact ex_work 1 ex_work_reachable). vm_compute. discriminate. Defined.

(** When [uv_queue_work] fails, [Work::queue] returns the error (Work.cc:15-17) after it
    has registered the work, which stays registered in the loop though it
    is not active: nothing unregisters it. *)
Theorem work_queue_error_leaks :
  let s := (queue 0 (Some UV_EINVAL) start_world).1 in
  (queue 0 (Some UV_EINVAL) start_world).2 = Some (Std invalid_argument) ∧
  active (work_of s 0) = false ∧ registered s = [0].
Proof. vm_compute. done. Qed.
