(* ===== verification/Fs.v ===== *)
(** The file system: [Fs.h], [Fs.cc].

    Every operation is a call of libuv's [uv_fs_*] family and the translation of
    its result; some are built from others ([mkpath], [remove_all], [truncate],
    [touch], ...). The file system behind libuv is a parameter: a state [Σ] and a
    function [uv_fs] from calls to results. The asynchronous API runs the
    synchronous operation on a thread, see [Work.v], keeps its result in the
    fields of the request and hands them to the callback. *)
From S2P Require Import Prelude Errors.
From Stdlib Require Import Ascii.
#[local] Open Scope Z_scope.

Abbreviation bytes := (list ascii).
Abbreviation path := (list ascii).

(** ** Data *)

Definition DEFAULT_FILE_MODE : Z := 420.   (* 0644 *)
Definition DEFAULT_DIR_MODE : Z := 493.    (* 0755 *)

Inductive FileType := UNKNOWN | BLOCK | CHAR | DIR | FIFO | LINK | FILE | SOCKET.

#[global] Instance filetype_eq_dec : EqDecision FileType.
Proof. solve_decision. Defined.

(** [TimeSpec], with its comparisons. *)
Record TimeSpec := mkTimeSpec { ts_sec : Z; ts_nsec : Z }.

#[global] Instance timespec_eq_dec : EqDecision TimeSpec.
Proof. solve_decision. Defined.

Definition ts_ge (a b : TimeSpec) : bool :=
  (ts_sec b <? ts_sec a) || (ts_sec a =? ts_sec b) && (ts_nsec b <=? ts_nsec a).
Definition ts_gt (a b : TimeSpec) : bool :=
  (ts_sec b <? ts_sec a) || (ts_sec a =? ts_sec b) && (ts_nsec b <? ts_nsec a).
Definition ts_le (a b : TimeSpec) : bool := negb (ts_gt a b).
Definition ts_lt (a b : TimeSpec) : bool := negb (ts_ge a b).

(** [uv_stat_t], and [FStat], which has the same fields. *)
Record uv_stat_t := mkUvStat {
  st_dev : Z; st_mode : Z; st_nlink : Z; st_uid : Z; st_gid : Z; st_rdev : Z; st_ino : Z;
  st_size : Z; st_blksize : Z; st_blocks : Z; st_flags : Z; st_gen : Z;
  st_atim : Z * Z; st_mtim : Z * Z; st_ctim : Z * Z; st_birthtim : Z * Z
}.

Record FStat := mkFStat {
  dev : Z; mode : Z; nlink : Z; uid : Z; gid : Z; rdev : Z; ino : Z;
  size : Z; blksize : Z; blocks : Z; flags : Z; gen : Z;
  atime : TimeSpec; mtime : TimeSpec; ctime : TimeSpec; birthtime : TimeSpec
}.

(** [FStat::operator==] compares the bytes of the two records. *)
#[global] Instance fstat_eq_dec : EqDecision FStat.
Proof. solve_decision. Defined.

Record FsInfo := mkFsInfo {
  fs_type : Z; fs_bsize : Z; fs_blocks : Z; fs_bfree : Z; fs_bavail : Z; fs_files : Z; fs_ffree : Z;
  fs_spare : list Z
}.

Record DirEntry := mkDirEntry { de_name : path; de_type : FileType }.
Record path_fd_t := mkPathFd { pf_path : path; pf_fd : Z }.

(** ** Translations *)

(** [uvx_ts2ue] *)
Definition uvx_ts2ue (t : Z * Z) : TimeSpec := mkTimeSpec t.1 t.2.

(** [uvx_stat2ue] *)
Definition uvx_stat2ue (f : uv_stat_t) : FStat := {|
  dev := st_dev f; mode := st_mode f; nlink := st_nlink f; uid := st_uid f; gid := st_gid f;
  rdev := st_rdev f; ino := st_ino f; size := st_size f; blksize := st_blksize f;
  blocks := st_blocks f; flags := st_flags f; gen := st_gen f;
  atime := uvx_ts2ue (st_atim f); mtime := uvx_ts2ue (st_mtim f);
  ctime := uvx_ts2ue (st_ctim f); birthtime := uvx_ts2ue (st_birthtim f)
|}.

(** The bits of a POSIX file mode. *)
Definition S_IFMT : Z := 61440.
Definition S_IFSOCK : Z := 49152.
Definition S_IFLNK : Z := 40960.
Definition S_IFREG : Z := 32768.
Definition S_IFBLK : Z := 24576.
Definition S_IFDIR : Z := 16384.
Definition S_IFCHR : Z := 8192.
Definition S_IFIFO : Z := 4096.

(** [Fs::ftype] *)
Definition ftype (mode : Z) : FileType :=
  let m := Z.land mode S_IFMT in
  if decide (m = S_IFBLK) then BLOCK
  else if decide (m = S_IFCHR) then CHAR
  else if decide (m = S_IFDIR) then DIR
  else if decide (m = S_IFIFO) then FIFO
  else if decide (m = S_IFLNK) then LINK
  else if decide (m = S_IFREG) then FILE
  else if decide (m = S_IFSOCK) then SOCKET
  else UNKNOWN.

(** [FStat::type], [FStat::perms] (an [int] of the low bits) *)
Definition fstat_type (s : FStat) : FileType := ftype (mode s).
Definition perms (s : FStat) : Z := wrap 32 (Z.ldiff (mode s) S_IFMT).

Inductive uv_dirent_type :=
  UV_DIRENT_UNKNOWN | UV_DIRENT_FILE | UV_DIRENT_DIR | UV_DIRENT_LINK | UV_DIRENT_FIFO
  | UV_DIRENT_SOCKET | UV_DIRENT_CHAR | UV_DIRENT_BLOCK.

(** [uvx_ftype] *)
Definition uvx_ftype (t : uv_dirent_type) : FileType :=
  match t with
  | UV_DIRENT_UNKNOWN => UNKNOWN
  | UV_DIRENT_FILE => FILE
  | UV_DIRENT_DIR => DIR
  | UV_DIRENT_LINK => LINK
  | UV_DIRENT_FIFO => FIFO
  | UV_DIRENT_SOCKET => SOCKET
  | UV_DIRENT_CHAR => CHAR
  | UV_DIRENT_BLOCK => BLOCK
  end.

(** [UE_NULL_TERMINATE]: what a callee reads of the copy, up to the first NUL. *)
Fixpoint c_str (p : bytes) : bytes :=
  match p with
  | [] => []
  | c :: p => if decide (c = zero) then [] else c :: c_str p
  end.

(** The calls of libuv; [D] is the type [double]. *)
Inductive fsop (D : Type) :=
| UvMkdir (p : path) (mode : Z) | UvRmdir (p : path) | UvScandir (p : path)
| UvOpen (p : path) (flags mode : Z) | UvClose (fd : Z)
| UvStat (p : path) | UvFstat (fd : Z) | UvLstat (p : path) | UvStatfs (p : path)
| UvAccess (p : path) (mode : Z) | UvUnlink (p : path) | UvFsync (fd : Z) | UvFdatasync (fd : Z)
| UvFtruncate (fd len : Z) | UvChmod (p : path) (mode : Z) | UvFchmod (fd mode : Z)
| UvUtime (p : path) (a m : D) | UvFutime (fd : Z) (a m : D) | UvLutime (p : path) (a m : D)
| UvChown (p : path) (u g : Z) | UvLchown (p : path) (u g : Z) | UvFchown (fd u g : Z)
| UvRead (fd len off : Z) | UvWrite (fd : Z) (bufs : list bytes) (off : Z)
| UvRename (s d : path) | UvSendfile (out inp off len : Z) | UvLink (s d : path)
| UvSymlink (s d : path) (flags : Z) | UvReadlink (p : path) | UvRealpath (p : path)
| UvCopyfile (s d : path) (flags : Z) | UvMkdtemp (p : path) | UvMkstemp (p : path).
Arguments UvMkdir {D}. Arguments UvRmdir {D}. Arguments UvScandir {D}. Arguments UvOpen {D}.
Arguments UvClose {D}. Arguments UvStat {D}. Arguments UvFstat {D}. Arguments UvLstat {D}.
Arguments UvStatfs {D}. Arguments UvAccess {D}. Arguments UvUnlink {D}. Arguments UvFsync {D}.
Arguments UvFdatasync {D}. Arguments UvFtruncate {D}. Arguments UvChmod {D}. Arguments UvFchmod {D}.
Arguments UvUtime {D}. Arguments UvFutime {D}. Arguments UvLutime {D}. Arguments UvChown {D}.
Arguments UvLchown {D}. Arguments UvFchown {D}. Arguments UvRead {D}. Arguments UvWrite {D}.
Arguments UvRename {D}. Arguments UvSendfile {D}. Arguments UvLink {D}. Arguments UvSymlink {D}.
Arguments UvReadlink {D}. Arguments UvRealpath {D}. Arguments UvCopyfile {D}. Arguments UvMkdtemp {D}.
Arguments UvMkstemp {D}.

(** What libuv leaves in a successful [uv_fs_t]: [result], [statbuf], the memory
    at [ptr] (a path, the bytes read, or a [uv_statfs_t]), [path], and the entries
    that [uv_fs_scandir_next] yields. *)
Record uv_fs_t := mkUvFs {
  uv_result : Z;
  uv_statbuf : uv_stat_t;
  uv_ptr : bytes;
  uv_path : path;
  uv_dirents : list (path * uv_dirent_type);
  uv_statfs : FsInfo
}.

Definition slash : ascii := "/".
Definition backslash : ascii := "\".
Definition is_slash (c : ascii) : bool := bool_decide (c = slash) || bool_decide (c = backslash).

(** ** Synchronous operations *)

Section Sync.
Context {Σ D : Type} (uv_fs : fsop D → Σ → Σ * (uv_fs_t + uv_errno)).
Context (RDONLY WRONLY RDWR CREAT : Z).
(** The clock, and the conversion [TimeVal::get] of seconds and microseconds. *)
Context (uv_gettimeofday : Σ → (Z * Z) + uv_errno) (timeval_get : Z * Z → D).

(** An operation changes the file system and returns a value or an error. *)
Definition fs (T : Type) : Type := Σ → Σ * excepted T error_code.

Definition ret {T} (v : T) : fs T := λ σ, (σ, inl v).
Definition err {T} (e : error_code) : fs T := λ σ, (σ, inr e).
(** [and_then] *)
Definition and_then {A B} (m : fs A) (f : A → fs B) : fs B := λ σ,
  match m σ with (σ, inl v) => f v σ | (σ, inr e) => (σ, inr e) end.
(** The result as a value: [if (ret) ... else ...]. *)
Definition attempt {A B} (m : fs A) (f : excepted A error_code → fs B) : fs B := λ σ,
  let (σ, r) := m σ in f r σ.
#[local] Instance fs_bind : MBind fs := λ A B f m, and_then m f.

(** [UEFS_SYNC] *)
Definition UEFS_SYNC {T} (call : fsop D) (result : uv_fs_t → T) : fs T := λ σ,
  match uv_fs call σ with
  | (σ, inl r) => (σ, inl (result r))
  | (σ, inr e) => (σ, inr (uvx_error e))
  end.
Definition void (_ : uv_fs_t) : unit := ().
Definition to_stat (r : uv_fs_t) : FStat := uvx_stat2ue (uv_statbuf r).

Definition mkdir (p : path) (mode : Z) : fs unit := UEFS_SYNC (UvMkdir (c_str p) mode) void.
Definition rmdir (p : path) : fs unit := UEFS_SYNC (UvRmdir (c_str p)) void.
Definition open (p : path) (flags mode : Z) : fs Z := UEFS_SYNC (UvOpen (c_str p) flags mode) uv_result.
Definition close (fd : Z) : fs unit := UEFS_SYNC (UvClose fd) void.
Definition stat (p : path) : fs FStat := UEFS_SYNC (UvStat (c_str p)) to_stat.
Definition fstat (fd : Z) : fs FStat := UEFS_SYNC (UvFstat fd) to_stat.
Definition lstat (p : path) : fs FStat := UEFS_SYNC (UvLstat (c_str p)) to_stat.
Definition statfs (p : path) : fs FsInfo := UEFS_SYNC (UvStatfs (c_str p)) uv_statfs.
Definition access (p : path) (mode : Z) : fs unit := UEFS_SYNC (UvAccess (c_str p) mode) void.
Definition unlink (p : path) : fs unit := UEFS_SYNC (UvUnlink (c_str p)) void.
Definition sync (fd : Z) : fs unit := UEFS_SYNC (UvFsync fd) void.
Definition datasync (fd : Z) : fs unit := UEFS_SYNC (UvFdatasync fd) void.
Definition ftruncate (fd len : Z) : fs unit := UEFS_SYNC (UvFtruncate fd len) void.
Definition chmod (p : path) (mode : Z) : fs unit := UEFS_SYNC (UvChmod (c_str p) mode) void.
Definition fchmod (fd mode : Z) : fs unit := UEFS_SYNC (UvFchmod fd mode) void.
Definition utime (p : path) (a m : D) : fs unit := UEFS_SYNC (UvUtime (c_str p) a m) void.
Definition futime (fd : Z) (a m : D) : fs unit := UEFS_SYNC (UvFutime fd a m) void.
Definition lutime (p : path) (a m : D) : fs unit := UEFS_SYNC (UvLutime (c_str p) a m) void.
Definition chown (p : path) (u g : Z) : fs unit := UEFS_SYNC (UvChown (c_str p) u g) void.
Definition lchown (p : path) (u g : Z) : fs unit := UEFS_SYNC (UvLchown (c_str p) u g) void.
Definition fchown (fd u g : Z) : fs unit := UEFS_SYNC (UvFchown fd u g) void.
Definition rename (s d : path) : fs unit := UEFS_SYNC (UvRename (c_str s) (c_str d)) void.
Definition sendfile (out inp off len : Z) : fs Z := UEFS_SYNC (UvSendfile out inp off len) uv_result.
Definition link (s d : path) : fs unit := UEFS_SYNC (UvLink (c_str s) (c_str d)) void.
Definition symlink (s d : path) (flags : Z) : fs unit :=
  UEFS_SYNC (UvSymlink (c_str s) (c_str d) flags) void.
Definition readlink (p : path) : fs path :=
  UEFS_SYNC (UvReadlink (c_str p)) (λ r, take (Z.to_nat (uv_result r)) (uv_ptr r)).
Definition realpath (p : path) : fs path := UEFS_SYNC (UvRealpath (c_str p)) (λ r, c_str (uv_ptr r)).
Definition copyfile (s d : path) (flags : Z) : fs unit :=
  UEFS_SYNC (UvCopyfile (c_str s) (c_str d) flags) void.
Definition mkdtemp (p : path) : fs path := UEFS_SYNC (UvMkdtemp (c_str p)) (λ r, c_str (uv_path r)).
Definition mkstemp (p : path) : fs path_fd_t :=
  UEFS_SYNC (UvMkstemp (c_str p)) (λ r, mkPathFd (c_str (uv_path r)) (uv_result r)).
Definition read (fd len off : Z) : fs bytes :=
  UEFS_SYNC (UvRead fd len off) (λ r, take (Z.to_nat (uv_result r)) (uv_ptr r)).
(** [Fs::_write]; the number of bytes written is not looked at. *)
Definition _write (fd : Z) (bufs : list bytes) (off : Z) : fs unit := UEFS_SYNC (UvWrite fd bufs off) void.
Definition write (fd : Z) (buf : bytes) (off : Z) : fs unit := _write fd [buf] off.

(** [Fs::scandir] *)
Definition scandir (p : path) : fs (list DirEntry) :=
  UEFS_SYNC (UvScandir (c_str p)) (λ r,
    if decide (uv_result r = 0) then []
    else (λ e, mkDirEntry (c_str e.1) (uvx_ftype e.2)) <$> uv_dirents r).

(** [Fs::exists], [Fs::isfile], [Fs::isdir] *)
Definition exists_ (p : path) : Σ → Σ * bool := λ σ,
  let (σ, r) := stat p σ in (σ, match r with inl _ => true | inr _ => false end).
Definition is_type (t : FileType) (p : path) : Σ → Σ * bool := λ σ,
  let (σ, r) := stat p σ in (σ, match r with inl s => bool_decide (fstat_type s = t) | inr _ => false end).
Definition isfile (p : path) : Σ → Σ * bool := is_type FILE p.
Definition isdir (p : path) : Σ → Σ * bool := is_type DIR p.
Definition when {T} (c : Σ → Σ * bool) (a b : fs T) : fs T := λ σ,
  let (σ, r) := c σ in if r then a σ else b σ.

(** [Fs::remove] *)
Definition remove (p : path) : fs unit := when (isdir p) (rmdir p) (unlink p).

(** The loops [skip_slash] ([b = true]) and [find_part] of [Fs::mkpath]. *)
Fixpoint scan (b : bool) (p : path) (pos : nat) (fuel : nat) : nat :=
  match fuel with
  | O => pos
  | S fuel =>
      match p !! pos with
      | Some c => if Bool.eqb (is_slash c) b then scan b p (S pos) fuel else pos
      | None => pos
      end
  end.

(** The body of [mkpath]: a part exists when it could be made, or when it is
    there and is a directory. *)
Definition mkpath_part (curpath : path) (mode : Z) : fs unit :=
  attempt (mkdir curpath mode) (λ r,
    match r with
    | inl _ => ret ()
    | inr e =>
        if decide (e ≠ Std file_exists) then err e
        else when (isdir curpath) (ret ()) (err (Std not_a_directory))
    end).

Fixpoint mkpath_loop (p : path) (mode : Z) (pos fuel : nat) : fs unit :=
  match fuel with
  | O => ret ()
  | S fuel =>
      if decide (pos < length p)%nat then
        let pos := scan false p pos (length p) in
        _ ← mkpath_part (take pos p) mode;
        mkpath_loop p mode (scan true p pos (length p)) fuel
      else ret ()
  end.

(** [Fs::mkpath] *)
Definition mkpath (p : path) (mode : Z) : fs unit :=
  mkpath_loop p mode (scan true p 0 (length p)) (length p).

(** [_rmtree]; [fuel] bounds the depth of the tree. *)
Fixpoint _rmtree (fuel : nat) (p : path) : fs unit :=
  match fuel with
  | O => err (Std too_many_symbolic_link_levels)
  | S fuel =>
      entries ← scandir p;
      (fix remove_entries (l : list DirEntry) : fs unit :=
         match l with
         | [] => rmdir p
         | entry :: l =>
             let fname := p ++ slash :: de_name entry in
             _ ← (if decide (de_type entry = DIR) then _rmtree fuel fname else unlink fname);
             remove_entries l
         end) entries
  end.

(** [Fs::remove_all] *)
Definition remove_all (fuel : nat) (p : path) : fs unit := when (isdir p) (_rmtree fuel p) (unlink p).

(** [Fs::truncate (string_view, int64_t)] *)
Definition truncate (file : path) (len : Z) : fs unit :=
  fd ← open file WRONLY DEFAULT_FILE_MODE;
  attempt (ftruncate fd len) (λ r,
    match r with
    | inr e => attempt (close fd) (λ _, err e)
    | inl _ => close fd
    end).

(** [gettimeofday] of [util.cc] *)
Definition gettimeofday : fs (Z * Z) := λ σ,
  (σ, match uv_gettimeofday σ with inl tv => inl tv | inr e => inr (uvx_error e) end).

(** [Fs::touch] *)
Definition touch (file : path) (mode : Z) : fs unit :=
  when (exists_ file)
    (tv ← gettimeofday; utime file (timeval_get tv) (timeval_get tv))
    (fd ← open file (Z.lor RDWR CREAT) mode; close fd).
End Sync.

(** ** The asynchronous API *)

(** The operations of [Fs::Request]; those that work on the request's own
    descriptor end in [Fd]. *)
Inductive areq (D : Type) :=
| Mkdir (p : path) (mode : Z) | Rmdir (p : path) | Remove (p : path) | Mkpath (p : path) (mode : Z)
| Scandir (p : path) | RemoveAll (p : path)
| Open (p : path) (flags mode : Z) | CloseFd | Stat (p : path) | StatFd | Lstat (p : path)
| Statfs (p : path) | Exists (p : path) | Isfile (p : path) | Isdir (p : path)
| Access (p : path) (mode : Z) | Unlink (p : path) | SyncFd | DatasyncFd
| Truncate (p : path) (off : Z) | TruncateFd (off : Z) | Chmod (p : path) (mode : Z) | ChmodFd (mode : Z)
| Touch (p : path) (mode : Z) | Utime (p : path) (a m : D) | UtimeFd (a m : D) | Lutime (p : path) (a m : D)
| Chown (p : path) (u g : Z) | Lchown (p : path) (u g : Z) | ChownFd (u g : Z)
| Rename (s d : path) | Sendfile (out inp off len : Z) | Link (s d : path) | Symlink (s d : path) (flags : Z)
| Readlink (p : path) | Realpath (p : path) | Copyfile (s d : path) (flags : Z)
| Mkdtemp (p : path) | Mkstemp (p : path) | ReadFd (size off : Z) | WriteFd (v : list bytes) (off : Z).
Arguments Mkdir {D}. Arguments Rmdir {D}. Arguments Remove {D}. Arguments Mkpath {D}. Arguments Scandir {D}.
Arguments RemoveAll {D}. Arguments Open {D}. Arguments CloseFd {D}. Arguments Stat {D}. Arguments StatFd {D}.
Arguments Lstat {D}. Arguments Statfs {D}. Arguments Exists {D}. Arguments Isfile {D}. Arguments Isdir {D}.
Arguments Access {D}. Arguments Unlink {D}. Arguments SyncFd {D}. Arguments DatasyncFd {D}.
Arguments Truncate {D}. Arguments TruncateFd {D}. Arguments Chmod {D}. Arguments ChmodFd {D}.
Arguments Touch {D}. Arguments Utime {D}. Arguments UtimeFd {D}. Arguments Lutime {D}. Arguments Chown {D}.
Arguments Lchown {D}. Arguments ChownFd {D}. Arguments Rename {D}. Arguments Sendfile {D}. Arguments Link {D}.
Arguments Symlink {D}. Arguments Readlink {D}. Arguments Realpath {D}. Arguments Copyfile {D}.
Arguments Mkdtemp {D}. Arguments Mkstemp {D}. Arguments ReadFd {D}. Arguments WriteFd {D}.

(** The values the operations return. *)
Inductive out :=
| OVoid | OFd (fd : Z) | OStat (s : FStat) | OBool (b : bool) | OStr (s : bytes) | OSize (n : Z)
| OEntries (l : list DirEntry) | OInfo (i : FsInfo) | OPathFd (x : path_fd_t).

(** The result fields of [Fs::Request]. *)
Record request := mkRequest {
  _bool : bool;
  _fd : Z;
  _err : option error_code;
  _dir_entries : list DirEntry;
  _stat : option FStat;
  _fs_info : option FsInfo;
  _size : Z;
  _string : bytes
}.

Definition new_request : request := mkRequest false 0 None [] None None 0 [].

(** [Fs::Request::fd (fd_t)] *)
Definition set_fd (fd : Z) (r : request) : request :=
  mkRequest (_bool r) fd (_err r) (_dir_entries r) (_stat r) (_fs_info r) (_size r) (_string r).
Definition set_err (e : option error_code) (r : request) : request :=
  mkRequest (_bool r) (_fd r) e (_dir_entries r) (_stat r) (_fs_info r) (_size r) (_string r).

(** The [save_result_code] of the operations. *)
Definition save (o : out) (r : request) : request :=
  match o with
  | OVoid => r
  | OFd fd => set_fd fd r
  | OStat s => mkRequest (_bool r) (_fd r) (_err r) (_dir_entries r) (Some s) (_fs_info r) (_size r) (_string r)
  | OBool b => mkRequest b (_fd r) (_err r) (_dir_entries r) (_stat r) (_fs_info r) (_size r) (_string r)
  | OStr s => mkRequest (_bool r) (_fd r) (_err r) (_dir_entries r) (_stat r) (_fs_info r) (_size r) s
  | OSize n => mkRequest (_bool r) (_fd r) (_err r) (_dir_entries r) (_stat r) (_fs_info r) n (_string r)
  | OEntries l => mkRequest (_bool r) (_fd r) (_err r) l (_stat r) (_fs_info r) (_size r) (_string r)
  | OInfo i => mkRequest (_bool r) (_fd r) (_err r) (_dir_entries r) (_stat r) (Some i) (_size r) (_string r)
  | OPathFd x =>
      mkRequest (_bool r) (pf_fd x) (_err r) (_dir_entries r) (_stat r) (_fs_info r) (_size r) (pf_path x)
  end.

(** The arguments of a callback, beside the request itself. *)
Inductive cb_args :=
| CbVoid (e : option error_code)
| CbFd (fd : Z) (e : option error_code)
| CbStat (s : option FStat) (e : option error_code)
| CbBool (b : bool) (e : option error_code)
| CbStr (s : bytes) (e : option error_code)
| CbSize (n : Z) (e : option error_code)
| CbEntries (l : list DirEntry) (e : option error_code)
| CbInfo (i : option FsInfo) (e : option error_code)
| CbPathFd (s : bytes) (fd : Z) (e : option error_code).

(** The [cb_code] of the operations. *)
Definition cb_code {D} (a : areq D) (r : request) : cb_args :=
  match a with
  | Scandir _ => CbEntries (_dir_entries r) (_err r)
  | Open _ _ _ => CbFd (_fd r) (_err r)
  | Stat _ | StatFd | Lstat _ => CbStat (_stat r) (_err r)
  | Statfs _ => CbInfo (_fs_info r) (_err r)
  | Exists _ | Isfile _ | Isdir _ => CbBool (_bool r) (_err r)
  | Sendfile _ _ _ _ => CbSize (_size r) (_err r)
  | Readlink _ | Realpath _ | Mkdtemp _ | ReadFd _ _ => CbStr (_string r) (_err r)
  | Mkstemp _ => CbPathFd (_string r) (_fd r) (_err r)
  | _ => CbVoid (_err r)
  end.

(** What [after_work_cb] does before and after the callback. *)
Definition after_begin (err : option error_code) (r : request) : request :=
  match err with Some _ => set_err err r | None => r end.
Definition after_end (r : request) : request :=
  mkRequest (_bool r) (_fd r) None [] (_stat r) (_fs_info r) (_size r) [].

Section Async.
Context {Σ D : Type} (uv_fs : fsop D → Σ → Σ * (uv_fs_t + uv_errno)).
Context (WRONLY RDWR CREAT : Z).
Context (uv_gettimeofday : Σ → (Z * Z) + uv_errno) (timeval_get : Z * Z → D) (depth : nat).

Definition mapped {A} (f : A → out) (m : fs A) : fs (Σ:=Σ) out := and_then m (λ x, ret (f x)).
Definition void_of (m : fs (Σ:=Σ) unit) : fs out := mapped (λ _, OVoid) m.
Definition bool_of (m : Σ → Σ * bool) : fs out := λ σ, let (σ, b) := m σ in (σ, inl (OBool b)).

(** The [call_expr] of each operation of [Fs::Request]. *)
Definition sync_call (a : areq D) (fd : Z) : fs out :=
  match a with
  | Mkdir p mode => void_of (mkdir uv_fs p mode)
  | Rmdir p => void_of (rmdir uv_fs p)
  | Remove p => void_of (remove uv_fs p)
  | Mkpath p mode => void_of (mkpath uv_fs p mode)
  | Scandir p => mapped OEntries (scandir uv_fs p)
  | RemoveAll p => void_of (remove_all uv_fs depth p)
  | Open p flags mode => mapped OFd (open uv_fs p flags mode)
  | CloseFd => void_of (close uv_fs fd)
  | Stat p => mapped OStat (stat uv_fs p)
  | StatFd => mapped OStat (fstat uv_fs fd)
  | Lstat p => mapped OStat (lstat uv_fs p)
  | Statfs p => mapped OInfo (statfs uv_fs p)
  | Exists p => bool_of (exists_ uv_fs p)
  | Isfile p => bool_of (isfile uv_fs p)
  | Isdir p => bool_of (isdir uv_fs p)
  | Access p mode => void_of (access uv_fs p mode)
  | Unlink p => void_of (unlink uv_fs p)
  | SyncFd => void_of (sync uv_fs fd)
  | DatasyncFd => void_of (datasync uv_fs fd)
  | Truncate p off => void_of (truncate uv_fs WRONLY p off)
  | TruncateFd off => void_of (ftruncate uv_fs fd off)
  | Chmod p mode => void_of (chmod uv_fs p mode)
  | ChmodFd mode => void_of (fchmod uv_fs fd mode)
  | Touch p mode => void_of (touch uv_fs RDWR CREAT uv_gettimeofday timeval_get p mode)
  | Utime p a m => void_of (utime uv_fs p a m)
  | UtimeFd a m => void_of (futime uv_fs fd a m)
  | Lutime p a m => void_of (lutime uv_fs p a m)
  | Chown p u g => void_of (chown uv_fs p u g)
  | Lchown p u g => void_of (lchown uv_fs p u g)
  | ChownFd u g => void_of (fchown uv_fs fd u g)
  | Rename s d => void_of (rename uv_fs s d)
  | Sendfile out inp off len => mapped OSize (sendfile uv_fs out inp off len)
  | Link s d => void_of (link uv_fs s d)
  | Symlink s d flags => void_of (symlink uv_fs s d flags)
  | Readlink p => mapped OStr (readlink uv_fs p)
  | Realpath p => mapped OStr (realpath uv_fs p)
  | Copyfile s d flags => void_of (copyfile uv_fs s d flags)
  | Mkdtemp p => mapped OStr (mkdtemp uv_fs p)
  | Mkstemp p => mapped OPathFd (mkstemp uv_fs p)
  | ReadFd size off => mapped OStr (read uv_fs fd size off)
  | WriteFd v off => void_of (_write uv_fs fd v off)
  end.

(** [UEFS_ASYNC_RAW], [UEFS_ASYNC]: the code that the thread runs. *)
Definition work_code (a : areq D) (r : request) : Σ → Σ * request := λ σ,
  match sync_call a (_fd r) σ with
  | (σ, inl o) => (σ, save o r)
  | (σ, inr e) => (σ, set_err (Some e) r)
  end.

(** The static API: a new request, with the descriptor for the operations on
    one ([UEFS_ASYNC_S], [UEFS_ASYNC_SFD]). *)
Definition static_request (fd : option Z) : request :=
  match fd with Some f => set_fd f new_request | None => new_request end.

(** A request from its start to its callback, when no thread is late: [err] is
    the status of the work. *)
Definition run_request (a : areq D) (err : option error_code) (r : request) : Σ → Σ * (cb_args * request) :=
  λ σ, let (σ, r) := match err with Some _ => (σ, r) | None => work_code a r σ end in
       let r := after_begin err r in
       (σ, (cb_code a r, after_end r)).
End Async.

(** What a callback should be given, from the result of the operation. *)
Definition value_of (o : out) (e : option error_code) : cb_args :=
  match o with
  | OVoid => CbVoid e | OFd fd => CbFd fd e | OStat s => CbStat (Some s) e | OBool b => CbBool b e
  | OStr s => CbStr s e | OSize n => CbSize n e | OEntries l => CbEntries l e | OInfo i => CbInfo (Some i) e
  | OPathFd x => CbPathFd (pf_path x) (pf_fd x) e
  end.
Definition error_of (c : cb_args) : option error_code :=
  match c with
  | CbVoid e | CbFd _ e | CbStat _ e | CbBool _ e | CbStr _ e | CbSize _ e | CbEntries _ e | CbInfo _ e
  | CbPathFd _ _ e => e
  end.

(** ** [mkpath] visits every ancestor, outermost first *)

Definition slash_at (p : path) (n : nat) : bool :=
  match p !! n with Some c => is_slash c | None => false end.

(** [take n p] ends a part of the path. *)
Definition part_end (p : path) (n : nat) : bool :=
  match n with
  | O => false
  | S m => bool_decide (m < length p)%nat && negb (slash_at p m) &&
           (bool_decide (n = length p) || slash_at p n)
  end.

(** The parts of a path, outermost first. *)
Definition parts (p : path) : list path :=
  (λ n, take n p) <$> filter (λ n, part_end p n = true) (seq 1 (length p)).

Section Mkpath.
Context {Σ D : Type} (uv_fs : fsop D → Σ → Σ * (uv_fs_t + uv_errno)).

Fixpoint each_part (mode : Z) (l : list path) : fs (Σ:=Σ) unit :=
  match l with
  | [] => ret ()
  | p :: l => and_then (mkpath_part uv_fs p mode) (λ _, each_part mode l)
  end.

Lemma scan_spec b p : ∀ fuel pos, (length p ≤ pos + fuel)%nat →
  let n := scan b p pos fuel in
  (pos ≤ n ≤ max pos (length p))%nat ∧
  (∀ m, pos ≤ m < n → slash_at p m = b)%nat ∧
  (n < length p → slash_at p n = negb b)%nat.
Proof.
  induction fuel as [|fuel IH]; intros pos Hf; simpl.
  - split_and!; [lia|lia|lia|lia].
  - destruct (p !! pos) as [c|] eqn:C; [|apply lookup_ge_None in C; split_and!; lia].
    pose proof (lookup_lt_Some _ _ _ C).
    destruct (Bool.eqb (is_slash c) b) eqn:B; simpl.
    + apply Bool.eqb_prop in B. destruct (IH (S pos)) as (H1 & H2 & H3); [lia|].
      split_and!; [lia|lia| |done]. intros m Hm. destruct (decide (m = pos)) as [->|].
      * unfold slash_at. by rewrite C.
      * apply H2. lia.
    + split_and!; [lia|lia|lia|]. intros _. unfold slash_at. rewrite C.
      by destruct (is_slash c), b.
Qed.

Lemma parts_skip p a n : (∀ m, a ≤ m < a + n → part_end p m = false)%nat →
  filter (λ n, part_end p n = true) (seq a n) = [].
Proof.
  revert a. induction n as [|n IH]; intros a Hm; simpl; [done|].
  rewrite filter_cons_False; [|rewrite Hm by lia; done]. apply IH. intros m ?. apply Hm. lia.
Qed.

Lemma mkpath_loop_spec p mode : ∀ fuel pos, (length p ≤ pos + fuel)%nat →
  (pos < length p → slash_at p pos = false)%nat →
  ∀ σ, mkpath_loop uv_fs p mode pos fuel σ =
    each_part mode ((λ n, take n p) <$> filter (λ n, part_end p n = true) (seq (S pos) (length p - pos))) σ.
Proof.
  induction fuel as [|fuel IH]; intros pos Hf Hpos σ; simpl.
  - replace (length p - pos)%nat with 0%nat by lia. done.
  - case_decide as Hlt; [|replace (length p - pos)%nat with 0%nat by lia; done].
    destruct (scan_spec false p (length p) pos) as (N1 & N2 & N3); [lia|].
    destruct (scan_spec true p (length p) (scan false p pos (length p))) as (M1 & M2 & M3); [lia|].
    set (n := scan false p pos (length p)) in *.
    set (n' := scan true p n (length p)) in *.
    assert (pos < n)%nat as Hn.
    { destruct (decide (n = pos)) as [E|]; [|lia]. rewrite E in N3. specialize (N3 Hlt). rewrite Hpos in N3 by done. done. }
    assert (seq (S pos) (length p - pos) =
      seq (S pos) (n - S pos) ++ [n] ++ seq (S n) (n' - n) ++ seq (S n') (length p - n')) as ->.
    { replace (length p - pos)%nat with ((n - S pos) + (1 + ((n' - n) + (length p - n'))))%nat by lia.
      rewrite seq_app. f_equal. replace (S pos + (n - S pos))%nat with n by lia. simpl. f_equal.
      rewrite seq_app. f_equal. f_equal. lia. }
    rewrite !filter_app, !fmap_app.
    rewrite (parts_skip p (S pos)) by (intros m Hm; destruct m as [|m]; [done|]; simpl;
      rewrite (bool_decide_eq_false_2 (S m = length p)) by lia;
      rewrite (N2 (S m)) by lia; by rewrite andb_false_r).
    rewrite (parts_skip p (S n)) by (intros m Hm; destruct m as [|m]; [done|]; simpl;
      rewrite (M2 m) by lia; by rewrite andb_false_r).
    rewrite filter_cons_True; [simpl; change (filter (λ n, part_end p n = true) []) with (@nil nat); simpl|].
    + unfold mbind, fs_bind, and_then. destruct (mkpath_part uv_fs (take n p) mode σ) as [σ' [[]|e]]; [|done].
      apply IH; [lia|]. intros Hn'. by rewrite M3.
    + destruct n as [|m]; [lia|]. simpl. rewrite bool_decide_eq_true_2 by lia.
      rewrite (N2 m) by lia. simpl. destruct (decide (S m = length p)) as [E|E].
      * by rewrite bool_decide_eq_true_2.
      * rewrite N3 by lia. by rewrite orb_true_r.
Qed.
End Mkpath.

(** ** Properties *)

(** C40: [mkpath] makes every ancestor of the path, outermost first, each part
    being the path up to a separator or its end, whatever runs of separators it
    has; it stops at the first part that can be neither made nor found as a
    directory. *)
Theorem mkpath_makes_each_part {Σ D : Type} (uv_fs : fsop D → Σ → Σ * (uv_fs_t + uv_errno))
    (p : path) (mode : Z) (σ : Σ) :
  mkpath uv_fs p mode σ = each_part uv_fs mode (parts p) σ.
Proof.
  unfold mkpath. destruct (scan_spec true p (length p) 0) as (H1 & H2 & H3); [lia|].
  set (n := scan true p 0 (length p)) in *.
  rewrite mkpath_loop_spec; [|lia|intros Hn; by rewrite H3].
  unfold parts. assert (seq 1 (length p) = seq 1 n ++ seq (S n) (length p - n)) as ->.
  { replace (length p) with (n + (length p - n))%nat at 1 by lia. by rewrite seq_app. }
  rewrite filter_app, fmap_app, (parts_skip p 1); [done|].
  intros m Hm. destruct m as [|m]; [done|]. simpl. rewrite (H2 m) by lia. by rewrite andb_false_r.
Qed.

(** [truncate] of a path never leaks the descriptor it opened: once the file
    is open, the last call is the close of that descriptor; the result is the error
    of the truncation if there is one, and else the one of the close. *)
Theorem truncate_closes {Σ D : Type} (uv_fs : fsop D → Σ → Σ * (uv_fs_t + uv_errno)) (flags : Z)
    (p : path) (len : Z) (σ : Σ) :
  match open uv_fs p flags DEFAULT_FILE_MODE σ with
  | (σ1, inr e) => truncate uv_fs flags p len σ = (σ1, inr e)
  | (σ1, inl fd) =>
      let (σ2, r) := ftruncate uv_fs fd len σ1 in
      let (σ3, c) := close uv_fs fd σ2 in
      truncate uv_fs flags p len σ = (σ3, match r with inr e => inr e | inl _ => c end)
  end.
Proof.
  unfold truncate, mbind, fs_bind, and_then, attempt.
  destruct (open uv_fs p flags DEFAULT_FILE_MODE σ) as [σ1 [fd|e]]; [|done].
  destruct (ftruncate uv_fs fd len σ1) as [σ2 [[]|e]]; by destruct (close uv_fs fd σ2) as [σ3 [[]|e']].
Qed.

(** C22: the asynchronous API gives what the synchronous one returns: for each of
    the operations, run by itself on a request without an old error, the callback gets the
    value and no error, or the operation's error; if the work was cancelled the operation
    does not happen and the callback gets the cancellation; and the request is left
    without error for its next use, after its callback. It is not so for a request that is
    used again in its own callback ([request_reuse_loses_result]). *)
Theorem async_agrees_with_sync {Σ D : Type} (uv_fs : fsop D → Σ → Σ * (uv_fs_t + uv_errno))
    (WRONLY RDWR CREAT : Z) (now : Σ → (Z * Z) + uv_errno) (get : Z * Z → D) (depth : nat)
    (a : areq D) (r : request) (σ : Σ) (Hr : _err r = None) :
  let run := run_request uv_fs WRONLY RDWR CREAT now get depth a in
  (let (σ', res) := sync_call uv_fs WRONLY RDWR CREAT now get depth a (_fd r) σ in
   (run None r σ).1 = σ' ∧
   match res with
   | inl o => (run None r σ).2.1 = value_of o None
   | inr e => error_of (run None r σ).2.1 = Some e
   end) ∧
  (∀ e, (run (Some e) r σ).1 = σ ∧ error_of (run (Some e) r σ).2.1 = Some e) ∧
  (∀ st, _err (run st r σ).2.2 = None).
Proof.
  simpl. split_and!.
  - unfold run_request, work_code.
    destruct (sync_call uv_fs WRONLY RDWR CREAT now get depth a (_fd r) σ) as [σ' [o|e]] eqn:S.
    + split; [done|]. simpl.
      destruct a; simpl in S; unfold void_of, mapped, bool_of, and_then, ret in S;
        repeat case_match; simplify_eq; simpl; by rewrite Hr.
    + split; [done|]. by destruct a.
  - intros e. split; [done|]. by destruct a.
  - intros st. unfold run_request. by destruct st; [|destruct (work_code _ _ _ _ _ _ _ _ _ _)].
Qed.

(** *** A file system to run: it records the calls; [/a] exists *)

Definition ex_uvfs (result : Z) (mode : Z) : uv_fs_t :=
  mkUvFs result (mkUvStat 0 mode 0 0 0 0 0 0 0 0 0 0 (0, 0) (0, 0) (0, 0) (0, 0)) [] [] []
    (mkFsInfo 0 0 0 0 0 0 0 []).

Definition ex_fs (op : fsop unit) (σ : list (fsop unit)) : list (fsop unit) * (uv_fs_t + uv_errno) :=
  (σ ++ [op],
   match op with
   | UvMkdir p _ => if decide (p = [slash; "a"%char]) then inr UV_EEXIST else inl (ex_uvfs 0 0)
   | UvStat _ => inl (ex_uvfs 0 (S_IFDIR + 493))
   | UvOpen _ _ _ => inl (ex_uvfs 5 0)
   | UvFtruncate _ _ => inr UV_EINVAL
   | _ => inl (ex_uvfs 0 0)
   end).

(** The calls of [mkpath "/a//b/"]. *)
Example mkpath_calls :
  (mkpath ex_fs (String.list_ascii_of_string "/a//b/") 493 []) =
  ([UvMkdir [slash; "a"%char] 493; UvStat [slash; "a"%char];
    UvMkdir [slash; "a"%char; slash; slash; "b"%char] 493], inl ()).
Proof. vm_compute. reflexivity. Qed.

Lemma async_agrees_with_sync_witness :
  error_of (run_request ex_fs 1 2 64 (λ _, inl (0, 0)) (λ _, ()) 3 (TruncateFd 7) None (set_fd 5 new_request) []).2.1
  = Some (Std invalid_argument).
Proof.
  apply (async_agrees_with_sync ex_fs 1 2 64 (λ _, inl (0, 0)) (λ _, ()) 3 (TruncateFd 7) (set_fd 5 new_request) []).
  reflexivity.
Defined.

(** A callback may start the next operation on its own request. The code that
    follows the callback clears the result fields; if the thread has already
    finished the new operation by then, its error or its data is lost. *)
Theorem request_reuse_loses_result :
  let next := TruncateFd 7 in
  (* the thread runs [next] while the callback of the first operation returns *)
  let (_, r) := work_code ex_fs 1 2 64 (λ _, inl (0, 0)) (λ _, ()) 3 next
                  (after_begin None (set_fd 5 new_request)) [] in
  _err r = Some (Std invalid_argument) ∧
  error_of (cb_code next (after_begin None (after_end r))) = None.
Proof. vm_compute. done. Qed.
