(* ===== verification/Streamer.v ===== *)
(** The streamer: [Streamer.h], [Streamer.cc], with the file input and output of
    [streamer/File.h], [streamer/File.cc].

    A streamer pumps data from an input to an output and keeps the output's queue
    bounded. Input and output are interfaces: the machine below runs the streamer
    against any implementation, whose code may call back at any point; the file
    input and output are the implementation that the theorems are about. The file
    system answers requests in any order, with errors, and with short writes. *)
From S2P Require Import Prelude Machine Errors.
From Stdlib Require Import Ascii.
#[local] Open Scope Z_scope.

Abbreviation bytes := (list ascii).

(** ** The streamer *)

Record streamer := mkStreamer {
  max_buf : Z;
  thr_buf : Z;
  nread : Z;
  nwrite : Z;
  started : bool;
  inread : bool;
  eof : bool
}.

(** [Streamer::Streamer] *)
Definition new_streamer (max_buf : Z) : streamer :=
  mkStreamer max_buf (wrap 64 (max_buf * 2) / 3) 0 0 false true false.

(** The calls that the code of an input or output makes: the streamer's
    handlers, [Streamer::start] and [stop], and the return of an error code. *)
Inductive sapi (EC : Type) :=
| HandleRead (data : bytes) (err : EC)
| HandleWrite (err : EC)
| HandleEof
| Start
| Stop
| Return (err : EC).
Arguments HandleRead {EC}.
Arguments HandleWrite {EC}.
Arguments HandleEof {EC}.
Arguments Start {EC}.
Arguments Stop {EC}.
Arguments Return {EC}.

(** The virtual methods of [IInput] and [IOutput], and [finish_event]. *)
Record endpoints (X U EC : Type) := mkEndpoints {
  in_start : U;
  in_stop : U;
  in_start_reading : U;
  in_stop_reading : U;
  out_start : U;
  out_stop : U;
  out_write : bytes → U;
  out_write_queue_size : X → Z;
  on_finish : EC → U;
  e_code : U → X → X * outcome (sapi EC + U) EC
}.
Arguments in_start {X U EC}.
Arguments in_stop {X U EC}.
Arguments in_start_reading {X U EC}.
Arguments in_stop_reading {X U EC}.
Arguments out_start {X U EC}.
Arguments out_stop {X U EC}.
Arguments out_write {X U EC}.
Arguments out_write_queue_size {X U EC}.
Arguments on_finish {X U EC}.
Arguments e_code {X U EC}.

(** The pending calls; those after the first two are the rests of the functions
    of [Streamer.cc] after a virtual call has returned. *)
Inductive scall (U EC : Type) :=
| CApi (a : sapi EC)
| CCode (u : U)
| StartInput
| StartOutput
| StartFailed (err : EC)
| ReadWritten
| ReadPaused
| WriteResumed
| Finish (err : EC)
| FinishOutput (err : EC)
| FinishReset (err : EC).
Arguments CApi {U EC}.
Arguments CCode {U EC}.
Arguments StartInput {U EC}.
Arguments StartOutput {U EC}.
Arguments StartFailed {U EC}.
Arguments ReadWritten {U EC}.
Arguments ReadPaused {U EC}.
Arguments WriteResumed {U EC}.
Arguments Finish {U EC}.
Arguments FinishOutput {U EC}.
Arguments FinishReset {U EC}.

Section Streamer.
Context {X U EC : Type} `{ErrorStack EC}.
Context (ep : endpoints X U EC).

(** [retv]: what the last virtual call returned. *)
Record world := mkWorld { st : streamer; retv : EC; ext : X }.

Definition with_st (f : streamer → streamer) (w : world) : world := mkWorld (f (st w)) (retv w) (ext w).

Definition set_started (b : bool) (s : streamer) : streamer :=
  mkStreamer (max_buf s) (thr_buf s) (nread s) (nwrite s) b (inread s) (eof s).
Definition set_inread (b : bool) (s : streamer) : streamer :=
  mkStreamer (max_buf s) (thr_buf s) (nread s) (nwrite s) (started s) b (eof s).
Definition set_eof (b : bool) (s : streamer) : streamer :=
  mkStreamer (max_buf s) (thr_buf s) (nread s) (nwrite s) (started s) (inread s) b.
Definition inc_read (s : streamer) : streamer :=
  mkStreamer (max_buf s) (thr_buf s) (nread s +₆₄ 1) (nwrite s) (started s) (inread s) (eof s).
Definition inc_write (s : streamer) : streamer :=
  mkStreamer (max_buf s) (thr_buf s) (nread s) (nwrite s +₆₄ 1) (started s) (inread s) (eof s).
(** The assignments of [finish]. *)
Definition reset (s : streamer) : streamer := mkStreamer (max_buf s) (thr_buf s) 0 0 false true false.

Definition queue_size (w : world) : Z := out_write_queue_size ep (ext w).

Definition sbody (c : scall U EC) (w : world) : world * outcome (scall U EC) EC :=
  match c with
  | CCode u =>
      let (x, o) := e_code ep u (ext w) in
      (mkWorld (st w) (retv w) x,
       match o with
       | Calls cs => Calls ((λ c, match c with inl a => CApi a | inr u => CCode u end) <$> cs)
       | Throws e => Throws e
       | Aborts => Aborts
       end)
  | CApi (Return e) => (mkWorld (st w) e (ext w), Calls [])
  (* Streamer::start *)
  | CApi Start => (w, Calls [CCode (in_start ep); StartInput])
  | StartInput =>
      (w, Calls (if ec_bool (retv w)
                 then [CCode (on_finish ep (nest_error (StreamerErr read_error) (retv w)))]
                 else [CCode (out_start ep); StartOutput]))
  | StartOutput =>
      if ec_bool (retv w) then (w, Calls [CCode (in_stop ep); StartFailed (retv w)])
      else (with_st (set_started true) w, Calls [])
  | StartFailed e => (w, Calls [CCode (on_finish ep (nest_error (StreamerErr write_error) e))])
  (* Streamer::stop *)
  | CApi Stop => (w, Calls [Finish (ec_of (Std operation_canceled))])
  (* Streamer::handle_read *)
  | CApi (HandleRead data e) =>
      if ec_bool e then (w, Calls [Finish (nest_error (StreamerErr read_error) e)])
      else (with_st inc_read w, Calls [CCode (out_write ep data); ReadWritten])
  | ReadWritten =>
      (w, Calls (if ec_bool (retv w) then [Finish (nest_error (StreamerErr write_error) (retv w))]
                 else if negb (max_buf (st w) =? 0) && (max_buf (st w) <=? queue_size w)
                 then [CCode (in_stop_reading ep); ReadPaused] else []))
  | ReadPaused => (with_st (set_inread false) w, Calls [])
  (* Streamer::handle_write *)
  | CApi (HandleWrite e) =>
      if ec_bool e then (w, Calls [Finish (nest_error (StreamerErr write_error) e)]) else
      let w := with_st inc_write w in
      if eof (st w) && (nwrite (st w) =? nread (st w)) then (w, Calls [Finish ec_ok])
      else if negb (inread (st w)) && (queue_size w <=? thr_buf (st w))
      then (w, Calls [CCode (in_start_reading ep); WriteResumed])
      else (w, Calls [])
  | WriteResumed =>
      if ec_bool (retv w) then (w, Calls [Finish (nest_error (StreamerErr read_error) (retv w))])
      else (with_st (set_inread true) w, Calls [])
  (* Streamer::handle_eof *)
  | CApi HandleEof =>
      if nwrite (st w) =? nread (st w) then (w, Calls [Finish ec_ok])
      else (with_st (set_eof true) w, Calls [])
  (* Streamer::finish *)
  | Finish e =>
      (w, Calls (if negb (started (st w)) then [] else [CCode (in_stop ep); FinishOutput e]))
  | FinishOutput e => (w, Calls [CCode (out_stop ep); FinishReset e])
  | FinishReset e => (with_st reset w, Calls [CCode (on_finish ep e)])
  end.

(** No code of the streamer catches. *)
Definition sunwind (c : scall U EC) (e : EC) (w : world) : world * outcome (scall U EC) EC := (w, Throws e).

Definition streamer_program : program world (scall U EC) EC := Program sbody sunwind.
End Streamer.

Arguments world : clear implicits.

(** ** File input and output *)

(** The code points of [FileInput] and [FileOutput]: methods, the callbacks
    given to [Fs], and the rests of functions after a call. *)
Inductive fcode (EC : Type) :=
| FiStart | FiStop | FiStopEnd | FiStartReading | FiStopReading
| FiOpenCb (fd : Z) (err : EC) | FiReadCb (data : bytes) (err : EC) | FiReadNext
| FoStart | FoStop | FoStopEnd | FoWrite (data : bytes)
| FoOpenCb (fd : Z) (err : EC) | FoWriteCb (err : EC) | FoWriteNext
| Finished (err : EC).
Arguments FiStart {EC}. Arguments FiStop {EC}. Arguments FiStopEnd {EC}. Arguments FiStartReading {EC}.
Arguments FiStopReading {EC}. Arguments FiOpenCb {EC}. Arguments FiReadCb {EC}. Arguments FiReadNext {EC}.
Arguments FoStart {EC}. Arguments FoStop {EC}. Arguments FoStopEnd {EC}. Arguments FoWrite {EC}.
Arguments FoOpenCb {EC}. Arguments FoWriteCb {EC}. Arguments FoWriteNext {EC}. Arguments Finished {EC}.

(** The requests given to [Fs]. *)
Inductive fsreq := OpenIn | ReadIn | OpenOut | WriteOut (buf : bytes).

(** [FileInput] and [FileOutput]; a request object is named by a number. *)
Record file_input := mkFileInput {
  fi_chunk : nat;
  fi_fd : Z;
  fi_req : option nat;
  fi_opened : bool;
  fi_pause : bool
}.

Record file_output := mkFileOutput {
  fo_fd : Z;
  fo_req : option nat;
  fo_opened : bool;
  fo_bufs : list bytes;
  fo_bufsz : Z
}.

(** The two objects; the active requests with whether a thread has taken them;
    the input file and how far it was read; [written], a ghost: the buffers of the
    writes that succeeded; the descriptors given to [Fs::close]; the calls of
    [finish_event]; the output file; and [short], a ghost: whether a write wrote less
    than its buffer. *)
Record files (EC : Type) := mkFiles {
  fin : file_input;
  fout : file_output;
  reqs : gmap nat (fsreq * bool);
  next_req : nat;
  content : bytes;
  in_pos : nat;
  written : bytes;
  closing : list Z;
  finishes : list EC;
  out_file : bytes;
  short : bool
}.
Arguments mkFiles {EC}.
Arguments fin {EC}. Arguments fout {EC}. Arguments reqs {EC}. Arguments next_req {EC}. Arguments content {EC}.
Arguments in_pos {EC}. Arguments written {EC}. Arguments closing {EC}. Arguments finishes {EC}.
Arguments out_file {EC}. Arguments short {EC}.

Section Files.
Context {EC : Type} `{ErrorStack EC}.
Implicit Types (x : files EC).

Definition with_fin (f : file_input → file_input) x : files EC :=
  mkFiles (f (fin x)) (fout x) (reqs x) (next_req x) (content x) (in_pos x) (written x) (closing x) (finishes x) (out_file x) (short x).
Definition with_fout (f : file_output → file_output) x : files EC :=
  mkFiles (fin x) (f (fout x)) (reqs x) (next_req x) (content x) (in_pos x) (written x) (closing x) (finishes x) (out_file x) (short x).
Definition with_reqs (f : gmap nat (fsreq * bool) → gmap nat (fsreq * bool)) x : files EC :=
  mkFiles (fin x) (fout x) (f (reqs x)) (next_req x) (content x) (in_pos x) (written x) (closing x) (finishes x) (out_file x) (short x).
Definition add_close (b : bool) (fd : Z) x : files EC :=
  mkFiles (fin x) (fout x) (reqs x) (next_req x) (content x) (in_pos x) (written x)
    (if b then closing x ++ [fd] else closing x) (finishes x) (out_file x) (short x).
Definition note_finish (e : EC) x : files EC :=
  mkFiles (fin x) (fout x) (reqs x) (next_req x) (content x) (in_pos x) (written x) (closing x)
    (finishes x ++ [e]) (out_file x) (short x).

(** [Fs::open], [Fs::read], [Fs::write]: a new active request. *)
Definition submit (r : fsreq) x : files EC * nat :=
  let i := next_req x in
  (mkFiles (fin x) (fout x) (<[i := (r, false)]> (reqs x)) (S i) (content x) (in_pos x) (written x)
     (closing x) (finishes x) (out_file x) (short x), i).

Definition fi_set_req (r : option nat) (f : file_input) : file_input :=
  mkFileInput (fi_chunk f) (fi_fd f) r (fi_opened f) (fi_pause f).
Definition fi_set_open (fd : Z) (b : bool) (f : file_input) : file_input :=
  mkFileInput (fi_chunk f) fd (fi_req f) b (fi_pause f).
Definition fi_set_pause (b : bool) (f : file_input) : file_input :=
  mkFileInput (fi_chunk f) (fi_fd f) (fi_req f) (fi_opened f) b.
Definition fo_set_req (r : option nat) (f : file_output) : file_output :=
  mkFileOutput (fo_fd f) r (fo_opened f) (fo_bufs f) (fo_bufsz f).
Definition fo_set_open (fd : Z) (b : bool) (f : file_output) : file_output :=
  mkFileOutput fd (fo_req f) b (fo_bufs f) (fo_bufsz f).
Definition fo_set_bufs (l : list bytes) (n : Z) (f : file_output) : file_output :=
  mkFileOutput (fo_fd f) (fo_req f) (fo_opened f) l n.

(** [FileInput::do_read] *)
Definition do_read x : files EC :=
  let (x, i) := submit ReadIn x in with_fin (fi_set_req (Some i)) x.

(** [FileOutput::do_write] *)
Definition do_write x : files EC :=
  let (x, i) := submit (WriteOut (hd [] (fo_bufs (fout x)))) x in with_fout (fo_set_req (Some i)) x.

(** The callback that a request was made with. *)
Definition callback (r : fsreq) (fd : Z) (data : bytes) (e : EC) : fcode EC :=
  match r with
  | OpenIn => FiOpenCb fd e
  | ReadIn => FiReadCb data e
  | OpenOut => FoOpenCb fd e
  | WriteOut _ => FoWriteCb e
  end.

Definition active_req (r : option nat) x : option (nat * fsreq * bool) :=
  i ← r; p ← reqs x !! i; Some (i, p.1, p.2).

(** [if (fsreq) fsreq->cancel()]: a request that no thread has taken is over at
    once, and its callback called. *)
Definition cancel_req (r : option nat) x : files EC * list (sapi EC + fcode EC) :=
  match active_req r x with
  | Some (i, k, false) =>
      (with_reqs (delete i) x, [inr (callback k 0 [] (ec_of (Std operation_canceled)))])
  | _ => (x, [])
  end.

Definition fcalls := outcome (sapi EC + fcode EC) EC.

Definition file_code (c : fcode EC) (x : files EC) : files EC * fcalls :=
  match c with
  (* FileInput *)
  | FiStart =>
      let (x, i) := submit OpenIn x in
      (with_fin (fi_set_req (Some i)) x, Calls [inl (Return ec_ok)])
  | FiOpenCb fd e =>
      if ec_bool e then (x, Calls [inl (HandleRead [] e)])
      else (do_read (with_fin (fi_set_open fd true) x), Calls [])
  | FiReadCb data e =>
      if ec_bool e then (x, Calls [inl (HandleRead [] e)]) else
      (x, Calls ((if decide (data = []) then [] else [inl (HandleRead data ec_ok)]) ++
           [if decide (length data < fi_chunk (fin x))%nat then inl HandleEof else inr FiReadNext]))
  | FiReadNext => (if fi_pause (fin x) then x else do_read x, Calls [])
  | FiStop => let (x, cs) := cancel_req (fi_req (fin x)) x in (x, Calls (cs ++ [inr FiStopEnd]))
  | FiStopEnd =>
      let x := add_close (fi_opened (fin x)) (fi_fd (fin x)) (with_fin (fi_set_req None) x) in
      (with_fin (λ f, fi_set_open (fi_fd f) false f) x, Calls [])
  | FiStartReading =>
      let x := with_fin (fi_set_pause false) x in
      match fi_req (fin x) with
      | None => (x, Aborts)   (* a call on the null request *)
      | Some _ =>
          (match active_req (fi_req (fin x)) x with Some _ => x | None => do_read x end,
           Calls [inl (Return ec_ok)])
      end
  | FiStopReading => (with_fin (fi_set_pause true) x, Calls [])
  (* FileOutput *)
  | FoStart =>
      let (x, i) := submit OpenOut x in
      (with_fout (fo_set_req (Some i)) x, Calls [inl (Return ec_ok)])
  | FoOpenCb fd e =>
      if ec_bool e then (x, Calls [inl (HandleWrite e)]) else
      let x := with_fout (fo_set_open fd true) x in
      (match fo_bufs (fout x) with [] => x | _ => do_write x end, Calls [])
  | FoWrite data =>
      let x := with_fout (λ f, fo_set_bufs (fo_bufs f ++ [data]) (fo_bufsz f +₆₄ Z.of_nat (length data)) f) x in
      (if decide (length (fo_bufs (fout x)) = 1%nat ∧ fo_opened (fout x) = true) then do_write x else x,
       Calls [inl (Return ec_ok)])
  | FoWriteCb e =>
      match fo_bufs (fout x) with
      | [] => (x, Aborts)     (* front() of an empty queue *)
      | b :: l =>
          (with_fout (fo_set_bufs l (fo_bufsz (fout x) -₆₄ Z.of_nat (length b))) x,
           Calls [inl (HandleWrite e); inr FoWriteNext])
      end
  | FoWriteNext => (match fo_bufs (fout x) with [] => x | _ => do_write x end, Calls [])
  | FoStop => let (x, cs) := cancel_req (fo_req (fout x)) x in (x, Calls (cs ++ [inr FoStopEnd]))
  | FoStopEnd =>
      let x := add_close (fo_opened (fout x)) (fo_fd (fout x)) (with_fout (fo_set_req None) x) in
      (with_fout (λ f, fo_set_open (fo_fd f) false f) x, Calls [])
  (* finish_event *)
  | Finished e => (note_finish e x, Calls [])
  end.

Definition file_endpoints : endpoints (files EC) (fcode EC) EC := {|
  in_start := FiStart; in_stop := FiStop; in_start_reading := FiStartReading;
  in_stop_reading := FiStopReading; out_start := FoStart; out_stop := FoStop;
  out_write := FoWrite; out_write_queue_size x := fo_bufsz (fout x);
  on_finish := Finished; e_code := file_code
|}.

(** What the file system answers, and what it does then: a read of a file returns the
    next bytes, as many as were asked for unless the file ends; a write appends the
    first [n] bytes of its buffer. [Fs::_write] drops that number, so the callback is
    not told of it. *)
Inductive answer := Fails (e : error_code) | Opened (fd : Z) | ReadDone | Wrote (n : nat).

Definition perform (r : fsreq) (a : answer) x : option (files EC * fcode EC) :=
  match r, a with
  | _, Fails e => Some (x, callback r 0 [] (ec_of e))
  | (OpenIn | OpenOut), Opened fd => Some (x, callback r fd [] ec_ok)
  | ReadIn, ReadDone =>
      let data := take (fi_chunk (fin x)) (drop (in_pos x) (content x)) in
      Some (mkFiles (fin x) (fout x) (reqs x) (next_req x) (content x) (in_pos x + length data)
              (written x) (closing x) (finishes x) (out_file x) (short x), callback r 0 data ec_ok)
  | WriteOut b, Wrote n =>
      Some (mkFiles (fin x) (fout x) (reqs x) (next_req x) (content x) (in_pos x)
              (written x ++ b) (closing x) (finishes x)
              (out_file x ++ take n b) (short x || (n <? length b)%nat), callback r 0 [] ec_ok)
  | _, _ => None
  end.

Abbreviation fworld := (world (files EC) EC).

Definition with_ext (x : files EC) (w : fworld) : fworld := mkWorld (st w) (retv w) x.

(** The inputs: a thread takes a request; a request completes, and the loop
    calls back; the user stops the streamer. *)
Inductive file_input_step : fworld → list (scall (fcode EC) EC) → fworld → Prop :=
| in_take w i r : reqs (ext w) !! i = Some (r, false) →
    file_input_step w [] (with_ext (with_reqs (<[i := (r, true)]>) (ext w)) w)
| in_complete w i r b a x' u : reqs (ext w) !! i = Some (r, b) →
    perform r a (with_reqs (delete i) (ext w)) = Some (x', u) →
    file_input_step w [CCode u] (with_ext x' w)
| in_stop_user w : file_input_step w [CApi Stop] w.
End Files.

(** ** Finishing *)

Section Finishing.
Context {EC : Type} `{ErrorStack EC}.
Abbreviation fworld := (world (files EC) EC).
Abbreviation prog := (streamer_program (file_endpoints (EC:=EC))).
Abbreviation conf cs w := (Config (cs : list (scall (fcode EC) EC)) (w : fworld) Normal).
Implicit Types (w : fworld) (k : list (scall (fcode EC) EC)) (e : EC).

Definition cancellable (r : option nat) (x : files EC) : nat :=
  match active_req r x with Some (_, _, false) => 1 | _ => 0 end.
Definition cancels w : nat := cancellable (fi_req (fin (ext w))) (ext w) + cancellable (fo_req (fout (ext w))) (ext w).

(** Each object's request is of its own kind. *)
Definition kinds (x : files EC) : Prop :=
  (∀ i r b, active_req (fi_req (fin x)) x = Some (i, r, b) → r = OpenIn ∨ r = ReadIn) ∧
  (∀ i r b, active_req (fo_req (fout x)) x = Some (i, r, b) →
     r = OpenOut ∨ ∃ buf, r = WriteOut buf ∧ fo_bufs (fout x) ≠ []) ∧
  (∀ i, fi_req (fin x) = Some i → fo_req (fout x) ≠ Some i).

(** What stopping the objects leaves alone; only errors are reported. *)
Definition stopping w w' : Prop :=
  content (ext w') = content (ext w) ∧ written (ext w') = written (ext w) ∧
  (∃ l, finishes (ext w') = finishes (ext w) ++ l ∧ Forall (λ e, ec_bool e = true) l) ∧
  (started (st w) = false → st w' = st w).

Lemma stopping_refl w : stopping w w.
Proof. split_and!; try done. exists []. by rewrite app_nil_r. Qed.
Lemma stopping_trans w1 w2 w3 : stopping w1 w2 → stopping w2 w3 → stopping w1 w3.
Proof.
  intros (C1 & O1 & (l1 & F1 & A1) & S1) (C2 & O2 & (l2 & F2 & A2) & S2). split_and!; [congruence|congruence| |].
  - exists (l1 ++ l2). split; [by rewrite F2, F1, app_assoc|]. by apply Forall_app.
  - intros S. rewrite S2; [by apply S1|]. by rewrite S1.
Qed.

Lemma ec_bool_canceled : ec_bool (EC:=EC) (ec_of (Std operation_canceled)) = true.
Proof. apply ec_bool_of. Qed.

Lemma ec_bool_nest e c : ec_bool (nest_error c e) = ec_bool e.
Proof.
  unfold nest_error. destruct (ec_bool e) eqn:B; simpl; [|done].
  destruct (ec_has e _); [done|]. unfold ec_bool. by rewrite ec_codes_nest.
Qed.

(** The end of [stop()] of each object. *)
Definition in_closed (x : files EC) : files EC :=
  let x := add_close (fi_opened (fin x)) (fi_fd (fin x)) (with_fin (fi_set_req None) x) in
  with_fin (λ f, fi_set_open (fi_fd f) false f) x.
Definition out_closed (x : files EC) : files EC :=
  let x := add_close (fo_opened (fout x)) (fo_fd (fout x)) (with_fout (fo_set_req None) x) in
  with_fout (λ f, fo_set_open (fo_fd f) false f) x.

Lemma stopping_in_closed w : stopping w (with_ext (in_closed (ext w)) w).
Proof. unfold in_closed. split_and!; try done. exists []. by rewrite app_nil_r. Qed.
Lemma stopping_out_closed w : stopping w (with_ext (out_closed (ext w)) w).
Proof. unfold out_closed. split_and!; try done. exists []. by rewrite app_nil_r. Qed.

Lemma active_req_None x : active_req (EC:=EC) None x = None.
Proof. done. Qed.

Lemma kinds_in_closed x : kinds x → kinds (in_closed x).
Proof. intros (K1 & K2 & K3). split_and!; simpl; try done. Qed.
Lemma kinds_out_closed x : kinds x → kinds (out_closed x).
Proof. intros (K1 & K2 & K3). split_and!; simpl; try done. Qed.

Lemma active_req_delete r i x :
  active_req r (with_reqs (EC:=EC) (delete i) x) = if decide (r = Some i) then None else active_req r x.
Proof.
  unfold active_req. destruct r as [j|]; simpl; [|done].
  case_decide as D; simplify_eq/=; [by rewrite lookup_delete_eq|].
  rewrite lookup_delete_ne; [done|congruence].
Qed.

Lemma cancel_req_spec r x :
  match active_req r x with
  | Some (i, q, false) => r = Some i ∧
      cancel_req r x = (with_reqs (delete i) x, [inr (callback q 0 [] (ec_of (Std operation_canceled)))])
  | _ => cancel_req r x = (x, [])
  end.
Proof.
  unfold cancel_req. destruct (active_req r x) as [[[i q] []]|] eqn:A; try done. split; [|done].
  unfold active_req in A. destruct r as [j|]; simpl in A; [|done].
  by destruct (reqs x !! j); simplify_eq/=.
Qed.

Lemma kinds_delete i x : kinds x → kinds (with_reqs (delete i) x).
Proof.
  intros (K1 & K2 & K3). split_and!; [| |done].
  - intros j r b. rewrite active_req_delete. case_decide; [done|apply K1].
  - intros j r b. rewrite active_req_delete. case_decide; [done|apply K2].
Qed.

(** One run of [finish] on a started streamer: both are stopped, the streamer
    is reset and the error reported, after what cancelled requests reported. *)
Definition finished e w w' : Prop :=
  started (st w') = false ∧ content (ext w') = content (ext w) ∧ written (ext w') = written (ext w) ∧
  (∃ l, finishes (ext w') = finishes (ext w) ++ l ++ [e] ∧ Forall (λ e, ec_bool e = true) l ∧
        (cancels w = 0%nat → l = [])) ∧
  kinds (ext w') ∧ fi_req (fin (ext w')) = None ∧ fo_req (fout (ext w')) = None.

Definition finish_ok (n : nat) : Prop := ∀ w e k, (cancels w ≤ n)%nat → kinds (ext w) →
  ∃ w', steps prog (conf (Finish e :: k) w) (conf k w') ∧
    (started (st w) = false → w' = w) ∧ (started (st w) = true → finished e w w').

Lemma code_steps u k w x cs :
  file_code u (ext w) = (x, Calls cs) →
  steps prog (conf (CCode u :: k) w)
    (conf (((λ c, match c with inl a => CApi a | inr u => CCode u end) <$> cs) ++ k) (with_ext x w)).
Proof. intros Hc. apply steps_once. unfold step. simpl. by rewrite Hc. Qed.

Lemma with_sext_id w : with_ext (ext w) w = w.
Proof. by destruct w. Qed.

Lemma code_steps_same u k w cs :
  file_code u (ext w) = (ext w, Calls cs) →
  steps prog (conf (CCode u :: k) w)
    (conf (((λ c, match c with inl a => CApi a | inr u => CCode u end) <$> cs) ++ k) w).
Proof. intros Hc. rewrite <-(with_sext_id w) at 2. by apply code_steps. Qed.

(** A nested [finish], from the callback of a cancelled request: [cb] reports
    the error and [k] remains. *)
Lemma nested_finish n w e k :
  finish_ok n → (cancels w ≤ n)%nat → kinds (ext w) → ec_bool e = true →
  ∃ w', steps prog (conf (Finish e :: k) w) (conf k w') ∧ stopping w w' ∧ kinds (ext w') ∧
    (cancels w' ≤ cancels w)%nat ∧ (fi_req (fin (ext w)) = None → fi_req (fin (ext w')) = None).
Proof.
  intros Hn Hc Hk He. destruct (Hn w e k Hc Hk) as (w' & S1 & H0 & H1). exists w'. split; [done|].
  destruct (started (st w)) eqn:St.
  - destruct (H1 eq_refl) as (S' & C & O & (l & F & A & _) & K & Fi & Fo).
    assert (stopping w w') as Hst.
    { repeat (split; [done|]). split; [|congruence]. exists (l ++ [e]). split; [done|].
      apply Forall_app. split; [done|by constructor]. }
    repeat (split; [done|]). split; [|done].
    unfold cancels. rewrite Fi, Fo. simpl. unfold cancellable at 1. simpl. lia.
  - rewrite (H0 eq_refl). split; [apply stopping_refl|]. done.
Qed.

Lemma stop_in n w k :
  (∀ m, (m < n)%nat → finish_ok m) → (cancels w ≤ n)%nat → kinds (ext w) →
  ∃ w', steps prog (conf (CCode FiStop :: k) w) (conf k w') ∧ stopping w w' ∧ kinds (ext w') ∧
    (cancels w' ≤ cancels w)%nat ∧ fi_req (fin (ext w')) = None ∧
    (cancels w = 0%nat → w' = with_ext (in_closed (ext w)) w).
Proof.
  intros Hn Hc Hk. pose proof (cancel_req_spec (fi_req (fin (ext w))) (ext w)) as Hcr.
  assert (∀ w1 k1, steps prog (conf (CCode FiStopEnd :: k1) w1) (conf k1 (with_ext (in_closed (ext w1)) w1))) as Hend.
  { intros w1 k1. by apply (code_steps FiStopEnd k1 w1 _ []). }
  assert (∀ w1, kinds (ext w1) → (cancels (with_ext (in_closed (ext w1)) w1) ≤ cancels w1)%nat) as Hle.
  { intros w1 K1. unfold cancels, cancellable at 1. simpl. unfold cancellable at 1 3. simpl.
    unfold cancellable. change (active_req ?r (in_closed (ext w1))) with (active_req r (ext w1)). simpl. lia. }
  destruct (active_req (fi_req (fin (ext w))) (ext w)) as [[[i r] b]|] eqn:A; [destruct b|].
  - exists (with_ext (in_closed (ext w)) w). split; [|split_and!].
    + eapply steps_trans; [apply (code_steps_same FiStop k w [inr FiStopEnd]); simpl; by rewrite Hcr|]. apply Hend.
    + apply stopping_in_closed.
    + by apply kinds_in_closed.
    + by apply Hle.
    + done.
    + done.
  - destruct Hcr as [Er Hcr].
    set (w1 := with_ext (with_reqs (delete i) (ext w)) w).
    assert (cancels w1 < cancels w)%nat as Hlt.
    { unfold cancels. simpl. unfold cancellable. rewrite !active_req_delete, A.
      rewrite decide_True by done. rewrite decide_False; [simpl; lia|].
      destruct Hk as (_ & _ & K3). intros Eo. by apply (K3 i). }
    destruct (nested_finish (cancels w1) w1 (nest_error (StreamerErr read_error) (ec_of (Std operation_canceled)))
      (CCode FiStopEnd :: k)) as (w2 & S2 & St2 & K2 & C2 & F2); [apply Hn; lia|done|by apply kinds_delete|
      by rewrite ec_bool_nest, ec_bool_of|].
    exists (with_ext (in_closed (ext w2)) w2). split; [|split_and!].
    + eapply steps_trans; [apply (code_steps FiStop k w (with_reqs (delete i) (ext w)) [inr (callback r 0 [] (ec_of (Std operation_canceled))); inr FiStopEnd]); simpl; by rewrite Hcr|]. simpl.
      destruct Hk as (K1 & _ & _). specialize (K1 i r false A).
      eapply steps_trans; [|eapply steps_trans; [exact S2|apply Hend]].
      eapply steps_trans.
      * apply (code_steps_same (callback r 0 [] (ec_of (Std operation_canceled))) _ w1 [inl (HandleRead [] (ec_of (Std operation_canceled)))]).
        destruct K1 as [-> | ->]; simpl; by rewrite ec_bool_of.
      * apply steps_once. unfold step. simpl. by rewrite ec_bool_of.
    + eapply stopping_trans; [|eapply stopping_trans; [exact St2|apply stopping_in_closed]].
      repeat (split; [done|]). split; [|done]. exists []. by rewrite app_nil_r.
    + by apply kinds_in_closed.
    + etrans; [by apply Hle|]. lia.
    + done.
    + intros C0. unfold cancels, cancellable in C0. rewrite A in C0. lia.
  - exists (with_ext (in_closed (ext w)) w). split; [|split_and!].
    + eapply steps_trans; [apply (code_steps_same FiStop k w [inr FiStopEnd]); simpl; by rewrite Hcr|]. apply Hend.
    + apply stopping_in_closed.
    + by apply kinds_in_closed.
    + by apply Hle.
    + done.
    + done.
Qed.

Lemma stop_out n w k :
  (∀ m, (m < n)%nat → finish_ok m) → (cancels w ≤ n)%nat → kinds (ext w) →
  fi_req (fin (ext w)) = None →
  ∃ w', steps prog (conf (CCode FoStop :: k) w) (conf k w') ∧ stopping w w' ∧ kinds (ext w') ∧
    fi_req (fin (ext w')) = None ∧ fo_req (fout (ext w')) = None ∧
    (cancels w = 0%nat → w' = with_ext (out_closed (ext w)) w).
Proof.
  intros Hn Hc Hk Hfi. pose proof (cancel_req_spec (fo_req (fout (ext w))) (ext w)) as Hcr.
  assert (∀ w1 k1, steps prog (conf (CCode FoStopEnd :: k1) w1) (conf k1 (with_ext (out_closed (ext w1)) w1))) as Hend.
  { intros w1 k1. by apply (code_steps FoStopEnd k1 w1 _ []). }
  destruct (active_req (fo_req (fout (ext w))) (ext w)) as [[[i r] b]|] eqn:A; [destruct b|].
  - exists (with_ext (out_closed (ext w)) w). split; [|split_and!; try done].
    + eapply steps_trans; [apply (code_steps_same FoStop k w [inr FoStopEnd]); simpl; by rewrite Hcr|]. apply Hend.
    + apply stopping_out_closed.
    + by apply kinds_out_closed.
  - destruct Hcr as [Er Hcr]. set (E1 := ec_of (EC:=EC) (Std operation_canceled)) in *.
    set (w1 := with_ext (with_reqs (delete i) (ext w)) w).
    assert (cancels w1 < cancels w)%nat as Hlt.
    { unfold cancels. simpl. unfold cancellable. rewrite !active_req_delete, A, Hfi. simpl.
      rewrite decide_True by done. lia. }
    (* what the callback does: it may take the first buffer off *)
    assert (∃ w1' cs, steps prog (conf (CCode (callback r 0 [] E1) :: CCode FoStopEnd :: k) w1)
        (conf (CApi (HandleWrite E1) :: cs ++ CCode FoStopEnd :: k) w1') ∧
      (cs = [] ∨ cs = [CCode FoWriteNext]) ∧ stopping w w1' ∧ kinds (ext w1') ∧
      fi_req (fin (ext w1')) = None ∧ (cancels w1' ≤ cancels w1)%nat) as (w1' & cs & S1 & Hcs & St1 & K1 & F1 & C1).
    { pose proof (kinds_delete i _ Hk) as Kd.
      assert (stopping w w1) as St1 by (repeat (split; [done|]); split; [|done]; exists []; by rewrite app_nil_r).
      destruct Hk as (_ & K2 & _). destruct (K2 i r false A) as [-> | (buf & -> & Hne)].
      - exists w1, []. split_and!; auto. apply (code_steps_same _ _ w1 [inl (HandleWrite E1)]).
        simpl. unfold E1. by rewrite ec_bool_of.
      - destruct (fo_bufs (fout (ext w))) as [|h l] eqn:Bf; [done|].
        set (x1 := with_fout (fo_set_bufs l (fo_bufsz (fout (ext w)) -₆₄ Z.of_nat (length h))) (ext w1)).
        assert (kinds x1) as Kx.
        { destruct Kd as (Ka & _ & Kc). split_and!; [exact Ka| |exact Kc]. intros j q c.
          change (active_req (fo_req (fout x1)) x1)
            with (active_req (fo_req (fout (ext w))) (with_reqs (delete i) (ext w))).
          by rewrite active_req_delete, decide_True. }
        exists (with_ext x1 w1), [CCode FoWriteNext].
        split; [|split; [by right|split; [exact St1|done]]].
        apply (code_steps _ _ w1 x1 [inl (HandleWrite E1); inr FoWriteNext]). simpl. by rewrite Bf. }
    destruct (nested_finish (cancels w1') w1' (nest_error (StreamerErr write_error) E1)
      (cs ++ CCode FoStopEnd :: k)) as (w2 & S2 & St2 & K2 & C2 & F2); [apply Hn; lia|done|done|
      unfold E1; by rewrite ec_bool_nest, ec_bool_of|].
    (* the rest of the callback may start a write on the stopped object *)
    assert (∃ w3, steps prog (conf (cs ++ CCode FoStopEnd :: k) w2) (conf (CCode FoStopEnd :: k) w3) ∧
      stopping w2 w3 ∧ fi_req (fin (ext w3)) = None) as (w3 & S3 & St3 & F3).
    { specialize (F2 F1). destruct Hcs as [-> | ->].
      - exists w2. split; [apply steps_refl|]. split; [apply stopping_refl|done].
      - set (x3 := match fo_bufs (fout (ext w2)) with [] => ext w2 | _ => do_write (ext w2) end).
        exists (with_ext x3 w2). split; [by apply (code_steps FoWriteNext _ w2 x3 [])|].
        unfold x3. destruct (fo_bufs (fout (ext w2))); simpl; [by rewrite with_sext_id; split; [apply stopping_refl|]|].
        split; [|done]. repeat (split; [done|]). split; [|done]. exists []. by rewrite app_nil_r. }
    exists (with_ext (out_closed (ext w3)) w3). split; [|split_and!].
    + eapply steps_trans; [apply (code_steps FoStop k w (with_reqs (delete i) (ext w)) [inr (callback r 0 [] E1); inr FoStopEnd]); simpl; by rewrite Hcr|].
      simpl. eapply steps_trans; [exact S1|]. eapply steps_cons; [unfold step; simpl; unfold E1; rewrite ec_bool_of; reflexivity|].
      eapply steps_trans; [exact S2|]. eapply steps_trans; [exact S3|apply Hend].
    + eapply stopping_trans; [exact St1|]. eapply stopping_trans; [exact St2|].
      eapply stopping_trans; [exact St3|apply stopping_out_closed].
    + split_and!; simpl; try done; intros ? ? ?; rewrite ?F3; done.
    + simpl. done.
    + done.
    + intros C0. unfold cancels, cancellable in C0. rewrite A in C0. lia.
  - exists (with_ext (out_closed (ext w)) w). split; [|split_and!; try done].
    + eapply steps_trans; [apply (code_steps_same FoStop k w [inr FoStopEnd]); simpl; by rewrite Hcr|]. apply Hend.
    + apply stopping_out_closed.
    + by apply kinds_out_closed.
Qed.

Lemma finish_all n : finish_ok n.
Proof.
  induction n as [n IH] using lt_wf_ind. intros w e k Hc Hk.
  destruct (started (st w)) eqn:St.
  2:{ exists w. split; [|done]. apply steps_once. unfold step. simpl. by rewrite St. }
  destruct (stop_in n w (FinishOutput e :: k) IH Hc Hk) as (w1 & S1 & St1 & K1 & C1 & F1 & E1).
  destruct (stop_out n w1 (FinishReset e :: k)) as (w2 & S2 & St2 & K2 & F2 & G2 & E2); try done; [lia|].
  exists (with_ext (note_finish e (ext w2)) (with_st reset w2)). split; [|split; [done|intros _]].
  - eapply steps_cons; [unfold step; simpl; rewrite St; reflexivity|]. simpl.
    eapply steps_trans; [exact S1|]. eapply steps_cons; [reflexivity|]. simpl.
    eapply steps_trans; [exact S2|]. eapply steps_cons; [reflexivity|]. simpl.
    by apply (code_steps (Finished e) k (with_st reset w2) (note_finish e (ext w2)) []).
  - destruct (stopping_trans _ _ _ St1 St2) as (C & O & (l & F & A) & _).
    repeat (split; [done|]). split; [|done].
    exists l. simpl. rewrite F. split; [by rewrite app_assoc|]. split; [done|].
    intros C0. specialize (E1 C0). subst w1. assert (cancels (with_ext (in_closed (ext w)) w) = 0%nat) as C0' by lia.
    specialize (E2 C0'). subst w2. simpl in F.
    apply (f_equal length) in F. rewrite length_app in F. destruct l; [done|simpl in F; lia].
Qed.

(** [finish]: what it does to the streamer and the files, in any state. *)
Lemma finish_steps w e k : kinds (ext w) →
  ∃ w', steps prog (conf (Finish e :: k) w) (conf k w') ∧
    (started (st w) = false → w' = w) ∧ (started (st w) = true → finished e w w').
Proof. intros Hk. by apply (finish_all (cancels w)). Qed.

(** *** The invariant of a streamer at work *)

Abbreviation bufs w := (fo_bufs (fout (ext w))).
Abbreviation bufsz w := (fo_bufsz (fout (ext w))).

(** The counters, the data and the bounds; [d] was read but not yet handed to
    the output. *)
Record pump (d : bytes) w : Prop := {
  p_started : started (st w) = true;
  p_chunk : (0 < fi_chunk (fin (ext w)))%nat;
  p_content : Z.of_nat (length (content (ext w))) < 2 ^ 62;
  p_max : 0 ≤ max_buf (st w) < 2 ^ 62;
  p_thr : thr_buf (st w) = max_buf (st w) * 2 / 3;
  p_count : nread (st w) = nwrite (st w) + Z.of_nat (length (bufs w));
  p_nwrite : 0 ≤ nwrite (st w);
  p_nread : nread (st w) + Z.of_nat (length d) ≤ Z.of_nat (in_pos (ext w));
  p_pos : (in_pos (ext w) ≤ length (content (ext w)))%nat;
  p_data : written (ext w) ++ concat (bufs w) ++ d = take (in_pos (ext w)) (content (ext w));
  p_size : bufsz w = Z.of_nat (length (concat (bufs w)));
  p_nonempty : Forall (λ b, b ≠ []) (bufs w);
  p_eof : eof (st w) = true → in_pos (ext w) = length (content (ext w)) ∧ bufs w ≠ [];
  p_pause : fi_pause (fin (ext w)) = negb (inread (st w));
  p_paused : inread (st w) = false → thr_buf (st w) < bufsz w;
  p_bound : 0 < max_buf (st w) → bufsz w + Z.of_nat (length d) < max_buf (st w) + Z.of_nat (fi_chunk (fin (ext w)))
}.

(** The input object: opening, reading, or at rest. *)
Inductive in_phase w : bool → Prop :=
| in_opening i b : fi_req (fin (ext w)) = Some i → reqs (ext w) !! i = Some (OpenIn, b) →
    in_pos (ext w) = 0%nat → in_phase w true
| in_reading i b : fi_req (fin (ext w)) = Some i → reqs (ext w) !! i = Some (ReadIn, b) →
    (0 < max_buf (st w) → bufsz w < max_buf (st w)) → in_phase w true
| in_idle i : fi_req (fin (ext w)) = Some i → reqs (ext w) !! i = None → in_phase w false.

(** The output object: opening, at rest, or writing its first buffer. *)
Inductive out_phase w : bool → Prop :=
| out_opening j b : fo_req (fout (ext w)) = Some j → fo_opened (fout (ext w)) = false →
    reqs (ext w) !! j = Some (OpenOut, b) → out_phase w true
| out_writing j b h l : fo_req (fout (ext w)) = Some j → fo_opened (fout (ext w)) = true →
    bufs w = h :: l → reqs (ext w) !! j = Some (WriteOut h, b) → out_phase w true
| out_idle j : fo_req (fout (ext w)) = Some j → fo_opened (fout (ext w)) = true →
    reqs (ext w) !! j = None → out_phase w false.

(** The active requests are those of the two objects. *)
Record owned (x : files EC) : Prop := {
  o_owner i r : reqs x !! i = Some r → fi_req (fin x) = Some i ∨ fo_req (fout x) = Some i;
  o_fresh i : fi_req (fin x) = Some i ∨ fo_req (fout x) = Some i → (i < next_req x)%nat;
  o_diff i : fi_req (fin x) = Some i → fo_req (fout x) ≠ Some i
}.

(** Between two turns of the loop. *)
Record pumping w : Prop := {
  g_pump : pump [] w;
  g_in : ∃ b, in_phase w b ∧ (b = false → eof (st w) = true ∨ inread (st w) = false);
  g_out : ∃ b, out_phase w b ∧ (b = false → bufs w = []);
  g_owned : owned (ext w)
}.

(** A turn that ends the work: it reports success only when the whole content
    has been written. *)
Definition over w w' : Prop :=
  started (st w') = false ∧ content (ext w') = content (ext w) ∧
  ∃ l, finishes (ext w') = finishes (ext w) ++ l ∧
    (Exists (λ e, ec_bool e = false) l → written (ext w') = content (ext w')).

Definition turned w w' : Prop :=
  (pumping w' ∧ content (ext w') = content (ext w) ∧ finishes (ext w') = finishes (ext w) ∧
   max_buf (st w') = max_buf (st w) ∧ fi_chunk (fin (ext w')) = fi_chunk (fin (ext w))) ∨ over w w'.

Lemma ec_bool_ok : ec_bool (EC:=EC) ec_ok = false.
Proof. unfold ec_bool. by rewrite ec_codes_ok. Qed.

Lemma owned_kinds w bi bo : owned (ext w) → in_phase w bi → out_phase w bo → kinds (ext w).
Proof.
  intros O Hi Ho. split_and!; [| |apply O].
  - intros i r b A. unfold active_req in A.
    destruct Hi as [i' b' E R _|i' b' E R _|i' E R]; rewrite E in A; simpl in A; rewrite R in A; simplify_eq/=; auto.
  - intros i r b A. unfold active_req in A.
    destruct Ho as [j b' E _ R|j b' h l E _ B R|j E _ R]; rewrite E in A; simpl in A; rewrite R in A; simplify_eq/=; auto.
    right. exists h. by rewrite B.
Qed.

Lemma finished_over e w0 w w' :
  finished e w w' → started (st w) = true → content (ext w) = content (ext w0) →
  finishes (ext w) = finishes (ext w0) → (ec_bool e = false → written (ext w) = content (ext w)) → over w0 w'.
Proof.
  intros (S & C & O & (l & F & A & _) & _) _ Hc Hf He. split; [done|]. split; [congruence|].
  exists (l ++ [e]). rewrite F, Hf. split; [done|]. rewrite Exists_app, Exists_cons, Exists_nil.
  rewrite C, O. intros [Hx|[Hx|[]]]; [|by apply He].
  apply Exists_exists in Hx as (x & Hx & Ex). rewrite Forall_forall in A. specialize (A x Hx). congruence.
Qed.

(** A frame that only starts a write cannot undo the end. *)
Lemma over_write_next w0 w : over w0 w →
  ∃ w', steps prog (conf [CCode FoWriteNext] w) (conf [] w') ∧ over w0 w'.
Proof.
  intros (S & C & l & F & He).
  set (x' := match fo_bufs (fout (ext w)) with [] => ext w | _ => do_write (ext w) end).
  exists (with_ext x' w). split; [by apply (code_steps FoWriteNext _ w x' [])|].
  assert (content x' = content (ext w) ∧ finishes x' = finishes (ext w) ∧ written x' = written (ext w)) as (C' & F' & O')
    by (unfold x'; by destruct (fo_bufs (fout (ext w)))).
  split; [done|]. simpl. rewrite C', F', O'. split; [done|]. by exists l.
Qed.

(** Submitting a request. *)
Lemma do_read_phase w : owned (ext w) → (∃ i, fi_req (fin (ext w)) = Some i ∧ reqs (ext w) !! i = None) →
  owned (do_read (ext w)) ∧
  reqs (do_read (ext w)) !! next_req (ext w) = Some (ReadIn, false) ∧
  fi_req (fin (do_read (ext w))) = Some (next_req (ext w)) ∧
  (∀ j, fo_req (fout (ext w)) = Some j → reqs (do_read (ext w)) !! j = reqs (ext w) !! j).
Proof.
  intros [O1 O2 O3] (i & E & R). split; [split|split_and!]; simpl.
  - intros j r. rewrite lookup_insert_Some. intros [[<- _]|[_ Hj]]; [by left|].
    destruct (O1 j r Hj) as [?|?]; [congruence|by right].
  - intros j [[= <-]|Hj]; [lia|]. specialize (O2 j (or_intror Hj)). lia.
  - intros j [= <-] Hj. specialize (O2 _ (or_intror Hj)). lia.
  - by rewrite lookup_insert_eq.
  - done.
  - intros j Hj. rewrite lookup_insert_ne; [done|]. specialize (O2 j (or_intror Hj)). lia.
Qed.

Lemma do_write_phase w h l : owned (ext w) → bufs w = h :: l →
  (∃ j, fo_req (fout (ext w)) = Some j ∧ reqs (ext w) !! j = None) →
  owned (do_write (ext w)) ∧
  reqs (do_write (ext w)) !! next_req (ext w) = Some (WriteOut h, false) ∧
  fo_req (fout (do_write (ext w))) = Some (next_req (ext w)) ∧
  (∀ i, fi_req (fin (ext w)) = Some i → reqs (do_write (ext w)) !! i = reqs (ext w) !! i).
Proof.
  intros [O1 O2 O3] B (j & E & R). unfold do_write. rewrite B. split; [split|split_and!]; simpl.
  - intros i r. rewrite lookup_insert_Some. intros [[<- _]|[_ Hi]]; [by right|].
    destruct (O1 i r Hi) as [?|?]; [by left|congruence].
  - intros i [Hi|[= <-]]; [specialize (O2 i (or_introl Hi)); lia|lia].
  - intros i Hi [= <-]. specialize (O2 _ (or_introl Hi)). lia.
  - by rewrite lookup_insert_eq.
  - done.
  - intros i Hi. rewrite lookup_insert_ne; [done|]. specialize (O2 i (or_introl Hi)). lia.
Qed.

(** *** The handlers on a streamer at work *)

Definition in_rest w : Prop := ∃ i, fi_req (fin (ext w)) = Some i ∧ reqs (ext w) !! i = None.
Definition out_good w : Prop := ∃ b, out_phase w b ∧ (b = false → bufs w = []).

Lemma concat_length_le (l : list bytes) : Forall (λ b, b ≠ []) l → (length l ≤ length (concat l))%nat.
Proof.
  induction 1 as [|b l Hb _ IH]; simpl; [lia|]. rewrite length_app.
  destruct b; [done|simpl; lia].
Qed.

Lemma pump_small d w : pump d w → Z.of_nat (in_pos (ext w)) < 2 ^ 62 ∧
  Z.of_nat (length (concat (bufs w))) + Z.of_nat (length d) ≤ Z.of_nat (in_pos (ext w)).
Proof.
  intros P. pose proof (p_data _ _ P) as Hd. apply (f_equal length) in Hd.
  rewrite !length_app, length_take in Hd. pose proof (p_pos _ _ P). pose proof (p_content _ _ P). lia.
Qed.

Lemma out_good_same w w' :
  fout (ext w') = fout (ext w) → reqs (ext w') = reqs (ext w) → out_good w → out_good w'.
Proof.
  intros E R (b & Ho & Hb). exists b. rewrite E. split; [|done].
  destruct Ho; [eapply out_opening|eapply out_writing|eapply out_idle]; rewrite ?E, ?R; eauto.
Qed.

Lemma handle_read_write d w : pump d w → d ≠ [] → owned (ext w) → in_rest w → out_good w →
  let x1 := with_fout (λ f, fo_set_bufs (fo_bufs f ++ [d]) (fo_bufsz f +₆₄ Z.of_nat (length d)) f) (ext w) in
  let x2 := if decide (length (fo_bufs (fout x1)) = 1%nat ∧ fo_opened (fout x1) = true) then do_write x1 else x1 in
  let w' := mkWorld (inc_read (st w)) ec_ok x2 in
  pump [] (with_st inc_read (with_ext x2 w)) ∧ owned x2 ∧ in_rest w' ∧ out_good w' ∧
  content x2 = content (ext w) ∧ finishes x2 = finishes (ext w) ∧ in_pos x2 = in_pos (ext w) ∧ fin x2 = fin (ext w) ∧
  fo_bufsz (fout x2) = bufsz w + Z.of_nat (length d).
Proof.
  intros P Hd O R G. simpl. pose proof (pump_small _ _ P) as [Hs1 Hs2].
  set (x1 := with_fout _ (ext w)). set (x2 := if decide _ then _ else _).
  pose proof (p_size _ _ P) as Hsz. pose proof (p_count _ _ P) as Hcnt. pose proof (p_nread _ _ P) as Hnr.
  pose proof (p_nwrite _ _ P) as Hnw. pose proof (concat_length_le _ (p_nonempty _ _ P)) as Hle.
  assert (0 < length d)%nat by (destruct d; [done|simpl; lia]).
  assert (wrap 64 (bufsz w + Z.of_nat (length d)) = bufsz w + Z.of_nat (length d)) as Wsz by (apply wrap_small; lia).
  assert (wrap 64 (nread (st w) + 1) = nread (st w) + 1) as Wnr by (apply wrap_small; lia).
  assert (fo_bufs (fout x2) = bufs w ++ [d] ∧ fo_bufsz (fout x2) = bufsz w + Z.of_nat (length d) ∧
    content x2 = content (ext w) ∧ finishes x2 = finishes (ext w) ∧ in_pos x2 = in_pos (ext w) ∧
    fin x2 = fin (ext w) ∧ written x2 = written (ext w) ∧ fo_opened (fout x2) = fo_opened (fout (ext w)))
    as (B2 & Z2 & C2 & F2 & I2 & N2 & O2 & Op2) by (unfold x2; by case_decide; simpl; rewrite Wsz).
  assert (owned x1) as O1 by (destruct O; by split).
  assert (owned x2 ∧ in_rest (mkWorld (inc_read (st w)) ec_ok x2) ∧ out_good (mkWorld (inc_read (st w)) ec_ok x2)) as (Ow & Rw & Gw).
  { destruct R as (i & Ei & Ri). destruct G as (bo & Ho & Hb). unfold x2. case_decide as D.
    - destruct D as [D1 D2]. simpl in D1, D2. rewrite length_app in D1.
      assert (bufs w = []) as Bw by (destruct (bufs w); [done|simpl in D1; lia]).
      destruct Ho as [j b Ej Oj _|j b h l Ej _ Bj _|j Ej _ Rj]; [congruence|congruence|].
      assert (fo_bufs (fout x1) = d :: []) as Bx by (unfold x1; simpl; by rewrite Bw).
      destruct (do_write_phase (with_ext x1 w) d [] O1 Bx) as (Oa & Ra & Ea & Ia); [by exists j|].
      split; [exact Oa|]. split.
      + exists i. split; [done|]. by rewrite Ia.
      + exists true. split; [|done]. eapply (out_writing _ (next_req x1) false d []); try done.
    - split; [done|]. split; [by exists i|]. destruct Ho as [j b Ej Oj Rj|j b h l Ej Oj Bj Rj|j Ej Oj Rj].
      + exists true. split; [|done]. by eapply (out_opening _ j b).
      + exists true. split; [|done]. eapply (out_writing _ j b h (l ++ [d])); try done. simpl. by rewrite Bj.
      + specialize (Hb eq_refl). destruct D. simpl. by rewrite Hb. }
  split; [|by split_and!]. destruct P. split; simpl; rewrite ?B2, ?Z2, ?C2, ?I2, ?N2, ?O2, ?Wnr; try done.
  - rewrite length_app. simpl. lia.
  - simpl. lia.
  - rewrite concat_app. simpl. by rewrite !app_nil_r.
  - rewrite concat_app, length_app. simpl. rewrite app_nil_r. lia.
  - apply Forall_app. split; [done|by constructor].
  - intros He. destruct (p_eof0 He) as [? _]. split; [done|]. by destruct (bufs w).
  - intros Hi. specialize (p_paused0 Hi). lia.
  - intros Hm. specialize (p_bound0 Hm). simpl. lia.
Qed.

Lemma handle_read_runs d w k : pump d w → d ≠ [] → owned (ext w) → in_rest w → out_good w →
  ∃ w', steps prog (conf (CApi (HandleRead d ec_ok) :: k) w) (conf k w') ∧
    pump [] w' ∧ owned (ext w') ∧ in_rest w' ∧ out_good w' ∧
    content (ext w') = content (ext w) ∧ finishes (ext w') = finishes (ext w) ∧ in_pos (ext w') = in_pos (ext w) ∧
    fi_chunk (fin (ext w')) = fi_chunk (fin (ext w)) ∧ max_buf (st w') = max_buf (st w) ∧
    (inread (st w') = true → 0 < max_buf (st w') → bufsz w' < max_buf (st w')).
Proof.
  intros P Hd O R G. destruct (handle_read_write d w P Hd O R G) as (P1 & O1 & R1 & G1 & C1 & F1 & I1 & N1 & Z1).
  set (x2 := if decide _ then _ else _) in *.
  set (w1 := mkWorld (inc_read (st w)) ec_ok x2).
  assert (steps prog (conf (CApi (HandleRead d ec_ok) :: k) w) (conf (ReadWritten :: k) w1)) as S1.
  { eapply steps_cons; [unfold step; simpl; rewrite ec_bool_ok; reflexivity|]. simpl.
    eapply steps_trans; [apply (code_steps (FoWrite d) _ (with_st inc_read w) x2 [inl (Return ec_ok)]); reflexivity|].
    simpl. apply steps_once. reflexivity. }
  assert (pump [] w1) as Pw by (destruct P1; by split).
  destruct (negb (max_buf (st w1) =? 0) && (max_buf (st w1) <=? bufsz w1)) eqn:T.
  - set (w2 := with_st (set_inread false) (with_ext (with_fin (fi_set_pause true) x2) w1)).
    exists w2. split.
    + eapply steps_trans; [exact S1|].
      eapply steps_cons; [unfold step; simpl; rewrite ec_bool_ok; unfold queue_size; simpl; simpl in T; rewrite T; reflexivity|].
      simpl. eapply steps_trans; [by apply (code_steps FiStopReading (ReadPaused :: k) w1 (with_fin (fi_set_pause true) x2) [])|].
      apply steps_once. reflexivity.
    + apply andb_prop in T as [T1 T2]. apply negb_true_iff, Z.eqb_neq in T1. apply Z.leb_le in T2.
      split_and!; try done.
      * pose proof (p_max _ _ Pw) as Hmax. pose proof (p_thr _ _ Pw) as Ht. destruct Pw. split; simpl; try done.
        intros _. simpl in *. rewrite Ht. apply Z.div_lt_upper_bound; lia.
      * destruct O1. by split.
      * by apply (out_good_same w1 w2).
      * change (fi_chunk (fin x2) = fi_chunk (fin (ext w))). by rewrite N1.
  - exists w1. split; [|split_and!; try done].
    + eapply steps_trans; [exact S1|]. apply steps_once. unfold step. simpl. rewrite ec_bool_ok.
      unfold queue_size. simpl. simpl in T. by rewrite T.
    + change (fi_chunk (fin x2) = fi_chunk (fin (ext w))). by rewrite N1.
    + intros _ Hm. simpl in Hm, T. apply andb_false_iff in T as [T|T].
      * apply negb_false_iff, Z.eqb_eq in T. lia.
      * apply Z.leb_gt in T. exact T.
Qed.

Lemma rest_kinds w : owned (ext w) → in_rest w → out_good w → kinds (ext w).
Proof.
  intros O (i & E & R) (b & Ho & _). eapply (owned_kinds w false b); [done| |done]. by eapply in_idle.
Qed.

(** Reporting the end from a handler that nothing follows. *)
Lemma finish_over w0 w e : kinds (ext w) → started (st w) = true → content (ext w) = content (ext w0) →
  finishes (ext w) = finishes (ext w0) → (ec_bool e = false → written (ext w) = content (ext w)) →
  ∀ k, ∃ w', steps prog (conf (Finish e :: k) w) (conf k w') ∧ over w0 w'.
Proof.
  intros K S C F He k. destruct (finish_steps w e k K) as (w' & S1 & _ & H1). exists w'. split; [done|].
  by apply (finished_over e w0 w w' (H1 S)).
Qed.

Lemma pump_all w : pump [] w → in_pos (ext w) = length (content (ext w)) → bufs w = [] →
  written (ext w) = content (ext w).
Proof.
  intros P E B. pose proof (p_data _ _ P) as D. rewrite B, E, firstn_all in D. simpl in D. by rewrite app_nil_r in D.
Qed.

Lemma handle_eof_runs w0 w : pump [] w → owned (ext w) → in_rest w → out_good w →
  in_pos (ext w) = length (content (ext w)) →
  content (ext w) = content (ext w0) → finishes (ext w) = finishes (ext w0) →
  max_buf (st w) = max_buf (st w0) → fi_chunk (fin (ext w)) = fi_chunk (fin (ext w0)) →
  ∃ w', steps prog (conf [CApi HandleEof] w) (conf [] w') ∧ turned w0 w'.
Proof.
  intros P O R G E C F M1 M2. pose proof (p_count _ _ P) as Hc.
  destruct (nwrite (st w) =? nread (st w)) eqn:T.
  - apply Z.eqb_eq in T. assert (bufs w = []) as B by (destruct (bufs w); [done|simpl in Hc; lia]).
    destruct (finish_over w0 w ec_ok (rest_kinds w O R G) (p_started _ _ P) C F (λ _, pump_all w P E B) []) as (w' & S1 & Ov).
    exists w'. split; [|by right]. eapply steps_cons; [|exact S1]. unfold step. simpl. by rewrite (proj2 (Z.eqb_eq _ _) T).
  - exists (with_st (set_eof true) w). split; [apply steps_once; unfold step; simpl; by rewrite T|].
    left. split; [|done]. apply Z.eqb_neq in T. split.
    + destruct P. split; simpl; try done. intros _. split; [done|]. destruct (bufs w); [simpl in *; lia|done].
    + exists false. destruct R as (i & Ei & Ri). split; [by eapply in_idle|]. by left.
    + by apply (out_good_same w).
    + done.
Qed.

Lemma read_next_runs w0 w : pump [] w → owned (ext w) → in_rest w → out_good w →
  (inread (st w) = true → 0 < max_buf (st w) → bufsz w < max_buf (st w)) →
  content (ext w) = content (ext w0) → finishes (ext w) = finishes (ext w0) →
  max_buf (st w) = max_buf (st w0) → fi_chunk (fin (ext w)) = fi_chunk (fin (ext w0)) →
  ∃ w', steps prog (conf [CCode FiReadNext] w) (conf [] w') ∧ turned w0 w'.
Proof.
  intros P O R G Hb C F M1 M2. set (x' := if fi_pause (fin (ext w)) then ext w else do_read (ext w)).
  exists (with_ext x' w). split; [by apply (code_steps FiReadNext [] w x' [])|]. left.
  pose proof (p_pause _ _ P) as Hp. unfold x'. destruct (inread (st w)) eqn:I; rewrite Hp; simpl.
  - destruct (do_read_phase w O R) as (O' & R1 & E1 & K1). split; [|done]. split.
    + destruct P. by split.
    + exists true. split; [|done]. eapply in_reading; [exact E1|exact R1|]. intros Hm. by apply Hb.
    + destruct G as (b & Ho & Hb'). exists b. split; [|done].
      destruct Ho; [eapply out_opening|eapply out_writing|eapply out_idle]; eauto; by rewrite K1.
    + done.
  - rewrite with_sext_id. split; [|done]. split; [done| |done|done].
    exists false. destruct R as (i & Ei & Ri). split; [by eapply in_idle|]. by right.
Qed.

(** What is left when the request of an object is over. *)
Lemma owned_delete i w : owned (ext w) → owned (with_reqs (delete i) (ext w)).
Proof. intros [O1 O2 O3]. split; [|done|done]. intros j r. simpl. rewrite lookup_delete_Some. intros [_ ?]. by eapply O1. Qed.

Lemma delete_in w i x' : owned (ext w) → fi_req (fin (ext w)) = Some i → out_good w →
  fin x' = fin (ext w) → fout x' = fout (ext w) → reqs x' = delete i (reqs (ext w)) →
  in_rest (with_ext x' w) ∧ out_good (with_ext x' w).
Proof.
  intros O E (b & Ho & Hb) N T R. split.
  - exists i. simpl. rewrite N, R, lookup_delete_eq. done.
  - exists b. simpl. rewrite T. split; [|done].
    assert (∀ j, fo_req (fout (ext w)) = Some j → reqs x' !! j = reqs (ext w) !! j) as K.
    { intros j Ej. rewrite R, lookup_delete_ne; [done|]. intros <-. by eapply (o_diff _ O). }
    destruct Ho; [eapply out_opening|eapply out_writing|eapply out_idle]; simpl; rewrite ?T, ?K; eauto.
Qed.

Lemma read_done w i b x' u :
  pumping w → reqs (ext w) !! i = Some (ReadIn, b) →
  perform ReadIn ReadDone (with_reqs (delete i) (ext w)) = Some (x', u) →
  ∃ w', steps prog (conf [CCode u] (with_ext x' w)) (conf [] w') ∧ turned w w'.
Proof.
  intros [P Gi Go O] Hr Hp. simpl in Hp. injection Hp as <- <-.
  set (data := take _ _). set (x' := mkFiles _ _ _ _ _ _ _ _ _ _ _).
  assert (fi_req (fin (ext w)) = Some i ∧ (0 < max_buf (st w) → bufsz w < max_buf (st w))) as [Ei Hbd].
  { destruct Gi as (bi & Hi & _), Go as (bo & Ho & _).
    destruct (o_owner _ O i _ Hr) as [Ei|Ej].
    - split; [done|]. destruct Hi as [i' b' E' R' _|i' b' E' R' Hb|i' E' R']; simplify_eq. done.
    - destruct Ho; simplify_eq. }
  destruct (delete_in w i x' O Ei Go) as [R1 G1]; [done..|]. set (w1 := with_ext x' w) in *.
  pose proof (p_pos _ _ P) as Hpos. pose proof (p_chunk _ _ P) as Hch.
  assert (length data = min (fi_chunk (fin (ext w))) (length (content (ext w)) - in_pos (ext w))) as Ld.
  { unfold data. by rewrite length_take, length_drop. }
  assert (owned x') as O1 by (destruct (owned_delete i w O); by split).
  assert (pump data w1) as P1.
  { destruct P. split; simpl; try done.
    - lia.
    - lia.
    - simpl in p_data0. rewrite app_nil_r in p_data0. rewrite app_assoc, p_data0.
      rewrite <-take_take_drop. f_equal. unfold data. rewrite length_take.
      by rewrite <-take_take, firstn_all.
    - intros He. destruct (p_eof0 He). split; [lia|done].
    - intros Hm. specialize (Hbd Hm). simpl in *. lia. }
  assert (steps prog (conf [CCode (FiReadCb data ec_ok)] w1)
    (conf ((if decide (data = []) then [] else [CApi (HandleRead data ec_ok)]) ++
      [if decide (length data < fi_chunk (fin (ext w)))%nat then CApi HandleEof else CCode FiReadNext]) w1)) as S1.
  { apply steps_once. unfold step. simpl. rewrite ec_bool_ok. simpl. 
    by repeat case_decide. }
  assert (∃ w2, steps prog (conf ((if decide (data = []) then [] else [CApi (HandleRead data ec_ok)]) ++
      [if decide (length data < fi_chunk (fin (ext w)))%nat then CApi HandleEof else CCode FiReadNext]) w1)
      (conf [if decide (length data < fi_chunk (fin (ext w)))%nat then CApi HandleEof else CCode FiReadNext] w2) ∧
    pump [] w2 ∧ owned (ext w2) ∧ in_rest w2 ∧ out_good w2 ∧
    content (ext w2) = content (ext w) ∧ finishes (ext w2) = finishes (ext w) ∧
    in_pos (ext w2) = (in_pos (ext w) + length data)%nat ∧ fi_chunk (fin (ext w2)) = fi_chunk (fin (ext w)) ∧
    max_buf (st w2) = max_buf (st w) ∧
    (data ≠ [] → inread (st w2) = true → 0 < max_buf (st w2) → bufsz w2 < max_buf (st w2)))
    as (w2 & S2 & P2 & O2 & R2 & G2 & C2 & F2 & I2 & M1 & M2 & B2).
  { case_decide as D.
    - exists w1. split; [apply steps_refl|]. rewrite D in P1. by split_and!.
    - destruct (handle_read_runs data w1 [if decide (length data < fi_chunk (fin (ext w)))%nat then CApi HandleEof else CCode FiReadNext] P1 D O1 R1 G1)
        as (w2 & S2 & P2 & O2 & R2 & G2 & C2 & F2 & I2 & M1 & M2 & B2). exists w2. by split_and!. }
  destruct (decide (length data < fi_chunk (fin (ext w)))%nat) as [D|D].
  - destruct (handle_eof_runs w w2 P2 O2 R2 G2) as (w3 & S3 & T3); [rewrite I2, C2; lia|done..|].
    exists w3. split; [|done]. eapply steps_trans; [exact S1|]. by eapply steps_trans.
  - destruct (read_next_runs w w2 P2 O2 R2 G2) as (w3 & S3 & T3); [|done..|].
    + apply B2. intros E. rewrite E in D. simpl in D. lia.
    + exists w3. split; [|done]. eapply steps_trans; [exact S1|]. by eapply steps_trans.
Qed.

Definition in_good w : Prop := ∃ b, in_phase w b ∧ (b = false → eof (st w) = true ∨ inread (st w) = false).
Definition out_rest w : Prop :=
  ∃ j, fo_req (fout (ext w)) = Some j ∧ reqs (ext w) !! j = None ∧ fo_opened (fout (ext w)) = true.

Lemma in_good_keep w w' :
  fi_req (fin (ext w')) = fi_req (fin (ext w)) → in_pos (ext w') = in_pos (ext w) → max_buf (st w') = max_buf (st w) →
  bufsz w' ≤ bufsz w → (eof (st w) = true → eof (st w') = true) → (inread (st w) = false → inread (st w') = false) →
  (∀ i, fi_req (fin (ext w)) = Some i → reqs (ext w') !! i = reqs (ext w) !! i) →
  in_good w → in_good w'.
Proof.
  intros E I M Z He Hi K (b & Hp & Hb). exists b. split.
  - destruct Hp as [i b Ei Ri Pi|i b Ei Ri Bi|i Ei Ri].
    + eapply (in_opening w' i b); [congruence|rewrite K; done|congruence].
    + eapply (in_reading w' i b); [congruence|rewrite K; done|]. rewrite M. intros Hm. specialize (Bi Hm). lia.
    + eapply (in_idle w' i); [congruence|rewrite K; done].
  - intros Eb. destruct (Hb Eb); auto.
Qed.

Lemma write_next_runs w0 w : pump [] w → in_good w → owned (ext w) → out_rest w →
  content (ext w) = content (ext w0) → finishes (ext w) = finishes (ext w0) →
  max_buf (st w) = max_buf (st w0) → fi_chunk (fin (ext w)) = fi_chunk (fin (ext w0)) →
  ∃ w', steps prog (conf [CCode FoWriteNext] w) (conf [] w') ∧ turned w0 w'.
Proof.
  intros P G O (j & Ej & Rj & Oj) C F M1 M2.
  set (x' := match fo_bufs (fout (ext w)) with [] => ext w | _ => do_write (ext w) end).
  exists (with_ext x' w). split; [by apply (code_steps FoWriteNext [] w x' [])|]. left.
  unfold x'. destruct (fo_bufs (fout (ext w))) as [|h l] eqn:B.
  - rewrite with_sext_id. split; [|done]. split; [done|done| |done]. exists false. split; [by eapply out_idle|done].
  - destruct (do_write_phase w h l O B) as (O' & R1 & E1 & K1); [by exists j|].
    assert (fo_bufs (fout (do_write (ext w))) = h :: l ∧ bufsz w = fo_bufsz (fout (do_write (ext w)))) as [B' Z'] by done.
    split; [|done]. split.
    + destruct P. by split.
    + apply (in_good_keep w); try done.
    + exists true. split; [|done]. by eapply out_writing.
    + done.
Qed.

Lemma start_reading_runs w k (P : pump [] w) (O : owned (ext w)) (R : out_rest w) (b : bool) (Hp : in_phase w b) :
  bufsz w ≤ thr_buf (st w) → inread (st w) = true →
  ∃ x', (match active_req (fi_req (fin (ext w))) (ext w) with Some _ => ext w | None => do_read (ext w) end) = x' ∧
    pump [] (with_ext x' w) ∧ in_good (with_ext x' w) ∧ owned x' ∧ out_rest (with_ext x' w) ∧
    content x' = content (ext w) ∧ finishes x' = finishes (ext w) ∧ fi_chunk (fin x') = fi_chunk (fin (ext w)).
Proof.
  intros Hthr Hin. eexists. split; [done|].
  destruct Hp as [i b Ei Ri Pi|i b Ei Ri Bi|i Ei Ri]; unfold active_req; rewrite Ei; simpl; rewrite Ri; simpl.
  - rewrite with_sext_id. split_and!; try done. exists true. split; [by eapply in_opening|done].
  - rewrite with_sext_id. split_and!; try done. exists true. split; [by eapply in_reading|done].
  - destruct (do_read_phase w O) as (O' & R1 & E1 & K1); [by exists i|].
    assert (0 < max_buf (st w) → bufsz w < max_buf (st w)) as Hb.
    { intros Hm. pose proof (p_thr _ _ P) as Ht.
      assert (max_buf (st w) * 2 / 3 < max_buf (st w)) by (apply Z.div_lt_upper_bound; lia). lia. }
    split_and!; try done.
    + destruct P. by split.
    + exists true. split; [|done]. eapply in_reading; [exact E1|exact R1|exact Hb].
    + destruct R as (j & Ej & Rj & Oj). exists j. split_and!; try done. simpl in K1 |- *. by rewrite K1.
Qed.

Lemma write_done w j h b n x' u :
  pumping w → reqs (ext w) !! j = Some (WriteOut h, b) →
  perform (WriteOut h) (Wrote n) (with_reqs (delete j) (ext w)) = Some (x', u) →
  ∃ w', steps prog (conf [CCode u] (with_ext x' w)) (conf [] w') ∧ turned w w'.
Proof.
  intros [P Gi Go O] Hr Hp. simpl in Hp. injection Hp as <- <-. set (x' := mkFiles _ _ _ _ _ _ _ _ _ _ _).
  assert (fo_req (fout (ext w)) = Some j ∧ fo_opened (fout (ext w)) = true ∧ ∃ l, bufs w = h :: l) as (Ej & Oj & l & Bl).
  { destruct Gi as (bi & Hi & _), Go as (bo & Ho & _). destruct (o_owner _ O j _ Hr) as [E|E].
    - destruct Hi; simplify_eq.
    - destruct Ho as [j' b' E' O' R'|j' b' h' l E' O' B' R'|j' E' O' R']; simplify_eq. eauto. }
  set (sz := bufsz w -₆₄ Z.of_nat (length h)).
  set (x1 := with_fout (fo_set_bufs l sz) x'). set (w2 := with_st inc_write (with_ext x1 w)).
  pose proof (pump_small _ _ P) as [Hs1 Hs2]. pose proof (concat_length_le _ (p_nonempty _ _ P)) as Hle.
  pose proof (p_count _ _ P) as Hcnt. pose proof (p_nread _ _ P) as Hnr. pose proof (p_nwrite _ _ P) as Hnw.
  pose proof (p_size _ _ P) as Hsz. rewrite Bl in Hs2, Hle, Hcnt, Hsz. simpl in Hs2, Hle, Hcnt, Hsz, Hnr.
  rewrite length_app in Hs2, Hle, Hsz.
  assert (sz = Z.of_nat (length (concat l))) as Esz by (unfold sz; rewrite wrap_small; lia).
  assert (wrap 64 (nwrite (st w) + 1) = nwrite (st w) + 1) as Wnw by (apply wrap_small; lia).
  assert (owned x1) as O1 by (destruct (owned_delete j w O); by split).
  assert (out_rest w2) as R2 by (exists j; simpl; by rewrite lookup_delete_eq).
  assert (∀ s', nread s' = nread (st w) → nwrite s' = nwrite (st w) + 1 → max_buf s' = max_buf (st w) →
    thr_buf s' = thr_buf (st w) → started s' = true → eof s' = eof (st w) → (eof (st w) = true → l ≠ []) →
    ∀ x2, fout x2 = fout x1 → fi_chunk (fin x2) = fi_chunk (fin (ext w)) → content x2 = content (ext w) →
    in_pos x2 = in_pos (ext w) → written x2 = written (ext w) ++ h →
    fi_pause (fin x2) = negb (inread s') → (inread s' = false → thr_buf (st w) < sz) →
    ∀ rv, pump [] (mkWorld s' rv x2)) as Mk.
  { intros s' Ern Ewn Em Et Es Ee Hl x2 X1 X2 X3 X4 X5 X6 X7 rv. destruct P.
    split; simpl; rewrite ?Ern, ?Ewn, ?Em, ?Et, ?Ee, ?X1, ?X2, ?X3, ?X4, ?X5; simpl; try done; try lia.
    - rewrite Bl in p_data0. simpl in p_data0. by rewrite <-!app_assoc in *.
    - rewrite Bl in p_nonempty0. by apply Forall_cons_1 in p_nonempty0 as [_ ?].
    - intros He. destruct (p_eof0 He). split; [done|by apply Hl]. }
  assert (steps prog (conf [CCode (FoWriteCb ec_ok)] (with_ext x' w)) (conf [CApi (HandleWrite ec_ok); CCode FoWriteNext] (with_ext x1 w))) as S1.
  { apply (code_steps (FoWriteCb ec_ok) [] (with_ext x' w) x1 [inl (HandleWrite ec_ok); inr FoWriteNext]). simpl.
    by rewrite Bl. }
  destruct (eof (st w2) && (nwrite (st w2) =? nread (st w2))) eqn:T1.
  { (* everything is written *)
    apply andb_prop in T1 as [T1 T2]. simpl in T1, T2. rewrite Wnw in T2. apply Z.eqb_eq in T2 as T2'.
    destruct (p_eof _ _ P T1) as [Epos _]. assert (l = []) as El by (destruct l; [done|simpl in *; lia]).
    assert (kinds (ext w2)) as K2.
    { destruct O1 as [A1 A2 A3]. split_and!; [| |exact A3].
      - intros i r c A. destruct Gi as (bi & Hi & _). unfold active_req in A. simpl in A.
        destruct Hi as [i' b' E' R' _|i' b' E' R' _|i' E' R']; rewrite E' in A; simpl in A;
          (destruct (decide (j = i')) as [->|]; [rewrite lookup_delete_eq in A; done|rewrite lookup_delete_ne, R' in A by done]);
          simplify_eq/=; auto.
      - intros i r c A. unfold active_req in A. simpl in A. rewrite Ej in A. simpl in A. by rewrite lookup_delete_eq in A. }
    assert (ec_bool (EC:=EC) ec_ok = false → written (ext w2) = content (ext w2)) as He.
    { intros _. simpl. pose proof (p_data _ _ P) as Hd. rewrite Bl, El in Hd. simpl in Hd.
      rewrite !app_nil_r, Epos, firstn_all in Hd. done. }
    destruct (finish_over w w2 ec_ok K2 (p_started _ _ P) eq_refl eq_refl He [CCode FoWriteNext]) as (w3 & S3 & Ov).
    destruct (over_write_next w w3 Ov) as (w4 & S4 & Ov4). exists w4. split; [|by right].
    eapply steps_trans; [exact S1|]. eapply steps_cons; [|eapply steps_trans; [exact S3|exact S4]].
    unfold step. simpl. rewrite ec_bool_ok. simpl in T1. by rewrite T1, Wnw, T2. }
  assert (eof (st w) = true → l ≠ []) as Hl.
  { intros He El. simpl in T1. rewrite He, Wnw in T1. simpl in T1. apply Z.eqb_neq in T1. rewrite El in Hcnt. simpl in Hcnt. lia. }
  assert (∀ x2 : files EC, reqs x2 = reqs x1 → ∀ i, fi_req (fin (ext w)) = Some i → reqs x2 !! i = reqs (ext w) !! i) as Kin.
  { intros x2 -> i Ei. simpl. rewrite lookup_delete_ne; [done|]. intros <-. by apply (o_diff _ O j). }
  destruct (negb (inread (st w2)) && (bufsz w2 <=? thr_buf (st w2))) eqn:T2.
  - (* the input goes on *)
    apply andb_prop in T2 as [T2 T3]. simpl in T2, T3. apply Z.leb_le in T3.
    set (x3 := with_fin (fi_set_pause false) x1). set (w3 := mkWorld (set_inread true (inc_write (st w))) ec_ok x3).
    assert (pump [] w3) as P3 by (apply Mk; simpl; try done; try exact Wnw; apply P).
    assert (owned x3) as O3 by (destruct O1; by split).
    assert (out_rest w3) as R3 by (destruct R2 as (j' & ?); by exists j').
    destruct Gi as (bi & Hi & _).
    assert (in_phase w3 bi) as Hi3.
    { destruct Hi as [i b' Ei Ri Pi|i b' Ei Ri Bi|i Ei Ri].
      - eapply (in_opening w3 i b'); [done|by rewrite (Kin x3)|done].
      - eapply (in_reading w3 i b'); [done|by rewrite (Kin x3)|]. intros Hm. specialize (Bi Hm). simpl. lia.
      - eapply (in_idle w3 i); [done|by rewrite (Kin x3)]. }
    destruct (start_reading_runs w3 [] P3 O3 R3 bi Hi3) as (x4 & E4 & P4 & G4 & O4 & R4 & C4 & F4 & M4); [done|done|].
    destruct (write_next_runs w (with_ext x4 w3) P4 G4 O4 R4 C4 F4 eq_refl M4) as (w5 & S5 & T5).
    exists w5. split; [|done]. eapply steps_trans; [exact S1|].
    eapply steps_cons; [unfold step; simpl; rewrite ec_bool_ok; simpl in T1, T2; rewrite T1; unfold queue_size; simpl;
      rewrite T2, (proj2 (Z.leb_le _ _) T3); reflexivity|]. simpl.
    eapply steps_trans.
    { apply (code_steps FiStartReading (WriteResumed :: [CCode FoWriteNext]) w2 x4 [inl (Return ec_ok)]).
      simpl in E4 |- *. rewrite <-E4.
      destruct Hi as [i b' Ei Ri Pi|i b' Ei Ri Bi|i Ei Ri]; by rewrite Ei. }
    simpl. eapply steps_cons; [reflexivity|]. simpl.
    eapply steps_cons; [unfold step; simpl; rewrite ec_bool_ok; reflexivity|]. simpl. exact S5.
  - (* nothing else to do *)
    simpl in T2. set (w3 := mkWorld (inc_write (st w)) (retv w) x1).
    assert (pump [] w3) as P3.
    { apply Mk; simpl; try done; try exact Wnw; try apply P.
      intros Hi. rewrite Hi in T2. simpl in T2. by apply Z.leb_gt in T2. }
    assert (in_good w3) as G3.
    { apply (in_good_keep w); try done; [simpl; lia|]. by apply (Kin x1). }
    destruct (write_next_runs w w3 P3 G3 O1 R2 eq_refl eq_refl eq_refl eq_refl) as (w5 & S5 & T5).
    exists w5. split; [|done]. eapply steps_trans; [exact S1|].
    eapply steps_cons; [unfold step; simpl; rewrite ec_bool_ok; simpl in T1; rewrite T1; unfold queue_size; simpl;
      rewrite T2; reflexivity|]. simpl. exact S5.
Qed.

(** *** The other turns *)

Lemma open_in_done w i b fd x' u :
  pumping w → reqs (ext w) !! i = Some (OpenIn, b) →
  perform OpenIn (Opened fd) (with_reqs (delete i) (ext w)) = Some (x', u) →
  ∃ w', steps prog (conf [CCode u] (with_ext x' w)) (conf [] w') ∧ turned w w'.
Proof.
  intros [P Gi Go O] Hr Hp. simpl in Hp. injection Hp as <- <-.
  assert (fi_req (fin (ext w)) = Some i ∧ in_pos (ext w) = 0%nat) as [Ei Hpos].
  { destruct Gi as (bi & Hi & _), Go as (bo & Ho & _). destruct (o_owner _ O i _ Hr) as [E|E].
    - split; [done|]. destruct Hi; simplify_eq; done.
    - destruct Ho; simplify_eq. }
  set (x1 := with_fin (fi_set_open fd true) (with_reqs (delete i) (ext w))). set (w1 := with_ext x1 w).
  destruct (delete_in w i (with_reqs (delete i) (ext w)) O Ei Go) as [(i' & E1 & R1) G1]; [done..|].
  assert (owned x1) as O1 by (destruct (owned_delete i w O); by split).
  destruct (do_read_phase w1 O1) as (O2 & R2 & E2 & K2); [by exists i'|].
  exists (with_ext (do_read x1) w). split.
  { apply (code_steps (FiOpenCb fd ec_ok) [] (with_ext (with_reqs (delete i) (ext w)) w) (do_read x1) []). simpl. by rewrite ec_bool_ok. }
  left. split; [|done]. split.
  - destruct P. by split.
  - exists true. split; [|done]. eapply in_reading; [exact E2|exact R2|]. intros Hm. simpl.
    pose proof (p_size _ _ P) as Hsz. pose proof (pump_small _ _ P) as [_ Hs]. simpl in *. lia.
  - destruct G1 as (bo & Ho & Hb). exists bo. split; [|done].
    destruct Ho; [eapply out_opening|eapply out_writing|eapply out_idle]; eauto; by rewrite K2.
  - done.
Qed.

Lemma open_out_done w j b fd x' u :
  pumping w → reqs (ext w) !! j = Some (OpenOut, b) →
  perform OpenOut (Opened fd) (with_reqs (delete j) (ext w)) = Some (x', u) →
  ∃ w', steps prog (conf [CCode u] (with_ext x' w)) (conf [] w') ∧ turned w w'.
Proof.
  intros [P Gi Go O] Hr Hp. simpl in Hp. injection Hp as <- <-.
  assert (fo_req (fout (ext w)) = Some j) as Ej.
  { destruct Gi as (bi & Hi & _). destruct (o_owner _ O j _ Hr) as [E|E]; [|done]. destruct Hi; simplify_eq. }
  set (x1 := with_fout (fo_set_open fd true) (with_reqs (delete j) (ext w))). set (w1 := with_ext x1 w).
  assert (owned x1) as O1 by (destruct (owned_delete j w O); by split).
  assert (pump [] w1) as P1 by (destruct P; by split).
  assert (in_good w1) as G1.
  { apply (in_good_keep w); try done. intros i Ei. simpl. rewrite lookup_delete_ne; [done|].
    intros <-. by apply (o_diff _ O j). }
  assert (out_rest w1) as R1 by (exists j; simpl; by rewrite lookup_delete_eq).
  destruct (write_next_runs w w1 P1 G1 O1 R1 eq_refl eq_refl eq_refl eq_refl) as (w2 & S2 & T2).
  exists w2. split; [|done]. set (x2 := match fo_bufs (fout x1) with [] => x1 | _ => do_write x1 end).
  assert (steps prog (conf [CCode FoWriteNext] w1) (conf [] (with_ext x2 w1))) as S2'
    by by apply (code_steps FoWriteNext [] w1 x2 []).
  apply (steps_det _ _ _ _ S2') in S2; [|by left]. apply steps_end in S2 as [-> _].
  apply (code_steps (FoOpenCb fd ec_ok) [] (with_ext (with_reqs (delete j) (ext w)) w) x2 []). simpl. by rewrite ec_bool_ok.
Qed.

Lemma fails_runs w i r b (er : error_code) :
  pumping w → reqs (ext w) !! i = Some (r, b) →
  ∃ w', steps prog (conf [CCode (callback r 0 [] (ec_of er))] (with_ext (with_reqs (delete i) (ext w)) w)) (conf [] w') ∧
    over w w'.
Proof.
  intros [P Gi Go O] Hr. set (x1 := with_reqs (delete i) (ext w)). set (w1 := with_ext x1 w).
  assert (kinds (ext w)) as K by (destruct Gi as (bi & Hi & _), Go as (bo & Ho & _); by eapply owned_kinds).
  pose proof (kinds_delete i _ K) as K1.
  assert (∀ w2 c k, kinds (ext w2) → started (st w2) = true → content (ext w2) = content (ext w) →
    finishes (ext w2) = finishes (ext w) →
    ∃ w', steps prog (conf (Finish (nest_error c (ec_of er)) :: k) w2) (conf k w') ∧ over w w') as Fin.
  { intros w2 c k K2 S2 C2 F2. apply (finish_over w w2); try done. by rewrite ec_bool_nest, ec_bool_of. }
  destruct r as [| | |h]; simpl.
  - destruct (Fin w1 (StreamerErr read_error) [] K1 (p_started _ _ P) eq_refl eq_refl) as (w2 & S2 & Ov).
    exists w2. split; [|done].
    eapply steps_trans; [apply (code_steps_same (FiOpenCb 0 (ec_of er)) [] w1 [inl (HandleRead [] (ec_of er))]); simpl; by rewrite ec_bool_of|].
    eapply steps_cons; [|exact S2]. unfold step. simpl. by rewrite ec_bool_of.
  - destruct (Fin w1 (StreamerErr read_error) [] K1 (p_started _ _ P) eq_refl eq_refl) as (w2 & S2 & Ov).
    exists w2. split; [|done].
    eapply steps_trans; [apply (code_steps_same (FiReadCb [] (ec_of er)) [] w1 [inl (HandleRead [] (ec_of er))]); simpl; by rewrite ec_bool_of|].
    eapply steps_cons; [|exact S2]. unfold step. simpl. by rewrite ec_bool_of.
  - destruct (Fin w1 (StreamerErr write_error) [] K1 (p_started _ _ P) eq_refl eq_refl) as (w2 & S2 & Ov).
    exists w2. split; [|done].
    eapply steps_trans; [apply (code_steps_same (FoOpenCb 0 (ec_of er)) [] w1 [inl (HandleWrite (ec_of er))]); simpl; by rewrite ec_bool_of|].
    eapply steps_cons; [|exact S2]. unfold step. simpl. by rewrite ec_bool_of.
  - assert (fo_req (fout (ext w)) = Some i ∧ ∃ l, bufs w = h :: l) as (Ej & l & Bl).
    { destruct Gi as (bi & Hi & _), Go as (bo & Ho & _). destruct (o_owner _ O i _ Hr) as [E|E].
      - destruct Hi; simplify_eq.
      - split; [done|]. destruct Ho as [j' b' E' O' R'|j' b' h' l E' O' B' R'|j' E' O' R']; simplify_eq. eauto. }
    set (x2 := with_fout (fo_set_bufs l (bufsz w -₆₄ Z.of_nat (length h))) x1). set (w2 := with_ext x2 w1).
    assert (kinds x2) as K2.
    { destruct K1 as (Ka & _ & Kc). split_and!; [exact Ka| |exact Kc]. intros j' q c A.
      change (active_req (fo_req (fout x2)) x2)
        with (active_req (fo_req (fout (ext w))) (with_reqs (delete i) (ext w))) in A.
      by rewrite active_req_delete, decide_True in A. }
    destruct (Fin w2 (StreamerErr write_error) [CCode FoWriteNext] K2 (p_started _ _ P) eq_refl eq_refl) as (w3 & S3 & Ov).
    destruct (over_write_next w w3 Ov) as (w4 & S4 & Ov4). exists w4. split; [|done].
    eapply steps_trans; [apply (code_steps (FoWriteCb (ec_of er)) [] w1 x2 [inl (HandleWrite (ec_of er)); inr FoWriteNext]);
      simpl; by rewrite Bl|].
    eapply steps_cons; [|eapply steps_trans; [exact S3|exact S4]]. unfold step. simpl. by rewrite ec_bool_of.
Qed.

Lemma take_request w i r : pumping w → reqs (ext w) !! i = Some (r, false) →
  pumping (with_ext (with_reqs (<[i := (r, true)]>) (ext w)) w).
Proof.
  intros [P (bi & Hi & Hbi) (bo & Ho & Hbo) O] Hr.
  assert (∀ j q b, reqs (ext w) !! j = Some (q, b) → ∃ b', <[i := (r, true)]> (reqs (ext w)) !! j = Some (q, b')) as K.
  { intros j q b Hj. destruct (decide (i = j)) as [<-|]; [rewrite lookup_insert_eq; simplify_eq; eauto|].
    rewrite lookup_insert_ne by done. eauto. }
  assert (∀ j, reqs (ext w) !! j = None → <[i := (r, true)]> (reqs (ext w)) !! j = None) as KN.
  { intros j Hj. rewrite lookup_insert_ne; [done|congruence]. }
  split.
  - destruct P. by split.
  - exists bi. split; [|done]. destruct Hi as [j b E R Q|j b E R Q|j E R].
    + destruct (K _ _ _ R) as [b' ?]. by eapply (in_opening _ j b').
    + destruct (K _ _ _ R) as [b' ?]. by eapply (in_reading _ j b').
    + eapply (in_idle _ j); [done|by apply KN].
  - exists bo. split; [|done]. destruct Ho as [j b E Q R|j b h l E Q B R|j E Q R].
    + destruct (K _ _ _ R) as [b' ?]. by eapply (out_opening _ j b').
    + destruct (K _ _ _ R) as [b' ?]. by eapply (out_writing _ j b' h l).
    + eapply (out_idle _ j); [done|done|by apply KN].
  - destruct O as [O1 O2 O3]. split; [|done|done]. intros j q. simpl.
    rewrite lookup_insert_Some. intros [[<- _]|[_ Hj]]; by eapply O1.
Qed.

(** A turn of the loop: an input, and the run of what it calls. *)
Definition turn w w' : Prop :=
  ∃ cs w1, file_input_step w cs w1 ∧ steps prog (conf cs w1) (conf [] w').

Lemma turn_runs w cs w1 : pumping w → file_input_step w cs w1 →
  ∃ w', steps prog (conf cs w1) (conf [] w') ∧ turned w w'.
Proof.
  intros G Hin. destruct Hin as [w i r Hr|w i r b a x' u Hr Hp|w].
  - eexists. split; [apply steps_refl|]. left. split; [by apply take_request|done].
  - destruct r, a; simpl in Hp; try discriminate Hp; try (injection Hp as <- <-; edestruct fails_runs as (w' & S & Ov);
      [exact G|exact Hr|exists w'; split; [exact S|by right]]).
    + by eapply open_in_done.
    + by eapply read_done.
    + by eapply open_out_done.
    + by eapply write_done.
  - destruct (g_in _ G) as (bi & Hi & _), (g_out _ G) as (bo & Ho & _).
    assert (kinds (ext w)) as K by (eapply owned_kinds; eauto; apply G).
    destruct (finish_over w w (ec_of (Std operation_canceled)) K (p_started _ _ (g_pump _ G)) eq_refl eq_refl) with (k := [] : list (scall (fcode EC) EC))
      as (w' & S & Ov); [by rewrite ec_bool_of|].
    exists w'. split; [|by right]. eapply steps_cons; [reflexivity|exact S].
Qed.

Lemma turn_turned w w' : pumping w → turn w w' → turned w w'.
Proof.
  intros G (cs & w1 & Hin & S). destruct (turn_runs w cs w1 G Hin) as (w2 & S2 & T).
  apply (steps_det _ _ _ _ S2) in S; [|by left]. by apply steps_end in S as [-> _].
Qed.

(** *** Starting *)

Definition before_start (max : Z) (chunk : nat) (file : bytes) : fworld :=
  mkWorld (new_streamer max) ec_ok
    (mkFiles (mkFileInput chunk 0 None false false) (mkFileOutput 0 None false [] 0) ∅ 0 file 0 [] [] [] [] false).

Definition after_start (max : Z) (chunk : nat) (file : bytes) : fworld :=
  mkWorld (set_started true (new_streamer max)) ec_ok
    (mkFiles (mkFileInput chunk 0 (Some 0%nat) false false) (mkFileOutput 0 (Some 1%nat) false [] 0)
       (<[1%nat := (OpenOut, false)]> (<[0%nat := (OpenIn, false)]> ∅)) 2 file 0 [] [] [] [] false).

Lemma start_steps max chunk file :
  steps prog (conf [CApi Start] (before_start max chunk file)) (conf [] (after_start max chunk file)).
Proof.
  eapply steps_cons; [reflexivity|]. simpl.
  eapply steps_cons; [reflexivity|]. simpl. eapply steps_cons; [reflexivity|]. simpl.
  eapply steps_cons; [unfold step; simpl; rewrite ec_bool_ok; reflexivity|]. simpl.
  eapply steps_cons; [reflexivity|]. simpl. eapply steps_cons; [reflexivity|]. simpl.
  apply steps_once. unfold step. simpl. rewrite ec_bool_ok. reflexivity.
Qed.

Lemma pumping_start max chunk file :
  0 ≤ max < 2 ^ 62 → (0 < chunk)%nat → Z.of_nat (length file) < 2 ^ 62 → pumping (after_start max chunk file).
Proof.
  intros Hm Hc Hf. split.
  - split; simpl; try done; try lia. by rewrite wrap_small by lia.
  - exists true. split; [|done]. eapply (in_opening _ 0%nat false); [done| |done]. simpl.
    by rewrite lookup_insert_ne, lookup_insert_eq.
  - exists true. split; [|done]. eapply (out_opening _ 1%nat false); [done|done|]. simpl. by rewrite lookup_insert_eq.
  - split; simpl.
    + intros i r. rewrite !lookup_insert_Some. intros [[<- _]|[_ [[<- _]|[_ ?]]]]; [by right|by left|].
      by apply lookup_empty_Some in H0 || (simplify_map_eq).
    + intros i [[= <-]|[= <-]]; lia.
    + by intros i [= <-].
Qed.

(** What is reached from [start()] by turns of the loop while the streamer
    works; the last turn may end the work. *)
Definition works (max : Z) (chunk : nat) (file : bytes) w : Prop :=
  ∃ w0, steps prog (conf [CApi Start] (before_start max chunk file)) (conf [] w0) ∧
    rtc (λ w w', started (st w) = true ∧ turn w w') w0 w.

Lemma works_inv max chunk file w :
  0 ≤ max < 2 ^ 62 → (0 < chunk)%nat → Z.of_nat (length file) < 2 ^ 62 → works max chunk file w →
  content (ext w) = file ∧
  ((pumping w ∧ finishes (ext w) = [] ∧ max_buf (st w) = max ∧ fi_chunk (fin (ext w)) = chunk) ∨
   (started (st w) = false ∧
    (Exists (λ e, ec_bool e = false) (finishes (ext w)) → written (ext w) = file))).
Proof.
  intros Hm Hc Hf (w0 & S & R).
  apply (steps_det _ _ _ _ (start_steps max chunk file)) in S; [|by left]. apply steps_end in S as [-> _].
  assert (content (ext (after_start max chunk file)) = file ∧
    pumping (after_start max chunk file) ∧ finishes (ext (after_start max chunk file)) = [] ∧
    max_buf (st (after_start max chunk file)) = max ∧ fi_chunk (fin (ext (after_start max chunk file))) = chunk) as H0
    by (split; [done|split; [by apply pumping_start|done]]).
  revert H0 R. generalize (after_start max chunk file). intros w0 (C & G & F & M1 & M2) R.
  induction R as [w|w w1 w2 [_ T] R IH]; [split; [done|left; by split_and!]|].
  destruct (turn_turned w w1 G T) as [(G1 & C1 & F1 & M3 & M4)|(S1 & C1 & l & F1 & He)].
  - by apply IH; congruence.
  - destruct R as [|w1 w3 w2 [St _] _]; [|congruence]. split; [congruence|]. right. split; [done|].
    rewrite F1, F. simpl. intros Hx. rewrite (He Hx). congruence.
Qed.

(** The output file has what was written, unless a write was short: no code of the
    streamer touches these. *)
Definition disk (x : files EC) : bytes * bytes * bool := (written x, out_file x, short x).
Definition intact (x : files EC) : Prop := short x = false → out_file x = written x.

Lemma cancel_req_disk r (x : files EC) : disk (cancel_req r x).1 = disk x.
Proof. unfold cancel_req. by destruct (active_req r x) as [[[i k] []]|]. Qed.

Lemma file_code_disk c (x : files EC) : disk (file_code c x).1 = disk x.
Proof.
  destruct c; simpl; try done; try (by destruct (ec_bool _)).
  - pose proof (cancel_req_disk (fi_req (fin x)) x) as E. by destruct (cancel_req _ x).
  - destruct (fi_req (fin x)); [|done]. by destruct (active_req _ _).
  - by destruct (fi_pause _).
  - pose proof (cancel_req_disk (fo_req (fout x)) x) as E. by destruct (cancel_req _ x).
  - by destruct (decide _).
  - destruct (ec_bool _); [done|]. by destruct (fo_bufs _).
  - by destruct (fo_bufs _).
  - by destruct (fo_bufs _).
Qed.

Lemma sbody_disk c w : disk (ext (sbody file_endpoints c w).1) = disk (ext w).
Proof.
  destruct c as [[]|u| | | | | | | | |]; simpl; try done;
    try (pose proof (file_code_disk u (ext w)) as E; by destruct (file_code u (ext w)));
    repeat (case_match; [done|]); done.
Qed.

Lemma steps_disk (c c' : config fworld (scall (fcode EC) EC) EC) :
  steps prog c c' → disk (ext (mem c')) = disk (ext (mem c)).
Proof.
  intros S. apply (steps_inv prog (λ d, disk (ext (mem d)) = disk (ext (mem c)))) in S; [done| |done].
  intros [[|f k] w m] c2 E Hs; [by destruct m|]. unfold step in Hs. simpl in Hs, E. rewrite <-E.
  destruct m; [| |done].
  - pose proof (sbody_disk f w) as D. destruct (sbody _ f w) as [w1 o]. injection Hs as <-. by destruct o.
  - by injection Hs as <-.
Qed.

Lemma turn_intact w w' : turn w w' → intact (ext w) → intact (ext w').
Proof.
  intros (cs & w1 & Hin & S) Hi. apply steps_disk in S. simpl in S.
  assert (intact (ext w1)) as H1.
  { destruct Hin as [w i r R|w i r b a x' u R P|w]; [done| |done]. simpl.
    destruct r as [| | |h], a as [e|fd| |n]; simpl in P; try done; injection P as <- <-; try done.
    unfold intact in *. simpl in *. intros [Hs Hn]%orb_false_iff. apply Nat.ltb_ge in Hn.
    by rewrite Hi, take_ge. }
  unfold intact, disk in *. injection S as -> -> ->. done.
Qed.

Lemma works_intact max chunk file w : works max chunk file w → intact (ext w).
Proof.
  intros (w0 & S & R).
  apply (steps_det _ _ _ _ (start_steps max chunk file)) in S; [|by left]. apply steps_end in S as [-> _].
  assert (intact (ext (after_start max chunk file))) as H0 by done. revert H0.
  induction R as [w|w w1 w2 [_ T] _ IH]; [done|]. intros H0. by apply IH, (turn_intact w).
Qed.

(** A streamer at work waits for something, and its queue is bounded. *)
Lemma pumping_waits w : pumping w → reqs (ext w) ≠ ∅.
Proof.
  intros [P (bi & Hi & Hbi) (bo & Ho & Hbo) O] E.
  assert (∀ i r, reqs (ext w) !! i = Some r → False) as K by (intros i r; rewrite E; by rewrite lookup_empty).
  destruct Hi as [i b E1 R1 _|i b E1 R1 _|i E1 R1]; [by eapply K..|].
  destruct Ho as [j b E2 Q R2|j b h l E2 Q B R2|j E2 Q R2]; [by eapply K..|].
  specialize (Hbo eq_refl). destruct (Hbi eq_refl) as [He|He].
  - by destruct (p_eof _ _ P He).
  - pose proof (p_paused _ _ P He) as Hp. rewrite (p_size _ _ P), Hbo in Hp. simpl in Hp.
    rewrite (p_thr _ _ P) in Hp. pose proof (p_max _ _ P).
    assert (0 ≤ max_buf (st w) * 2 / 3) by (apply Z.div_pos; lia). lia.
Qed.
End Finishing.

(** ** Properties *)




(** *** Runs *)

Abbreviation EL := (list error_code).

Inductive input := Take (i : nat) | Complete (i : nat) (a : answer) | UserStop.

(** One turn of the loop, computed. *)
Definition run_calls (cs : list (scall (fcode EL) EL)) (w : world (files EL) EL) : option (world (files EL) EL) :=
  match run (streamer_program file_endpoints) 80 (Config cs w Normal) with
  | Config [] w' Normal => Some w'
  | _ => None
  end.

Definition do_input (e : input) (w : world (files EL) EL) : option (world (files EL) EL) :=
  '(cs, w1) ← match e with
    | Take i =>
        match reqs (ext w) !! i with
        | Some (r, false) => Some ([], with_ext (with_reqs (<[i := (r, true)]>) (ext w)) w)
        | _ => None
        end
    | Complete i a =>
        '(r, _) ← reqs (ext w) !! i;
        '(x', u) ← perform r a (with_reqs (delete i) (ext w));
        Some ([CCode u], with_ext x' w)
    | UserStop => Some ([CApi Stop], w)
    end;
  run_calls cs w1.

Fixpoint do_inputs (l : list input) (w : world (files EL) EL) : option (world (files EL) EL) :=
  match l with
  | [] => Some w
  | e :: l => if started (st w) then w' ← do_input e w; do_inputs l w' else None
  end.

Lemma run_calls_turn w cs w1 w' : file_input_step w cs w1 → run_calls cs w1 = Some w' → turn w w'.
Proof.
  unfold run_calls. intros Hin Hr. exists cs, w1. split; [done|].
  pose proof (run_steps (streamer_program file_endpoints) 80 (Config cs w1 Normal)) as Hs.
  destruct (run _ 80 _) as [[|] w2 []]; try discriminate Hr. by injection Hr as <-.
Qed.

Lemma do_input_turn e w w' : do_input e w = Some w' → turn w w'.
Proof.
  unfold do_input. destruct e as [i|i a|]; cbn [mbind option_bind].
  - destruct (reqs (ext w) !! i) as [[r []]|] eqn:R; try done.
    apply run_calls_turn. by apply in_take.
  - destruct (reqs (ext w) !! i) as [[r b]|] eqn:R; [|by intros]. cbn [mbind option_bind].
    destruct (perform r a (with_reqs (delete i) (ext w))) as [[x' u]|] eqn:P; cbn [mbind option_bind];
      [|intros Hd; discriminate Hd].
    apply run_calls_turn. by apply (in_complete w i r b a x' u).
  - apply run_calls_turn, in_stop_user.
Qed.

Lemma do_inputs_works max chunk file l w :
  do_inputs l (after_start max chunk file) = Some w → works max chunk file w.
Proof.
  intros Hl. exists (after_start max chunk file). split; [apply start_steps|].
  revert Hl. generalize (after_start (EC:=EL) max chunk file). induction l as [|e l IH]; intros w0 Hl; simpl in Hl.
  - by injection Hl as ->.
  - destruct (started (st w0)) eqn:S; [|done]. destruct (do_input e w0) as [w1|] eqn:D; simpl in Hl; [|done].
    eapply rtc_l; [split; [done|by eapply do_input_turn]|by apply IH].
Qed.

Definition ex_file : bytes := ["a"; "b"; "c"; "d"; "e"; "f"]%char.

(** Chunks of four bytes and a limit of six; both files are opened, the first
    chunk is read and being written, the second one, which is short, is read. *)
Definition ex_inputs : list input :=
  [Complete 0 (Opened 3); Complete 1 (Opened 4); Complete 2 ReadDone; Complete 4 ReadDone].

Definition ex_state (l : list input) : world (files EL) EL :=
  default (after_start 6 4 ex_file) (do_inputs l (after_start 6 4 ex_file)).

Lemma ex_works l : (if do_inputs l (after_start 6 4 ex_file) then true else false) = true →
  works 6 4 ex_file (ex_state l).
Proof.
  unfold ex_state. destruct (do_inputs l _) as [w|] eqn:D; [|done]. intros _. by eapply do_inputs_works.
Qed.

(** The writes complete; the second one after the read that follows it. *)
Definition ex_copied : list input := ex_inputs ++ [Complete 3 (Wrote 4); Complete 5 ReadDone; Complete 6 (Wrote 2)].




(** [finish] calls [stop()] on both ends before it clears [started]. When that
    cancels a request, the callback reports an error to the streamer, which
    finishes a second time from within: the user is told of one end several
    times. *)
Theorem streamer_stop_finishes_twice :
  works 6 4 ex_file (ex_state [Complete 0 (Opened 3); UserStop]) ∧
  finishes (ext (ex_state [Complete 0 (Opened 3); UserStop])) =
    [[Std operation_canceled]; [Std operation_canceled]; [Std operation_canceled]].
Proof. split; [apply ex_works|]; vm_compute; reflexivity. Qed.

(** The same on success: the throttled input is asked for one more read when the
    end of the file has been seen already; if that read still waits for a thread
    when the last write completes, a complete copy is first reported as
    cancelled. *)
Theorem streamer_success_reported_as_cancelled :
  works 6 4 ex_file (ex_state (ex_inputs ++ [Complete 3 (Wrote 4); Complete 6 (Wrote 2)])) ∧
  let x := ext (ex_state (ex_inputs ++ [Complete 3 (Wrote 4); Complete 6 (Wrote 2)])) in
  written x = ex_file ∧ finishes x = [[Std operation_canceled]; []].
Proof. split; [apply ex_works|split]; vm_compute; reflexivity. Qed.

(** The file system writes only three bytes of the first chunk: the streamer reports
    success, and the output lacks the fourth. *)
Definition ex_short : list input := ex_inputs ++ [Complete 3 (Wrote 3); Complete 5 ReadDone; Complete 6 (Wrote 2)].
Theorem streamer_short_write :
  works 6 4 ex_file (ex_state ex_short) ∧ finishes (ext (ex_state ex_short)) = [[]] ∧
  out_file (ext (ex_state ex_short)) = ["a"; "b"; "c"; "e"; "f"]%char.
Proof. split; [apply ex_works|split]; vm_compute; reflexivity. Qed.
