(* ===== verification/AddrInfo.v ===== *)
(** Addresses and the resolver's cache of them: [AddrInfo.h], [AddrInfo.cc], and
    [CachedAddress], [CacheKey], [Cache] and [find] of [Resolver.h] and
    [Resolver.cc].

    An [AddrInfo] is a position in the list of addresses that c-ares returned. The
    cache gives the same list to everybody until it expires; a user for whom an
    address does not work marks it, and the entry moves on to the next address. *)
From stdpp Require Import fin_maps.
From S2P Require Import Prelude.
#[local] Open Scope Z_scope.

(** ** Data *)

(** [AddrInfoHints] *)
Record AddrInfoHints := mkHints { family : Z; socktype : Z; protocol : Z; hflags : Z }.

#[global] Instance AddrInfoHints_eq_dec : EqDecision AddrInfoHints.
Proof. solve_decision. Defined.
#[global] Instance AddrInfoHints_countable : Countable AddrInfoHints.
Proof.
  refine (inj_countable' (λ h, (family h, socktype h, protocol h, hflags h))
    (λ p, match p with (f, s, p, l) => mkHints f s p l end) _). by intros [].
Defined.

(** [Resolver::CacheKey] *)
Record CacheKey := mkKey { k_node : string; k_service : string; k_hints : AddrInfoHints }.

#[global] Instance CacheKey_eq_dec : EqDecision CacheKey.
Proof. solve_decision. Defined.
#[global] Instance CacheKey_countable : Countable CacheKey.
Proof.
  refine (inj_countable' (λ k, (k_node k, k_service k, k_hints k))
    (λ p, match p with (n, s, h) => mkKey n s h end) _). by intros [].
Defined.

(** [ares_addrinfo_node]; [SA]: [net::SockAddr] *)
Record ai_node (SA : Type) := mkNode {
  ai_family : Z; ai_socktype : Z; ai_protocol : Z; ai_flags : Z; ai_ttl : Z; ai_addr : SA
}.
Arguments mkNode {SA}.
Arguments ai_family {SA}.
Arguments ai_socktype {SA}.
Arguments ai_protocol {SA}.
Arguments ai_flags {SA}.
Arguments ai_ttl {SA}.
Arguments ai_addr {SA}.

(** [AddrInfo]: the nodes of [src->ai] (none for a null [src]), and [cur]. *)
Record AddrInfo (SA : Type) := mkAi { src : list (ai_node SA); cur : option nat }.
Arguments mkAi {SA}.
Arguments src {SA}.
Arguments cur {SA}.

(** [Resolver::CachedAddress] *)
Record CachedAddress (SA : Type) := mkCached { address : AddrInfo SA; update_time : Z }.
Arguments mkCached {SA}.
Arguments address {SA}.
Arguments update_time {SA}.

Section AddrInfo.
Context {SA : Type} `{EqDecision SA}.
Abbreviation AddrInfo := (AddrInfo SA).
Abbreviation Cache := (gmap CacheKey (CachedAddress SA)).

(** ** [AddrInfo] *)

(** The default constructor, and the one from the answer of c-ares. *)
Definition no_addr : AddrInfo := mkAi [] None.
Definition ai_of (nodes : list (ai_node SA)) : AddrInfo :=
  mkAi nodes (match nodes with [] => None | _ => Some 0%nat end).

(** [operator bool] *)
Definition ai_bool (a : AddrInfo) : bool := match cur a with Some _ => true | None => false end.

(** [addr], [ttl]; [None]: a dereference of null. *)
Definition ai_at (a : AddrInfo) : option (ai_node SA) := cur a ≫= λ i, src a !! i.
Definition addr (a : AddrInfo) : option SA := ai_addr <$> ai_at a.
Definition ttl (a : AddrInfo) : option Z := ai_ttl <$> ai_at a.

(** [next], [first] *)
Definition next (a : AddrInfo) : AddrInfo :=
  match cur a with
  | Some i => mkAi (src a) (if decide (S i < length (src a))%nat then Some (S i) else None)
  | None => no_addr
  end.
Definition first (a : AddrInfo) : AddrInfo := ai_of (src a).

(** [AddrInfo::operator==] *)
Definition ai_eqb (a b : AddrInfo) : bool :=
  match ai_at a, ai_at b with
  | None, None => true
  | Some m, Some n =>
      (ai_family m =? ai_family n) && (ai_socktype m =? ai_socktype n) &&
      (ai_protocol m =? ai_protocol n) && (ai_flags m =? ai_flags n) &&
      bool_decide (ai_addr m = ai_addr n)
  | _, _ => false
  end.

(** [operator<<]: the addresses from the current one on, between blanks. *)
Fixpoint print_nodes (show : SA → string) (l : list (ai_node SA)) : string :=
  match l with
  | [] => ""
  | [n] => show (ai_addr n)
  | n :: l => show (ai_addr n) +:+ " " +:+ print_nodes show l
  end%string.
Definition ai_to_string (show : SA → string) (a : AddrInfo) : string :=
  match cur a with Some i => print_nodes show (drop i (src a)) | None => "" end%string.

(** ** The cache *)

(** [CachedAddress::expired] *)
Definition expired (c : CachedAddress SA) (now expiration_time : Z) : bool :=
  update_time c + expiration_time <? now.

(** [Resolver::find]; [None] as a result: a dereference of null. *)
Definition find (cache_expiration_time now : Z) (key : CacheKey) (m : Cache) : option (AddrInfo * Cache) :=
  match m !! key with
  | Some c =>
      t ← ttl (address c);
      if negb (expired c now (Z.min t cache_expiration_time)) then Some (address c, m)
      else Some (no_addr, delete key m)
  | None => Some (no_addr, m)
  end.

(** The insertion in [Resolver::finish_resolve]; [emplace] keeps a present entry. *)
Definition cache_store (limit : nat) (now : Z) (key : CacheKey) (a : AddrInfo) (m : Cache) : Cache :=
  let m := if decide (limit ≤ size m)%nat then ∅ else m in
  match m !! key with Some _ => m | None => <[key := mkCached a now]> m end.

(** [Resolver::cache_limit(val)] *)
Definition cache_limit_set (val : nat) (m : Cache) : Cache := if decide (val < size m)%nat then ∅ else m.

(** [Resolver::Cache::mark_bad_address]; [None]: a dereference of null. *)
Definition mark_bad_address (key : CacheKey) (sa : SA) (m : Cache) : option Cache :=
  match m !! key with
  | None => Some m
  | Some c =>
      a ← addr (address c);
      if decide (a = sa) then
        Some (<[key := mkCached (if ai_bool (next (address c)) then next (address c) else first (address c))
                         (update_time c)]> m)
      else Some m
  end.

(** A user who marks the current address whatever it is. *)
Definition mark_current (key : CacheKey) (m : Cache) : option Cache :=
  match m !! key with
  | None => Some m
  | Some c => a ← addr (address c); mark_bad_address key a m
  end.

(** ** Lemmas *)

(** The position is one of the list. *)
Definition ai_ok (a : AddrInfo) : Prop := ∀ i, cur a = Some i → (i < length (src a))%nat.

Lemma ai_of_ok l : ai_ok (ai_of l).
Proof. intros i. destruct l; simpl; [done|]. intros [= <-]. lia. Qed.

Lemma next_ok a : ai_ok (next a).
Proof. unfold next. intros i. destruct (cur a); simpl; [|done]. case_decide; [by intros [= <-]|done]. Qed.

Lemma ai_at_Some a i : ai_ok a → cur a = Some i → is_Some (ai_at a).
Proof. intros Ha Hc. unfold ai_at. rewrite Hc. simpl. by apply lookup_lt_is_Some, Ha. Qed.

Lemma addr_Some l i : (i < length l)%nat → ∃ n, l !! i = Some n ∧ addr (mkAi l (Some i)) = Some (ai_addr n).
Proof.
  intros [n Hn]%lookup_lt_is_Some_2. exists n. split; [done|]. unfold addr, ai_at. simpl. by rewrite Hn.
Qed.

(** One step of the rotation. *)
Lemma rotate_step (l : list (ai_node SA)) i :
  (i < length l)%nat →
  (if ai_bool (next (mkAi l (Some i))) then next (mkAi l (Some i)) else first (mkAi l (Some i))) =
  mkAi l (Some (S i mod length l)%nat).
Proof.
  intros Hi. unfold next, first, ai_of. simpl. case_decide as Hd; simpl.
  - by rewrite Nat.mod_small.
  - replace (S i) with (length l) by lia. rewrite Nat.Div0.mod_same. destruct l; simpl in *; [lia|done].
Qed.

Lemma S_mod a n : (S (a mod n) mod n = S a mod n)%nat.
Proof. change (S (a mod n)) with (1 + a mod n)%nat. by rewrite Nat.Div0.add_mod_idemp_r. Qed.

Lemma mark_current_rotates key l i t (m : Cache) :
  m !! key = Some (mkCached (mkAi l (Some i)) t) → (i < length l)%nat →
  mark_current key m = Some (<[key := mkCached (mkAi l (Some (S i mod length l)%nat)) t]> m).
Proof.
  intros Hm Hi. unfold mark_current, mark_bad_address. rewrite Hm. simpl.
  destruct (addr_Some l i Hi) as (n & _ & ->). simpl. by rewrite decide_True, rotate_step.
Qed.

Lemma cache_store_size limit now key a (m : Cache) :
  (0 < limit)%nat → (size m ≤ limit)%nat → (size (cache_store limit now key a m) ≤ limit)%nat.
Proof.
  intros Hl Hs. unfold cache_store. case_decide as Hd.
  - rewrite lookup_empty, map_size_insert_None, map_size_empty by apply lookup_empty. lia.
  - destruct (m !! key) eqn:E; [done|]. rewrite map_size_insert_None by done. lia.
Qed.

Lemma find_size exp now key m a m' : find exp now key m = Some (a, m') → (size m' ≤ size m)%nat.
Proof.
  unfold find. destruct (m !! key) as [c|] eqn:E; [|by intros [= _ <-]].
  destruct (ttl (address c)); simpl; [|done]. destruct (negb _); intros [= <- <-]; [done|].
  rewrite map_size_delete_Some by (by eexists). lia.
Qed.

Lemma ai_eqb_true a b : ai_ok a → ai_ok b →
  ai_eqb a b = true → addr a = addr b ∧ (ai_bool a = ai_bool b).
Proof.
  intros Ha Hb He. unfold ai_eqb, addr, ai_bool in *.
  destruct (ai_at a) as [m|] eqn:Ea, (ai_at b) as [n|] eqn:Eb; simpl in *; try done.
  - rewrite !andb_true_iff, bool_decide_eq_true in He. destruct He as [_ ->]. split; [done|].
    unfold ai_at in *. by destruct (cur a), (cur b).
  - split; [done|]. destruct (cur a) as [i|] eqn:Ca; [by destruct (ai_at_Some a i Ha Ca); simplify_eq|].
    destruct (cur b) as [i|] eqn:Cb; [by destruct (ai_at_Some b i Hb Cb); simplify_eq|]. done.
Qed.
End AddrInfo.

Arguments CachedAddress : clear implicits.

(** ** Properties *)

(** Marking addresses as bad goes round the list of an entry: after [k]
    marks of its current address, an entry at position [i] of [n] addresses is at
    [(i + k) mod n], so that after [n] marks it is back; marking an address that
    is not the current one, or in an entry that is not there, changes nothing; and no
    other entry ever changes. *)
Theorem mark_bad_rotates {SA : Type} `{EqDecision SA} (key : CacheKey) (l : list (ai_node SA))
    (i : nat) (t : Z) (m : gmap CacheKey (CachedAddress SA))
    (Hm : m !! key = Some (mkCached (mkAi l (Some i)) t)) (Hi : (i < length l)%nat) :
  (∀ k, Nat.iter k (mbind (mark_current key)) (Some m) =
    Some (<[key := mkCached (mkAi l (Some ((i + k) mod length l)%nat)) t]> m)) ∧
  (∀ sa, addr (mkAi l (Some i)) ≠ Some sa → mark_bad_address key sa m = Some m) ∧
  (∀ key' sa, m !! key' = None → mark_bad_address key' sa m = Some m).
Proof.
  split_and!.
  - induction k as [|k IH]; simpl.
    + rewrite Nat.add_0_r, Nat.mod_small by done. by rewrite insert_id.
    + rewrite IH. simpl. erewrite mark_current_rotates; [|apply lookup_insert_eq|by apply Nat.mod_upper_bound; lia].
      by rewrite insert_insert_eq, S_mod, Nat.add_succ_r.
  - intros sa Hsa. unfold mark_bad_address. rewrite Hm. simpl.
    destruct (addr_Some l i Hi) as (n & _ & E). rewrite E in *. simpl. rewrite decide_False; congruence.
  - intros key' sa Hk. unfold mark_bad_address. by rewrite Hk.
Qed.

(** C33: an answer put into the cache is found again, whole, until the lesser of its
    time to live and the cache's expiration time has passed since, and then no more,
    when it is also forgotten; the other entries are found as before, unless the
    cache was full and was cleared; and the cache keeps within its limit. *)
Theorem cache_finds_until_expired {SA : Type} `{EqDecision SA} (limit : nat) (exp now now' t : Z)
    (key : CacheKey) (a : AddrInfo SA) (m : gmap CacheKey (CachedAddress SA))
    (Hlimit : (0 < limit)%nat) (Hsize : (size m ≤ limit)%nat) (Hnew : m !! key = None) (Httl : ttl a = Some t) :
  let m' := cache_store limit now key a m in
  (size m' ≤ limit)%nat ∧
  (now' ≤ now + Z.min t exp → find exp now' key m' = Some (a, m')) ∧
  (now + Z.min t exp < now' → find exp now' key m' = Some (no_addr, delete key m')) ∧
  (∀ key', key' ≠ key → m' !! key' = if decide (limit ≤ size m)%nat then None else m !! key').
Proof.
  intros m'. assert (m' !! key = Some (mkCached a now)) as Hk.
  { unfold m', cache_store. case_decide; simpl; [by rewrite lookup_empty, lookup_insert_eq|].
    by rewrite Hnew, lookup_insert_eq. }
  split_and!.
  - by apply cache_store_size.
  - intros Hn. unfold find. rewrite Hk. simpl. rewrite Httl. simpl. unfold expired. simpl.
    by rewrite (proj2 (Z.ltb_ge _ _)).
  - intros Hn. unfold find. rewrite Hk. simpl. rewrite Httl. simpl. unfold expired. simpl.
    by rewrite (proj2 (Z.ltb_lt _ _)).
  - intros key' Hne. unfold m', cache_store. case_decide as Hd; simpl.
    + by rewrite lookup_empty, lookup_insert_ne, lookup_empty.
    + by rewrite Hnew, lookup_insert_ne.
Qed.

(** *** Witnesses: a host with three addresses *)

Definition ex_ai : list (ai_node nat) :=
  [mkNode 2 1 6 0 300 10%nat; mkNode 2 1 6 0 300 11%nat; mkNode 10 1 6 0 300 12%nat].
Definition ex_key : CacheKey := mkKey "example.org" "80" (mkHints 0 1 0 0).
Definition ex_cache : gmap CacheKey (CachedAddress nat) := cache_store 2 1000 ex_key (ai_of ex_ai) ∅.

Lemma mark_bad_rotates_witness :
  Nat.iter 4 (mbind (mark_current ex_key)) (Some ex_cache) =
  Some (<[ex_key := mkCached (mkAi ex_ai (Some 1%nat)) 1000]> ex_cache).
Proof.
  apply (mark_bad_rotates ex_key ex_ai 0%nat 1000 ex_cache); [reflexivity|simpl; lia].
Defined.

Lemma cache_finds_until_expired_witness :
  find 600 1300 ex_key ex_cache = Some (ai_of ex_ai, ex_cache) ∧
  find 600 1301 ex_key ex_cache = Some (no_addr, delete ex_key ex_cache).
Proof.
  split; (eapply (cache_finds_until_expired 2 600 1000 _ 300 ex_key (ai_of ex_ai) ∅); [lia|vm_compute; lia|reflexivity|reflexivity|lia]).
Defined.
