(* ===== verification/Stream.v ===== *)
(** Streams: [Stream.h], [Stream.cc], the default filter of [StreamFilter.h],
    [StreamFilter.cc], the connect requests of [Tcp.cc] and [Pipe.cc], [Tty.cc], and
    the requests of the backend ([UVStream.h], [UVTcp.h], [UVPipe.h], [UVRequest.h]).

    A stream is a client of the request queue: its requests (connect, write,
    shutdown, disconnect, accept, run in order) are executed one at a time, go down
    the chain of filters to the backend, and come back up the chain to the user's
    callbacks.  The user's code and the overridden methods of filters are arbitrary
    and may call the stream again; libuv is a parameter.

    A stream that listens, with its clients and the walk of a connection through its
    filters, is in [Server]; here [AcceptClient] and [FinalizeConnection] are what
    accepting does to the client. *)
From stdpp Require Import pretty.
From S2P Require Import Prelude Machine Errors Handle Delayer Queue AddrInfo.
From Stdlib Require Import Sorted.
#[local] Open Scope Z_scope.

(** ** Data *)

(** [Stream::flags] *)
Definition LISTENING : Z := 1.
Definition CONNECTING : Z := 2.
Definition ESTABLISHED : Z := 4.
Definition IN_CONNECTED : Z := 8.
Definition OUT_CONNECTED : Z := 16.
Definition DONTREAD : Z := 32.
Definition READING : Z := 64.
Definition SHUTTING : Z := 128.
Definition SHUT : Z := 256.
Definition IGNORE_READ : Z := 512.

(** [flags & m], [flags |= m], [flags &= ~m] on [uint32_t] *)
Definition has_flag (m flags : Z) : bool := negb (Z.land flags m =? 0).
Definition set_flag (m flags : Z) : Z := Z.lor flags m.
Definition clear_flag (m flags : Z) : Z := Z.ldiff flags m.

(** The identity of a filter object. *)
Abbreviation fid := nat.

(** Where a [TcpConnectRequest] connects to by name: its [host], [port] and
    [hints]; the key of this place in the resolver's cache. *)
Record place := mkPlace { host : string; port : Z; hints : AddrInfoHints }.
Definition nowhere : place := mkPlace EmptyString 0 (mkHints 0 0 0 0).
Definition place_key (p : place) : CacheKey := mkKey (host p) (pretty (Z.to_N (port p))) (hints p).

(** The classes of requests, with what their constructors are given. *)
Inductive rkind (A : Type) :=
| KTcpConnect (addr : option A) (to : place) (cached : bool)
| KPipeConnect (name : string)
| KWrite
| KShutdown
| KDisconnect
| KAccept
| KRunInOrder.
Arguments KTcpConnect {A}.
Arguments KPipeConnect {A}.
Arguments KWrite {A}.
Arguments KShutdown {A}.
Arguments KDisconnect {A}.
Arguments KAccept {A}.
Arguments KRunInOrder {A}.

(** [StreamRequest] and its subclasses. [r_impl]: the backend's request, if it
    was created, and its [UVRequest::active]; [timer]: a running timer;
    [resolving]: [resolve_request] is set. *)
Record sreq (A : Type) := mkReq {
  kind : rkind A;
  bufs : list string;
  timeout : Z;
  timer : bool;
  timed_out : bool;
  resolving : bool;
  r_impl : option bool;
  last_filter : option fid;
  parent : option rid;
  subreq : option rid
}.
Arguments mkReq {A}.
Arguments kind {A}.
Arguments bufs {A}.
Arguments timeout {A}.
Arguments timer {A}.
Arguments timed_out {A}.
Arguments resolving {A}.
Arguments r_impl {A}.
Arguments last_filter {A}.
Arguments parent {A}.
Arguments subreq {A}.

Definition new_request {A} (k : rkind A) (bufs : list string) (timeout : Z) : sreq A :=
  mkReq k bufs timeout false false false None None None None.

(** The virtual methods of a filter that the stream's requests pass through. *)
Inductive fcall (EC : Type) :=
| FTcpConnect (r : rid)
| FPipeConnect (r : rid)
| FHandleConnect (err : EC) (r : rid)
| FHandleRead (buf : string) (err : EC)
| FWrite (r : rid)
| FHandleWrite (err : EC) (r : rid)
| FHandleEof
| FShutdown (r : rid)
| FHandleShutdown (err : EC) (r : rid)
| FListen
| FReset.
Arguments FTcpConnect {EC}.
Arguments FPipeConnect {EC}.
Arguments FHandleConnect {EC}.
Arguments FHandleRead {EC}.
Arguments FWrite {EC}.
Arguments FHandleWrite {EC}.
Arguments FHandleEof {EC}.
Arguments FShutdown {EC}.
Arguments FHandleShutdown {EC}.
Arguments FListen {EC}.
Arguments FReset {EC}.

(** What the code of a filter may call. *)
Inductive fapi (EC : Type) :=
| FBase (c : fcall EC)                       (* [NextFilter::] *)
| FReadStart
| FReadStop
| FSubTcpConnect (parent r : rid)
| FSubPipeConnect (parent r : rid)
| FSubWrite (parent r : rid) (bufs : list string)
| FSubDone (r : rid).
Arguments FBase {EC}.
Arguments FReadStart {EC}.
Arguments FReadStop {EC}.
Arguments FSubTcpConnect {EC}.
Arguments FSubPipeConnect {EC}.
Arguments FSubWrite {EC}.
Arguments FSubDone {EC}.

(** The calls of user code: the callbacks of a request, and the events and the
    listener of the stream. *)
Inductive uevent (EC : Type) :=
| ReqEvent (r : rid) (err : EC)
| OnEstablish (err : EC) (r : rid)
| OnConnect (err : EC) (r : rid)
| OnRead (buf : string) (err : EC)
| OnWrite (err : EC) (r : rid)
| OnShutdown (err : EC) (r : rid)
| OnEof
| OnEstablishClient (err : EC)
| OnConnection (err : EC)
| RunCode (r : rid).
Arguments ReqEvent {EC}.
Arguments OnEstablish {EC}.
Arguments OnConnect {EC}.
Arguments OnRead {EC}.
Arguments OnWrite {EC}.
Arguments OnShutdown {EC}.
Arguments OnEof {EC}.
Arguments OnEstablishClient {EC}.
Arguments OnConnection {EC}.
Arguments RunCode {EC}.

(** The methods that user code calls; those that make a request are given the
    identity of the new object. *)
Inductive sapi (A : Type) :=
| Listen (backlog : Z)
| TcpConnect (r : rid) (addr : option A) (to : place) (cached : bool) (timeout : Z)
| PipeConnect (r : rid) (name : string) (timeout : Z)
| Write (r : rid) (bufs : list string)
| Shutdown (r : rid) (timeout : Z)
| RunInOrder (r : rid)
| ReadStart
| ReadStop
| ReadIgnore
| Disconnect (r : rid)
| ResetStream
| ClearStream
| AddFilter (f : fid) (force : bool)
| RemoveFilter (f : fid) (force : bool)
| PushAheadFilter (f : fid) (force : bool)
| PushBehindFilter (f : fid) (force : bool).
Arguments Listen {A}.
Arguments TcpConnect {A}.
Arguments PipeConnect {A}.
Arguments Write {A}.
Arguments Shutdown {A}.
Arguments RunInOrder {A}.
Arguments ReadStart {A}.
Arguments ReadStop {A}.
Arguments ReadIgnore {A}.
Arguments Disconnect {A}.
Arguments ResetStream {A}.
Arguments ClearStream {A}.
Arguments AddFilter {A}.
Arguments RemoveFilter {A}.
Arguments PushAheadFilter {A}.
Arguments PushBehindFilter {A}.

(** The functions of a stream that are called by others, and the rests of those
    that go on after a virtual call. *)
Inductive scode (A EC : Type) :=
| Nop
| Api (a : sapi A)
| VExec (r : rid)
| VCancel (r : rid) (err : EC)
| VNotify (r : rid) (err : EC)
| HandleEvent (r : rid) (err : EC)
| ConnectInvoke (r : rid) (err : EC)
| FilterCall (f : fid) (c : fcall EC)
| FilterApi (f : fid) (a : fapi EC)
| Finalize (c : fcall EC)
| DoneConnect (r : rid) (err : EC)
| User (e : uevent EC)
| ListenRest (backlog : Z)
| DoReset
| ResetRest
| DoClear
| ClearRest
| HandleRead (buf : string) (err : option error_code)    (* from the backend *)
| HandleEof
| UvRead (buf : string) (nread : nat + option uv_errno)
| OnComplete (r : rid) (status : option uv_errno)
| OnTimer (r : rid)
| OnResolve (r : rid) (res : A + error_code)
| AcceptClient (areq : option rid) (err : option error_code)
| FinalizeConnection (areq : option rid) (err : EC).
Arguments Nop {A EC}.
Arguments Api {A EC}.
Arguments VExec {A EC}.
Arguments VCancel {A EC}.
Arguments VNotify {A EC}.
Arguments HandleEvent {A EC}.
Arguments ConnectInvoke {A EC}.
Arguments FilterCall {A EC}.
Arguments FilterApi {A EC}.
Arguments Finalize {A EC}.
Arguments DoneConnect {A EC}.
Arguments User {A EC}.
Arguments ListenRest {A EC}.
Arguments DoReset {A EC}.
Arguments ResetRest {A EC}.
Arguments DoClear {A EC}.
Arguments ClearRest {A EC}.
Arguments HandleRead {A EC}.
Arguments HandleEof {A EC}.
Arguments UvRead {A EC}.
Arguments OnComplete {A EC}.
Arguments OnTimer {A EC}.
Arguments OnResolve {A EC}.
Arguments AcceptClient {A EC}.
Arguments FinalizeConnection {A EC}.

(** ** libuv streams *)

Class UvStream (S B A : Type) `{UvCore S B} := {
  uv_listen : B → Z → S → S * option uv_errno;
  uv_read_start : B → S → S * option uv_errno;
  uv_read_stop : B → S → S;
  uv_write : B → rid → list string → S → S * option uv_errno;
  uv_write_queue_size : B → S → Z;
  uv_shutdown : B → rid → S → S * option uv_errno;
  uv_tcp_connect : B → rid → A → S → S * option uv_errno;
  uv_pipe_connect : B → rid → string → S → S;
  uv_tcp_open : B → Z → S → S * option uv_errno;
  uv_pipe_open : B → Z → S → S * option uv_errno;
  uv_tcp_getpeername : B → S → A + uv_errno;
  sa_default : A;                 (* [net::SockAddr{}] *)
  sa_bool : A → bool              (* its [operator bool] *)
}.

(** ** The stream *)

Section Stream.
Context {S B A EC W C Exn : Type} `{UvStream S B A} `{ErrorStack EC}.

(** [_filters]: front first; [callbacks]: the callbacks and the listener that the
    user has set; [tty]: the object is a [Tty]; [ret]: what the last method called
    by the user returned; [cache_bad]: the addresses that the resolver's cache was
    told to be bad; [elog]: the user code called so far, a ghost. *)
Record stream := mkStream {
  flags : Z;
  _filters : list fid;
  _wq_size : Z;
  callbacks : C;
  hdl : bhandle B;
  uvs : S;
  reqs : gmap rid (sreq A);
  tty : bool;
  ret : EC;
  cache_bad : list (CacheKey * option A);
  exns : list Exn;
  user : W;
  elog : list (uevent EC)
}.

Abbreviation code := (scode A EC).
Abbreviation call := (qapi code + code)%type.
Abbreviation result := (stream * list call)%type.

(** The user's code and state, what [remove_all] leaves of the callbacks, the
    methods that a filter overrides ([None]: it does not), its type and priority,
    and the exception of a change of filters on an active stream. *)
Context (user_code : C → uevent EC → stream → W * (list (sapi A) + Exn)).
Context (no_callbacks : C).
Context (virt : fid → fcall EC → stream → option (W * list (fapi EC))).
Context (f_type : fid → nat) (f_priority : fid → Z).
Context (filters_error : Exn).

Definition with_flags (f : Z → Z) (s : stream) : stream :=
  mkStream (f (flags s)) (_filters s) (_wq_size s) (callbacks s) (hdl s) (uvs s) (reqs s) (tty s)
    (ret s) (cache_bad s) (exns s) (user s) (elog s).
Definition with_filters (l : list fid) (s : stream) : stream :=
  mkStream (flags s) l (_wq_size s) (callbacks s) (hdl s) (uvs s) (reqs s) (tty s)
    (ret s) (cache_bad s) (exns s) (user s) (elog s).
Definition with_wq (n : Z) (s : stream) : stream :=
  mkStream (flags s) (_filters s) n (callbacks s) (hdl s) (uvs s) (reqs s) (tty s)
    (ret s) (cache_bad s) (exns s) (user s) (elog s).
Definition with_callbacks (c : C) (s : stream) : stream :=
  mkStream (flags s) (_filters s) (_wq_size s) c (hdl s) (uvs s) (reqs s) (tty s)
    (ret s) (cache_bad s) (exns s) (user s) (elog s).
Definition with_impl (h : bhandle B) (u : S) (s : stream) : stream :=
  mkStream (flags s) (_filters s) (_wq_size s) (callbacks s) h u (reqs s) (tty s)
    (ret s) (cache_bad s) (exns s) (user s) (elog s).
Definition with_reqs (m : gmap rid (sreq A)) (s : stream) : stream :=
  mkStream (flags s) (_filters s) (_wq_size s) (callbacks s) (hdl s) (uvs s) m (tty s)
    (ret s) (cache_bad s) (exns s) (user s) (elog s).
Definition with_ret (e : EC) (s : stream) : stream :=
  mkStream (flags s) (_filters s) (_wq_size s) (callbacks s) (hdl s) (uvs s) (reqs s) (tty s)
    e (cache_bad s) (exns s) (user s) (elog s).
Definition mark_bad_address (k : CacheKey) (a : option A) (s : stream) : stream :=
  mkStream (flags s) (_filters s) (_wq_size s) (callbacks s) (hdl s) (uvs s) (reqs s) (tty s)
    (ret s) (cache_bad s ++ [(k, a)]) (exns s) (user s) (elog s).
Definition keep_exn (e : Exn) (s : stream) : stream :=
  mkStream (flags s) (_filters s) (_wq_size s) (callbacks s) (hdl s) (uvs s) (reqs s) (tty s)
    (ret s) (cache_bad s) (exns s ++ [e]) (user s) (elog s).
Definition with_user (w : W) (s : stream) : stream :=
  mkStream (flags s) (_filters s) (_wq_size s) (callbacks s) (hdl s) (uvs s) (reqs s) (tty s)
    (ret s) (cache_bad s) (exns s) w (elog s).
Definition note (e : uevent EC) (s : stream) : stream :=
  mkStream (flags s) (_filters s) (_wq_size s) (callbacks s) (hdl s) (uvs s) (reqs s) (tty s)
    (ret s) (cache_bad s) (exns s) (user s) (elog s ++ [e]).

(** Updates of a request object. *)
Definition with_req (f : sreq A → sreq A) (r : rid) (s : stream) : stream :=
  with_reqs (alter f r (reqs s)) s.
Definition set_timer (b : bool) (q : sreq A) : sreq A :=
  mkReq (kind q) (bufs q) (timeout q) b (timed_out q) (resolving q) (r_impl q) (last_filter q) (parent q) (subreq q).
Definition set_timed_out (b : bool) (q : sreq A) : sreq A :=
  mkReq (kind q) (bufs q) (timeout q) (timer q) b (resolving q) (r_impl q) (last_filter q) (parent q) (subreq q).
Definition set_resolving (b : bool) (q : sreq A) : sreq A :=
  mkReq (kind q) (bufs q) (timeout q) (timer q) (timed_out q) b (r_impl q) (last_filter q) (parent q) (subreq q).
Definition set_r_impl (i : option bool) (q : sreq A) : sreq A :=
  mkReq (kind q) (bufs q) (timeout q) (timer q) (timed_out q) (resolving q) i (last_filter q) (parent q) (subreq q).
Definition set_last_filter (f : option fid) (q : sreq A) : sreq A :=
  mkReq (kind q) (bufs q) (timeout q) (timer q) (timed_out q) (resolving q) (r_impl q) f (parent q) (subreq q).
Definition set_parent (p : option rid) (q : sreq A) : sreq A :=
  mkReq (kind q) (bufs q) (timeout q) (timer q) (timed_out q) (resolving q) (r_impl q) (last_filter q) p (subreq q).
Definition set_subreq (p : option rid) (q : sreq A) : sreq A :=
  mkReq (kind q) (bufs q) (timeout q) (timer q) (timed_out q) (resolving q) (r_impl q) (last_filter q) (parent q) p.
Definition set_addr (a : A) (q : sreq A) : sreq A :=
  mkReq (match kind q with KTcpConnect _ h c => KTcpConnect (Some a) h c | k => k end) (bufs q) (timeout q)
    (timer q) (timed_out q) (resolving q) (r_impl q) (last_filter q) (parent q) (subreq q).

(** *** The state flags *)

Definition listening (s : stream) : bool := has_flag LISTENING (flags s).
Definition connecting (s : stream) : bool := has_flag CONNECTING (flags s).
Definition established (s : stream) : bool := has_flag ESTABLISHED (flags s).
Definition connected (s : stream) : bool := has_flag (Z.lor IN_CONNECTED OUT_CONNECTED) (flags s).
Definition in_connected (s : stream) : bool := has_flag IN_CONNECTED (flags s).
Definition out_connected (s : stream) : bool := has_flag OUT_CONNECTED (flags s).
Definition wantread (s : stream) : bool := negb (has_flag DONTREAD (flags s)).
Definition reading (s : stream) : bool := has_flag READING (flags s).

Definition set_listening : stream → stream := with_flags (set_flag LISTENING).
Definition set_connecting : stream → stream := with_flags (set_flag CONNECTING).
Definition set_established : stream → stream := with_flags (set_flag ESTABLISHED).
Definition set_wantread (on : bool) : stream → stream := with_flags (if on then clear_flag DONTREAD else set_flag DONTREAD).
Definition set_reading (on : bool) : stream → stream := with_flags (if on then set_flag READING else clear_flag READING).
Definition set_shutting : stream → stream := with_flags (set_flag SHUTTING).

Definition clear_out_connected (s : stream) : stream :=
  let s := with_flags (clear_flag OUT_CONNECTED) s in
  if in_connected s then s else with_flags (clear_flag ESTABLISHED) s.
Definition clear_in_connected (s : stream) : stream :=
  let s := with_flags (clear_flag IN_CONNECTED) s in
  if out_connected s then s else with_flags (clear_flag ESTABLISHED) s.
Definition set_shutdown (ok : bool) (s : stream) : stream :=
  let s := with_flags (set_flag SHUT) (with_flags (clear_flag SHUTTING) s) in
  if ok then clear_out_connected s else s.

(** *** The backend *)

(** [BackendHandle::impl()] of the stream. *)
Definition stream_impl (s : stream) : stream * B :=
  let '(h, u, b) := impl (hdl s) (uvs s) in (with_impl h u s, b).

(** A call [impl()->f(...)] of the backend that returns an error code. *)
Definition on_impl {T} (f : B → S → S * T) (s : stream) : stream * T :=
  let (s, b) := stream_impl s in
  let (u, t) := f b (uvs s) in (with_impl (hdl s) u s, t).

(** [Stream::_read_start] *)
Definition _read_start (s : stream) : stream * option error_code :=
  if reading s || negb (established s) then (s, None) else
  let (s, err) := on_impl uv_read_start s in
  match uvx_ce err with
  | None => (set_reading true s, None)
  | Some e => (s, Some e)
  end.

(** [Stream::read_start], [Stream::read_stop], [Stream::read_ignore] *)
Definition read_start (s : stream) : stream :=
  let s := with_flags (clear_flag IGNORE_READ) (set_wantread true s) in
  let (s, err) := _read_start s in
  with_ret (match err with Some e => ec_of e | None => ec_ok end) s.
Definition read_stop (s : stream) : stream :=
  let s := set_wantread false s in
  if negb (reading s) then s else
  let (s, _) := on_impl (λ b u, (uv_read_stop b u, tt)) s in
  set_reading false s.
Definition read_ignore : stream → stream := with_flags (set_flag IGNORE_READ).

(** [Stream::set_connect_result] *)
Definition set_connect_result (ok : bool) (s : stream) : stream * option error_code :=
  let s := with_flags (clear_flag CONNECTING) s in
  if ok then
    let s := with_flags (set_flag (Z.lor (Z.lor IN_CONNECTED OUT_CONNECTED) ESTABLISHED)) s in
    if wantread s then _read_start s else (s, None)
  else (s, None).

(** *** The chain of filters *)

Fixpoint next_filter (f : fid) (l : list fid) : option fid :=
  match l with
  | g :: l => if decide (g = f) then head l else next_filter f l
  | [] => None
  end.
Fixpoint prev_filter (f : fid) (l : list fid) : option fid :=
  match l with
  | g :: (h :: _) as l => if decide (h = f) then Some g else prev_filter f l
  | _ => None
  end.

(** [INVOKE]: the filter's method, or the stream's own when there is none. *)
Definition invoke (f : option fid) (c : fcall EC) : list call :=
  match f with Some f => [inr (FilterCall f c)] | None => [inr (Finalize c)] end.

(** [Stream::invoke_sync] *)
Definition invoke_sync (c : fcall EC) (s : stream) : list call :=
  match head (_filters s) with Some f => [inr (FilterCall f c)] | None => [] end.

(** [INVOKE] in the methods of [StreamFilter]: towards the backend the request
    remembers the filter that has it. *)
Definition filter_down (f : fid) (c : fcall EC) (r : rid) (s : stream) : result :=
  let next := next_filter f (_filters s) in
  (match next with Some g => with_req (set_last_filter (Some g)) r s | None => s end, invoke next c).
Definition filter_up (f : fid) (c : fcall EC) (s : stream) : result :=
  (s, invoke (prev_filter f (_filters s)) c).
Definition filter_sync (f : fid) (c : fcall EC) (s : stream) : result :=
  (s, match next_filter f (_filters s) with Some g => [inr (FilterCall g c)] | None => [] end).

(** The methods of [StreamFilter]. *)
Definition filter_tcp_connect f r := filter_down f (FTcpConnect r) r.
Definition filter_pipe_connect f r := filter_down f (FPipeConnect r) r.
Definition filter_handle_connect f err r := filter_up f (FHandleConnect err r).
Definition filter_handle_read f buf err := filter_up f (FHandleRead buf err).
Definition filter_write f r := filter_down f (FWrite r) r.
Definition filter_handle_write f err r := filter_up f (FHandleWrite err r).
Definition filter_handle_eof f := filter_up f FHandleEof.
Definition filter_shutdown f r := filter_down f (FShutdown r) r.
Definition filter_handle_shutdown f err r := filter_up f (FHandleShutdown err r).
Definition filter_listen f := filter_sync f FListen.
Definition filter_reset f := filter_sync f FReset.

Definition base_method (f : fid) (c : fcall EC) : stream → result :=
  match c with
  | FTcpConnect r => filter_tcp_connect f r
  | FPipeConnect r => filter_pipe_connect f r
  | FHandleConnect err r => filter_handle_connect f err r
  | FHandleRead buf err => filter_handle_read f buf err
  | FWrite r => filter_write f r
  | FHandleWrite err r => filter_handle_write f err r
  | FHandleEof => filter_handle_eof f
  | FShutdown r => filter_shutdown f r
  | FHandleShutdown err r => filter_handle_shutdown f err r
  | FListen => filter_listen f
  | FReset => filter_reset f
  end.

(** What the three [StreamFilter::subreq_xxx] do first. *)
Definition subreq_start (f : fid) (p r : rid) (s : stream) : stream :=
  with_req (λ q, set_last_filter (Some f) (set_parent (Some p) q)) r (with_req (set_subreq (Some r)) p s).

(** [StreamFilter::subreq_tcp_connect], [subreq_pipe_connect], [subreq_write]; the
    caller of the last has just made the request [r]. *)
Definition subreq_tcp_connect f p r s := filter_tcp_connect f r (subreq_start f p r s).
Definition subreq_pipe_connect f p r s := filter_pipe_connect f r (subreq_start f p r s).
Definition subreq_write f p r bufs s :=
  let s := with_reqs (<[r := new_request KWrite bufs 0]> (reqs s)) s in
  filter_write f r (subreq_start f p r s).

(** [StreamFilter::read_start], [StreamFilter::read_stop] *)
Definition filter_read_start (s : stream) : stream := (_read_start s).1.
Definition filter_read_stop (s : stream) : stream := if wantread s then s else read_stop s.

(** [UVRequest::destroy]: an active request is left to a stub. *)
Definition destroy_impl (r : rid) (s : stream) : stream := with_req (set_r_impl None) r s.

(** [StreamFilter::subreq_done] *)
Definition subreq_done (r : rid) (s : stream) : stream * outcome call Exn :=
  match reqs s !! r with
  | Some q =>
      match subreq q with
      | Some _ => (s, Aborts)
      | None =>
          let s := destroy_impl r s in
          let s := match parent q with Some p => with_req (set_subreq None) p s | None => s end in
          (with_req (λ q, set_last_filter None (set_parent None q)) r s, Calls [inl (DelayCancel r)])
      end
  | None => (s, Aborts)
  end.

Definition filter_api (f : fid) (a : fapi EC) (s : stream) : stream * outcome call Exn :=
  let lift (x : result) := (x.1, Calls x.2) in
  match a with
  | FBase c => lift (base_method f c s)
  | FReadStart => (filter_read_start s, Calls [])
  | FReadStop => (filter_read_stop s, Calls [])
  | FSubTcpConnect p r => lift (subreq_tcp_connect f p r s)
  | FSubPipeConnect p r => lift (subreq_pipe_connect f p r s)
  | FSubWrite p r bufs => lift (subreq_write f p r bufs s)
  | FSubDone r => subreq_done r s
  end.

(** The virtual call of a filter's method. *)
Definition filter_call (f : fid) (c : fcall EC) (s : stream) : result :=
  match virt f c s with
  | None => base_method f c s
  | Some (w, l) => (with_user w s, (λ a, inr (FilterApi f a)) <$> l)
  end.

(** *** The requests of the backend *)

Definition total (l : list string) : Z := fold_right (λ b n, Z.of_nat (String.length b) + n) 0 l.

(** [_wq_size += buf.length()] for each buffer, and [-=]. *)
Definition wq_add (l : list string) (s : stream) : stream :=
  with_wq (fold_left (λ n b, n +₆₄ Z.of_nat (String.length b)) l (_wq_size s)) s.
Definition wq_sub (l : list string) (s : stream) : stream :=
  with_wq (fold_left (λ n b, n -₆₄ Z.of_nat (String.length b)) l (_wq_size s)) s.

(** The getter [impl()] of a request: [new_xxx_request] on the stream's [impl()]. *)
Definition request_impl (r : rid) (s : stream) : stream :=
  let (s, _) := stream_impl s in
  with_req (λ q, match r_impl q with Some _ => q | None => set_r_impl (Some false) q end) r s.

Definition set_active (r : rid) (s : stream) : stream := with_req (set_r_impl (Some true)) r s.

(** [RequestImpl::handle_event] is called in the [ltry] of the loop. *)
Definition impl_event (r : rid) (err : EC) : call := inl (Ltry (HandleEvent r err)).

Definition ec_opt (e : option error_code) : EC := match e with Some e => ec_of e | None => ec_ok end.

(** [UVStream::write] *)
Definition uvstream_write (r : rid) (l : list string) (s : stream) : stream * option error_code * list call :=
  let (s, err) := on_impl (λ b, uv_write b r l) s in
  match err with
  | Some e => (s, Some (uvx_error e), [])
  | None =>
      let s := set_active r s in
      let (s, b) := stream_impl s in
      (s, None, if uv_write_queue_size b (uvs s) =? 0 then [impl_event r ec_ok] else [])
  end.

(** [UVStream::shutdown] *)
Definition uvstream_shutdown (r : rid) (s : stream) : result :=
  let (s, err) := on_impl (λ b, uv_shutdown b r) s in
  match err with
  | Some e => (s, [impl_event r (ec_of (uvx_error e))])
  | None => (set_active r s, [])
  end.

(** [UVTcp::connect], [UVPipe::connect] *)
Definition uvtcp_connect (r : rid) (a : A) (s : stream) : stream * option error_code :=
  let (s, err) := on_impl (λ b, uv_tcp_connect b r a) s in
  (match err with None => set_active r s | Some _ => s end, uvx_ce err).
Definition uvpipe_connect (r : rid) (name : string) (s : stream) : stream * option error_code :=
  let (s, _) := on_impl (λ b u, (uv_pipe_connect b r name u, tt)) s in
  (set_active r s, None).

(** [UVStream::on_connect], [on_write], [on_shutdown], and the stub of a request
    that was destroyed while it was active. *)
Definition on_complete (r : rid) (status : option uv_errno) (s : stream) : result :=
  match reqs s !! r ≫= r_impl with
  | Some true => (with_req (set_r_impl (Some false)) r s, [impl_event r (ec_opt (uvx_ce status))])
  | _ => (s, [])
  end.

(** *** Connecting *)

Definition not_connected_err : EC := ec_of (Std not_connected).
Definition timed_out_err : EC := ec_of (Std Errors.timed_out).

(** [ConnectRequest::exec] *)
Definition connect_exec (r : rid) (q : sreq A) (s : stream) : stream :=
  let s := set_connecting s in
  if timeout q =? 0 then s else with_req (set_timer true) r s.

(** [TcpConnectRequest::exec], [PipeConnectRequest::exec] *)
Definition tcp_connect_exec (r : rid) (q : sreq A) (s : stream) : result :=
  let s := connect_exec r q s in
  match head (_filters s) with
  | Some f => (with_req (set_last_filter (Some f)) r s, [inr (FilterCall f (FTcpConnect r))])
  | None => (s, [inr (Finalize (FTcpConnect r))])
  end.
Definition pipe_connect_exec (r : rid) (q : sreq A) (s : stream) : result :=
  let s := connect_exec r q s in
  match head (_filters s) with
  | Some f => (with_req (set_last_filter (Some f)) r s, [inr (FilterCall f (FPipeConnect r))])
  | None => (s, [inr (Finalize (FPipeConnect r))])
  end.

Definition delay_cancel_with (r : rid) (err : option error_code) : list call :=
  match err with Some e => [inl (Delay r (VCancel r (ec_of e)))] | None => [] end.

(** [TcpConnectRequest::finalize_connect] and its [on_resolve] *)
Definition tcp_finalize_connect (r : rid) (s : stream) : stream * outcome call Exn :=
  match reqs s !! r with
  | Some q =>
      match kind q with
      | KTcpConnect (Some a) _ _ =>
          let (s, err) := uvtcp_connect r a (request_impl r s) in (s, Calls (delay_cancel_with r err))
      | KTcpConnect None _ _ => (with_req (set_resolving true) r s, Calls [])
      | _ => (s, Aborts)
      end
  | None => (s, Aborts)
  end.
Definition on_resolve (r : rid) (res : A + error_code) (s : stream) : result :=
  match reqs s !! r with
  | Some q =>
      if negb (resolving q) then (s, []) else
      let s := with_req (set_resolving false) r s in
      match res with
      | inr e => (s, [inr (VCancel r (nest_error (Unievent resolve_error) (ec_of e)))])
      | inl a =>
          let s := with_req (set_addr a) r s in
          let (s, err) := uvtcp_connect r a (request_impl r s) in
          (s, match err with Some e => [inr (VCancel r (ec_of e))] | None => [] end)
      end
  | None => (s, [])
  end.

(** [PipeConnectRequest::finalize_connect] *)
Definition pipe_finalize_connect (r : rid) (s : stream) : stream * outcome call Exn :=
  match reqs s !! r with
  | Some q =>
      match kind q with
      | KPipeConnect name =>
          let (s, err) := uvpipe_connect r name (request_impl r s) in (s, Calls (delay_cancel_with r err))
      | _ => (s, Aborts)
      end
  | None => (s, Aborts)
  end.

(** [TcpConnectRequest::handle_event], up to that of [ConnectRequest] *)
Definition tcp_handle_event (r : rid) (q : sreq A) (err : EC) (s : stream) : stream :=
  let s := match kind q with
    | KTcpConnect addr to cached =>
        if ec_bool err && negb (ec_has err (Std operation_canceled)) && negb (bool_decide (host to = EmptyString)) && cached
        then mark_bad_address (place_key to) addr s else s
    | _ => s
    end in
  if resolving q then with_req (set_resolving false) r s else s.

(** [ConnectRequest::handle_event] *)
Definition connect_handle_event (r : rid) (err : EC) (s : stream) : result :=
  (if ec_bool err then s else set_established s, [inr (User (OnEstablish err r)); inr (ConnectInvoke r err)]).

Definition last_filter_of (r : rid) (s : stream) : option fid := reqs s !! r ≫= last_filter.

(** [Stream::finalize_handle_connect]; [notify_on_connect] is [VNotify]. *)
Definition finalize_handle_connect (connect_err : EC) (r : rid) (qq : queue) (s : stream) : result :=
  let (s, err) :=
    if negb (ec_bool connect_err) then
      let (s, e) := set_connect_result true s in
      (s, match e with Some e => ec_nest (Unievent read_start_error) (ec_of e) | None => ec_ok end)
    else ((set_connect_result false s).1, connect_err) in
  let s := with_req (set_timer false) r s in
  if negb (ec_bool err) || canceling qq then (s, [inl (Done r (VNotify r err))])
  else (s, [inl (Cancel (DoneConnect r err) DoReset None)]).

(** *** Writing *)

(** [Stream::write] *)
Definition write (r : rid) (s : stream) : result :=
  let l := match reqs s !! r with Some q => bufs q | None => [] end in
  (wq_add l s, [inl (Push r)]).

(** [REQUEST_REQUIRE_WRITE_STATE], [WriteRequest::exec] *)
Definition write_exec (r : rid) (q : sreq A) (s : stream) : result :=
  if negb (out_connected s) then (s, [inl (Delay r (VCancel r not_connected_err))]) else
  let s := with_req (set_last_filter (head (_filters s))) r s in
  (wq_sub (bufs q) s, invoke (head (_filters s)) (FWrite r)).

(** [Stream::finalize_write] *)
Definition finalize_write (r : rid) (s : stream) : stream * outcome call Exn :=
  match reqs s !! r with
  | Some q =>
      let '(s, err, cs) := uvstream_write r (bufs q) (request_impl r s) in
      (s, Calls (cs ++ delay_cancel_with r err))
  | None => (s, Aborts)
  end.

(** [WriteRequest::handle_event] *)
Definition write_handle_event (r : rid) (err : EC) (s : stream) : result :=
  (if ec_has err (Std broken_pipe) then clear_out_connected s else s,
   invoke (last_filter_of r s) (FHandleWrite err r)).

(** *** Shutting down *)

(** [Stream::shutdown] *)
Definition shutdown (r : rid) (s : stream) : result :=
  (with_req (λ q, set_timer (negb (timeout q =? 0)) (set_timed_out false q)) r s, [inl (Push r)]).

(** The callbacks of the timers of [Stream::shutdown] and [ConnectRequest::exec]. *)
Definition on_timer (r : rid) (qq : queue) (s : stream) : result :=
  match reqs s !! r with
  | Some q =>
      if negb (timer q) then (s, []) else
      let s := with_req (set_timer false) r s in
      match kind q with
      | KShutdown =>
          match prev_filter r (requests qq) with     (* [intrusive_chain_prev] *)
          | Some p => (with_req (set_timed_out true) r s, [inl (Cancel Nop (VCancel r timed_out_err) (Some p))])
          | None => (s, [inr (VCancel r timed_out_err)])
          end
      | _ => (s, [inr (VCancel r timed_out_err)])
      end
  | None => (s, [])
  end.

(** [ShutdownRequest::exec] *)
Definition shutdown_exec (r : rid) (s : stream) : result :=
  if negb (out_connected s) then (s, [inl (Delay r (VCancel r not_connected_err))]) else
  (with_req (set_last_filter (head (_filters s))) r s, invoke (head (_filters s)) (FShutdown r)).

(** [Stream::finalize_shutdown] *)
Definition finalize_shutdown (r : rid) (s : stream) : result :=
  uvstream_shutdown r (request_impl r (set_shutting s)).

(** [Stream::finalize_handle_shutdown]; [notify_on_shutdown] is [VNotify]. *)
Definition finalize_handle_shutdown (err : EC) (r : rid) (s : stream) : result :=
  (with_req (set_timer false) r (set_shutdown (negb (ec_bool err)) s), [inl (Done r (VNotify r err))]).

(** *** Reading *)

(** [Stream::handle_eof] *)
Definition handle_eof (s : stream) : result :=
  if negb (established s) then (s, []) else
  let s := clear_in_connected s in (s, invoke (last (_filters s)) FHandleEof).

(** [Stream::handle_read] *)
Definition handle_read (buf : string) (err : option error_code) (s : stream) : result :=
  if bool_decide (err = Some (Std connection_reset)) then handle_eof s
  else if has_flag IGNORE_READ (flags s) then (s, [])
  else (s, invoke (last (_filters s)) (FHandleRead buf (ec_opt err))).

(** [UVStream::on_read]; [nread] is a length or an error number, [None] for [UV_EOF]. *)
Definition on_read (buf : string) (nread : nat + option uv_errno) : list call :=
  match nread with
  | inl O => []
  | inl n => [inr (HandleRead (String.substring 0 n buf) None)]
  | inr None => [inr HandleEof]
  | inr (Some e) => [inr (HandleRead EmptyString (Some (uvx_error e)))]
  end.

(** *** Disconnecting, resetting *)

(** [Stream::disconnect]; [Stream::reset]; [Stream::clear] *)
Definition disconnect (r : rid) (qq : queue) (s : stream) : result :=
  if decide (queue_size qq = 0%nat) then (s, [inr DoReset])
  else if bool_decide (queue_size qq = 1%nat) && connecting s then (s, [inl (Cancel Nop DoReset None)])
  else (with_reqs (<[r := new_request KDisconnect [] 0]> (reqs s)) s, [inl (Push r)]).
Definition reset_stream : list call := [inl (Cancel Nop DoReset None)].
Definition clear_stream : list call := [inl (Cancel Nop DoClear None)].

(** [Tty::on_reset], and the empty one of the other streams *)
Definition on_reset (s : stream) : stream :=
  if tty s then (set_connect_result true (read_stop s)).1 else s.

(** [Stream::_reset], before and after the filters are reset *)
Definition do_reset (s : stream) : result :=
  let (h, u) := reset (hdl s) (uvs s) in
  let s := with_impl h u s in (s, invoke_sync FReset s ++ [inr ResetRest]).
Definition reset_rest (s : stream) : stream :=
  on_reset (with_wq 0 (with_flags (λ f, Z.land f DONTREAD) s)).

(** [Stream::_clear] *)
Definition do_clear (s : stream) : result :=
  let (h, u) := clear (hdl s) (uvs s) in
  let s := with_impl h u s in (s, invoke_sync FReset s ++ [inr ClearRest]).
Definition clear_rest (s : stream) : stream :=
  on_reset (with_callbacks no_callbacks (with_wq 0 (with_flags (λ _, 0) (with_filters [] s)))).

(** *** Listening and accepting *)

(** [Stream::listen] after the filters *)
Definition listen_rest (backlog : Z) (s : stream) : stream :=
  let (s, code) := on_impl (λ b, uv_listen b backlog) s in
  match code with
  | Some e => with_ret (ec_nest (Unievent listen_error) (ec_of (uvx_error e))) s
  | None => with_ret ec_ok (set_listening s)
  end.

(** What [Stream::accept(client)] does with the client, [err] being the result of
    the backend's [accept]; [areq]: the request it makes if the server has filters. *)
Definition accepted (err : option error_code) (s : stream) : stream :=
  match err with None => set_established (set_connecting s) | Some _ => s end.
Definition new_accept_request (r : rid) (s : stream) : stream :=
  with_reqs (<[r := new_request KAccept [] 0]> (reqs s)) s.
Definition accept_client (areq : option rid) (err : option error_code) (s : stream) : result :=
  let s := accepted err s in
  match areq with
  | Some r => (new_accept_request r s, [inr (User (OnEstablishClient (ec_opt err))); inl (Push r)])
  | None => (s, [inr (User (OnEstablishClient (ec_opt err))); inr (FinalizeConnection None (ec_opt err))])
  end.

(** [Stream::finalize_handle_connection]: the state of the client and the error that
    is told; and the whole of it for a client. *)
Definition connection_result (connection_err : EC) (s : stream) : stream * EC :=
  if negb (ec_bool connection_err) then
    let (s, e) := set_connect_result true s in
    (s, match e with Some e => ec_nest (Unievent read_start_error) (ec_of e) | None => ec_ok end)
  else ((set_connect_result false s).1, connection_err).
Definition finalize_handle_connection (areq : option rid) (connection_err : EC) (s : stream) : result :=
  let (s, err) := connection_result connection_err s in
  (s, match areq with Some r => [inl (Done r Nop)] | None => [] end ++ [inr (User (OnConnection err))]).

(** *** Filters *)

(** The loop of [Stream::add_filter]: a filter of the same type is replaced. *)
Fixpoint replace_filter (f : fid) (l : list fid) : option (list fid) :=
  match l with
  | [] => None
  | g :: l => if decide (f_type g = f_type f) then Some (f :: l) else cons g <$> replace_filter f l
  end.

(** Insertion before the first filter of a greater priority. *)
Fixpoint insert_filter (f : fid) (l : list fid) : list fid :=
  match l with
  | [] => [f]
  | g :: l' => if decide (f_priority f < f_priority g) then f :: l else g :: insert_filter f l'
  end.

Definition add_filter (f : fid) (l : list fid) : list fid :=
  match replace_filter f l with Some l => l | None => insert_filter f l end.

(** [Stream::remove_filter] *)
Definition remove_filter (f : fid) (l : list fid) : list fid := filter (λ g, g ≠ f) l.

(** [_check_change_filters] *)
Definition check_change_filters (force : bool) (s : stream) : bool :=
  force || negb (connecting s || established s).

(** [Stream::get_filter] *)
Definition get_filter (type : nat) (l : list fid) : option fid := head (filter (λ f, f_type f = type) l).

(** [Stream::push_ahead_filter], [Stream::push_behind_filter], [Stream::is_secure] *)
Definition push_ahead_filter (f : fid) (l : list fid) : list fid := f :: l.
Definition push_behind_filter (f : fid) (l : list fid) : list fid := l ++ [f].
Definition is_secure (ssl_type : nat) (l : list fid) : bool := bool_decide (is_Some (get_filter ssl_type l)).

(** [Stream::write_queue_size] *)
Definition write_queue_size (s : stream) : stream * Z :=
  let (s, b) := stream_impl s in (s, _wq_size s +₆₄ uv_write_queue_size b (uvs s)).

(** *** The dispatch of the calls *)

(** [Tcp::connect], [Pipe::connect], [Stream::run_in_order] *)
Definition tcp_connect (r : rid) (addr : option A) (to : place) (cached : bool) (t : Z) (s : stream) : result :=
  (with_reqs (<[r := new_request (KTcpConnect addr to cached) [] t]> (reqs s)) s, [inl (Push r)]).
Definition pipe_connect (r : rid) (name : string) (t : Z) (s : stream) : result :=
  (with_reqs (<[r := new_request (KPipeConnect name) [] t]> (reqs s)) s, [inl (Push r)]).
Definition run_in_order (r : rid) (qq : queue) (s : stream) : result :=
  if decide (queue_size qq = 0%nat) then (s, [inr (User (RunCode r))])
  else (with_reqs (<[r := new_request KRunInOrder [] 0]> (reqs s)) s, [inl (Push r)]).

Definition change_filters (force : bool) (f : list fid → list fid) (s : stream) : stream * outcome call Exn :=
  if check_change_filters force s then (with_filters (f (_filters s)) s, Calls []) else (s, Throws filters_error).

(** The public methods. *)
Definition stream_api (a : sapi A) (qq : queue) (s : stream) : stream * outcome call Exn :=
  let lift (x : result) := (x.1, Calls x.2) in
  match a with
  | Listen n => (s, Calls (invoke_sync FListen s ++ [inr (ListenRest n)]))
  | TcpConnect r addr to cached t => lift (tcp_connect r addr to cached t s)
  | PipeConnect r name t => lift (pipe_connect r name t s)
  | Write r l => lift (write r (with_reqs (<[r := new_request KWrite l 0]> (reqs s)) s))
  | Shutdown r t => lift (shutdown r (with_reqs (<[r := new_request KShutdown [] t]> (reqs s)) s))
  | RunInOrder r => lift (run_in_order r qq s)
  | ReadStart => (read_start s, Calls [])
  | ReadStop => (read_stop s, Calls [])
  | ReadIgnore => (read_ignore s, Calls [])
  | Disconnect r => lift (disconnect r qq s)
  | ResetStream => (s, Calls reset_stream)
  | ClearStream => (s, Calls clear_stream)
  | AddFilter f force => change_filters force (add_filter f) s
  | RemoveFilter f force => change_filters force (remove_filter f) s
  | PushAheadFilter f force => change_filters force (push_ahead_filter f) s
  | PushBehindFilter f force => change_filters force (push_behind_filter f) s
  end.

(** [DisconnectRequest], [AcceptRequest], [RunInOrderRequest] *)
Definition disconnect_exec (r : rid) : list call := [inl (Done r DoReset)].
Definition disconnect_cancel (r : rid) : list call := [inl (Done r Nop)].
Definition accept_cancel (r : rid) : list call := [inl (Done r Nop)].
Definition run_in_order_exec (r : rid) : list call := [inl (Done r (User (RunCode r)))].
Definition run_in_order_event (err : EC) : outcome call Exn := if ec_bool err then Calls [] else Aborts.

(** The virtual method [exec] of the requests. *)
Definition request_exec (r : rid) (s : stream) : stream * outcome call Exn :=
  let lift (x : result) := (x.1, Calls x.2) in
  match reqs s !! r with
  | None => (s, Aborts)
  | Some q =>
      match kind q with
      | KTcpConnect _ _ _ => lift (tcp_connect_exec r q s)
      | KPipeConnect _ => lift (pipe_connect_exec r q s)
      | KWrite => lift (write_exec r q s)
      | KShutdown => lift (shutdown_exec r s)
      | KDisconnect => (s, Calls (disconnect_exec r))
      | KAccept => (s, Calls [])
      | KRunInOrder => (s, Calls (run_in_order_exec r))
      end
  end.

(** [Request::cancel]; [ShutdownRequest::cancel] *)
Definition base_cancel (r : rid) (q : sreq A) (err : EC) : list call :=
  match subreq q with Some p => [inr (VCancel p err)] | None => [inr (HandleEvent r err)] end.
Definition shutdown_cancel (r : rid) (q : sreq A) (err : EC) (s : stream) : result :=
  if timed_out q && ec_has err (Std operation_canceled)
  then (with_req (set_timed_out false) r s, base_cancel r q timed_out_err)
  else (s, base_cancel r q err).

(** The virtual method [cancel]. *)
Definition request_cancel (r : rid) (err : EC) (s : stream) : stream * outcome call Exn :=
  let lift (x : result) := (x.1, Calls x.2) in
  match reqs s !! r with
  | None => (s, Aborts)
  | Some q =>
      match kind q with
      | KDisconnect => (s, Calls (disconnect_cancel r))
      | KAccept => (s, Calls (accept_cancel r))
      | KShutdown => lift (shutdown_cancel r q err s)
      | _ => (s, Calls (base_cancel r q err))
      end
  end.

(** [ShutdownRequest::handle_event] *)
Definition shutdown_handle_event (r : rid) (q : sreq A) (err : EC) : list call :=
  invoke (last_filter q) (FHandleShutdown err r).

(** The virtual method [handle_event]. *)
Definition handle_event (r : rid) (err : EC) (s : stream) : stream * outcome call Exn :=
  let lift (x : result) := (x.1, Calls x.2) in
  match reqs s !! r with
  | None => (s, Aborts)
  | Some q =>
      match kind q with
      | KTcpConnect _ _ _ => lift (connect_handle_event r err (tcp_handle_event r q err s))
      | KPipeConnect _ => lift (connect_handle_event r err s)
      | KWrite => lift (write_handle_event r err s)
      | KShutdown => (s, Calls (shutdown_handle_event r q err))
      | KDisconnect | KAccept => (s, Calls [])
      | KRunInOrder => (s, run_in_order_event err)
      end
  end.

(** [Stream::notify_on_connect], [notify_on_write], [notify_on_shutdown] *)
Definition notify_on_connect (r : rid) (err : EC) : list call :=
  [inr (User (ReqEvent r err)); inr (User (OnConnect err r))].
Definition notify_on_write (r : rid) (err : EC) : list call :=
  [inr (User (ReqEvent r err)); inr (User (OnWrite err r))].
Definition notify_on_shutdown (r : rid) (err : EC) : list call :=
  [inr (User (ReqEvent r err)); inr (User (OnShutdown err r))].

(** The virtual method [notify]. *)
Definition request_notify (r : rid) (err : EC) (s : stream) : stream * outcome call Exn :=
  match reqs s !! r with
  | None => (s, Aborts)
  | Some q =>
      (s, match kind q with
          | KTcpConnect _ _ _ | KPipeConnect _ => Calls (notify_on_connect r err)
          | KWrite => Calls (notify_on_write r err)
          | KShutdown => Calls (notify_on_shutdown r err)
          | KDisconnect | KAccept => Calls []
          | KRunInOrder => run_in_order_event err
          end)
  end.

(** [Stream::finalize_handle_read], [finalize_handle_write], [finalize_handle_eof] *)
Definition finalize_handle_read (buf : string) (err : EC) : list call := [inr (User (OnRead buf err))].
Definition finalize_handle_write (err : EC) (r : rid) : list call := [inl (Done r (VNotify r err))].
Definition finalize_handle_eof : list call := [inr (User OnEof)].

(** The methods of the stream at the ends of the chain of filters. *)
Definition finalize (c : fcall EC) (qq : queue) (s : stream) : stream * outcome call Exn :=
  let lift (x : result) := (x.1, Calls x.2) in
  match c with
  | FTcpConnect r => tcp_finalize_connect r s
  | FPipeConnect r => pipe_finalize_connect r s
  | FHandleConnect err r => lift (finalize_handle_connect err r qq s)
  | FHandleRead buf err => (s, Calls (finalize_handle_read buf err))
  | FWrite r => finalize_write r s
  | FHandleWrite err r => (s, Calls (finalize_handle_write err r))
  | FHandleEof => (s, Calls finalize_handle_eof)
  | FShutdown r => lift (finalize_shutdown r s)
  | FHandleShutdown err r => lift (finalize_handle_shutdown err r s)
  | FListen | FReset => (s, Calls [])
  end.

(** A callback of the user. *)
Definition user_call (e : uevent EC) (s : stream) : stream * outcome call Exn :=
  let s := note e s in
  match user_code (callbacks s) e s with
  | (w, inl l) => (with_user w s, Calls ((λ a, inr (Api a)) <$> l))
  | (w, inr x) => (with_user w s, Throws x)
  end.

Definition stream_code (c : code) (qq : queue) (s : stream) : stream * outcome call Exn :=
  let lift (x : result) := (x.1, Calls x.2) in
  match c with
  | Nop => (s, Calls [])
  | Api a => stream_api a qq s
  | VExec r => request_exec r s
  | VCancel r err => request_cancel r err s
  | VNotify r err => request_notify r err s
  | HandleEvent r err => handle_event r err s
  | ConnectInvoke r err => (s, Calls (invoke (last_filter_of r s) (FHandleConnect err r)))
  | FilterCall f c => lift (filter_call f c s)
  | FilterApi f a => filter_api f a s
  | Finalize c => finalize c qq s
  | DoneConnect r err => (s, Calls [inl (Done r (VNotify r err))])
  | User e => user_call e s
  | ListenRest n => (listen_rest n s, Calls [])
  | DoReset => lift (do_reset s)
  | ResetRest => (reset_rest s, Calls [])
  | DoClear => lift (do_clear s)
  | ClearRest => (clear_rest s, Calls [])
  | HandleRead buf err => lift (handle_read buf err s)
  | HandleEof => lift (handle_eof s)
  | UvRead buf n => (s, Calls (on_read buf n))
  | OnComplete r st => lift (on_complete r st s)
  | OnTimer r => lift (on_timer r qq s)
  | OnResolve r res => lift (on_resolve r res s)
  | AcceptClient areq err => lift (accept_client areq err s)
  | FinalizeConnection areq err => lift (finalize_handle_connection areq err s)
  end.

(** A stream as a client of its queue. *)
Definition stream_client : client stream code EC Exn := {|
  v_exec := VExec; v_cancel := VCancel; v_notify := VNotify;
  v_destroy_impl := destroy_impl; v_capture := keep_exn;
  v_code := stream_code; canceled_err := ec_of (Std operation_canceled)
|}.

(** *** Streams that are open from the start *)

(** [uvx_sockaddr]; [Tcp::peeraddr] *)
Definition uvx_sockaddr (r : A + uv_errno) : excepted A error_code :=
  match r with inl a => inl a | inr e => inr (uvx_error e) end.
Definition tcp_peeraddr (s : stream) : stream * excepted A error_code :=
  let (s, b) := stream_impl s in
  (s, handle_fd_excepted sa_default (uvx_sockaddr (uv_tcp_getpeername b (uvs s)))).

(** [Tcp::open] of a socket that is given away *)
Definition tcp_open (sock : Z) (s : stream) : stream :=
  let (s, err) := on_impl (λ b, uv_tcp_open b sock) s in
  match uvx_ce err with
  | Some e => with_ret (ec_of e) s
  | None =>
      let (s, res) := tcp_peeraddr s in
      match res with
      | inl a =>
          if sa_bool a then let (s, err) := set_connect_result true s in with_ret (ec_opt err) s
          else with_ret ec_ok s
      | inr _ => with_ret ec_ok s
      end
  end.

(** The constructor of [Stream], [Tcp] and [Pipe], and that of [Tty]. *)
Definition new_stream (u : S) (c : C) (w : W) : stream :=
  let (u, b) := uv_init u in mkStream 0 [] 0 c (mkHandle (Some b) false) u ∅ false ec_ok [] [] w [].
Definition new_tty (u : S) (c : C) (w : W) : stream :=
  let (u, b) := uv_init u in
  let s := mkStream 0 [] 0 c (mkHandle (Some b) false) u ∅ true ec_ok [] [] w [] in
  (set_connect_result true (read_stop s)).1.
End Stream.
Arguments stream : clear implicits.
#[global] Arguments base_method : simpl never.
#[global] Arguments on_impl : simpl never.
#[global] Arguments stream_impl : simpl never.
#[global] Arguments request_impl : simpl never.
#[global] Arguments _read_start : simpl never.
#[global] Arguments read_start : simpl never.
#[global] Arguments read_stop : simpl never.
#[global] Arguments set_connect_result : simpl never.
#[global] Arguments on_reset : simpl never.
#[global] Arguments uvstream_write : simpl never.
#[global] Arguments uvstream_shutdown : simpl never.
#[global] Arguments uvtcp_connect : simpl never.
#[global] Arguments uvpipe_connect : simpl never.
#[global] Arguments clear_out_connected : simpl never.
#[global] Arguments clear_in_connected : simpl never.
#[global] Arguments set_shutdown : simpl never.
#[global] Arguments subreq_done : simpl never.

(** ** The state flags *)

(** Connected for reading or writing implies established. *)
Definition flags_ok (f : Z) : Prop := (Z.testbit f 3 = true ∨ Z.testbit f 4 = true) → Z.testbit f 2 = true.

Lemma has_flag_bit k f : 0 ≤ k → has_flag (2 ^ k) f = Z.testbit f k.
Proof.
  intros Hk. unfold has_flag.
  assert (Z.land f (2 ^ k) = if Z.testbit f k then 2 ^ k else 0) as ->.
  { apply Z.bits_inj'. intros n Hn. rewrite Z.land_spec, Z.pow2_bits_eqb by done.
    destruct (Z.eqb_spec k n) as [<-|N]; destruct (Z.testbit f k) eqn:E;
      rewrite ?E, ?Z.pow2_bits_eqb, ?Z.bits_0, ?andb_false_r, ?Z.eqb_refl by done; try done.
    symmetry. by apply Z.eqb_neq. }
  destruct (Z.testbit f k); simpl; [|done].
  rewrite (proj2 (Z.eqb_neq (2 ^ k) 0)); [done|]. pose proof (Z.pow_pos_nonneg 2 k). lia.
Qed.

Lemma set_flag_bit m f k : Z.testbit (set_flag m f) k = Z.testbit f k || Z.testbit m k.
Proof. apply Z.lor_spec. Qed.
Lemma clear_flag_bit m f k : Z.testbit (clear_flag m f) k = Z.testbit f k && negb (Z.testbit m k).
Proof. apply Z.ldiff_spec. Qed.

(** Evaluate the bits of the flag constants. *)
Ltac is_flag m :=
  match m with
  | LISTENING => idtac | CONNECTING => idtac | ESTABLISHED => idtac | IN_CONNECTED => idtac | OUT_CONNECTED => idtac
  | DONTREAD => idtac | READING => idtac | SHUTTING => idtac | SHUT => idtac | IGNORE_READ => idtac
  | Z.lor ?a ?b => is_flag a; is_flag b
  end.
Ltac flag_bits :=
  rewrite ?set_flag_bit, ?clear_flag_bit, ?Z.land_spec, ?Z.bits_0;
  repeat match goal with
  | |- context [Z.testbit ?m ?k] =>
      is_flag m; let b := eval vm_compute in (Z.testbit m k) in change (Z.testbit m k) with b
  end; rewrite ?andb_true_r, ?andb_false_r, ?orb_true_r, ?orb_false_r; cbn [negb andb orb].

Lemma flags_ok_set m f : Z.testbit m 3 = false → Z.testbit m 4 = false → flags_ok f → flags_ok (set_flag m f).
Proof. unfold flags_ok. intros H3 H4 Hf. flag_bits. rewrite H3, H4, !orb_false_r. intros Hc. by rewrite Hf. Qed.

Lemma flags_ok_clear m f : Z.testbit m 2 = false → flags_ok f → flags_ok (clear_flag m f).
Proof.
  unfold flags_ok. intros H2 Hf. flag_bits. rewrite H2, andb_true_r. intros [[? _]%andb_prop|[? _]%andb_prop]; auto.
Qed.

Lemma flags_ok_connect f : flags_ok (set_flag (Z.lor (Z.lor IN_CONNECTED OUT_CONNECTED) ESTABLISHED) f).
Proof. intros _. by flag_bits. Qed.

Lemma flags_ok_0 : flags_ok 0.
Proof. unfold flags_ok. rewrite !Z.bits_0. by intros []. Qed.

Lemma flags_ok_dontread f : flags_ok (Z.land f DONTREAD).
Proof. unfold flags_ok. flag_bits. by intros []. Qed.

Create HintDb stream_flags.
#[export] Hint Resolve flags_ok_connect flags_ok_0 flags_ok_dontread : stream_flags.
#[export] Hint Extern 1 (flags_ok (set_flag _ _)) => (apply flags_ok_set; [reflexivity|reflexivity|]) : stream_flags.
#[export] Hint Extern 1 (flags_ok (clear_flag _ _)) => (apply flags_ok_clear; [reflexivity|]) : stream_flags.

Section Flags.
#[local] Set Default Proof Using "Type*".
Context {S B A EC W C Exn : Type} `{UvStream S B A} `{ErrorStack EC}.
Context (user_code : C → uevent EC → stream S B A EC W C Exn → W * (list (sapi A) + Exn)).
Context (no_callbacks : C).
Context (virt : fid → fcall EC → stream S B A EC W C Exn → option (W * list (fapi EC))).
Context (f_type : fid → nat) (f_priority : fid → Z).
Context (filters_error : Exn).
Implicit Types s : stream S B A EC W C Exn.

Abbreviation ok s := (flags_ok (flags s)).

Lemma clear_out_ok s : ok s → ok (clear_out_connected s).
Proof.
  intros Hs. unfold clear_out_connected, in_connected. simpl.
  change IN_CONNECTED with (2 ^ 3). rewrite has_flag_bit by done.
  flag_bits. unfold flags_ok in *. destruct (Z.testbit (flags s) 3) eqn:E3; cbn [flags with_flags]; flag_bits;
    rewrite ?E3; intros Hc; [apply Hs; by left|]. by destruct Hc.
Qed.

Lemma clear_in_ok s : ok s → ok (clear_in_connected s).
Proof.
  intros Hs. unfold clear_in_connected, out_connected. simpl.
  change OUT_CONNECTED with (2 ^ 4). rewrite has_flag_bit by done.
  flag_bits. unfold flags_ok in *. destruct (Z.testbit (flags s) 4) eqn:E4; cbn [flags with_flags]; flag_bits;
    rewrite ?E4; intros Hc; [apply Hs; by right|]. by destruct Hc.
Qed.

Lemma on_impl_flags {T} (f : B → S → S * T) s : flags (on_impl f s).1 = flags s.
Proof. unfold on_impl, stream_impl. by destruct (impl _ _) as [[h u] b], (f b _). Qed.

Lemma request_impl_flags r s : flags (request_impl r s) = flags s.
Proof. unfold request_impl, stream_impl. by destruct (impl _ _) as [[h u] b]. Qed.

Lemma set_shutdown_ok b s : ok s → ok (set_shutdown b s).
Proof.
  intros Hs. unfold set_shutdown. destruct b; [apply clear_out_ok|]; simpl; auto with stream_flags.
Qed.

Lemma read_start_ok' s : ok s → ok (_read_start s).1.
Proof.
  intros Hs. unfold _read_start. destruct (reading s || _); [done|].
  pose proof (on_impl_flags uv_read_start s) as F. destruct (on_impl uv_read_start s) as [s1 err]. simpl in F.
  destruct (uvx_ce err); simpl; rewrite F; auto with stream_flags.
Qed.

Lemma read_stop_ok s : ok s → ok (read_stop s).
Proof.
  intros Hs. unfold read_stop, set_wantread, set_reading. destruct (negb _); [simpl; auto with stream_flags|].
  pose proof (on_impl_flags (λ b u, (uv_read_stop b u, tt)) (with_flags (set_flag DONTREAD) s)) as F.
  destruct (on_impl _ _) as [s1 []]. simpl in *. rewrite F. auto with stream_flags.
Qed.

Lemma set_connect_result_ok b s : ok s → ok (set_connect_result b s).1.
Proof.
  intros Hs. unfold set_connect_result. destruct b; [|simpl; auto with stream_flags].
  destruct (wantread _); [apply read_start_ok'|]; simpl; auto with stream_flags.
Qed.

Lemma on_reset_ok s : ok s → ok (on_reset s).
Proof. intros Hs. unfold on_reset. destruct (tty s); [|done]. by apply set_connect_result_ok, read_stop_ok. Qed.

Lemma uvstream_write_flags r l s : flags (uvstream_write r l s).1.1 = flags s.
Proof.
  unfold uvstream_write. pose proof (on_impl_flags (λ b, uv_write b r l) s) as F.
  destruct (on_impl _ s) as [s1 [e|]]; simpl in *; [done|].
  unfold stream_impl. destruct (impl _ _) as [[h u] b]. done.
Qed.

Lemma uvstream_shutdown_flags r s : flags (uvstream_shutdown r s).1 = flags s.
Proof.
  unfold uvstream_shutdown. pose proof (on_impl_flags (λ b, uv_shutdown b r) s) as F.
  by destruct (on_impl _ s) as [s1 [e|]].
Qed.

Lemma uvtcp_connect_flags r a s : flags (uvtcp_connect r a s).1 = flags s.
Proof.
  unfold uvtcp_connect. pose proof (on_impl_flags (λ b, uv_tcp_connect b r a) s) as F.
  by destruct (on_impl _ s) as [s1 [e|]].
Qed.

Lemma uvpipe_connect_flags r n s : flags (uvpipe_connect r n s).1 = flags s.
Proof.
  unfold uvpipe_connect. pose proof (on_impl_flags (λ b u, (uv_pipe_connect b r n u, tt)) s) as F.
  by destruct (on_impl _ s) as [s1 []].
Qed.

Lemma filter_down_flags f c r s : flags (filter_down f c r s).1 = flags s.
Proof. unfold filter_down. by destruct (next_filter f _). Qed.

Lemma base_method_flags f c s : flags (base_method f c s).1 = flags s.
Proof. destruct c; (apply filter_down_flags || done). Qed.

Lemma filter_api_ok f a s : ok s → ok (filter_api (Exn:=Exn) f a s).1.
Proof.
  intros Hs. destruct a; cbn [filter_api fst]; unfold subreq_tcp_connect, subreq_pipe_connect, subreq_write;
    unfold filter_tcp_connect, filter_pipe_connect, filter_write;
    rewrite ?base_method_flags, ?filter_down_flags; try exact Hs.
  - by apply read_start_ok'.
  - unfold filter_read_stop. destruct (wantread s); [done|]. by apply read_stop_ok.
  - unfold subreq_done. destruct (reqs s !! r) as [q|]; [|done]. destruct (subreq q); [done|]. by destruct (parent q).
Qed.

Lemma stream_api_ok a qq s : ok s → ok (stream_api f_type f_priority filters_error a qq s).1.
Proof.
  intros Hs. destruct a; cbn [stream_api fst]; try exact Hs.
  - unfold run_in_order. by case_decide.
  - unfold read_start. pose proof (read_start_ok' (with_flags (clear_flag IGNORE_READ) (set_wantread true s))) as R.
    destruct (_read_start _) as [s1 err]. simpl in *. auto with stream_flags.
  - by apply read_stop_ok.
  - simpl. auto with stream_flags.
  - unfold disconnect. case_decide; [done|]. by destruct (_ && _).
  - unfold change_filters. by destruct (check_change_filters _ _).
  - unfold change_filters. by destruct (check_change_filters _ _).
  - unfold change_filters. by destruct (check_change_filters _ _).
  - unfold change_filters. by destruct (check_change_filters _ _).
Qed.

Lemma request_exec_ok r s : ok s → ok (request_exec (Exn:=Exn) r s).1.
Proof.
  intros Hs. unfold request_exec. destruct (reqs s !! r) as [q|]; [|done].
  assert (ok (connect_exec r q s)) as Hc.
  { unfold connect_exec. destruct (timeout q =? 0); simpl; auto with stream_flags. }
  destruct (kind q); simpl; try done.
  - unfold tcp_connect_exec. by destruct (head _).
  - unfold pipe_connect_exec. by destruct (head _).
  - unfold write_exec. by destruct (negb _).
  - unfold shutdown_exec. by destruct (negb _).
Qed.

Lemma handle_event_ok r err s : ok s → ok (handle_event (Exn:=Exn) r err s).1.
Proof.
  intros Hs. unfold handle_event. destruct (reqs s !! r) as [q|]; [|done].
  destruct (kind q) as [addr host cached| | | | | |] eqn:K; simpl; try done.
  - assert (ok (tcp_handle_event r q err s)) as Ht.
    { unfold tcp_handle_event. rewrite K. simpl.
      destruct (_ && _), (resolving q); done. }
    destruct (ec_bool err); simpl; auto with stream_flags.
  - destruct (ec_bool err); simpl; auto with stream_flags.
  - destruct (ec_has err _); [by apply clear_out_ok|done].
Qed.

Lemma finalize_ok c qq s : ok s → ok (finalize (Exn:=Exn) c qq s).1.
Proof.
  intros Hs. destruct c as [r|r|err r|buf err|r|err r| |r|err r| |]; cbn [finalize fst]; try exact Hs.
  - unfold tcp_finalize_connect. destruct (reqs s !! r) as [q|]; [|done].
    destruct (kind q) as [[a|] h ca| | | | | |]; try done.
    pose proof (uvtcp_connect_flags r a (request_impl r s)) as F.
    destruct (uvtcp_connect _ _ _) as [s1 e]. simpl in *. by rewrite F, request_impl_flags.
  - unfold pipe_finalize_connect. destruct (reqs s !! r) as [q|]; [|done].
    destruct (kind q) as [| n | | | | |]; try done.
    pose proof (uvpipe_connect_flags r n (request_impl r s)) as F.
    destruct (uvpipe_connect _ _ _) as [s1 e]. simpl in *. by rewrite F, request_impl_flags.
  - unfold finalize_handle_connect. destruct (negb (ec_bool err)).
    + pose proof (set_connect_result_ok true s Hs). destruct (set_connect_result true s) as [s1 e].
      by destruct (_ || _).
    + pose proof (set_connect_result_ok false s Hs). destruct (set_connect_result false s) as [s1 e].
      by destruct (_ || _).
  - unfold finalize_write. destruct (reqs s !! r) as [q|]; [|done].
    pose proof (uvstream_write_flags r (bufs q) (request_impl r s)) as F.
    destruct (uvstream_write _ _ _) as [[s1 e] cs]. simpl in *. by rewrite F, request_impl_flags.
  - unfold finalize_shutdown. rewrite uvstream_shutdown_flags, request_impl_flags. simpl. auto with stream_flags.
  - unfold finalize_handle_shutdown. simpl. by apply set_shutdown_ok.
Qed.

(** Every function of the stream keeps the flags consistent. *)
Lemma stream_code_ok c qq s :
  ok s → ok (stream_code user_code no_callbacks virt f_type f_priority filters_error c qq s).1.
Proof.
  intros Hs. destruct c as [|a|r|r err|r err|r err|r err|f c|f a|c|r err|e|n| | | | |buf err| |buf n|r st|r|r res|areq err|areq err];
    cbn [stream_code fst]; try exact Hs.
  - by apply stream_api_ok.
  - by apply request_exec_ok.
  - unfold request_cancel. destruct (reqs s !! r) as [q|]; [|done]. destruct (kind q); try done. unfold shutdown_cancel. by destruct (_ && _).
  - unfold request_notify. by destruct (reqs s !! r).
  - by apply handle_event_ok.
  - unfold filter_call. destruct (virt f c s) as [[w l]|]; [done|]. by rewrite base_method_flags.
  - by apply filter_api_ok.
  - by apply finalize_ok.
  - unfold user_call. by destruct (user_code _ _ _) as [w [l|x]].
  - unfold listen_rest. pose proof (on_impl_flags (λ b, uv_listen b n) s) as F.
    destruct (on_impl _ s) as [s1 [e|]]; simpl in *; rewrite F; auto with stream_flags.
  - unfold do_reset. by destruct (reset _ _).
  - apply on_reset_ok. simpl. auto with stream_flags.
  - unfold do_clear. by destruct (clear _ _).
  - apply on_reset_ok. simpl. auto with stream_flags.
  - unfold handle_read, handle_eof. destruct (bool_decide _); [|by destruct (has_flag _ _)].
    destruct (negb _); [done|]. by apply clear_in_ok.
  - unfold handle_eof. destruct (negb _); [done|]. by apply clear_in_ok.
  - unfold on_complete. by destruct (reqs s !! r ≫= r_impl) as [[]|].
  - unfold on_timer. destruct (reqs s !! r) as [q|]; [|done]. destruct (negb _); [done|].
    destruct (kind q); try done. by destruct (prev_filter _ _).
  - unfold on_resolve. destruct (reqs s !! r) as [q|]; [|done]. destruct (negb _); [done|]. destruct res as [a|e]; [|done].
    match goal with |- context [uvtcp_connect r a ?x] => pose proof (uvtcp_connect_flags r a x) as F; destruct (uvtcp_connect r a x) as [s1 e] end.
    simpl in *. by rewrite F, request_impl_flags.
  - unfold accept_client, accepted. destruct err, areq; simpl; auto with stream_flags.
  - unfold finalize_handle_connection, connection_result. destruct (negb (ec_bool err)).
    + pose proof (set_connect_result_ok true s Hs). by destruct (set_connect_result true s) as [s1 e].
    + by pose proof (set_connect_result_ok false s Hs).
Qed.
End Flags.

(** ** The chain of filters *)

Lemma next_filter_app f l1 l2 : f ∉ l1 → next_filter f (l1 ++ f :: l2) = head l2.
Proof.
  induction l1 as [|g l1 IH]; simpl; intros Hf; [by rewrite decide_True|].
  apply not_elem_of_cons in Hf as [N Hf]. rewrite decide_False by done. auto.
Qed.

Lemma prev_filter_None f l : f ∉ tail l → prev_filter f l = None.
Proof.
  induction l as [|g [|h l] IH]; intros Hf; [done..|]. simpl in Hf. apply not_elem_of_cons in Hf as [N Hf].
  simpl. rewrite decide_False by done. by apply IH.
Qed.

Lemma prev_filter_app f l1 l2 : f ∉ l1 → f ∉ l2 → prev_filter f (l1 ++ f :: l2) = last l1.
Proof.
  intros Hf Hf2. induction l1 as [|g l1 IH]; [by apply prev_filter_None|].
  apply not_elem_of_cons in Hf as [N Hf]. specialize (IH Hf). destruct l1 as [|h l1]; simpl in *.
  - by rewrite decide_True.
  - rewrite decide_False by (intros ->; apply Hf; by left). exact IH.
Qed.

(** A filter goes before those of a greater priority. *)
Definition priority_le (f_priority : fid → Z) (f g : fid) : Prop := f_priority f ≤ f_priority g.

Section AddFilter.
Context (f_type : fid → nat) (f_priority : fid → Z).

Abbreviation sorted := (StronglySorted (priority_le f_priority)).
Abbreviation lookup_f t l := (get_filter f_type t l).

Lemma insert_filter_elem f l g : g ∈ insert_filter f_priority f l ↔ g = f ∨ g ∈ l.
Proof.
  clear f_type. induction l as [|h l IH]; simpl; [rewrite elem_of_cons; tauto|].
  case_decide; rewrite !elem_of_cons, ?IH; tauto.
Qed.

Lemma insert_filter_sorted f l : sorted l → sorted (insert_filter f_priority f l).
Proof.
  clear f_type. induction 1 as [|h l Hl IH Hh]; simpl; [repeat constructor|].
  case_decide as Hc.
  - constructor; [by constructor|]. constructor; [unfold priority_le; lia|].
    eapply Forall_impl; [exact Hh|]. unfold priority_le. intros; lia.
  - constructor; [done|]. apply Forall_forall. intros g Hg. apply insert_filter_elem in Hg as [->|Hg].
    + unfold priority_le. lia.
    + rewrite Forall_forall in Hh. by apply Hh.
Qed.

Lemma replace_filter_None f l : replace_filter f_type f l = None ↔ ∀ g, g ∈ l → f_type g ≠ f_type f.
Proof. clear f_priority.
  induction l as [|h l IH]; simpl; [split; [set_solver|done]|].
  case_decide as Hc; [split; [done|]; intros Hn; destruct (Hn h); [by left|done]|].
  destruct (replace_filter f_type f l) as [l'|]; simpl.
  - split; [done|]. intros Hn. assert (Some l' = None) as [=]. apply IH. intros g Hg. apply Hn. by right.
  - split; [|done]. intros _ g [->|Hg]%elem_of_cons; [done|]. by apply IH.
Qed.

Lemma replace_filter_Some f l l' :
  replace_filter f_type f l = Some l' →
  ∃ l1 g l2, l = l1 ++ g :: l2 ∧ l' = l1 ++ f :: l2 ∧ f_type g = f_type f ∧ ∀ h, h ∈ l1 → f_type h ≠ f_type f.
Proof. clear f_priority.
  revert l'. induction l as [|h l IH]; intros l'; simpl; [done|].
  case_decide as Hc.
  - intros [= <-]. exists [], h, l. split_and!; try done. by intros ? ?%elem_of_nil.
  - destruct (replace_filter f_type f l) as [l0|]; [|done]. intros [= <-].
    destruct (IH l0 eq_refl) as (l1 & g & l2 & -> & -> & Hg & Hn).
    exists (h :: l1), g, l2. split_and!; try done. intros h' [->|Hh']%elem_of_cons; auto.
Qed.

Lemma get_filter_cons t f l : lookup_f t (f :: l) = if decide (f_type f = t) then Some f else lookup_f t l.
Proof. clear f_priority. unfold get_filter. rewrite filter_cons. by case_decide. Qed.

Lemma get_filter_app t l1 l2 : lookup_f t (l1 ++ l2) = match lookup_f t l1 with Some f => Some f | None => lookup_f t l2 end.
Proof. clear f_priority.
  induction l1 as [|f l1 IH]; [done|]. rewrite <-app_comm_cons, !get_filter_cons. by case_decide.
Qed.

Lemma get_filter_None t l : lookup_f t l = None ↔ ∀ g, g ∈ l → f_type g ≠ t.
Proof. clear f_priority.
  induction l as [|f l IH]; [split; [set_solver|done]|]. rewrite get_filter_cons. case_decide.
  - split; [done|]. intros Hn. by destruct (Hn f); [left|].
  - rewrite IH. set_solver.
Qed.

Lemma insert_filter_get f l t :
  (∀ g, g ∈ l → f_type g ≠ f_type f) →
  lookup_f t (insert_filter f_priority f l) = if decide (t = f_type f) then Some f else lookup_f t l.
Proof.
  induction l as [|h l IH]; intros Hn; cbn [insert_filter]; [rewrite get_filter_cons; repeat case_decide; congruence|].
  assert (f_type h ≠ f_type f) by (apply Hn; by left).
  destruct (decide (f_priority f < f_priority h)); rewrite !get_filter_cons; [repeat case_decide; congruence|].
  rewrite IH by (intros g Hg; apply Hn; by right). repeat case_decide; congruence.
Qed.

Lemma add_filter_spec f l :
  (∀ g, g ∈ l → f_type g = f_type f → f_priority g = f_priority f) →
  sorted l → sorted (add_filter f_type f_priority f l) ∧
  ∀ t, lookup_f t (add_filter f_type f_priority f l) = if decide (t = f_type f) then Some f else lookup_f t l.
Proof.
  intros Hp Hs. unfold add_filter. destruct (replace_filter f_type f l) as [l'|] eqn:E.
  - apply replace_filter_Some in E as (l1 & g & l2 & -> & -> & Hg & Hn). split.
    + assert (f_priority g = f_priority f) as Eq by (apply Hp; [apply elem_of_app; right; by left|done]).
      clear -Hs Eq. induction l1 as [|h l1 IH]; simpl in *; inversion Hs as [|? ? Hs1 Hf]; subst.
      * constructor; [done|]. eapply Forall_impl; [exact Hf|]. unfold priority_le. intros; simpl in *; lia.
      * constructor; [by apply IH|]. apply Forall_app in Hf as [Hf1 Hf2]. inversion Hf2; subst.
        apply Forall_app; split; [done|]. constructor; [unfold priority_le in *; lia|done].
    + intros t. rewrite !get_filter_app, !get_filter_cons.
      assert (lookup_f (f_type f) l1 = None) as H1 by by apply get_filter_None.
      case_decide; subst; [by rewrite H1, decide_True|]. by destruct (lookup_f t l1); rewrite ?decide_False by congruence.
  - rewrite replace_filter_None in E. split; [by apply insert_filter_sorted|]. intros t. by apply insert_filter_get.
Qed.

Lemma remove_filter_spec f l t :
  lookup_f t l = Some f → NoDup (f_type <$> l) →
  lookup_f t (remove_filter f l) = None.
Proof. clear f_priority.
  intros Hl Hnd. apply get_filter_None. intros g Hg Ht. unfold remove_filter in Hg.
  apply list_elem_of_filter in Hg as [Hne Hg].
  induction l as [|h l IH]; [by apply elem_of_nil in Hg|].
  simpl in Hnd. apply NoDup_cons in Hnd as [Hh Hnd]. rewrite get_filter_cons in Hl.
  apply elem_of_cons in Hg as [->|Hg].
  - case_decide; congruence.
  - case_decide as Hd; [|by apply IH]. injection Hl as ->. apply Hh. rewrite Hd, <-Ht. by apply list_elem_of_fmap_2.
Qed.
End AddFilter.

Section Transparent.
#[local] Set Default Proof Using "Type*".
Context {S B A EC W C Exn D : Type} `{UvStream S B A} `{ErrorStack EC} `{DelayLaws D (closure (scode A EC))}.
Context (user_code : C → uevent EC → stream S B A EC W C Exn → W * (list (sapi A) + Exn)).
Context (no_callbacks : C).
Context (virt : fid → fcall EC → stream S B A EC W C Exn → option (W * list (fapi EC))).
Context (f_type : fid → nat) (f_priority : fid → Z).
Context (filters_error : Exn).
Implicit Types s : stream S B A EC W C Exn.

Abbreviation sclient := (stream_client user_code no_callbacks virt f_type f_priority filters_error).
Abbreviation sworld := (world (stream S B A EC W C Exn) Exn D).
Abbreviation sprog := (queue_program (D:=D) sclient).
Abbreviation frames l := (Frame (Exn:=Exn) <$> ((λ c : qapi (scode A EC) + scode A EC, match c with inl a => CApi a | inr u => CCode u end) <$> l)).

(** Run the code on top of the stack. *)
Lemma scode_step c (w : sworld) k s cs :
  stream_code user_code no_callbacks virt f_type f_priority filters_error c (q w) (ext w) = (s, Calls cs) →
  step sprog (Config (Frame (CCode c) :: k) w Normal) = Some (Config (frames cs ++ k) (with_ext s w) Normal).
Proof. intros V. rewrite (code_step sclient c k w s (Calls cs) V). done. Qed.

Context (Hvirt : ∀ f c s, virt f c s = None).

Lemma filter_step f c (w : sworld) k s cs :
  base_method f c (ext w) = (s, cs) →
  step sprog (Config (Frame (CCode (FilterCall f c)) :: k) w Normal) = Some (Config (frames cs ++ k) (with_ext s w) Normal).
Proof. intros Hb. apply scode_step. simpl. unfold filter_call. by rewrite Hvirt, Hb. Qed.

(** The calls on the way to the backend. *)
Definition down_call (r : rid) (c : fcall EC) : Prop :=
  c = FTcpConnect r ∨ c = FPipeConnect r ∨ c = FWrite r ∨ c = FShutdown r.

(** The calls on the way back to the user. *)
Definition up_call (c : fcall EC) : bool :=
  match c with
  | FHandleConnect _ _ | FHandleRead _ _ | FHandleWrite _ _ | FHandleEof | FHandleShutdown _ _ => true
  | _ => false
  end.

Lemma down_method f r c s next :
  down_call r c → next_filter f (_filters s) = next →
  base_method f c s =
    (match next with Some g => with_req (set_last_filter (Some g)) r s | None => s end, invoke next c).
Proof. intros [->|[->|[->| ->]]] <-; reflexivity. Qed.

Lemma up_method f c s : up_call c → base_method f c s = (s, invoke (prev_filter f (_filters s)) c).
Proof. by destruct c. Qed.

Lemma with_last_filter_twice r f g s :
  with_req (set_last_filter f) r (with_req (set_last_filter g) r s) = with_req (set_last_filter f) r s.
Proof.
  unfold with_req, with_reqs. simpl. f_equal. apply map_eq. intros i. rewrite !lookup_alter.
  rewrite (decide_True _ _ (eq_refl r)). case_decide; [|done]. by destruct (reqs s !! r).
Qed.

Lemma down_chain r c l2 : ∀ l1 f (w : sworld) k,
  down_call r c → _filters (ext w) = l1 ++ f :: l2 → NoDup (l1 ++ f :: l2) →
  steps sprog
    (Config (Frame (CCode (FilterCall f c)) :: k)
      (with_ext (with_req (set_last_filter (Some f)) r (ext w)) w) Normal)
    (Config (Frame (CCode (Finalize c)) :: k)
      (with_ext (with_req (set_last_filter (last (l1 ++ f :: l2))) r (ext w)) w) Normal).
Proof.
  induction l2 as [|g l2 IH]; intros l1 f w k Hc Hl Hnd;
    pose proof (proj1 (NoDup_app _ _) Hnd) as (_ & Hf & _);
    assert (f ∉ l1) as Hf1 by (intros Hi; apply (Hf f Hi); by left).
  - apply steps_once. rewrite last_snoc.
    apply (filter_step f c (with_ext (with_req (set_last_filter (Some f)) r (ext w)) w) k
      (with_req (set_last_filter (Some f)) r (ext w)) [inr (Finalize c)]).
    rewrite (down_method f r c _ None); [done|done|]. simpl. by rewrite Hl, next_filter_app.
  - eapply steps_cons.
    + apply (filter_step f c (with_ext (with_req (set_last_filter (Some f)) r (ext w)) w) k
        (with_req (set_last_filter (Some g)) r (with_req (set_last_filter (Some f)) r (ext w))) [inr (FilterCall g c)]).
      rewrite (down_method f r c _ (Some g)); [done|done|]. simpl. by rewrite Hl, next_filter_app.
    + rewrite with_last_filter_twice. replace (l1 ++ f :: g :: l2) with ((l1 ++ [f]) ++ g :: l2) in * by by rewrite <-app_assoc.
      by apply (IH (l1 ++ [f]) g w k).
Qed.

Lemma up_chain c l1 : ∀ f l2 (w : sworld) k,
  up_call c → _filters (ext w) = l1 ++ f :: l2 → NoDup (l1 ++ f :: l2) →
  steps sprog (Config (Frame (CCode (FilterCall f c)) :: k) w Normal) (Config (Frame (CCode (Finalize c)) :: k) w Normal).
Proof.
  induction l1 as [|g l1 IH] using rev_ind; intros f l2 w k Hc Hl Hnd;
    pose proof (proj1 (NoDup_app _ _) Hnd) as (_ & Hf & [Hf2 _]%NoDup_cons).
  - apply steps_once. rewrite (filter_step f c w k (ext w) [inr (Finalize c)]); [by rewrite (with_ext_id sclient w)|].
    rewrite up_method by done. rewrite Hl, prev_filter_app by (done || by intros ?%elem_of_nil). done.
  - eapply steps_cons.
    + rewrite (filter_step f c w k (ext w) [inr (FilterCall g c)]); [by rewrite (with_ext_id sclient w)|].
      rewrite up_method by done. rewrite Hl, prev_filter_app by (done || (intros Hi; apply (Hf f Hi); by left)).
      by rewrite last_snoc.
    + rewrite <-app_assoc in Hl, Hnd. simpl in Hl, Hnd. by apply (IH g (f :: l2)).
Qed.
End Transparent.

(** ** Cancelling the requests of a stream without filters *)

(** The error that the cancellation of a request reports, and the user code it
    calls; [notify_log] is the part that a delayed callback still has to call. *)
Definition cancel_err {A EC} `{ErrorStack EC} (q : sreq A) : EC :=
  match kind q with
  | KShutdown => if timed_out q then timed_out_err else ec_of (Std operation_canceled)
  | _ => ec_of (Std operation_canceled)
  end.
Definition notify_log {A EC} (r : rid) (err : EC) (k : rkind A) : list (uevent EC) :=
  match k with
  | KTcpConnect _ _ _ | KPipeConnect _ => [ReqEvent r err; OnConnect err r]
  | KWrite => [ReqEvent r err; OnWrite err r]
  | KShutdown => [ReqEvent r err; OnShutdown err r]
  | KDisconnect | KAccept | KRunInOrder => []
  end.
Definition cancel_log {A EC} `{ErrorStack EC} (r : rid) (q : sreq A) : list (uevent EC) :=
  match kind q with
  | KTcpConnect _ _ _ | KPipeConnect _ => OnEstablish (cancel_err q) r :: notify_log r (cancel_err q) (kind q)
  | k => notify_log r (cancel_err q) k
  end.

(** A request that the stream can cancel: not one of [run_in_order]. *)
Definition can_cancel {A} (q : sreq A) : Prop :=
  kind q ≠ KRunInOrder ∧ subreq q = None ∧ last_filter q = None.

Section Cancelling.
#[local] Set Default Proof Using "Type*".
Context {S B A EC W C Exn D : Type} `{UvStream S B A} `{ErrorStack EC} `{DelayLaws D (closure (scode A EC))}.
Context (user_code : C → uevent EC → stream S B A EC W C Exn → W * (list (sapi A) + Exn)).
Context (no_callbacks : C).
Context (virt : fid → fcall EC → stream S B A EC W C Exn → option (W * list (fapi EC))).
Context (f_type : fid → nat) (f_priority : fid → Z).
Context (filters_error : Exn).
Implicit Types s : stream S B A EC W C Exn.

Abbreviation sclient := (stream_client user_code no_callbacks virt f_type f_priority filters_error).
Abbreviation scode_of := (stream_code user_code no_callbacks virt f_type f_priority filters_error).
Abbreviation sworld := (world (stream S B A EC W C Exn) Exn D).
Abbreviation sprog := (queue_program (D:=D) sclient).
Abbreviation canceled := (ec_of (EC:=EC) (Std operation_canceled)).

(** The user's callbacks call nothing. *)
Definition user_idle : Prop := ∀ c e s, ∃ w, user_code c e s = (w, inl []).

(** What the code below keeps: the second stream is the first one but for the
    request [r], the flags that are not [DONTREAD], the user's state and what
    was called. *)
Record keeps_stream (r : rid) (es : list (uevent EC)) s s' : Prop := {
  ks_filters : _filters s' = _filters s;
  ks_dontread : Z.land (flags s') DONTREAD = Z.land (flags s) DONTREAD;
  ks_hdl : hdl s' = hdl s;
  ks_uvs : uvs s' = uvs s;
  ks_tty : tty s' = tty s;
  ks_others i : i ≠ r → reqs s' !! i = reqs s !! i;
  ks_kind : kind <$> (reqs s' !! r) = kind <$> (reqs s !! r);
  ks_elog : elog s' = elog s ++ es
}.

Lemma keeps_refl r s : keeps_stream r [] s s.
Proof using Type. split; try done. by rewrite app_nil_r. Qed.

Lemma keeps_trans r es es' s1 s2 s3 :
  keeps_stream r es s1 s2 → keeps_stream r es' s2 s3 → keeps_stream r (es ++ es') s1 s3.
Proof using Type.
  intros [] []. split; try congruence.
  - intros i Hi. etrans; auto.
  - rewrite app_assoc. congruence.
Qed.

Lemma dontread_clear m f : Z.testbit m 5 = false → Z.land (clear_flag m f) DONTREAD = Z.land f DONTREAD.
Proof using Type.
  intros Hm. apply Z.bits_inj'. intros n Hn. rewrite !Z.land_spec, clear_flag_bit.
  change DONTREAD with (2 ^ 5). rewrite Z.pow2_bits_eqb by done.
  destruct (Z.eqb_spec 5 n) as [<-|]; [by rewrite Hm, andb_true_r|by rewrite !andb_false_r].
Qed.

Lemma dontread_set m f : Z.testbit m 5 = false → Z.land (set_flag m f) DONTREAD = Z.land f DONTREAD.
Proof using Type.
  intros Hm. apply Z.bits_inj'. intros n Hn. rewrite !Z.land_spec, set_flag_bit.
  change DONTREAD with (2 ^ 5). rewrite Z.pow2_bits_eqb by done.
  destruct (Z.eqb_spec 5 n) as [<-|]; [by rewrite Hm, orb_false_r|by rewrite !andb_false_r].
Qed.

Lemma keeps_flags r f s : Z.land (f (flags s)) DONTREAD = Z.land (flags s) DONTREAD → keeps_stream r [] s (with_flags f s).
Proof using Type. intros Hf. split; try done. by rewrite app_nil_r. Qed.

Lemma keeps_req r f s : (∀ q, kind (f q) = kind q) → keeps_stream r [] s (with_req f r s).
Proof using Type.
  intros Hf. split; try done; simpl.
  - intros i Hi. rewrite lookup_alter. by rewrite decide_False.
  - rewrite lookup_alter, decide_True by done. destruct (reqs s !! r) as [q|]; simpl; [by rewrite Hf|done].
  - by rewrite app_nil_r.
Qed.

Context (Hidle : user_idle).

Lemma user_runs r es us s :
  ∃ s1, keeps_stream r es s s1 ∧ reqs s1 = reqs s ∧
    ∀ s' o, runs sclient us s1 s' o → runs sclient ((User <$> es) ++ us) s s' o.
Proof.
  revert s. induction es as [|e es IH]; intros s; [exists s; split_and!; [apply keeps_refl|done|done]|].
  destruct (Hidle (callbacks (note e s)) e (note e s)) as [w Hw].
  destruct (IH (with_user w (note e s))) as (s1 & Hk & Hr & Hruns). exists s1. split_and!.
  - apply (keeps_trans r [e] es s (with_user w (note e s)) s1); [|done]. by split.
  - by rewrite Hr.
  - intros s' o Ho. simpl. apply (runs_code sclient (User e) _ []) with (x1 := with_user w (note e s)).
    + intros qq. simpl. unfold user_call. by rewrite Hw.
    + by apply Hruns.
Qed.

(** The callback of a request that is done. *)
Lemma notify_runs' r err s q :
  reqs s !! r = Some q → kind q ≠ KRunInOrder →
  ∃ s', runs sclient [VNotify r err] s s' None ∧ keeps_stream r (notify_log r err (kind q)) s s' ∧ reqs s' = reqs s.
Proof.
  intros Hq Hk. destruct (user_runs r (notify_log r err (kind q)) [] s) as (s1 & Hs & Hr & Hruns).
  exists s1. split_and!; try done.
  apply (runs_code sclient (VNotify r err) [] (User <$> notify_log r err (kind q))) with (x1 := s).
  - intros qq. simpl. unfold request_notify. rewrite Hq. by destruct (kind q).
  - apply Hruns. constructor.
Qed.

Lemma nop_runs (s : stream S B A EC W C Exn) : runs sclient [Nop] s s None.
Proof. apply (runs_code sclient Nop [] []) with (x1 := s); [done|constructor]. Qed.

(** The end of a request: [done] with the given callback code. *)
Lemma finishes_notify r err u es s s2 q :
  ends sclient r u s (VNotify r err) s2 → keeps_stream r es s s2 →
  reqs s2 !! r = Some q → kind q ≠ KRunInOrder →
  ∃ s', finishes sclient r u s s' ∧ keeps_stream r (es ++ notify_log r err (kind q)) s s'.
Proof.
  intros He Hk Hq Hn.
  assert (keeps_stream r [] s2 (destroy_impl r s2)) as Hd by by apply keeps_req.
  assert (∃ q', reqs (destroy_impl r s2) !! r = Some q' ∧ kind q' = kind q) as (q' & Hq' & Kq').
  { unfold destroy_impl. simpl. rewrite lookup_alter, decide_True, Hq by done. by eexists. }
  destruct (notify_runs' r err (destroy_impl r s2) q' Hq') as (s' & Hr & Hs & _); [by rewrite Kq'|].
  exists s'. split; [by econstructor|]. rewrite Kq' in Hs.
  eapply keeps_trans; [exact Hk|]. by apply (keeps_trans r [] _ _ (destroy_impl r s2)).
Qed.

Lemma ec_bool_no_error : ec_bool (ec_ok (EC:=EC)) = false.
Proof using Type. unfold ec_bool. by rewrite ec_codes_ok. Qed.

Lemma canceling_till qq : is_Some (cancel_till qq) → canceling qq = true.
Proof using Type. intros Ht. by apply bool_decide_true. Qed.

Lemma finalize_connect_canceled r err s qq :
  ec_bool err = true → canceling qq = true →
  scode_of (Finalize (FHandleConnect err r)) qq s =
    (with_req (set_timer false) r (with_flags (clear_flag CONNECTING) s), Calls [inl (Done r (VNotify r err))]).
Proof. intros He Hc. simpl. unfold finalize_handle_connect, set_connect_result. rewrite He. simpl. by rewrite He, Hc. Qed.

Lemma user_run e r s :
  ∃ s1, runs sclient [User e] s s1 None ∧ keeps_stream r [e] s s1 ∧ reqs s1 = reqs s.
Proof.
  destruct (user_runs r [e] [] s) as (s1 & Hs & Hr & Hruns). exists s1. split_and!; try done.
  apply Hruns. constructor.
Qed.

(** [ConnectRequest::handle_event] with an error, in a queue that is cancelled. *)
Lemma connect_ends r err u s s1 q :
  (∀ qq, scode_of u qq s = (s1, Calls [inr (User (OnEstablish err r)); inr (ConnectInvoke r err)])) →
  keeps_stream r [] s s1 → reqs s1 !! r = Some q → last_filter q = None → ec_bool err = true →
  ∃ s2, ends sclient r u s (VNotify r err) s2 ∧ keeps_stream r [OnEstablish err r] s s2.
Proof.
  intros Hu Hk Hq Hl He. destruct (user_run (OnEstablish err r) r s1) as (s2 & Hr & Hs2 & R2).
  eexists. split.
  - apply (ends_code sclient r u [User (OnEstablish err r)] (ConnectInvoke r err)) with (x1 := s1) (x2 := s2); [|done|].
    { intros qq _. apply Hu. }
    apply (ends_code sclient r (ConnectInvoke r err) [] (Finalize (FHandleConnect err r))) with (x1 := s2) (x2 := s2);
      [|constructor|].
    { intros qq _. simpl. unfold last_filter_of. rewrite R2, Hq. simpl. by rewrite Hl. }
    apply ends_done. intros qq Ht. apply finalize_connect_canceled; [done|by apply canceling_till].
  - apply (keeps_trans r [] _ _ s1); [done|]. rewrite <-(app_nil_r [_]). eapply keeps_trans; [exact Hs2|].
    apply (keeps_trans r [] [] _ (with_flags (clear_flag CONNECTING) s2)).
    + apply keeps_flags. by apply dontread_clear.
    + by apply keeps_req.
Qed.

Definition handle_log (r : rid) (err : EC) (k : rkind A) : list (uevent EC) :=
  match k with KTcpConnect _ _ _ | KPipeConnect _ => [OnEstablish err r] | _ => [] end.

Definition has_events (k : rkind A) : bool :=
  match k with KTcpConnect _ _ _ | KPipeConnect _ | KWrite | KShutdown => true | _ => false end.

Lemma tcp_handle_event_keeps r q err s :
  reqs s !! r = Some q → last_filter q = None →
  keeps_stream r [] s (tcp_handle_event r q err s) ∧
  ∃ q1, reqs (tcp_handle_event r q err s) !! r = Some q1 ∧ last_filter q1 = None.
Proof using Type.
  intros Hq Hl. unfold tcp_handle_event.
  set (s1 := match kind q with KTcpConnect _ _ _ => _ | _ => s end).
  assert (keeps_stream r [] s s1 ∧ reqs s1 = reqs s) as [Hk R1].
  { assert (keeps_stream r [] s s ∧ reqs s = reqs s) as Hs by (split; [apply keeps_refl|done]).
    unfold s1. destruct (kind q) as [addr host cached| | | | | |]; try exact Hs.
    destruct (_ && _); [|exact Hs]. split; [|done]. split; try done. by rewrite app_nil_r. }
  destruct (resolving q).
  - split; [apply (keeps_trans r [] [] _ s1); [done|by apply keeps_req]|].
    simpl. rewrite lookup_alter, decide_True, R1, Hq by done. by eexists.
  - split; [done|]. rewrite R1, Hq. by eexists.
Qed.

Lemma write_handle_keeps r err s :
  keeps_stream r [] s (if ec_has err (Std broken_pipe) then clear_out_connected s else s).
Proof using Type.
  destruct (ec_has err _); [|apply keeps_refl]. unfold clear_out_connected.
  assert (keeps_stream r [] s (with_flags (clear_flag OUT_CONNECTED) s)) as Hk by (apply keeps_flags; by apply dontread_clear).
  destruct (in_connected _); [done|]. eapply (keeps_trans r [] []); [exact Hk|]. apply keeps_flags. by apply dontread_clear.
Qed.

Lemma set_shutdown_keeps r s : keeps_stream r [] s (set_shutdown false s).
Proof using Type.
  unfold set_shutdown. apply (keeps_trans r [] [] _ (with_flags (clear_flag SHUTTING) s)); apply keeps_flags.
  - by apply dontread_clear.
  - by apply dontread_set.
Qed.

(** The end of a request by an error. *)
Lemma handle_ends r err s q :
  reqs s !! r = Some q → has_events (kind q) → last_filter q = None → ec_bool err = true →
  ∃ s2, ends sclient r (HandleEvent r err) s (VNotify r err) s2 ∧ keeps_stream r (handle_log r err (kind q)) s s2.
Proof.
  intros Hq Hk Hl He. destruct (kind q) as [addr host cached|name| | | | |] eqn:K; try done.
  - destruct (tcp_handle_event_keeps r q err s Hq Hl) as (Hs1 & q1 & Hq1 & L1).
    eapply (connect_ends r err _ s _ q1); try done.
    intros qq. simpl. unfold handle_event. rewrite Hq, K. simpl. by rewrite He.
  - eapply (connect_ends r err _ s s q); try done; [|apply keeps_refl].
    intros qq. simpl. unfold handle_event. rewrite Hq, K. simpl. by rewrite He.
  - set (s1 := if ec_has err (Std broken_pipe) then clear_out_connected s else s).
    assert (reqs s1 = reqs s) as R1.
    { unfold s1, clear_out_connected. destruct (ec_has err _); [|done]. by destruct (in_connected _). }
    exists s1. split; [|by apply write_handle_keeps].
    apply (ends_code sclient r _ [] (Finalize (FHandleWrite err r))) with (x1 := s1) (x2 := s1); [|constructor|].
    + intros qq _. simpl. unfold handle_event. rewrite Hq, K. simpl. unfold write_handle_event. fold s1.
      unfold last_filter_of. rewrite Hq. simpl. by rewrite Hl.
    + apply ends_done. by intros qq _.
  - exists (with_req (set_timer false) r (set_shutdown false s)). split.
    + apply (ends_code sclient r _ [] (Finalize (FHandleShutdown err r))) with (x1 := s) (x2 := s); [|constructor|].
      * intros qq _. simpl. unfold handle_event, shutdown_handle_event. by rewrite Hq, K, Hl.
      * apply ends_done. intros qq _. simpl. unfold finalize_handle_shutdown. by rewrite He.
    + apply (keeps_trans r [] [] _ (set_shutdown false s)); [apply set_shutdown_keeps|by apply keeps_req].
Qed.

Lemma cancel_log_eq r q : cancel_log r q = handle_log r (cancel_err q) (kind q) ++ notify_log r (cancel_err q) (kind q).
Proof using Type. unfold cancel_log. by destruct (kind q). Qed.

(** Cancelling one request. *)
Lemma cancel_request r s q :
  reqs s !! r = Some q → can_cancel q →
  ∃ s', finishes sclient r (VCancel r canceled) s s' ∧ keeps_stream r (cancel_log r q) s s'.
Proof.
  intros Hq (Hk & Hsub & Hl). rewrite cancel_log_eq.
  assert (ec_bool (cancel_err q) = true) as He.
  { unfold cancel_err. destruct (kind q); try apply ec_bool_of. destruct (timed_out q); apply ec_bool_of. }
  assert (ec_has canceled (Std operation_canceled) = true) as Hc by (rewrite ec_has_of; by apply bool_decide_true).
  destruct (has_events (kind q)) eqn:Hev.
  - assert (∃ s1 q1, (∀ qq, scode_of (VCancel r canceled) qq s = (s1, Calls [inr (HandleEvent r (cancel_err q))])) ∧
      keeps_stream r [] s s1 ∧ reqs s1 !! r = Some q1 ∧ kind q1 = kind q ∧ last_filter q1 = None) as (s1 & q1 & Hv & Hs1 & Hq1 & K1 & L1).
    { assert ((kind q = KShutdown ∧ timed_out q = true) ∨ ¬ (kind q = KShutdown ∧ timed_out q = true)) as [[K T]|N]
        by (destruct (kind q), (timed_out q); first [by left|by right; intros []]).
      - exists (with_req (set_timed_out false) r s), (set_timed_out false q). split_and!; try done.
        + intros qq. simpl. unfold request_cancel, shutdown_cancel, base_cancel, cancel_err. by rewrite Hq, K, T, Hc, Hsub.
        + by apply keeps_req.
        + simpl. by rewrite lookup_alter, decide_True, Hq.
      - exists s, q. split_and!; try done; [|apply keeps_refl].
        intros qq. simpl. unfold request_cancel, shutdown_cancel, base_cancel, cancel_err. rewrite Hq, Hsub.
        destruct (kind q) eqn:K; try done. destruct (timed_out q); [by destruct N|done]. }
    destruct (handle_ends r (cancel_err q) s1 q1) as (s2 & He2 & Hk2); [done|by rewrite K1, Hev|done|done|].
    assert (keeps_stream r (handle_log r (cancel_err q) (kind q)) s s2) as Hk02.
    { rewrite K1 in Hk2. by apply (keeps_trans r [] _ s s1). }
    pose proof (ks_kind _ _ _ _ Hk02) as Kd. rewrite Hq in Kd. simpl in Kd.
    destruct (reqs s2 !! r) as [q2|] eqn:Hq2; [|done]. simpl in Kd. injection Kd as Kd.
    destruct (finishes_notify r (cancel_err q) (VCancel r canceled) (handle_log r (cancel_err q) (kind q)) s s2 q2) as (s' & Hf & Hks);
      [|done|done|by rewrite Kd|].
    + apply (ends_code sclient r _ [] (HandleEvent r (cancel_err q))) with (x1 := s1) (x2 := s1); [intros qq _; apply Hv|constructor|done].
    + rewrite Kd in Hks. by exists s'.
  - exists (destroy_impl r s). split.
    + econstructor; [|apply nop_runs]. apply ends_done. intros qq _. simpl. unfold request_cancel. rewrite Hq.
      by destruct (kind q).
    + replace (handle_log _ _ _ ++ _) with ([] : list (uevent EC)) by by destruct (kind q).
      by apply keeps_req.
Qed.

(** What is called when all these requests are cancelled, and the delayed
    callbacks of the finalized ones notified. *)
Definition cancel_logs (m : gmap rid (sreq A)) (l : list rid) : list (uevent EC) :=
  concat ((λ r, match m !! r with Some q => cancel_log r q | None => [] end) <$> l).
Definition notify_logs (m : gmap rid (sreq A)) (l : list rid) : list (uevent EC) :=
  concat ((λ r, match m !! r with Some q => notify_log r canceled (kind q) | None => [] end) <$> l).

Definition all_cancellable (m : gmap rid (sreq A)) (l : list rid) : Prop :=
  ∀ r, r ∈ l → ∃ q, m !! r = Some q ∧ can_cancel q.

(** What stays of the stream while its requests are cancelled. *)
Record survives (es : list (uevent EC)) s s' : Prop := {
  sv_filters : _filters s' = _filters s;
  sv_dontread : Z.land (flags s') DONTREAD = Z.land (flags s) DONTREAD;
  sv_hdl : hdl s' = hdl s;
  sv_uvs : uvs s' = uvs s;
  sv_tty : tty s' = tty s;
  sv_elog : elog s' = elog s ++ es
}.

Lemma keeps_survives r es s s' : keeps_stream r es s s' → survives es s s'.
Proof using Type. by intros []. Qed.

Lemma survives_trans es es' s1 s2 s3 : survives es s1 s2 → survives es' s2 s3 → survives (es ++ es') s1 s3.
Proof using Type. intros [] []. split; try congruence. rewrite app_assoc. congruence. Qed.

Lemma survives_refl s : survives [] s s.
Proof using Type. split; try done. by rewrite app_nil_r. Qed.

Lemma logs_others r es s s' l :
  keeps_stream r es s s' → r ∉ l → cancel_logs (reqs s') l = cancel_logs (reqs s) l.
Proof using Type.
  intros [] Hr. unfold cancel_logs. f_equal. apply list_fmap_ext. intros i j Hj.
  rewrite ks_others0; [done|]. intros ->. apply Hr. by eapply list_elem_of_lookup_2.
Qed.

Lemma stream_drains l : ∀ s,
  NoDup l → all_cancellable (reqs s) l →
  ∃ s', drains sclient l s s' ∧ survives (cancel_logs (reqs s) l) s s'.
Proof.
  induction l as [|r l IH]; intros s Hnd Hall; [exists s; split; [constructor|apply survives_refl]|].
  apply NoDup_cons in Hnd as [Hr Hnd].
  destruct (Hall r) as (q & Hq & Hc); [by left|].
  destruct (cancel_request r s q Hq Hc) as (s1 & Hf & Hk).
  destruct (IH s1 Hnd) as (s' & Hd & Hs).
  { intros i Hi. destruct (Hall i) as (qi & Hqi & Hci); [by right|]. exists qi. split; [|done].
    rewrite (ks_others _ _ _ _ Hk); [done|]. by intros ->. }
  exists s'. split; [by econstructor|]. rewrite (logs_others r _ s s1 l Hk Hr) in Hs.
  unfold cancel_logs. simpl. rewrite Hq. eapply survives_trans; [by apply keeps_survives in Hk|exact Hs].
Qed.

Lemma stream_notified l : ∀ s,
  (∀ r, r ∈ l → ∃ q, reqs s !! r = Some q ∧ kind q ≠ KRunInOrder) →
  ∃ s', notified sclient l s s' ∧ survives (notify_logs (reqs s) l) s s' ∧ reqs s' = reqs s.
Proof.
  induction l as [|r l IH]; intros s Hall; [exists s; split_and!; [constructor|apply survives_refl|done]|].
  destruct (Hall r) as (q & Hq & Hk); [by left|].
  destruct (notify_runs' r canceled s q Hq Hk) as (s1 & Hr & Hk1 & R1).
  destruct (IH s1) as (s' & Hn & Hs & R2).
  { intros i Hi. rewrite R1. apply Hall. by right. }
  exists s'. split_and!; [by econstructor| |by rewrite R2].
  unfold notify_logs. simpl. rewrite Hq. rewrite R1 in Hs.
  eapply survives_trans; [by apply keeps_survives in Hk1|exact Hs].
Qed.

(** [Stream::_reset] of a stream without filters that is not a terminal. *)
Definition reset_stream_state s : stream S B A EC W C Exn :=
  let (h, u) := reset (hdl s) (uvs s) in
  with_wq 0 (with_flags (λ f, Z.land f DONTREAD) (with_impl h u s)).

Lemma do_reset_runs s :
  _filters s = [] → tty s = false → runs sclient [DoReset] s (reset_stream_state s) None.
Proof.
  intros Hf Ht. unfold reset_stream_state. destruct (reset (hdl s) (uvs s)) as [h u] eqn:R.
  apply (runs_code sclient DoReset [] [ResetRest]) with (x1 := with_impl h u s).
  { intros qq. simpl. unfold do_reset. rewrite R. unfold invoke_sync. simpl. by rewrite Hf. }
  apply (runs_code sclient ResetRest [] []) with
    (x1 := with_wq 0 (with_flags (λ f, Z.land f DONTREAD) (with_impl h u s))); [|constructor].
  intros qq. simpl. unfold reset_rest, on_reset. simpl. by rewrite Ht.
Qed.

(** The end of a reset: what the callers of [queue.cancel] reach. *)
Lemma cancel_reset_runs pre (w : sworld) k es l' :
  (∀ s1, survives (notify_logs (reqs (ext w)) (finalized_requests (q w))) (ext w) s1 → reqs s1 = reqs (ext w) →
    ∃ s2', prepares sclient pre (requests (q w)) s1 l' s2' ∧ survives es s1 s2' ∧
      cancel_logs (reqs s2') l' = cancel_logs (reqs (ext w)) l' ∧ all_cancellable (reqs s2') l') →
  _filters (ext w) = [] → tty (ext w) = false →
  (∀ r, r ∈ finalized_requests (q w) → ∃ q, reqs (ext w) !! r = Some q ∧ kind q ≠ KRunInOrder) →
  NoDup (requests (q w)) → NoDup l' → (∀ r, r ∈ requests (q w) → r ∈ async w) →
  (resume_recursion (q w) ≤ SPLIT_RECURSION)%nat →
  ∃ w' m, steps sprog (Config (Frame (CApi (Cancel pre DoReset None)) :: k) w Normal) (Config k w' m) ∧
    m ≠ Aborted ∧ qlog w' = qlog w ++ (EvDone <$> requests (q w)) ∧
    requests (q w') = [] ∧ finalized_requests (q w') = [] ∧ locked (q w') = locked (q w) ∧
    elog (ext w') = elog (ext w) ++ notify_logs (reqs (ext w)) (finalized_requests (q w)) ++ es ++ cancel_logs (reqs (ext w)) l' ∧
    flags (ext w') = Z.land (flags (ext w)) DONTREAD ∧ _wq_size (ext w') = 0 ∧
    hdl (ext w') = (reset (hdl (ext w)) (uvs (ext w))).1 ∧ uvs (ext w') = (reset (hdl (ext w)) (uvs (ext w))).2.
Proof.
  intros Hpre Hf Ht Hfin Hnd Hnd' As Re.
  destruct (stream_notified (finalized_requests (q w)) (ext w) Hfin) as (s1 & Hn & Hs1 & R1).
  destruct (Hpre s1 Hs1 R1) as (s2' & Hp & Hs2 & Hlog & Hall).
  destruct (stream_drains l' s2' Hnd' Hall) as (s3 & Hd & Hs3). rewrite Hlog in Hs3.
  pose proof (survives_trans _ _ _ _ _ Hs1 (survives_trans _ _ _ _ _ Hs2 Hs3)) as Hs.
  destruct Hs as [F Dr Hh Hu Ty El].
  destruct (cancel_runs sclient pre DoReset w k s1 l' s2' s3 (reset_stream_state s3) None Hn Hp Hd)
    as (w' & m & St & Hm & _ & Lo & Lg & Rq & Fi & _ & _ & Ex); try done.
  { apply do_reset_runs; congruence. }
  exists w', m. split_and!; try done; rewrite Ex; unfold reset_stream_state; rewrite Hh, Hu;
    destruct (reset (hdl (ext w)) (uvs (ext w))) as [h u]; simpl; congruence.
Qed.
End Cancelling.

(** ** Properties *)

(** C23: whatever the user, the filters and the backend do, in every reachable
    configuration a stream that is connected for reading or for writing is
    established. *)
Theorem stream_flags_consistent {S B A EC W C Exn D : Type}
    `{UvStream S B A} `{ErrorStack EC} `{DelayLaws D (closure (scode A EC))}
    (user_code : C → uevent EC → stream S B A EC W C Exn → W * (list (sapi A) + Exn)) (no_callbacks : C)
    (virt : fid → fcall EC → stream S B A EC W C Exn → option (W * list (fapi EC)))
    (f_type : fid → nat) (f_priority : fid → Z) (filters_error : Exn)
    (c : config (world (stream S B A EC W C Exn) Exn D) (frame (scode A EC) Exn) Exn)
    (Hreach : reachable (queue_program (stream_client user_code no_callbacks virt f_type f_priority filters_error))
       (λ w, queue_initial w ∧ ∃ u cbs us, ext w = new_stream u cbs us) queue_input c) :
  let s := ext (mem c) in
  (in_connected s = true ∨ out_connected s = true) → established s = true.
Proof.
  intros s. unfold in_connected, out_connected, established.
  change IN_CONNECTED with (2 ^ 3). change OUT_CONNECTED with (2 ^ 4). change ESTABLISHED with (2 ^ 2).
  rewrite !has_flag_bit by done.
  apply (client_invariant (stream_client user_code no_callbacks virt f_type f_priority filters_error)
    (λ s, flags_ok (flags s))).
  - intros u qq x Hx. by apply stream_code_ok.
  - done.
  - done.
  - eapply reachable_weaken; [|exact Hreach]. intros w [Hi (u & cbs & us & E)]. split; [done|]. rewrite E.
    unfold new_stream. destruct (uv_init u) as [u' b]. apply flags_ok_0.
Qed.

(** C24: filters that override nothing are transparent: a call goes down a chain of
    any length to the backend, where the request remembers the last filter, and a
    call on the way back goes up the chain to the user, nothing else being
    changed; the same end is reached as without filters. *)
Theorem stream_filters_transparent {S B A EC W C Exn D : Type}
    `{UvStream S B A} `{ErrorStack EC} `{DelayLaws D (closure (scode A EC))}
    (user_code : C → uevent EC → stream S B A EC W C Exn → W * (list (sapi A) + Exn)) (no_callbacks : C)
    (virt : fid → fcall EC → stream S B A EC W C Exn → option (W * list (fapi EC)))
    (f_type : fid → nat) (f_priority : fid → Z) (filters_error : Exn)
    (Hvirt : ∀ f c s, virt f c s = None)
    (w : world (stream S B A EC W C Exn) Exn D) (Hnd : NoDup (_filters (ext w))) :
  let prog := queue_program (stream_client user_code no_callbacks virt f_type f_priority filters_error) in
  let enter f c := match f with Some f => FilterCall f c | None => Finalize c end in
  let chain := _filters (ext w) in
  (∀ r c k, down_call r c →
     steps prog
       (Config (Frame (CCode (enter (head chain) c)) :: k)
         (with_ext (with_req (set_last_filter (head chain)) r (ext w)) w) Normal)
       (Config (Frame (CCode (Finalize c)) :: k)
         (with_ext (with_req (set_last_filter (last chain)) r (ext w)) w) Normal)) ∧
  (∀ c k, up_call c = true →
     steps prog (Config (Frame (CCode (enter (last chain) c)) :: k) w Normal)
       (Config (Frame (CCode (Finalize c)) :: k) w Normal)).
Proof.
  intros prog enter chain. unfold chain, enter. split.
  - intros r c k Hc. destruct (_filters (ext w)) as [|f l] eqn:Hl; [apply steps_refl|].
    apply (down_chain user_code no_callbacks virt f_type f_priority filters_error Hvirt r c l [] f w); [done|done|done].
  - intros c k Hc. destruct (last (_filters (ext w))) as [f|] eqn:Hl; [|apply steps_refl].
    apply last_Some in Hl as [l Hl]. rewrite Hl in Hnd.
    apply (up_chain user_code no_callbacks virt f_type f_priority filters_error Hvirt c l f [] w); [by rewrite Hc|done|done].
Qed.

(** The chain of filters is kept in the order of their priorities: adding a
    filter keeps it sorted, and afterwards the filter is the one found for its
    type, the others being found as before; a filter of the same type (and so of
    the same priority) is replaced. *)
Theorem stream_filters_ordered (f_type : fid → nat) (f_priority : fid → Z) (f : fid) (l : list fid)
    (Hprio : ∀ g, g ∈ l → f_type g = f_type f → f_priority g = f_priority f)
    (Hsorted : StronglySorted (priority_le f_priority) l) :
  StronglySorted (priority_le f_priority) (add_filter f_type f_priority f l) ∧
  ∀ t, get_filter f_type t (add_filter f_type f_priority f l) =
       if decide (t = f_type f) then Some f else get_filter f_type t l.
Proof. by apply add_filter_spec. Qed.

Lemma stream_filters_ordered_witness :
  add_filter (λ f, f) (λ f, Z.of_nat (f mod 10)%nat) 14%nat [11; 13; 15]%nat = [11; 13; 14; 15]%nat ∧
  StronglySorted (priority_le (λ f, Z.of_nat (f mod 10)%nat)) (add_filter (λ f, f) (λ f, Z.of_nat (f mod 10)%nat) 14%nat [11; 13; 15]%nat).
Proof.
  split; [reflexivity|].
  apply (stream_filters_ordered (λ f, f) (λ f, Z.of_nat (f mod 10)%nat) 14%nat [11; 13; 15]%nat).
  - by intros g _ ->.
  - repeat constructor; unfold priority_le; vm_compute; discriminate.
Defined.

(** C11: [reset] terminates and ends every request of the stream, in their order, each
    with its callbacks called with the status of the cancellation (a shutdown that timed
    out: with that), after the delayed callbacks of the requests that were done; and
    leaves the stream in its first state but for the wish not to read, without backend
    handle. This for a stream, not a [Tty], without filters, whose callbacks call nothing
    and throw nothing; whose queue has each request once, each of them pushed by a [push]
    that has returned, and none of them a [run_in_order] or a sub-request or on its way
    through a filter ([can_cancel]); and below the recursion limit of the queue. With a
    [run_in_order] in the queue it is false ([stream_reset_with_run_in_order]). *)
Theorem stream_reset_flushes {S B A EC W C Exn D : Type}
    `{UvStream S B A} `{ErrorStack EC} `{DelayLaws D (closure (scode A EC))}
    (user_code : C → uevent EC → stream S B A EC W C Exn → W * (list (sapi A) + Exn)) (no_callbacks : C)
    (virt : fid → fcall EC → stream S B A EC W C Exn → option (W * list (fapi EC)))
    (f_type : fid → nat) (f_priority : fid → Z) (filters_error : Exn)
    (w : world (stream S B A EC W C Exn) Exn D)
    (Hidle : user_idle user_code) (Hfil : _filters (ext w) = []) (Htty : tty (ext w) = false)
    (Hreq : all_cancellable (reqs (ext w)) (requests (q w)))
    (Hfin : all_cancellable (reqs (ext w)) (finalized_requests (q w)))
    (Hnd : NoDup (requests (q w))) (Hasync : ∀ r, r ∈ requests (q w) → r ∈ async w)
    (Hrec : (resume_recursion (q w) ≤ SPLIT_RECURSION)%nat) :
  ∃ w' m, steps (queue_program (stream_client user_code no_callbacks virt f_type f_priority filters_error))
      (Config [Frame (CCode (Api ResetStream))] w Normal) (Config [] w' m) ∧ m ≠ Aborted ∧
    qlog w' = qlog w ++ (EvDone <$> requests (q w)) ∧
    requests (q w') = [] ∧ finalized_requests (q w') = [] ∧
    elog (ext w') = elog (ext w) ++ notify_logs (reqs (ext w)) (finalized_requests (q w)) ++
      cancel_logs (reqs (ext w)) (requests (q w)) ∧
    flags (ext w') = Z.land (flags (ext w)) DONTREAD ∧ _wq_size (ext w') = 0 ∧ _impl (hdl (ext w')) = None.
Proof.
  destruct (cancel_reset_runs user_code no_callbacks virt f_type f_priority filters_error Hidle Nop w [] [] (requests (q w)))
    as (w' & m & St & Hm & Lg & Rq & Fi & _ & El & Fl & Wq & Hd & _); try done.
  - intros s1 _ R1. exists s1. split_and!; [|by split; rewrite ?app_nil_r|by rewrite R1|by rewrite R1].
    econstructor. by apply nop_runs.
  - intros r Hr. destruct (Hfin r Hr) as (q0 & Hq & Hc & _). by exists q0.
  - exists w', m. split_and!; try done.
    + eapply steps_cons; [|exact St]. unfold step. simpl.
      by rewrite (with_ext_id (stream_client user_code no_callbacks virt f_type f_priority filters_error)).
    + rewrite Hd. unfold reset. by destruct (_impl (hdl (ext w))) eqn:?.
Qed.

(** C12: when connecting fails, the connect request ends with the error, every
    request behind it is cancelled in order, and the stream is reset; all this terminates.
    For a stream, not a [Tty], without filters, whose callbacks call nothing and throw
    nothing; which is not cancelling and has no delayed callback; whose queue has each
    request once, each of them pushed by a [push] that has returned, and none behind the
    connect request a [run_in_order] or a sub-request or on its way through a filter
    ([can_cancel]); and below the recursion limit of the queue. *)
Theorem stream_connect_failure_flushes {S B A EC W C Exn D : Type}
    `{UvStream S B A} `{ErrorStack EC} `{DelayLaws D (closure (scode A EC))}
    (user_code : C → uevent EC → stream S B A EC W C Exn → W * (list (sapi A) + Exn)) (no_callbacks : C)
    (virt : fid → fcall EC → stream S B A EC W C Exn → option (W * list (fapi EC)))
    (f_type : fid → nat) (f_priority : fid → Z) (filters_error : Exn)
    (w : world (stream S B A EC W C Exn) Exn D) (r : rid) (q0 : sreq A) (rest : list rid) (err : EC)
    (Hidle : user_idle user_code) (Hfil : _filters (ext w) = []) (Htty : tty (ext w) = false)
    (Herr : ec_bool err = true) (Hcan : cancel_till (q w) = None)
    (Hhead : requests (q w) = r :: rest) (Hq0 : reqs (ext w) !! r = Some q0)
    (Hkind : match kind q0 with KTcpConnect _ _ _ | KPipeConnect _ => True | _ => False end)
    (Hreq : all_cancellable (reqs (ext w)) rest)
    (Hfin : finalized_requests (q w) = [])
    (Hnd : NoDup (r :: rest)) (Hasync : ∀ r', r' ∈ r :: rest → r' ∈ async w)
    (Hrec : (resume_recursion (q w) ≤ SPLIT_RECURSION)%nat) :
  ∃ w' m, steps (queue_program (stream_client user_code no_callbacks virt f_type f_priority filters_error))
      (Config [Frame (CCode (Finalize (FHandleConnect err r)))] w Normal) (Config [] w' m) ∧ m ≠ Aborted ∧
    qlog w' = qlog w ++ (EvDone <$> r :: rest) ∧
    requests (q w') = [] ∧ finalized_requests (q w') = [] ∧
    elog (ext w') = elog (ext w) ++ [ReqEvent r err; OnConnect err r] ++ cancel_logs (reqs (ext w)) rest ∧
    flags (ext w') = Z.land (flags (ext w)) DONTREAD ∧ _wq_size (ext w') = 0 ∧ _impl (hdl (ext w')) = None.
Proof.
  set (s1 := with_req (set_timer false) r (with_flags (clear_flag CONNECTING) (ext w))).
  assert (Hk1 : keeps_stream r [] (ext w) s1).
  { apply (keeps_trans r [] [] _ (with_flags (clear_flag CONNECTING) (ext w))).
    - apply keeps_flags. by apply dontread_clear.
    - by apply keeps_req. }
  apply NoDup_cons in Hnd as [Hr Hnd].
  assert (Hq1 : reqs s1 !! r = Some (set_timer false q0)).
  { unfold s1. simpl. by rewrite lookup_alter, decide_True, Hq0. }
  destruct (cancel_reset_runs user_code no_callbacks virt f_type f_priority filters_error Hidle (DoneConnect r err)
    (with_ext s1 w) [] [ReqEvent r err; OnConnect err r] rest)
    as (w' & m & St & Hm & Lg & Rq & Fi & _ & El & Fl & Wq & Hd & _); try done.
  - simpl. intros s2 Hs2 R2.
    destruct (finishes_notify user_code no_callbacks virt f_type f_priority filters_error Hidle r err (DoneConnect r err) [] s2 s2
      (set_timer false q0)) as (s3 & Hf & Hk3);
      [by apply ends_done|apply keeps_refl|by rewrite R2|simpl; by destruct (kind q0)|].
    exists s3. rewrite Hhead. split_and!.
    + by apply prepares_done.
    + simpl in Hk3. apply keeps_survives in Hk3. by destruct (kind q0).
    + rewrite (logs_others r _ s2 s3 rest Hk3 Hr), R2. done.
    + intros i Hi. destruct (Hreq i Hi) as (qi & Hqi & Hci). exists qi. split; [|done].
      rewrite (ks_others _ _ _ _ Hk3) by (intros ->; done). rewrite R2.
      rewrite (ks_others _ _ _ _ Hk1) by (intros ->; done). done.
  - intros i. simpl. rewrite Hfin. by intros ?%elem_of_nil.
  - simpl. rewrite Hhead. by apply NoDup_cons.
  - simpl. by rewrite Hhead.
  - simpl in Lg, El, Fl, Hd. rewrite Hhead in Lg. rewrite Hfin in El. unfold notify_logs in El. simpl in El.
    exists w', m. split_and!; try done.
    + eapply steps_cons; [|exact St].
      apply (scode_step user_code no_callbacks virt f_type f_priority filters_error
        (Finalize (FHandleConnect err r)) w [] s1 [inl (Cancel (DoneConnect r err) DoReset None)]).
      simpl. unfold finalize_handle_connect, set_connect_result, canceling. rewrite Herr. simpl. rewrite Herr, Hcan. done.
    + pose proof (logs_others r _ _ _ rest Hk1 Hr) as E. simpl in E. by rewrite El, E.
    + rewrite Fl. by apply dontread_clear.
    + rewrite Hd. unfold reset. by destruct (_impl (hdl (ext w))) eqn:?.
Qed.

(** *** Streams to run *)

(** A backend that accepts every call and completes nothing at once. *)
#[export] Instance ex_uv_stream : UvStream ex_uv nat nat := {|
  uv_listen _ _ s := (s, None);
  uv_read_start _ s := (s, None);
  uv_read_stop _ s := s;
  uv_write _ _ _ s := (s, None);
  uv_write_queue_size _ _ := 1;
  uv_shutdown _ _ s := (s, None);
  uv_tcp_connect _ _ _ s := (s, None);
  uv_pipe_connect _ _ _ s := s;
  uv_tcp_open _ _ s := (s, None);
  uv_pipe_open _ _ s := (s, Some UV_EBADF);
  uv_tcp_getpeername _ _ := inl 7%nat;
  sa_default := 0%nat;
  sa_bool a := negb (a =? 0)%nat
|}.

(** Users: a table of the calls they make in a callback. *)
Definition ex_ec := list error_code.
Definition ex_stream := stream ex_uv nat nat ex_ec unit (uevent ex_ec → list (sapi nat)) nat.

Definition ex_stream_client : client ex_stream (scode nat ex_ec) ex_ec nat :=
  stream_client (λ c e _, (tt, inl (c e))) (λ _, []) (λ _ _ _, None) (λ f, f) Z.of_nat 0%nat.

Definition ex_sworld := world ex_stream nat (Delayer.Delayer (closure (scode nat ex_ec)) unit).

Definition ex_sworld0 (c : uevent ex_ec → list (sapi nat)) : ex_sworld :=
  mkWorld new_queue ∅ ∅ Delayer.new_delayer [] (new_stream ex_uv0 c tt) [].

(** The loop runs these pieces of code one after the other, each to its end. *)
Fixpoint ex_drive (l : list (scode nat ex_ec)) (c : config ex_sworld (frame (scode nat ex_ec) nat) nat) :=
  match l with
  | [] => c
  | u :: l =>
      match c with
      | Config [] w Normal => ex_drive l (Machine.run (queue_program ex_stream_client) 200 (Config [Frame (CCode u)] w Normal))
      | c => c
      end
  end.

Definition ex_connected : list (scode nat ex_ec) :=
  [Api (TcpConnect 1 (Some 7%nat) nowhere true 0); OnComplete 1 None].

Definition ex_state : ex_sworld := Eval vm_compute in
  mem (ex_drive [Api (TcpConnect 1 (Some 7%nat) nowhere true 500); Api (Write 2 ["ab"; "c"]%string); Api (Shutdown 3 0); Api (Disconnect 4)]
    (Config [] (ex_sworld0 (λ _, [])) Normal)).

Lemma ex_drive_reachable l : ∀ c,
  reachable (queue_program ex_stream_client) (λ w, queue_initial w ∧ ∃ u cbs us, ext w = new_stream u cbs us) queue_input c →
  reachable (queue_program ex_stream_client) (λ w, queue_initial w ∧ ∃ u cbs us, ext w = new_stream u cbs us) queue_input (ex_drive l c).
Proof.
  induction l as [|u l IH]; intros c Hc; cbn [ex_drive]; [exact Hc|].
  destruct c as [[|] w [| |]]; try exact Hc. apply IH.
  eapply reachable_steps; [|apply run_steps]. eapply reach_input; [exact Hc|done|]. right. by exists u.
Qed.

Lemma stream_flags_consistent_witness :
  let c := ex_drive ex_connected (Config [] (ex_sworld0 (λ _, [])) Normal) in
  out_connected (ext (mem c)) = true ∧ established (ext (mem c)) = true.
Proof.
  intros c. split; [vm_compute; reflexivity|].
  apply (stream_flags_consistent (λ c e _, (tt, inl (c e))) (λ _, []) (λ _ _ _, None) (λ f, f) Z.of_nat 0%nat
    (ex_drive ex_connected (Config [] (ex_sworld0 (λ _, [])) Normal))).
  - apply ex_drive_reachable. apply reach_init. split; [|by eexists _, _, _]. eexists _, _. split; [|reflexivity].
    intros p. apply not_elem_of_nil.
  - right. vm_compute. reflexivity.
Defined.

(** Three filters that override nothing. *)
Definition ex_filtered : ex_sworld := with_ext (with_filters [5; 6; 7]%nat (ext ex_state)) ex_state.

Lemma stream_filters_transparent_witness :
  steps (queue_program ex_stream_client)
    (Config [Frame (CCode (FilterCall 5%nat (FWrite 2%nat)))] (with_ext (with_req (set_last_filter (Some 5%nat)) 2%nat (ext ex_filtered)) ex_filtered) Normal)
    (Config [Frame (CCode (Finalize (FWrite 2%nat)))] (with_ext (with_req (set_last_filter (Some 7%nat)) 2%nat (ext ex_filtered)) ex_filtered) Normal).
Proof.
  destruct (stream_filters_transparent (λ c e _, (tt, inl (c e))) (λ _, []) (λ _ _ _, None) (λ f, f) Z.of_nat 0%nat
    ltac:(done) ex_filtered) as [Hdown _].
  - apply (bool_decide_unpack _). vm_compute. exact I.
  - apply (Hdown 2%nat (FWrite 2%nat) []). right; right; by left.
Defined.

Definition idle_code (c : uevent ex_ec → list (sapi nat)) (e : uevent ex_ec) (s : ex_stream) : unit * (list (sapi nat) + nat) :=
  (tt, inl []).

Lemma ex_idle : user_idle idle_code.
Proof. intros c e s. by exists tt. Qed.

Ltac ex_cancellable :=
  let r := fresh "r" in let Hr := fresh "Hr" in
  intros r Hr; repeat (apply elem_of_cons in Hr as [->|Hr];
    [eexists; split; [vm_compute; reflexivity|split; [discriminate|split; reflexivity]]|]);
  by apply not_elem_of_nil in Hr.

Ltac ex_elem :=
  let r := fresh "r" in let Hr := fresh "Hr" in
  intros r Hr; repeat (apply elem_of_cons in Hr as [->|Hr]; [apply (bool_decide_unpack _); vm_compute; exact I|]);
  by apply not_elem_of_nil in Hr.

Lemma stream_reset_flushes_witness :
  ∃ w' m, steps (queue_program (stream_client idle_code (λ _, []) (λ _ _ _, None) (λ f, f) Z.of_nat 0%nat))
      (Config [Frame (CCode (Api ResetStream))] ex_state Normal) (Config [] w' m) ∧
    requests (q w') = [] ∧
    elog (ext w') = [OnEstablish [Std operation_canceled] 1; ReqEvent 1 [Std operation_canceled];
      OnConnect [Std operation_canceled] 1; ReqEvent 2 [Std operation_canceled]; OnWrite [Std operation_canceled] 2;
      ReqEvent 3 [Std operation_canceled]; OnShutdown [Std operation_canceled] 3]%nat.
Proof.
  destruct (stream_reset_flushes idle_code (λ _, []) (λ _ _ _, None) (λ f, f) Z.of_nat 0%nat ex_state ex_idle)
    as (w' & m & St & _ & _ & Rq & _ & El & _).
  - reflexivity.
  - reflexivity.
  - ex_cancellable.
  - ex_cancellable.
  - apply (bool_decide_unpack _). vm_compute. exact I.
  - ex_elem.
  - simpl. unfold SPLIT_RECURSION. lia.
  - exists w', m. split; [exact St|]. split; [exact Rq|]. rewrite El. vm_compute. reflexivity.
Defined.

Lemma stream_connect_failure_flushes_witness :
  ∃ w' m, steps (queue_program (stream_client idle_code (λ _, []) (λ _ _ _, None) (λ f, f) Z.of_nat 0%nat))
      (Config [Frame (CCode (Finalize (FHandleConnect [Std connection_refused] 1%nat)))] ex_state Normal) (Config [] w' m) ∧
    requests (q w') = [] ∧
    elog (ext w') = [ReqEvent 1 [Std connection_refused]; OnConnect [Std connection_refused] 1;
      ReqEvent 2 [Std operation_canceled]; OnWrite [Std operation_canceled] 2;
      ReqEvent 3 [Std operation_canceled]; OnShutdown [Std operation_canceled] 3]%nat.
Proof.
  destruct (stream_connect_failure_flushes idle_code (λ _, []) (λ _ _ _, None) (λ f, f) Z.of_nat 0%nat ex_state
    1%nat (set_timer true (set_r_impl (Some true) (new_request (KTcpConnect (Some 7%nat) nowhere true) [] 500)))
    [2; 3; 4]%nat [Std connection_refused] ex_idle)
    as (w' & m & St & _ & _ & Rq & _ & El & _).
  - reflexivity.
  - reflexivity.
  - reflexivity.
  - reflexivity.
  - reflexivity.
  - vm_compute. reflexivity.
  - exact I.
  - ex_cancellable.
  - reflexivity.
  - apply (bool_decide_unpack _). vm_compute. exact I.
  - ex_elem.
  - simpl. unfold SPLIT_RECURSION. lia.
  - exists w', m. split; [exact St|]. split; [exact Rq|]. rewrite El. vm_compute. reflexivity.
Defined.

(** *** What the model shows of the code *)

(** The listener is told of an established connection before the connect request
    is done: if it resets the stream there, the request is done twice, and the
    second [done] fails the assertion of the queue. *)
Theorem stream_reset_in_on_establish :
  cmode (ex_drive ex_connected
    (Config [] (ex_sworld0 (λ e, match e with OnEstablish [] _ => [ResetStream] | _ => [] end)) Normal)) = Aborted.
Proof. vm_compute. reflexivity. Qed.

(** [RunInOrderRequest] does not override [cancel], and its [handle_event] does
    not call [done]: resetting a stream with such a request in its queue fails the
    assertion that a cancelled request leaves the queue (without the assertion the
    loop never ends). *)
Theorem stream_reset_with_run_in_order :
  cmode (ex_drive [Api (TcpConnect 1 (Some 7%nat) nowhere true 0); Api (RunInOrder 2); Api ResetStream]
    (Config [] (ex_sworld0 (λ _, [])) Normal)) = Aborted.
Proof. vm_compute. reflexivity. Qed.

(** A write on a stream that is not connected ends with an error and stays in
    [_wq_size]. *)
Theorem stream_write_queue_leaks :
  let c := ex_drive [Api (Write 1 ["abc"]%string); VCancel 1 [Std not_connected]]
    (Config [] (ex_sworld0 (λ _, [])) Normal) in
  cmode c = Normal ∧ requests (q (mem c)) = [] ∧ _wq_size (ext (mem c)) = 3.
Proof. vm_compute. done. Qed.

(** A user who connects and writes again when a write was cancelled: [_reset]
    zeroes [_wq_size] after the new write was counted, and executing it takes the
    size below zero. *)
Theorem stream_write_queue_underflows :
  let again e := match e with OnWrite (Std operation_canceled :: _) 2%nat =>
    [TcpConnect 3 (Some 7%nat) nowhere true 0; Write 4 ["hello"]%string] | _ => [] end in
  let c := ex_drive (ex_connected ++ [Api (Write 2 ["abc"]%string); Api ResetStream; OnComplete 3 None])
    (Config [] (ex_sworld0 again) Normal) in
  cmode c = Normal ∧ requests (q (mem c)) = [4%nat] ∧ _wq_size (ext (mem c)) = 2 ^ 64 - 5.
Proof. vm_compute. done. Qed.
