(* ===== verification/Server.v ===== *)
(** A listening stream and the streams it accepts: [Stream::handle_connection],
    [accept], [finalize_handle_connection] of [Stream.cc], and the walk of a connection
    through the filters of the server ([StreamFilter::handle_connection]).

    The server has any number of clients, each a stream with its queue ([Stream],
    [Queue]) whose machine is a part of the machine of the server: the calls of a client
    are calls here, under its identity. The user of the server may call every client;
    a filter of the server may pass a connection on, with another error, or hold it
    and pass it on later. *)
From S2P Require Import Prelude Machine Errors Handle Delayer Queue Stream.
#[local] Open Scope Z_scope.

(** The identity of a client. *)
Abbreviation sid := nat.

(** A connection on its way through the filters: the arguments [client], [err] and
    [req] of [handle_connection]. *)
Record connection (EC : Type) := mkConn { c_client : option sid; c_err : EC; c_req : option rid }.
Arguments mkConn {EC}.
Arguments c_client {EC}.
Arguments c_err {EC}.
Arguments c_req {EC}.

(** Who makes the client: [connection_factory], or the listener. *)
Inductive maker := ByFactory | ByListener.

(** The calls of the user of the server: [_listener->on_establish], and
    [connection_event] with [_listener->on_connection]. *)
Inductive sevent (EC : Type) :=
| ServerEstablish (c : sid) (err : EC)
| ServerConnection (c : option sid) (err : EC).
Arguments ServerEstablish {EC}.
Arguments ServerConnection {EC}.

(** What happened, a ghost: the calls of the user, and the connections that were lost
    to an exception. *)
Inductive slogged (EC : Type) :=
| Told (e : sevent EC)
| Lost (c : sid).
Arguments Told {EC}.
Arguments Lost {EC}.

(** The pending calls. [Accepting]: [accept(client)] after [on_establish];
    [Invoke]: [INVOKE(this, _filters.back(), handle_connection, ...)]. *)
Inductive scall (A EC Exn : Type) :=
| HandleConnection (err : option error_code)
| Accept
| AcceptStream (c : sid)
| Accepting (c : sid) (err : EC)
| Invoke (x : connection EC)
| FilterConnection (f : fid) (x : connection EC)
| FilterBase (f : fid) (x : connection EC)
| FinalizeConn (x : connection EC)
| ServerUser (e : sevent EC)
| Client (c : sid) (f : frame (scode A EC) Exn).
Arguments HandleConnection {A EC Exn}.
Arguments Accept {A EC Exn}.
Arguments AcceptStream {A EC Exn}.
Arguments Accepting {A EC Exn}.
Arguments Invoke {A EC Exn}.
Arguments FilterConnection {A EC Exn}.
Arguments FilterBase {A EC Exn}.
Arguments FinalizeConn {A EC Exn}.
Arguments ServerUser {A EC Exn}.
Arguments Client {A EC Exn}.

Section Server.
Context {S B A EC W C Exn D : Type} `{UvStream S B A} `{ErrorStack EC} `{DelayService D (closure (scode A EC))}.
Context (user_code : C → uevent EC → stream S B A EC W C Exn → W * (list (sapi A) + Exn)).
Context (no_callbacks : C).
Context (virt : fid → fcall EC → stream S B A EC W C Exn → option (W * list (fapi EC))).
Context (f_type : fid → nat) (f_priority : fid → Z).
Context (filters_error : Exn).

(** The user of the server, its state [SW], and what it makes for a client: its
    callbacks and state; a null pointer is [None]. *)
Context {SW SS : Type}.
Context (server_code : sevent EC → SW → SW * (list (sid * sapi A) + Exn)).
Context (make_client : maker → SW → SW * (option (C * W) + Exn)).
(** The filters of the server that override [handle_connection]: what they pass to
    the base method at once. *)
Context (svirt : fid → connection EC → SW → option (SW * list (connection EC))).
(** [uv_accept] of libuv, and what a new client starts with. *)
Context (uv_accept : sid → SS → SS * option uv_errno).
Context (uv0 : S) (loop0 : D) (user0 : W).

Abbreviation sclient := (stream_client user_code no_callbacks virt f_type f_priority filters_error).
Abbreviation sworld := (world (stream S B A EC W C Exn) Exn D).
Abbreviation call := (scall A EC Exn).

(** The listening stream: its filters, whether it has a listener and a
    [connection_factory], its clients; [held]: the connections that its filters hold,
    a ghost. *)
Record server := mkServer {
  s_filters : list fid;
  s_listener : bool;
  connection_factory : bool;
  clients : gmap sid sworld;
  held : list sid;
  s_user : SW;
  s_uv : SS;
  slog : list (slogged EC)
}.
Abbreviation result := (server * outcome call Exn)%type.

Definition with_clients (m : gmap sid sworld) (s : server) : server :=
  mkServer (s_filters s) (s_listener s) (connection_factory s) m (held s) (s_user s) (s_uv s) (slog s).
Definition with_held (l : list sid) (s : server) : server :=
  mkServer (s_filters s) (s_listener s) (connection_factory s) (clients s) l (s_user s) (s_uv s) (slog s).
Definition with_suser (x : SW) (s : server) : server :=
  mkServer (s_filters s) (s_listener s) (connection_factory s) (clients s) (held s) x (s_uv s) (slog s).
Definition with_suv (u : SS) (s : server) : server :=
  mkServer (s_filters s) (s_listener s) (connection_factory s) (clients s) (held s) (s_user s) u (slog s).
Definition slog_add (e : slogged EC) (s : server) : server :=
  mkServer (s_filters s) (s_listener s) (connection_factory s) (clients s) (held s) (s_user s) (s_uv s) (slog s ++ [e]).

(** The state of the stream of a client. *)
Definition with_stream (f : stream S B A EC W C Exn → stream S B A EC W C Exn) (c : sid) (s : server) : server :=
  with_clients (alter (λ w, with_ext (f (ext w)) w) c (clients s)) s.

(** [Stream::handle_connection] *)
Definition handle_connection (err : option error_code) (s : server) : result :=
  (s, Calls [match err with Some e => Invoke (mkConn None (ec_of e) None) | None => Accept end]).

(** A new stream of the class of the server: [create_connection], or what the user makes. *)
Definition new_client (x : C * W) (s : server) : result :=
  let c := fresh (dom (clients s)) in
  (with_clients (<[c := mkWorld new_queue ∅ ∅ loop0 [] (new_stream uv0 x.1 x.2) []]> (clients s)) s, Calls [AcceptStream c]).
Definition create_connection (s : server) : result := new_client (no_callbacks, user0) s.

(** [Stream::accept()] *)
Definition accept (s : server) : result :=
  if connection_factory s then
    match make_client ByFactory (s_user s) with
    | (x, inl (Some k)) => new_client k (with_suser x s)
    | (x, inl None) => (with_suser x s, Aborts)     (* [client->impl()] of a null client *)
    | (x, inr e) => (with_suser x s, Throws e)
    end
  else if s_listener s then
    match make_client ByListener (s_user s) with
    | (x, inl (Some k)) => new_client k (with_suser x s)
    | (x, inl None) => create_connection (with_suser x s)
    | (x, inr e) => (with_suser x s, Throws e)
    end
  else create_connection s.

(** [Stream::accept(client)], up to [on_establish], and after it. *)
Definition accept_stream (c : sid) (s : server) : result :=
  let (u, code) := uv_accept c (s_uv s) in
  let err := uvx_ce code in
  (with_stream (accepted err) c (with_suv u s),
   Calls ((if s_listener s then [ServerUser (ServerEstablish c (ec_opt err))] else []) ++ [Accepting c (ec_opt err)])).

Definition accepting (c : sid) (err : EC) (s : server) : result :=
  match s_filters s, clients s !! c with
  | _, None => (s, Aborts)
  | [], _ => (s, Calls [Invoke (mkConn (Some c) err None)])
  | _, Some w =>
      let r := fresh (dom (reqs (ext w))) in
      (with_stream (new_accept_request r) c s,
       Calls [Client c (Frame (CApi (Push r))); Invoke (mkConn (Some c) err (Some r))])
  end.

(** [INVOKE(this, _filters.back(), handle_connection, finalize_handle_connection, ...)] *)
Definition invoke_connection (x : connection EC) (s : server) : result :=
  (s, Calls [match last (s_filters s) with Some f => FilterConnection f x | None => FinalizeConn x end]).

(** [StreamFilter::handle_connection], the base method and the virtual call. *)
Definition filter_base (f : fid) (x : connection EC) (s : server) : result :=
  (s, Calls [match prev_filter f (s_filters s) with Some g => FilterConnection g x | None => FinalizeConn x end]).
Definition carries (c : sid) (x : connection EC) : bool := bool_decide (c_client x = Some c).
Definition passes (c : sid) (l : list (connection EC)) : nat := length (filter (λ x, carries c x = true) l).
Definition filter_connection (f : fid) (x : connection EC) (s : server) : result :=
  match svirt f x (s_user s) with
  | Some (u, l) =>
      let s := with_suser u s in
      let s := match c_client x with
               | Some c => if decide (passes c l = 0%nat) then with_held (c :: held s) s else s
               | None => s
               end in
      (s, Calls (FilterBase f <$> l))
  | None => filter_base f x s
  end.

(** [Stream::finalize_handle_connection]: the state of the client, its request, its
    events, and those of the server. *)
Definition finalize_conn (x : connection EC) (s : server) : result :=
  match c_client x with
  | Some c =>
      match clients s !! c with
      | None => (s, Aborts)
      | Some w =>
          let (st, err) := connection_result (c_err x) (ext w) in
          (with_clients (<[c := with_ext st w]> (clients s)) s,
           Calls (match c_req x with Some r => [Client c (Frame (CApi (Done r Nop)))] | None => [] end ++
                  [Client c (Frame (CCode (User (OnConnection err)))); ServerUser (ServerConnection (Some c) err)]))
      end
  | None =>
      if negb (ec_bool (c_err x)) then (s, Aborts)     (* [client->set_connect_result] of a null client *)
      else (s, Calls [ServerUser (ServerConnection None (c_err x))])
  end.

(** A callback of the server's user, who may call the clients. *)
Definition server_user (e : sevent EC) (s : server) : result :=
  let s := slog_add (Told e) s in
  match server_code e (s_user s) with
  | (u, inl l) => (with_suser u s, Calls ((λ p, Client p.1 (Frame (CCode (Api p.2)))) <$> l))
  | (u, inr x) => (with_suser u s, Throws x)
  end.

(** A step of a client. *)
Definition client_result (c : sid) (p : sworld * outcome (frame (scode A EC) Exn) Exn) (s : server) : result :=
  (with_clients (<[c := p.1]> (clients s)) s,
   match p.2 with Calls l => Calls (Client c <$> l) | Throws e => Throws e | Aborts => Aborts end).
Definition client_body (c : sid) (f : frame (scode A EC) Exn) (s : server) : result :=
  match clients s !! c with
  | Some w => client_result c (fbody sclient f w) s
  | None => (s, Aborts)
  end.
Definition client_unwind (c : sid) (f : frame (scode A EC) Exn) (e : Exn) (s : server) : result :=
  match clients s !! c with
  | Some w => client_result c (funwind sclient f e w) s
  | None => (s, Aborts)
  end.

Definition sbody (c : call) (s : server) : result :=
  match c with
  | HandleConnection err => handle_connection err s
  | Accept => accept s
  | AcceptStream c => accept_stream c s
  | Accepting c err => accepting c err s
  | Invoke x => invoke_connection x s
  | FilterConnection f x => filter_connection f x s
  | FilterBase f x => filter_base f x s
  | FinalizeConn x => finalize_conn x s
  | ServerUser e => server_user e s
  | Client c f => client_body c f s
  end.

(** The client whose connection a call carries. *)
Definition carried (c : call) : option sid :=
  match c with
  | AcceptStream c | Accepting c _ => Some c
  | Invoke x | FilterConnection _ x | FilterBase _ x | FinalizeConn x => c_client x
  | ServerUser (ServerConnection c _) => c
  | _ => None
  end.
(** An exception ends the calls of the server that are pending. *)
Definition sunwind (c : call) (e : Exn) (s : server) : result :=
  match c with
  | Client c f => client_unwind c f e s
  | c => (match carried c with Some i => slog_add (Lost i) s | None => s end, Throws e)
  end.

Definition server_program : program server call Exn := Program sbody sunwind.

Definition new_server (filters : list fid) (listener factory : bool) (x : SW) (u : SS) : server :=
  mkServer filters listener factory ∅ [] x u [].

(** The backend tells of a connection or an error; a filter passes on a connection
    that it held; something happens to a client. *)
Definition server_input (s : server) (cs : list call) (s' : server) : Prop :=
  (∃ err, cs = [HandleConnection err] ∧ s' = s) ∨
  (∃ f c err areq l1 l2, held s = l1 ++ c :: l2 ∧ cs = [FilterBase f (mkConn (Some c) err areq)] ∧ s' = with_held (l1 ++ l2) s) ∨
  (∃ c w fs w', clients s !! c = Some w ∧ queue_input w fs w' ∧ cs = Client c <$> fs ∧ s' = with_clients (<[c := w']> (clients s)) s).
End Server.
Arguments server : clear implicits.

(** ** Each connection is told once *)

(** The client that a ghost is about: it was told of to the server, or lost. *)
Definition settled_of {EC} (e : slogged EC) : option sid :=
  match e with Told (ServerConnection c _) => c | Lost c => Some c | _ => None end.
Abbreviation occurs c l := (count_occ Nat.eq_dec l c).
Definition tokens {A EC Exn} (c : sid) (k : list (scall A EC Exn)) : nat := occurs c (omap carried k).
Definition settled {EC} (c : sid) (l : list (slogged EC)) : nat := occurs c (omap settled_of l).

Section Once.
#[local] Set Default Proof Using "Type*".
Context {S B A EC W C Exn D : Type} `{UvStream S B A} `{ErrorStack EC} `{DelayService D (closure (scode A EC))}.
Context (user_code : C → uevent EC → stream S B A EC W C Exn → W * (list (sapi A) + Exn)).
Context (no_callbacks : C).
Context (virt : fid → fcall EC → stream S B A EC W C Exn → option (W * list (fapi EC))).
Context (f_type : fid → nat) (f_priority : fid → Z).
Context (filters_error : Exn).
Context {SW SS : Type}.
Context (server_code : sevent EC → SW → SW * (list (sid * sapi A) + Exn)).
Context (make_client : maker → SW → SW * (option (C * W) + Exn)).
Context (svirt : fid → connection EC → SW → option (SW * list (connection EC))).
Context (uv_accept : sid → SS → SS * option uv_errno).
Context (uv0 : S) (loop0 : D) (user0 : W).

Abbreviation sserver := (server S B A EC W C Exn D SW SS).
Abbreviation prog := (server_program user_code no_callbacks virt f_type f_priority filters_error server_code make_client svirt
  uv_accept uv0 loop0 user0 : program sserver (scall A EC Exn) Exn).
Abbreviation body := (sbody user_code no_callbacks virt f_type f_priority filters_error server_code make_client svirt
  uv_accept uv0 loop0 user0 : scall A EC Exn → sserver → _).
Abbreviation sunw := (sunwind user_code no_callbacks virt f_type f_priority filters_error : scall A EC Exn → Exn → sserver → _).
Abbreviation sconf := (config sserver (scall A EC Exn) Exn).
Implicit Types (s : sserver) (k : list (scall A EC Exn)).

(** No filter makes two connections of one. *)
Definition filters_linear : Prop :=
  ∀ f x u u' l, svirt f x u = Some (u', l) → ∀ c, (passes c l ≤ if carries c x then 1 else 0)%nat.

(** How often the connection of the client [c] is pending, settled or held. *)
Definition weight (c : sid) k s : nat := (tokens c k + settled c (slog s) + occurs c (held s))%nat.
Definition made (c : sid) s : nat := if decide (is_Some (clients s !! c)) then 1 else 0.
Definition once_conf (c : sconf) : Prop := cmode c ≠ Aborted → ∀ i, weight i (stack c) (mem c) = made i (mem c).

Lemma tokens_app c k1 k2 : tokens c (k1 ++ k2) = (tokens c k1 + tokens c k2)%nat.
Proof using Type. unfold tokens. by rewrite omap_app, count_occ_app. Qed.
Lemma settled_app c (l1 l2 : list (slogged EC)) : settled c (l1 ++ l2) = (settled c l1 + settled c l2)%nat.
Proof using Type. unfold settled. by rewrite omap_app, count_occ_app. Qed.
Lemma tokens_cons c f k : tokens c (f :: k) = ((if decide (carried f = Some c) then 1 else 0) + tokens c k)%nat.
Proof using Type.
  unfold tokens. simpl. destruct (carried f) as [i|]; [|by rewrite decide_False]. simpl.
  destruct (Nat.eq_dec i c) as [->|N]; [by rewrite decide_True|]. rewrite decide_False by congruence. done.
Qed.
Lemma tokens_nil c : tokens c ([] : list (scall A EC Exn)) = 0%nat.
Proof using Type. done. Qed.
Lemma settled_one c (e : slogged EC) : settled c [e] = if decide (settled_of e = Some c) then 1%nat else 0%nat.
Proof using Type.
  unfold settled. simpl. destruct (settled_of e) as [i|]; [|by rewrite decide_False]. simpl.
  destruct (Nat.eq_dec i c) as [->|N]; [by rewrite decide_True|]. by rewrite decide_False by congruence.
Qed.
Lemma tokens_client c i (l : list (frame (scode A EC) Exn)) : tokens c (Client i <$> l : list (scall A EC Exn)) = 0%nat.
Proof using Type. by induction l. Qed.
Lemma tokens_base c f l : tokens c (FilterBase f <$> l : list (scall A EC Exn)) = passes c l.
Proof using Type.
  induction l as [|x l IH]; [done|]. rewrite fmap_cons, tokens_cons, IH. unfold passes. simpl. unfold carries.
  destruct (decide (c_client x = Some c)) as [E|E].
  - rewrite filter_cons_True by (by apply bool_decide_eq_true). done.
  - rewrite filter_cons_False by (by rewrite bool_decide_eq_false_2). done.
Qed.

Lemma made_alter c i (f : world (stream S B A EC W C Exn) Exn D → _) s : made c (with_clients (alter f i (clients s)) s) = made c s.
Proof using Type. unfold made. simpl. apply decide_ext, lookup_alter_is_Some. Qed.
Lemma made_insert c i w s : is_Some (clients s !! i) → made c (with_clients (<[i := w]> (clients s)) s) = made c s.
Proof using Type.
  intros Hi. unfold made. simpl. apply decide_ext. destruct (decide (i = c)) as [->|N].
  - rewrite lookup_insert_eq. split; [done|by eexists].
  - by rewrite lookup_insert_ne.
Qed.

(** What is called next. *)
Definition next_calls (o : outcome (scall A EC Exn) Exn) : list (scall A EC Exn) := match o with Calls cs => cs | _ => [] end.

(** What a call must do for the connections to be counted right. *)
Definition balanced (f : scall A EC Exn) s s' cs : Prop :=
  ∀ c, (weight c cs s' + made c s = weight c [f] s + made c s')%nat.

Lemma balanced_same f s s' cs : slog s' = slog s → held s' = held s → (∀ c, made c s' = made c s) → (∀ c, tokens c cs = tokens c [f]) → balanced f s s' cs.
Proof using Type. intros E1 E2 E3 E4 c. unfold weight. rewrite E1, E2, E3, E4. done. Qed.

Lemma new_client_balanced f x s s' cs : (∀ c, tokens c [f] = 0%nat) →
  new_client uv0 loop0 x s = (s', Calls cs) → balanced f s s' cs.
Proof using Type.
  intros Hf [= <- <-] c. pose proof (is_fresh (dom (clients s))) as Hfr. apply not_elem_of_dom in Hfr.
  unfold weight. rewrite Hf. cbn [slog held with_clients]. rewrite tokens_cons. simpl carried.
  destruct (decide (Some (fresh (dom (clients s))) = Some c)) as [[= <-]|N].
  - unfold made. cbn [clients with_clients]. rewrite lookup_insert_eq, Hfr. unfold tokens. simpl. lia.
  - unfold made. cbn [clients with_clients]. rewrite lookup_insert_ne by congruence. unfold tokens. simpl. lia.
Qed.

Lemma balanced_trans f s0 s s' cs : slog s0 = slog s → held s0 = held s → (∀ c, made c s0 = made c s) → balanced f s0 s' cs → balanced f s s' cs.
Proof using Type. intros E1 E2 E3 Hb c. specialize (Hb c). unfold weight in *. by rewrite <-E1, <-E2, <-E3. Qed.

Lemma accept_balanced s s' o : accept no_callbacks make_client uv0 loop0 user0 s = (s', o) → o ≠ Aborts → balanced Accept s s' (next_calls o).
Proof.
  intros Hb Ho. unfold accept, create_connection in Hb.
  assert (Hnew : ∀ x y, new_client uv0 loop0 x (with_suser y s) = (s', o) → balanced Accept s s' (next_calls o)).
  { intros x y Hn. assert (o = Calls (next_calls o)) as E by by injection Hn as _ <-. rewrite E in Hn.
    apply new_client_balanced with (f := Accept) in Hn; [|done]. by eapply balanced_trans in Hn. }
  assert (Hthrow : ∀ x e, (with_suser x s, Throws e) = (s', o) → balanced Accept s s' (next_calls o)).
  { intros x e [= <- <-]. by apply balanced_same. }
  assert (s = with_suser (s_user s) s) as Es by by destruct s.
  destruct (connection_factory s).
  - destruct (make_client ByFactory (s_user s)) as [x [[w|]|e]]; [by eapply Hnew|congruence|by eapply Hthrow].
  - destruct (s_listener s); [|rewrite Es in Hb; by eapply Hnew].
    destruct (make_client ByListener (s_user s)) as [x [[w|]|e]]; [by eapply Hnew|by eapply Hnew|by eapply Hthrow].
Qed.

Lemma filter_balanced f x s s' cs : filters_linear → filter_connection svirt f x s = (s', Calls cs) → balanced (FilterConnection f x) s s' cs.
Proof.
  intros Hlin Hb. unfold filter_connection, filter_base in Hb. destruct (svirt f x (s_user s)) as [[u l]|] eqn:Hv.
  - injection Hb as <- <-. intros c. specialize (Hlin f x (s_user s) u l Hv c).
    unfold weight. rewrite tokens_base, tokens_cons. unfold carries in Hlin. simpl carried. unfold tokens. simpl omap. simpl count_occ.
    destruct (c_client x) as [i|] eqn:Hx.
    + destruct (decide (Some i = Some c)) as [[= <-]|N].
      * rewrite bool_decide_eq_true_2 in Hlin by done. destruct (decide (passes i l = 0%nat)) as [E|E].
        -- unfold made. simpl. destruct (Nat.eq_dec i i); [lia|done].
        -- unfold made. simpl. lia.
      * rewrite bool_decide_eq_false_2 in Hlin by done. destruct (decide (passes i l = 0%nat)) as [E|E].
        -- unfold made. simpl. destruct (Nat.eq_dec i c); [congruence|lia].
        -- unfold made. simpl. lia.
    + rewrite bool_decide_eq_false_2 in Hlin by done. rewrite decide_False by done. unfold made. simpl. lia.
  - injection Hb as <- <-. apply balanced_same; try done. intros c. rewrite !tokens_cons. by destruct (prev_filter f _).
Qed.

Lemma finalize_balanced x s s' cs : finalize_conn x s = (s', Calls cs) → balanced (FinalizeConn x) s s' cs.
Proof.
  intros Hb. unfold finalize_conn in Hb. destruct (c_client x) as [i|] eqn:Hx.
  - destruct (clients s !! i) as [w|] eqn:Hw; [|done]. destruct (connection_result (c_err x) (ext w)) as [st err].
    injection Hb as <- <-. apply balanced_same; try done.
    + intros c. apply made_insert. by eexists.
    + intros c. rewrite tokens_app, !tokens_cons. simpl carried. rewrite Hx. rewrite decide_False by done.
      destruct (c_req x); [rewrite tokens_cons; simpl carried; rewrite decide_False by done|]; unfold tokens; simpl; lia.
  - destruct (negb (ec_bool (c_err x))); [done|]. injection Hb as <- <-. apply balanced_same; try done.
    intros c. rewrite !tokens_cons. simpl carried. rewrite Hx. done.
Qed.

Lemma client_balanced f c p s s' o : is_Some (clients s !! c) → carried f = None →
  client_result c p s = (s', o) → o ≠ Aborts → balanced f s s' (next_calls o).
Proof.
  intros Hi Hf Hb Ho. unfold client_result in Hb. injection Hb as <- <-.
  apply balanced_same; try done; intros x; [by apply made_insert|]. rewrite tokens_cons, Hf. rewrite decide_False by done.
  destruct p.2; try done. apply tokens_client.
Qed.

Lemma told_balanced e cs s (u : SW) : (∀ c, tokens c cs = 0%nat) →
  balanced (ServerUser e) s (with_suser u (slog_add (Told e) s)) cs.
Proof.
  intros Hcs c. unfold weight, made. cbn [slog held clients with_suser slog_add]. rewrite settled_app, settled_one, Hcs, tokens_cons, tokens_nil.
  assert (carried (ServerUser e : scall A EC Exn) = settled_of (Told e)) as -> by by destruct e. lia.
Qed.

Lemma body_balanced f s s' o : filters_linear → body f s = (s', o) → o ≠ Aborts → balanced f s s' (next_calls o).
Proof.
  intros Hlin Hb Ho. destruct f as [err| |c|c err|x|f x|f x|x|e|c f]; simpl in Hb.
  - injection Hb as <- <-. apply balanced_same; try done. intros c. rewrite !tokens_cons. by destruct err.
  - by apply accept_balanced.
  - unfold accept_stream in Hb. destruct (uv_accept c (s_uv s)) as [u code]. injection Hb as <- <-.
    apply balanced_same; try done; [intros i; by apply (made_alter i c _ (with_suv u s))|]. intros i. simpl next_calls.
    rewrite tokens_app, !tokens_cons. destruct (s_listener s); [rewrite tokens_cons|]; unfold tokens; simpl; lia.
  - unfold accepting in Hb. destruct (s_filters s), (clients s !! c) eqn:Hc; try congruence; injection Hb as <- <-;
      apply balanced_same; try done; intros i; try apply made_alter; simpl next_calls; rewrite !tokens_cons; done.
  - injection Hb as <- <-. apply balanced_same; try done. intros c. simpl next_calls. rewrite !tokens_cons. by destruct (last _).
  - unfold filter_connection, filter_base in Hb. assert (o = Calls (next_calls o)) as E.
    { by destruct (svirt f x (s_user s)) as [[u l]|]; injection Hb as <- <-. }
    rewrite E in Hb. by apply filter_balanced.
  - injection Hb as <- <-. apply balanced_same; try done. intros c. simpl next_calls. rewrite !tokens_cons. by destruct (prev_filter f _).
  - assert (o = Calls (next_calls o)) as E.
    { unfold finalize_conn in Hb. destruct (c_client x); [destruct (clients s !! _); [destruct (connection_result _ _)|]|destruct (negb _)];
        try congruence; by injection Hb as <- <-. }
    rewrite E in Hb. by apply finalize_balanced.
  - unfold server_user in Hb. destruct (server_code e _) as [u [l|x]]; injection Hb as <- <-; apply told_balanced; [|done].
    intros c. clear Ho. simpl next_calls. induction l as [|p l IH]; [done|exact IH].
  - unfold client_body in Hb. destruct (clients s !! c) as [w|] eqn:Hw; [|congruence]. by eapply client_balanced.
Qed.

Lemma lost_balanced f s : balanced f s (match carried f with Some i => slog_add (Lost i) s | None => s end) [].
Proof.
  intros c. unfold weight. rewrite tokens_cons, !tokens_nil. destruct (carried f) as [i|]; [|by rewrite decide_False].
  cbn [slog held slog_add]. rewrite settled_app, settled_one. cbn [settled_of]. unfold made. cbn [clients slog_add]. lia.
Qed.

Lemma unwind_balanced f e s s' o : sunw f e s = (s', o) → o ≠ Aborts → balanced f s s' (next_calls o).
Proof.
  intros Hb Ho. pose proof (lost_balanced f s) as Hl. destruct f as [err| |c|c err|x|f x|f x|x|ev|c f]; simpl in Hb;
    try (injection Hb as <- <-; exact Hl).
  unfold client_unwind in Hb. destruct (clients s !! c) as [w|] eqn:Hw; [|congruence]. by eapply client_balanced.
Qed.

Lemma once_settle f k s s' o : (∀ i, weight i (f :: k) s = made i s) → balanced f s s' (next_calls o) → once_conf (settle k (s', o)).
Proof.
  intros Hok Hb Hm i. specialize (Hok i). specialize (Hb i). unfold weight in *. rewrite tokens_cons in Hok, Hb.
  rewrite tokens_nil in Hb. destruct o as [cs|e|]; simpl in *; [rewrite tokens_app; lia|lia|done].
Qed.

Lemma once_step (c c' : sconf) : filters_linear → once_conf c → step prog c = Some c' → once_conf c'.
Proof.
  intros Hlin Hok Hstep. destruct c as [[|f k] s m]; [by destruct m|]. unfold step in Hstep. simpl in Hstep.
  destruct m as [|e|]; [| |done]; specialize (Hok ltac:(done)); injection Hstep as <-; intros Hm.
  - destruct (body f s) as [s' o] eqn:Hb. assert (o ≠ Aborts) by by intros ->.
    revert Hm. eapply once_settle; [exact Hok|]. by apply body_balanced.
  - destruct (sunw f e s) as [s' o] eqn:Hb. assert (o ≠ Aborts) by by intros ->.
    revert Hm. eapply once_settle; [exact Hok|]. by eapply unwind_balanced.
Qed.
End Once.

(** ** A connection that nobody interferes with *)

Section Delivery.
#[local] Set Default Proof Using "Type*".
Context {S B A EC W C Exn D : Type} `{UvStream S B A} `{ErrorStack EC} `{DelayService D (closure (scode A EC))}.
Context (user_code : C → uevent EC → stream S B A EC W C Exn → W * (list (sapi A) + Exn)).
Context (no_callbacks : C).
Context (virt : fid → fcall EC → stream S B A EC W C Exn → option (W * list (fapi EC))).
Context (f_type : fid → nat) (f_priority : fid → Z).
Context (filters_error : Exn).
Context {SW SS : Type}.
Context (server_code : sevent EC → SW → SW * (list (sid * sapi A) + Exn)).
Context (make_client : maker → SW → SW * (option (C * W) + Exn)).
Context (svirt : fid → connection EC → SW → option (SW * list (connection EC))).
Context (uv_accept : sid → SS → SS * option uv_errno).
Context (uv0 : S) (loop0 : D) (user0 : W).

Abbreviation sserver := (server S B A EC W C Exn D SW SS).
Abbreviation sstream := (stream S B A EC W C Exn).
Abbreviation sworld := (world sstream Exn D).
Abbreviation sclient := (stream_client user_code no_callbacks virt f_type f_priority filters_error).
Abbreviation prog := (server_program user_code no_callbacks virt f_type f_priority filters_error server_code make_client svirt
  uv_accept uv0 loop0 user0 : program sserver (scall A EC Exn) Exn).
Implicit Types (s : sserver) (k : list (scall A EC Exn)) (st : sstream) (w : sworld).

(** A run of a client is a run of the server. *)
Lemma client_lift c k s fs w m fs' w' m' :
  steps (queue_program sclient) (Machine.Config fs w m) (Machine.Config fs' w' m') → clients s !! c = Some w →
  steps prog (Machine.Config ((Client c <$> fs) ++ k) s m)
    (Machine.Config ((Client c <$> fs') ++ k) (with_clients (<[c := w']> (clients s)) s) m').
Proof using Type.
  intros Hs. remember (Machine.Config fs w m) as c1 eqn:E1. remember (Machine.Config fs' w' m') as c2 eqn:E2.
  revert fs w m s E1. induction Hs as [c1|c1 c0 c2 Hst Hs IH]; intros fs w m s E1 Hw; subst.
  - injection E1 as -> -> ->. rewrite insert_id by done. by destruct s.
  - destruct fs as [|f fs]; [by destruct m|]. unfold step in Hst. simpl in Hst.
    assert (Hnext : ∀ w1 o, settle fs (w1, o) = c0 →
      steps prog (settle ((Client c <$> fs) ++ k) (client_result c (w1, o) s))
        (Machine.Config ((Client c <$> fs') ++ k) (with_clients (<[c := w']> (clients s)) s) m')).
    { intros w1 o <-. set (s1 := with_clients (<[c := w1]> (clients s)) s).
      assert (E : with_clients (<[c := w']> (clients s1)) s1 = with_clients (<[c := w']> (clients s)) s) by (simpl; by rewrite insert_insert_eq).
      rewrite <-E. assert (clients s1 !! c = Some w1) as Hw1 by apply lookup_insert_eq.
      destruct o as [l|e|]; simpl; [rewrite app_assoc, <-fmap_app; exact (IH eq_refl (l ++ fs) w1 Normal s1 eq_refl Hw1)|..].
      - exact (IH eq_refl fs w1 (Unwinding e) s1 eq_refl Hw1).
      - exact (IH eq_refl fs w1 Aborted s1 eq_refl Hw1). }
    destruct m as [|e|]; [| |done]; injection Hst as Hst.
    + destruct (fbody sclient f w) as [w1 o] eqn:Hb. eapply steps_cons; [|exact (Hnext w1 o Hst)].
      unfold step. simpl. unfold client_body. by rewrite Hw, Hb.
    + destruct (funwind sclient f e w) as [w1 o] eqn:Hb. eapply steps_cons; [|exact (Hnext w1 o Hst)].
      unfold step. simpl. unfold client_unwind. by rewrite Hw, Hb.
Qed.

(** *** What the client's machine does *)

Abbreviation one_request r := (mkQueue [r] [] 0 0 None 0).

Lemma push_run r st (d : D) l : reqs st !! r = Some (new_request KAccept [] 0) →
  ∃ l', steps (queue_program sclient) (Machine.Config [Frame (CApi (Push r))] (mkWorld new_queue ∅ ∅ d [] st l) Normal)
    (Machine.Config [] (mkWorld (one_request r) ({[r]} ∪ (∅ ∖ {[r]})) ∅ d [] st l') Normal).
Proof using Type.
  intros Hr. eexists. eapply steps_cons; [reflexivity|]. eapply steps_cons.
  { unfold step. simpl. unfold request_exec. rewrite Hr. reflexivity. }
  apply steps_once. reflexivity.
Qed.

Lemma done_run r st (d : D) X l : r ∈ X →
  ∃ l', steps (queue_program sclient) (Machine.Config [Frame (CApi (Done r Nop))] (mkWorld (one_request r) X ∅ d [] st l) Normal)
    (Machine.Config [] (mkWorld new_queue X ∅ d [] (destroy_impl r st) l') Normal).
Proof using Type.
  intros Hr. set (w := mkWorld _ _ _ _ _ _ _). assert (Hc : delay_cancel r w = w) by (unfold delay_cancel; simpl; by rewrite lookup_empty).
  eexists. eapply steps_cons.
  { unfold step. simpl. unfold done. simpl. rewrite decide_True by done. unfold done_pop. simpl. unfold finish_exec. rewrite Hc. simpl.
    rewrite decide_True by done. reflexivity. }
  do 4 (eapply steps_cons; [reflexivity|]). apply steps_refl.
Qed.

Context (user_quiet : user_idle user_code).

Lemma told_run e w : ∃ st, steps (queue_program sclient) (Machine.Config [Frame (CCode (User e))] w Normal)
    (Machine.Config [] (with_ext st w) Normal) ∧ flags st = flags (ext w) ∧ elog st = elog (ext w) ++ [e].
Proof.
  destruct (user_quiet (callbacks (ext w)) e (note e (ext w))) as [x Hx].
  exists (with_user x (note e (ext w))). split; [|done]. apply steps_once. unfold step. simpl. unfold user_call. simpl in *. by rewrite Hx.
Qed.

(** The state flags of a client that was accepted, and the error that is told. *)
Lemma on_impl_keeps {T} (f : B → S → S * T) st : ∃ h u, (on_impl f st).1 = with_impl h u st.
Proof using Type.
  unfold on_impl, stream_impl. destruct (impl (hdl st) (uvs st)) as [[h u] b]. simpl. destruct (f b u) as [u' x]. simpl. by eexists _, _.
Qed.

Lemma connection_result_ok st : flags st = 6 → ∃ st' err, connection_result ec_ok st = (st', err) ∧
  connecting st' = false ∧ established st' = true ∧ in_connected st' = true ∧ out_connected st' = true ∧ elog st' = elog st ∧
  (err = ec_ok ∧ reading st' = true ∨ reading st' = false ∧ ∃ e, err = ec_nest (Unievent read_start_error) (ec_of e)).
Proof using Type.
  intros Hf. unfold connection_result. assert (ec_bool (ec_ok : EC) = false) as -> by (unfold ec_bool; by rewrite ec_codes_ok).
  unfold set_connect_result. simpl negb. cbv beta iota. set (st1 := with_flags (set_flag _) _).
  assert (F : flags st1 = 28) by (unfold st1; simpl; by rewrite Hf).
  assert (Ee : elog st1 = elog st) by done. clearbody st1. rewrite <-Ee.
  unfold wantread, _read_start, reading, established. rewrite F. simpl.
  destruct (on_impl_keeps uv_read_start st1) as (h & u & E).
  destruct (on_impl uv_read_start st1) as [st2 e] eqn:Ho. simpl in E. subst st2.
  destruct (uvx_ce e) as [e'|]; simpl; eexists _, _; (split; [done|]);
    unfold connecting, established, in_connected, out_connected; simpl; rewrite F; simpl; split_and!; try done.
  - right. split; [done|]. by exists e'.
  - by left.
Qed.

Lemma connection_result_err e st : flags st = 0 → ∃ st', connection_result (ec_of e) st = (st', ec_of e) ∧
  connected st' = false ∧ established st' = false ∧ elog st' = elog st.
Proof using Type.
  intros Hf. unfold connection_result. assert (ec_bool (ec_of e : EC) = true) as -> by (unfold ec_bool, ec_of; by rewrite ec_codes_nest).
  simpl. eexists. split; [done|]. unfold connected, established. simpl. by rewrite Hf.
Qed.

(** *** What the server's machine does *)

Context (filters_plain : ∀ f x u, svirt f x u = None).
Context (server_quiet : ∀ e x, ∃ x', server_code e x = (x', inl [])).

Lemma server_chain x k s l1 : ∀ f l2, s_filters s = l1 ++ f :: l2 → NoDup (l1 ++ f :: l2) →
  steps prog (Machine.Config (FilterConnection f x :: k) s Normal) (Machine.Config (FinalizeConn x :: k) s Normal).
Proof.
  induction l1 as [|g l1 IH] using rev_ind; intros f l2 Hl Hnd;
    pose proof (proj1 (NoDup_app _ _) Hnd) as (_ & Hf & [Hf2 _]%NoDup_cons).
  - apply steps_once. unfold step. simpl. unfold filter_connection, filter_base. rewrite filters_plain.
    rewrite Hl, prev_filter_app by (done || by intros ?%elem_of_nil). done.
  - eapply steps_cons.
    + unfold step. simpl. unfold filter_connection, filter_base. rewrite filters_plain.
      rewrite Hl, prev_filter_app by (done || (intros Hi; apply (Hf f Hi); by left)). rewrite last_snoc. reflexivity.
    + rewrite <-app_assoc in Hl, Hnd. simpl in Hl, Hnd. by apply (IH g (f :: l2)).
Qed.

Lemma invoke_run x k s : NoDup (s_filters s) →
  steps prog (Machine.Config (Invoke x :: k) s Normal) (Machine.Config (FinalizeConn x :: k) s Normal).
Proof.
  intros Hnd. eapply steps_cons; [reflexivity|]. simpl. destruct (s_filters s) as [|f l _] eqn:Hl using rev_ind; [done|].
  rewrite last_snoc. by apply (server_chain x k s l f []).
Qed.

Lemma told_step e k s : ∃ x, steps prog (Machine.Config (ServerUser e :: k) s Normal)
  (Machine.Config k (with_suser x (slog_add (Told e) s)) Normal).
Proof.
  destruct (server_quiet e (s_user s)) as [x Hx]. exists x. apply steps_once. unfold step. simpl. unfold server_user. simpl. by rewrite Hx.
Qed.

(** The end of it: the client is told, and the server is next. *)
Lemma finalize_run c e r w k s : clients s !! c = Some w → delay_id w = ∅ → keepers w = [] →
  (match r with Some r => q w = one_request r ∧ r ∈ async w | None => q w = new_queue end) →
  ∀ st err, connection_result e (ext w) = (st, err) →
  ∃ s' w', steps prog (Machine.Config (FinalizeConn (mkConn (Some c) e r) :: k) s Normal)
      (Machine.Config (ServerUser (ServerConnection (Some c) err) :: k) s' Normal) ∧
    clients s' !! c = Some w' ∧ (∀ i, i ≠ c → clients s' !! i = clients s !! i) ∧
    slog s' = slog s ∧
    flags (ext w') = flags st ∧ elog (ext w') = elog st ++ [OnConnection err] ∧ q w' = new_queue.
Proof.
  intros Hw Hd Hk Hr st err Hres. set (w1 := with_ext st w).
  assert (∃ w2, steps (queue_program sclient) (Machine.Config (match r with Some r => [Frame (CApi (Done r Nop))] | None => [] end) w1 Normal)
    (Machine.Config [] w2 Normal) ∧ flags (ext w2) = flags st ∧ elog (ext w2) = elog st ∧ q w2 = new_queue) as (w2 & St1 & F2 & E2 & Q2).
  { destruct w as [qw aw dw lw kw xw ql]. simpl in Hd, Hk, Hr. subst dw kw. destruct r as [r|].
    - destruct Hr as [-> Ha]. destruct (done_run r st lw aw ql Ha) as [l' Hl]. eexists. split; [exact Hl|]. done.
    - exists w1. by split. }
  destruct (told_run (OnConnection err) w2) as (st3 & St3 & F3 & E3).
  set (s1 := with_clients (<[c := w1]> (clients s)) s).
  set (s2 := with_clients (<[c := w2]> (clients s1)) s1).
  set (s3 := with_clients (<[c := with_ext st3 w2]> (clients s2)) s2).
  exists s3, (with_ext st3 w2). split_and!.
  - eapply steps_cons. { unfold step. simpl. unfold finalize_conn. simpl. rewrite Hw, Hres. reflexivity. }
    simpl. eapply steps_trans; [|by apply (client_lift c (ServerUser (ServerConnection (Some c) err) :: k) s2 _ w2 _ _ _ _ St3), lookup_insert_eq].
    assert (clients s1 !! c = Some w1) as Hw1 by apply lookup_insert_eq.
    pose proof (client_lift c (Client c (Frame (CCode (User (OnConnection err)))) :: ServerUser (ServerConnection (Some c) err) :: k) s1 _ w1 _ _ _ _ St1 Hw1) as St5.
    by destruct r.
  - apply lookup_insert_eq.
  - intros i Hi. simpl. by rewrite !lookup_insert_ne.
  - done.
  - simpl. congruence.
  - simpl. by rewrite E3, E2.
  - done.
Qed.

(** From the backend's [accept] on. *)
Definition new_world st : sworld := mkWorld new_queue ∅ ∅ loop0 [] st [].

Lemma accepting_run c e st k s : clients s !! c = Some (new_world st) → NoDup (s_filters s) →
  ∀ (st' : sstream → sstream) (err : sstream → EC), (∀ st1, flags st1 = flags st → elog st1 = elog st → ∃ st2, connection_result e st1 = (st2, err st1) ∧
    flags st2 = flags (st' st1) ∧ elog st2 = elog st) →
  ∃ s' w' st1, steps prog (Machine.Config (Accepting c e :: k) s Normal)
      (Machine.Config (ServerUser (ServerConnection (Some c) (err st1)) :: k) s' Normal) ∧
    flags st1 = flags st ∧ clients s' !! c = Some w' ∧ (∀ i, i ≠ c → clients s' !! i = clients s !! i) ∧
    slog s' = slog s ∧
    flags (ext w') = flags (st' st1) ∧ elog (ext w') = elog st ++ [OnConnection (err st1)] ∧ q w' = new_queue.
Proof.
  intros Hw Hnd st' err Hres. destruct (s_filters s) as [|f l] eqn:Hf.
  - destruct (Hres st eq_refl eq_refl) as (st2 & Hr & F2 & E2).
    destruct (finalize_run c e None (new_world st) k s Hw eq_refl eq_refl eq_refl st2 (err st) Hr) as (s' & w' & St & ? & ? & ? & ? & Hel & ?).
    exists s', w', st. split_and!; try done; [|congruence|by rewrite Hel, E2].
    eapply steps_cons. { unfold step. simpl. unfold accepting. rewrite Hf, Hw. reflexivity. }
    simpl. eapply steps_trans; [|exact St]. apply invoke_run. by rewrite Hf.
  - set (r := fresh (dom (reqs st))). set (st1 := new_accept_request r st).
    destruct (push_run r st1 loop0 []) as [l' Hp]; [apply lookup_insert_eq|].
    set (s1 := with_stream (new_accept_request r) c s).
    assert (Hw1 : clients s1 !! c = Some (new_world st1)) by (simpl; by rewrite lookup_alter_eq, Hw).
    set (w2 := mkWorld (one_request r) _ _ _ _ _ _) in Hp. set (s2 := with_clients (<[c := w2]> (clients s1)) s1).
    destruct (Hres st1 eq_refl eq_refl) as (st2 & Hr & F2 & E2).
    assert (Hw2 : clients s2 !! c = Some w2) by apply lookup_insert_eq.
    assert (Hq2 : q w2 = one_request r ∧ r ∈ async w2) by (split; [done|]; simpl; apply elem_of_union_l, elem_of_singleton; done).
    destruct (finalize_run c e (Some r) w2 k s2 Hw2 eq_refl eq_refl Hq2 st2 (err st1) Hr) as (s' & w' & St & ? & Hoth & ? & ? & Hel & ?).
    exists s', w', st1. split_and!; try done; [| |congruence|by rewrite Hel, E2].
    + eapply steps_cons. { unfold step. simpl. unfold accepting. rewrite Hf, Hw. reflexivity. }
      simpl. eapply steps_trans; [exact (client_lift c _ s1 _ _ _ _ _ _ Hp Hw1)|].
      eapply steps_trans; [|exact St]. apply invoke_run. simpl. by rewrite Hf.
    + intros i Hi. rewrite Hoth by done. simpl. by rewrite lookup_insert_ne, lookup_alter_ne.
Qed.

Lemma accept_stream_run c st k s : clients s !! c = Some (new_world st) → flags st = 0 → NoDup (s_filters s) →
  ∃ s1 w1 s' w' e err, steps prog (Machine.Config (AcceptStream c :: k) s Normal) (Machine.Config (Accepting c e :: k) s1 Normal) ∧
    clients s1 !! c = Some w1 ∧ elog (ext w1) = elog st ∧
    slog s1 = slog s ++ (if s_listener s then [Told (ServerEstablish c e)] else []) ∧
    steps prog (Machine.Config (Accepting c e :: k) s1 Normal)
      (Machine.Config (ServerUser (ServerConnection (Some c) err) :: k) s' Normal) ∧
    clients s' !! c = Some w' ∧ (∀ i, i ≠ c → clients s' !! i = clients s !! i) ∧
    slog s' = slog s1 ∧
    elog (ext w') = elog st ++ [OnConnection err] ∧ q w' = new_queue ∧
    match (uv_accept c (s_uv s)).2 with
    | None => e = ec_ok ∧ in_connected (ext w') = true ∧ out_connected (ext w') = true ∧
        (err = ec_ok ∧ reading (ext w') = true ∨ reading (ext w') = false ∧ ∃ e, err = ec_nest (Unievent read_start_error) (ec_of e))
    | Some code => e = ec_of (uvx_error code) ∧ err = e ∧ connected (ext w') = false
    end.
Proof.
  intros Hw Hfl Hnd. destruct (uv_accept c (s_uv s)) as [u code] eqn:Hu. set (e := ec_opt (uvx_ce code) : EC).
  set (s1 := with_stream (accepted (uvx_ce code)) c (with_suv u s)). set (st1 := accepted (uvx_ce code) st).
  assert (∃ s2, steps prog (Machine.Config (AcceptStream c :: k) s Normal) (Machine.Config (Accepting c e :: k) s2 Normal) ∧
    clients s2 = clients s1 ∧ s_filters s2 = s_filters s ∧
    slog s2 = slog s ++ (if s_listener s then [Told (ServerEstablish c e)] else [])) as (s2 & St & Ec & Ef & El).
  { assert (Hst : step prog (Machine.Config (AcceptStream c :: k) s Normal) =
      Some (Machine.Config ((if s_listener s then [ServerUser (ServerEstablish c e)] else []) ++ [Accepting c e] ++ k) s1 Normal)).
    { unfold step. simpl. unfold accept_stream. rewrite Hu. simpl. by rewrite <-app_assoc. }
    destruct (s_listener s).
    - destruct (told_step (ServerEstablish c e) (Accepting c e :: k) s1) as [x Hx]. eexists. split; [by eapply steps_cons|]. done.
    - exists s1. split; [by apply steps_once|]. split_and!; try done. by rewrite app_nil_r. }
  assert (Hw2 : clients s2 !! c = Some (new_world st1)) by (rewrite Ec; simpl; by rewrite lookup_alter_eq, Hw).
  assert (Hrun : ∃ s' w' st2, steps prog (Machine.Config (Accepting c e :: k) s2 Normal)
      (Machine.Config (ServerUser (ServerConnection (Some c) (connection_result e st2).2) :: k) s' Normal) ∧
    flags st2 = flags st1 ∧ clients s' !! c = Some w' ∧ (∀ i, i ≠ c → clients s' !! i = clients s2 !! i) ∧
    slog s' = slog s2 ∧
    flags (ext w') = flags (connection_result e st2).1 ∧ elog (ext w') = elog st1 ++ [OnConnection (connection_result e st2).2] ∧ q w' = new_queue).
  { apply (accepting_run c e st1 k s2 Hw2 ltac:(by rewrite Ef) (λ x, (connection_result e x).1) (λ x, (connection_result e x).2)).
    intros x Hx Hex. destruct code as [code|]; simpl in *.
    - destruct (connection_result_err (uvx_error code) x ltac:(by rewrite Hx)) as (x' & Er & _ & _ & Ex). exists x'. change e with (ec_of (uvx_error code) : EC). rewrite Er. split_and!; try done. by rewrite Ex.
    - destruct (connection_result_ok x ltac:(by rewrite Hx; simpl; rewrite Hfl)) as (x' & err & Er & _ & _ & _ & _ & Ex & _). exists x'.
      change e with (ec_ok : EC). rewrite Er. split_and!; try done. by rewrite Ex. }
  destruct Hrun as (s' & w' & st2 & St2 & F2 & Hw' & Ho & Hlog & Fw & Hel & Hq).
  exists s2, (new_world st1), s', w', e, (connection_result e st2).2. split_and!; try done.
  - simpl. unfold st1. by destruct code.
  - intros i Hi. rewrite Ho, Ec by done. simpl. by rewrite lookup_alter_ne.
  - rewrite Hel. unfold st1. by destruct code.
  - simpl. unfold in_connected, out_connected, reading, connected. rewrite Fw. destruct code as [code|]; simpl in *.
    + destruct (connection_result_err (uvx_error code) st2 ltac:(by rewrite F2)) as (x' & Er & Hc & _ & _).
      change e with (ec_of (uvx_error code) : EC). rewrite Er. by split_and!.
    + destruct (connection_result_ok st2 ltac:(by rewrite F2; simpl; rewrite Hfl)) as (x' & err & Er & _ & _ & Hi & Hout & _ & Hor).
      change e with (ec_ok : EC). rewrite Er. by split_and!.
Qed.
End Delivery.

(** ** Properties *)

(** How often the server's user was told of the connection of the client [c], and how
    often it was lost to an exception. *)
Definition told {EC} (c : sid) (l : list (slogged EC)) : nat :=
  occurs c (omap (λ e, match e with Told (ServerConnection c _) => c | _ => None end) l).
Definition lost {EC} (c : sid) (l : list (slogged EC)) : nat :=
  occurs c (omap (λ e, match e with Lost c => Some c | _ => None end) l).

Lemma settled_split {EC} c (l : list (slogged EC)) : settled c l = (told c l + lost c l)%nat.
Proof.
  unfold settled, told, lost. unfold omap in *. induction l as [|[[i e|[i|] e]|i] l IH]; simpl; try done; destruct (Nat.eq_dec i c); lia.
Qed.

(** C13: each connection that a listening stream accepts is told of to its user exactly
    once, whatever callbacks and clients do and throw: in every state at rest that is
    reached without a failed assertion a client was told of once, or its connection is
    held by a filter that may still pass it on, or an exception was thrown while it was
    handled; and never two of these. The filters may hold a connection, pass it on at
    once or later, and change its error, but none passes on two of one
    ([filters_linear]). *)
Theorem connection_told_once {S B A EC W C Exn D SW SS : Type} `{UvStream S B A} `{ErrorStack EC} `{DelayService D (closure (scode A EC))}
    (user_code : C → uevent EC → stream S B A EC W C Exn → W * (list (sapi A) + Exn)) (no_callbacks : C)
    (virt : fid → fcall EC → stream S B A EC W C Exn → option (W * list (fapi EC)))
    (f_type : fid → nat) (f_priority : fid → Z) (filters_error : Exn)
    (server_code : sevent EC → SW → SW * (list (sid * sapi A) + Exn))
    (make_client : maker → SW → SW * (option (C * W) + Exn))
    (svirt : fid → connection EC → SW → option (SW * list (connection EC)))
    (uv_accept : sid → SS → SS * option uv_errno) (uv0 : S) (loop0 : D) (user0 : W)
    (Hlin : filters_linear svirt)
    (filters : list fid) (listener factory : bool) (x : SW) (u : SS)
    (s : server S B A EC W C Exn D SW SS) (m : mode Exn) (c : sid)
    (Hreach : reachable (server_program user_code no_callbacks virt f_type f_priority filters_error server_code make_client svirt
       uv_accept uv0 loop0 user0) (λ s0, s0 = new_server filters listener factory x u) server_input (Machine.Config [] s m))
    (Hok : m ≠ Aborted) (Hc : is_Some (clients s !! c)) :
  (told c (slog s) + lost c (slog s) + occurs c (held s) = 1)%nat.
Proof.
  assert (Hinv : ∀ k : config (server S B A EC W C Exn D SW SS) (scall A EC Exn) Exn,
    reachable (server_program user_code no_callbacks virt f_type f_priority filters_error server_code make_client svirt
      uv_accept uv0 loop0 user0) (λ s0, s0 = new_server filters listener factory x u) server_input k → once_conf k).
  { apply reachable_inv.
    - intros s0 -> _ i. done.
    - intros k1 k2 H1' H2'. by eapply once_step.
    - intros s1 m1 cs s2 Hk Hm1 Hin _ i. specialize (Hk Hm1 i). simpl in Hk. destruct Hin as [(err & -> & ->)|[Hin|Hin]].
      + by unfold weight in *.
      + destruct Hin as (f & c1 & err & areq & l1 & l2 & Eh & -> & ->). unfold weight in *. rewrite Eh in Hk. simpl.
        rewrite tokens_cons. simpl carried. rewrite !count_occ_app in *. simpl in Hk. change (made i (with_held (l1 ++ l2) s1)) with (made i s1).
        rewrite tokens_nil in *. destruct (Nat.eq_dec c1 i) as [->|N]; [rewrite decide_True by done|rewrite decide_False by congruence]; lia.
      + destruct Hin as (c1 & w & fs & w' & Hw & _ & -> & ->). unfold weight in *. simpl. rewrite tokens_client.
        rewrite made_insert by by eexists. by rewrite tokens_nil in Hk. }
  specialize (Hinv _ Hreach Hok c). unfold weight, made in Hinv. simpl in Hinv. rewrite ?tokens_nil, settled_split in Hinv.
  rewrite decide_True in Hinv by done. lia.
Qed.

(** C14: a connection that nobody interferes with arrives. When the backend tells a
    listening stream of one, a client is made. First the listener, if there is one, is
    told that it is established, with the answer of [uv_accept]; then the client is told
    of the connection, before the server; and then the server, with the same error as
    the client. When [uv_accept] failed that error is told to all three, and the client
    is not connected. When it did not, the listener is told of no error, the client is
    connected in both directions, and either it reads and client and server are told of no
    error, or it could not start to read and they are told of that. At the end the
    client's queue is empty and unlocked, the request that held back its other requests
    is gone, and the other clients are as they were. This for a server whose filters, each
    in the chain once, override nothing, whose users call nothing back and throw nothing,
    and whose factory, if it has one, gives a client. *)
Theorem accept_delivers {S B A EC W C Exn D SW SS : Type} `{UvStream S B A} `{ErrorStack EC} `{DelayService D (closure (scode A EC))}
    (user_code : C → uevent EC → stream S B A EC W C Exn → W * (list (sapi A) + Exn)) (no_callbacks : C)
    (virt : fid → fcall EC → stream S B A EC W C Exn → option (W * list (fapi EC)))
    (f_type : fid → nat) (f_priority : fid → Z) (filters_error : Exn)
    (server_code : sevent EC → SW → SW * (list (sid * sapi A) + Exn))
    (make_client : maker → SW → SW * (option (C * W) + Exn))
    (svirt : fid → connection EC → SW → option (SW * list (connection EC)))
    (uv_accept : sid → SS → SS * option uv_errno) (uv0 : S) (loop0 : D) (user0 : W)
    (Hidle : user_idle user_code) (Hplain : ∀ f x u, svirt f x u = None)
    (Hquiet : ∀ e x, ∃ x', server_code e x = (x', inl []))
    (Hmake : ∀ m x, ∃ x' k, make_client m x = (x', inl k) ∧ (m = ByFactory → is_Some k))
    (s : server S B A EC W C Exn D SW SS) (Hnd : NoDup (s_filters s)) :
  let c := fresh (dom (clients s)) in
  let prog := server_program user_code no_callbacks virt f_type f_priority filters_error server_code make_client svirt
      uv_accept uv0 loop0 user0 in
  ∃ s1 w1 s2 w' s' e err,
    (steps prog (Machine.Config [HandleConnection None] s Normal) (Machine.Config [Accepting c e] s1 Normal) ∧
     slog s1 = slog s ++ (if s_listener s then [Told (ServerEstablish c e)] else []) ∧
     clients s1 !! c = Some w1 ∧ elog (ext w1) = []) ∧
    (steps prog (Machine.Config [Accepting c e] s1 Normal)
       (Machine.Config [ServerUser (ServerConnection (Some c) err)] s2 Normal) ∧
     slog s2 = slog s1 ∧ clients s2 !! c = Some w' ∧ elog (ext w') = [OnConnection err]) ∧
    (steps prog (Machine.Config [ServerUser (ServerConnection (Some c) err)] s2 Normal) (Machine.Config [] s' Normal) ∧
     slog s' = slog s2 ++ [Told (ServerConnection (Some c) err)] ∧ clients s' !! c = Some w') ∧
    (∀ i, i ≠ c → clients s' !! i = clients s !! i) ∧ q w' = new_queue ∧
    match (uv_accept c (s_uv s)).2 with
    | None => e = ec_ok ∧ in_connected (ext w') = true ∧ out_connected (ext w') = true ∧
        (err = ec_ok ∧ reading (ext w') = true ∨ reading (ext w') = false ∧ ∃ e, err = ec_nest (Unievent read_start_error) (ec_of e))
    | Some code => e = ec_of (uvx_error code) ∧ err = e ∧ connected (ext w') = false
    end.
Proof.
  intros c. assert (∃ k y, accept no_callbacks make_client uv0 loop0 user0 s = new_client uv0 loop0 k (with_suser y s)) as (k & y & Ha).
  { unfold accept, create_connection. destruct (Hmake ByFactory (s_user s)) as (x1 & k1 & E1 & Hk1), (Hmake ByListener (s_user s)) as (x2 & k2 & E2 & _).
    rewrite E1, E2. destruct (connection_factory s); [destruct (Hk1 eq_refl) as [k ->]; by eexists _, _|].
    destruct (s_listener s); [destruct k2; by eexists _, _|]. exists (no_callbacks, user0), (s_user s). by destruct s. }
  set (st := new_stream uv0 k.1 k.2 : stream S B A EC W C Exn). set (s1 := (new_client uv0 loop0 k (with_suser y s)).1).
  assert (Hst : flags st = 0 ∧ elog st = []) by (unfold st, new_stream; by destruct (uv_init uv0)). destruct Hst as [Hfl Hel].
  destruct (accept_stream_run user_code no_callbacks virt f_type f_priority filters_error server_code make_client svirt uv_accept uv0 loop0 user0
    Hidle Hplain Hquiet c st [] s1) as (s2 & w2 & s3 & w' & e & err & St & Hw2 & He2 & Hl2 & St3 & Hw & Ho & Hl & He & Hq & Hm);
    [apply lookup_insert_eq|done|done|].
  destruct (told_step user_code no_callbacks virt f_type f_priority filters_error server_code make_client svirt uv_accept uv0 loop0 user0
    Hidle Hplain Hquiet (ServerConnection (Some c) err) [] s3) as [x St4].
  exists s2, w2, s3, w', (with_suser x (slog_add (Told (ServerConnection (Some c) err)) s3)), e, err.
  rewrite Hel in He, He2. split_and!; try done.
  - do 2 (eapply steps_cons; [unfold step; simpl; rewrite ?Ha; reflexivity|]). exact St.
  - intros i Hi. simpl. rewrite Ho by done. simpl. by rewrite lookup_insert_ne.
Qed.

(** *** Servers to run *)

Abbreviation ex_callbacks := (uevent ex_ec → list (sapi nat)).
Abbreviation ex_su := (sevent ex_ec → list (sid * sapi nat)).
Abbreviation ex_loop := (Delayer.Delayer (closure (scode nat ex_ec)) unit).
Abbreviation ex_server := (server ex_uv nat nat ex_ec unit ex_callbacks nat ex_loop ex_su (option uv_errno)).
Abbreviation ex_scall := (scall nat ex_ec nat).
Definition ex_user (c : ex_callbacks) (e : uevent ex_ec) (s : stream ex_uv nat nat ex_ec unit ex_callbacks nat) : unit * (list (sapi nat) + nat) := (tt, inl (c e)).
Definition ex_server_code (e : sevent ex_ec) (x : ex_su) : ex_su * (list (sid * sapi nat) + nat) := (x, inl (x e)).
Definition ex_make (m : maker) (x : ex_su) : ex_su * (option (ex_callbacks * unit) + nat) := (x, inl (Some (λ _, [], tt))).
(** The filter 5 holds what it is given. *)
Definition ex_holds (f : fid) (x : connection ex_ec) (u : ex_su) : option (ex_su * list (connection ex_ec)) :=
  if decide (f = 5%nat) then Some (u, []) else None.
Definition ex_accept (c : sid) (u : option uv_errno) : option uv_errno * option uv_errno := (u, u).

Definition ex_sprog : program ex_server ex_scall nat :=
  server_program ex_user (λ _, []) (λ _ _ _, None) (λ f, f) Z.of_nat 0%nat ex_server_code ex_make ex_holds ex_accept ex_uv0 Delayer.new_delayer tt.
Definition ex_server0 (filters : list fid) (x : ex_su) : ex_server := new_server filters true true x None.
Definition ex_run (cs : list ex_scall) (s : ex_server) : config ex_server ex_scall nat := Machine.run ex_sprog 100 (Machine.Config cs s Normal).

Lemma ex_holds_linear : filters_linear ex_holds.
Proof. intros f x u u' l Hl c. unfold ex_holds in Hl. destruct (decide (f = 5%nat)); [|done]. injection Hl as _ <-. unfold passes. simpl. lia. Qed.

(** The connection is held by a filter and passed on later. *)
Definition ex_held : ex_server := Eval vm_compute in mem (ex_run [HandleConnection None] (ex_server0 [4; 5; 6]%nat (λ _, []))).
Definition ex_passed : ex_server := Eval vm_compute in mem (ex_run [FilterBase 5%nat (mkConn (Some 0%nat) [] (Some 0%nat))] (with_held [] ex_held)).

Lemma ex_held_reachable : reachable ex_sprog (λ s0, s0 = new_server [4; 5; 6]%nat true true (λ _, []) None) server_input (Machine.Config [] ex_held Normal).
Proof.
  eapply reachable_steps; [|assert (E : Machine.Config [] ex_held Normal = ex_run [HandleConnection None] (ex_server0 [4; 5; 6]%nat (λ _, [])))
    by (vm_compute; reflexivity); rewrite E; apply run_steps].
  eapply (reach_input _ _ _ _ Normal); [by apply reach_init|done|]. left. by exists None.
Qed.
Lemma ex_passed_reachable : reachable ex_sprog (λ s0, s0 = new_server [4; 5; 6]%nat true true (λ _, []) None) server_input (Machine.Config [] ex_passed Normal).
Proof.
  eapply reachable_steps; [|assert (E : Machine.Config [] ex_passed Normal = ex_run [FilterBase 5%nat (mkConn (Some 0%nat) [] (Some 0%nat))] (with_held [] ex_held))
    by (vm_compute; reflexivity); rewrite E; apply run_steps].
  eapply (reach_input _ _ _ _ Normal); [apply ex_held_reachable|done|]. right. left. by exists 5%nat, 0%nat, [], (Some 0%nat), [], [].
Qed.

Lemma connection_told_once_witness :
  (told 0%nat (slog ex_held) + lost 0%nat (slog ex_held) + occurs 0%nat (held ex_held) = 1)%nat ∧ held ex_held = [0%nat] ∧
  (told 0%nat (slog ex_passed) + lost 0%nat (slog ex_passed) + occurs 0%nat (held ex_passed) = 1)%nat ∧ told 0%nat (slog ex_passed) = 1%nat.
Proof.
  split_and!; [| vm_compute; reflexivity | |vm_compute; reflexivity].
  - apply (connection_told_once ex_user (λ _, []) (λ _ _ _, None) (λ f, f) Z.of_nat 0%nat ex_server_code ex_make ex_holds ex_accept ex_uv0 Delayer.new_delayer tt
      ex_holds_linear [4; 5; 6]%nat true true (λ _, []) None ex_held Normal 0%nat ex_held_reachable); [discriminate|vm_compute; by eexists].
  - apply (connection_told_once ex_user (λ _, []) (λ _ _ _, None) (λ f, f) Z.of_nat 0%nat ex_server_code ex_make ex_holds ex_accept ex_uv0 Delayer.new_delayer tt
      ex_holds_linear [4; 5; 6]%nat true true (λ _, []) None ex_passed Normal 0%nat ex_passed_reachable); [discriminate|vm_compute; by eexists].
Defined.

Definition ex_quiet (e : sevent ex_ec) (x : ex_su) : ex_su * (list (sid * sapi nat) + nat) := (x, inl []).
Lemma accept_delivers_witness :
  let prog := server_program idle_code (λ _, []) (λ _ _ _, None) (λ f, f) Z.of_nat 0%nat ex_quiet ex_make (λ _ _ _, None) ex_accept
      ex_uv0 Delayer.new_delayer tt in
  ∃ (s1 s2 s' : ex_server) w' e err,
    steps prog (Machine.Config [HandleConnection None] (ex_server0 [4; 6]%nat (λ _, [])) Normal) (Machine.Config [Accepting 0%nat e] s1 Normal) ∧
    steps prog (Machine.Config [Accepting 0%nat e] s1 Normal)
      (Machine.Config [ServerUser (ServerConnection (Some 0%nat) err)] s2 Normal) ∧
    elog (ext w') = [OnConnection err] ∧ slog s' = [Told (ServerEstablish 0%nat e); Told (ServerConnection (Some 0%nat) err)] ∧
    clients s' !! 0%nat = Some w' ∧ e = [] ∧ in_connected (ext w') = true.
Proof.
  destruct (accept_delivers idle_code (λ _, []) (λ _ _ _, None) (λ f, f) Z.of_nat 0%nat ex_quiet ex_make (λ _ _ _, None) ex_accept
    ex_uv0 Delayer.new_delayer tt ex_idle ltac:(done) (λ e x, ex_intro _ x eq_refl)
    (λ m x, ex_intro _ x (ex_intro _ (Some (λ _, [], tt)) (conj eq_refl (λ _, ex_intro _ _ eq_refl))))
    (ex_server0 [4; 6]%nat (λ _, [])) ltac:(apply (bool_decide_unpack _); vm_compute; exact I))
    as (s1 & w1 & s2 & w' & s' & e & err & (St1 & L1 & _) & (St2 & L2 & _ & El) & (_ & L3 & Hw) & _ & _ & Hm).
  exists s1, s2, s', w', e, err. split; [exact St1|]. split; [exact St2|]. split; [exact El|].
  split; [rewrite L3, L2, L1; reflexivity|]. split; [exact Hw|]. destruct Hm as (E & Hi & _). split; [exact E|exact Hi].
Defined.

(** ** What the code does not do *)

(** A request that the listener makes in [on_establish] comes into the queue of the
    client before the [AcceptRequest] of a server with filters, so that the request that
    [finalize_handle_connection] ends is not the first one: an assertion fails. *)
Theorem accept_request_not_first :
  cmode (ex_run [HandleConnection None]
    (ex_server0 [4]%nat (λ e, match e with ServerEstablish c _ => [(c, Write 7%nat ["x"%string])] | _ => [] end))) = Aborted ∧
  cmode (ex_run [HandleConnection None]
    (ex_server0 []%nat (λ e, match e with ServerEstablish c _ => [(c, Write 7%nat ["x"%string])] | _ => [] end))) = Normal.
Proof. vm_compute. done. Qed.
