(* ===== verification/Resolver.v ===== *)
(** The resolver of host names: [Resolver.h], [Resolver.cc].

    A resolver answers a request from its cache, or gives it to one of a few
    workers, each with a c-ares channel that has one query at a time, or queues it.
    When a request is finished its callback is called and the worker takes the next
    request of the queue. Callbacks may call everything back and may throw; c-ares
    (a parameter) may answer at once or later, from a poll of its sockets or from the
    timer that makes it look at its timeouts. *)
From stdpp Require Import pretty.
From S2P Require Import Prelude Machine Errors Delayer AddrInfo.
#[local] Open Scope Z_scope.

(** The identity of a request object, and the index of a worker. *)
Abbreviation rid := nat.
Abbreviation wid := nat.

(** ** Data *)

(** The statuses of c-ares that the code names, and any other one. *)
Inductive ares_status :=
  | ARES_SUCCESS | ARES_ECANCELLED | ARES_EDESTRUCTION | ARES_ENOMEM | ARES_ENOTFOUND
  | ARES_ENOTIMP | ARES_ENODATA | ARES_ESERVICE | ARES_EFORMERR | ARES_ESERVFAIL
  | ARES_EREFUSED | ARES_EBADQUERY | ARES_EBADNAME | ARES_EBADFAMILY | ARES_EBADRESP
  | ARES_ECONNREFUSED | ARES_ETIMEOUT | ARES_EOF | ARES_EFILE | ARES_EBADSTR
  | ARES_EBADFLAGS | ARES_ENONAME | ARES_EBADHINTS | ARES_ENOTINITIALIZED
  | ARES_ELOADIPHLPAPI | ARES_EADDRGETNETWORKPARAMS
  | ARES_other (n : Z).

(** [ares2stderr] *)
Definition ares2stderr (ares_err : ares_status) : option error_code :=
  match ares_err with
  | ARES_SUCCESS => None
  | ARES_ECANCELLED | ARES_EDESTRUCTION => Some (Std operation_canceled)
  | ARES_ENOMEM => Some (Std not_enough_memory)
  | ARES_ENOTFOUND => Some (ResolveErr r_host_not_found)
  | ARES_ENOTIMP => Some (ResolveErr r_not_implemented)
  | ARES_ENODATA => Some (ResolveErr r_no_data)
  | ARES_ESERVICE => Some (ResolveErr r_service_not_found)
  | ARES_EFORMERR => Some (ResolveErr r_bad_format)
  | ARES_ESERVFAIL => Some (ResolveErr r_server_failed)
  | ARES_EREFUSED => Some (ResolveErr r_refused)
  | ARES_EBADQUERY => Some (ResolveErr r_bad_query)
  | ARES_EBADNAME => Some (ResolveErr r_bad_name)
  | ARES_EBADFAMILY => Some (Std address_family_not_supported)
  | ARES_EBADRESP => Some (ResolveErr r_bad_response)
  | ARES_ECONNREFUSED => Some (Std connection_refused)
  | ARES_ETIMEOUT => Some (Std timed_out)
  | ARES_EOF => Some (ResolveErr r_eof)
  | ARES_EFILE => Some (ResolveErr r_file_read_error)
  | ARES_EBADSTR => Some (ResolveErr r_bad_string)
  | ARES_EBADFLAGS => Some (ResolveErr r_bad_flags)
  | ARES_ENONAME => Some (ResolveErr r_noname)
  | ARES_EBADHINTS => Some (ResolveErr r_bad_hints)
  | ARES_ENOTINITIALIZED => Some (ResolveErr r_not_initialized)
  | ARES_ELOADIPHLPAPI => Some (ResolveErr r_iphlpapi_load_error)
  | ARES_EADDRGETNETWORKPARAMS => Some (ResolveErr r_no_get_network_params)
  | ARES_other _ => Some (Unievent unknown_error)
  end.

(** [Resolver::Config] and its defaults *)
Record Config := mkConfig {
  cache_expiration_time : Z; cache_limit : nat; query_timeout : Z; max_workers : nat
}.
Definition default_config : Config := mkConfig (10 * 60) (Z.to_nat 10000) 500 5.
Definition DEFAULT_RESOLVE_TIMEOUT : Z := 5000.

(** [Resolver::Request]; [timer]: it has one, which runs; [delayed]: [None] for 0. *)
Record request := mkRequest {
  _node : string; _service : string; _port : Z; _hints : AddrInfoHints;
  _use_cache : bool; _timeout : Z;
  worker : option wid; timer : bool; delayed : option Z; running : bool; queued : bool
}.

(** [Resolver::resolve()]: a new request with its setters applied. *)
Definition new_request (node service : string) (port : Z) (hints : AddrInfoHints) (use_cache : bool) (timeout : Z) : request :=
  mkRequest node service port hints use_cache timeout None false None false false.

(** The same request before it was ever run. *)
Definition fresh (q : request) : request :=
  new_request (_node q) (_service q) (_port q) (_hints q) (_use_cache q) (_timeout q).

Definition key_of (r : request) : CacheKey := mkKey (_node r) (_service r) (_hints r).

Definition set_service (s : string) (r : request) : request :=
  mkRequest (_node r) s (_port r) (_hints r) (_use_cache r) (_timeout r) (worker r) (timer r) (delayed r) (running r) (queued r).
Definition set_use_cache (b : bool) (r : request) : request :=
  mkRequest (_node r) (_service r) (_port r) (_hints r) b (_timeout r) (worker r) (timer r) (delayed r) (running r) (queued r).
Definition set_worker (w : option wid) (r : request) : request :=
  mkRequest (_node r) (_service r) (_port r) (_hints r) (_use_cache r) (_timeout r) w (timer r) (delayed r) (running r) (queued r).
Definition set_timer (b : bool) (r : request) : request :=
  mkRequest (_node r) (_service r) (_port r) (_hints r) (_use_cache r) (_timeout r) (worker r) b (delayed r) (running r) (queued r).
Definition set_delayed (i : option Z) (r : request) : request :=
  mkRequest (_node r) (_service r) (_port r) (_hints r) (_use_cache r) (_timeout r) (worker r) (timer r) i (running r) (queued r).
Definition set_running (b : bool) (r : request) : request :=
  mkRequest (_node r) (_service r) (_port r) (_hints r) (_use_cache r) (_timeout r) (worker r) (timer r) (delayed r) b (queued r).
Definition set_queued (b : bool) (r : request) : request :=
  mkRequest (_node r) (_service r) (_port r) (_hints r) (_use_cache r) (_timeout r) (worker r) (timer r) (delayed r) (running r) b.

(** [Resolver::Worker]; [queries]: how many queries its channel has; [polls]: the
    sockets that are polled, and for which events. *)
Record Worker (Exn : Type) := mkWorker {
  w_request : option rid; ares_async : bool; exc : option Exn; queries : nat; polls : gmap Z Z
}.
Arguments mkWorker {Exn}.
Arguments w_request {Exn}.
Arguments ares_async {Exn}.
Arguments exc {Exn}.
Arguments queries {Exn}.
Arguments polls {Exn}.

(** The lambdas given to the loop. *)
Inductive rclosure (SA : Type) :=
| FinishCached (r : rid) (a : AddrInfo SA)
| FinishSync (i : wid) (a : AddrInfo SA) (err : option error_code)
| FinishLocalhost (r : rid).
Arguments FinishCached {SA}.
Arguments FinishSync {SA}.
Arguments FinishLocalhost {SA}.

(** What a callback of the user, or the code outside of callbacks, may call. *)
Inductive rapi (SA Exn : Type) :=
| New (r : rid) (q : request)
| Run (r : rid)
| CancelReq (r : rid) (err : error_code)
| Reset
| SetCacheLimit (n : nat)
| SetExpiration (t : Z)
| MarkBad (key : CacheKey) (sa : SA)
| Throw (e : Exn).
Arguments New {SA Exn}.
Arguments Run {SA Exn}.
Arguments CancelReq {SA Exn}.
Arguments Reset {SA Exn}.
Arguments SetCacheLimit {SA Exn}.
Arguments SetExpiration {SA Exn}.
Arguments MarkBad {SA Exn}.
Arguments Throw {SA Exn}.

(** What c-ares calls while it works on a channel. *)
Inductive ares_event (SA : Type) :=
| AresDone (status : ares_status) (ai : list (ai_node SA))
| AresSock (sock : Z) (read write : bool).
Arguments AresDone {SA}.
Arguments AresSock {SA}.

(** The pending calls. *)
Inductive rcall (SA Exn : Type) :=
| RApi (a : rapi SA Exn)
| RunDelayed (id : Z) (oom : option nat)
| FinishQueued (r : rid) (a : AddrInfo SA)
| FinishGuard (i : option wid)
| GuardLoop (i : wid)
| AresCall (i : wid) (ev : ares_event SA)
| CatchExc (i : wid)
| RethrowIf (i : wid)
| RollIter (i n : wid) (evs : list (list (ares_event SA)))
| TimerFired (r : rid)
| ResetWorkers (i n : wid)
| ResetCached (last : rid)
| ResetQueued (last : rid)
| Rethrow (e : Exn).
Arguments RApi {SA Exn}.
Arguments RunDelayed {SA Exn}.
Arguments FinishQueued {SA Exn}.
Arguments FinishGuard {SA Exn}.
Arguments GuardLoop {SA Exn}.
Arguments AresCall {SA Exn}.
Arguments CatchExc {SA Exn}.
Arguments RethrowIf {SA Exn}.
Arguments RollIter {SA Exn}.
Arguments TimerFired {SA Exn}.
Arguments ResetWorkers {SA Exn}.
Arguments ResetCached {SA Exn}.
Arguments ResetQueued {SA Exn}.
Arguments Rethrow {SA Exn}.

(** What happened; a ghost of the model. *)
Inductive revent (SA : Type) :=
| EvStart (r : rid)                               (* [resolve(req)] *)
| EvCallback (r : rid) (a : AddrInfo SA) (err : option error_code)  (* the user's callback *)
| EvFromCache (r : rid).                          (* a queued request is answered from the cache *)
Arguments EvStart {SA}.
Arguments EvCallback {SA}.
Arguments EvFromCache {SA}.

Section Resolver.
Context {SA X Exn Ch D : Type} `{EqDecision SA} `{DelayService D (rclosure SA)}.
Context (user_code : rid → AddrInfo SA → option error_code → X → X * list (rapi SA Exn)).
Context (dead_loop ares_init_failed : Exn).
(** c-ares: the creation of a channel, and a query, which may be answered at once. *)
Context (ares_init : Ch → Ch * bool).
Context (ares_getaddrinfo : CacheKey → Ch → Ch * option (ares_status * list (ai_node SA))).
(** The platform: [_WIN32], [SockAddr::Inet4], [SockAddr::Inet6], a null address, [from_chars]. *)
Context (win32 : bool) (inet4 inet6 : string → Z → SA) (null_sa : SA) (from_chars : string → option Z).

Abbreviation call := (rcall SA Exn).

(** [Resolver], its requests, the loop's delayer, c-ares, the clock [time(0)], the
    user. [dns_roll_timer]: its period while it is active; [looped]: it has a loop. *)
Record resolver := mkResolver {
  looped : bool;
  cfg : Config;
  dns_roll_timer : option Z;
  workers : list (Worker Exn);
  queue : list rid;
  cache_delayed : list rid;
  _cache : gmap CacheKey (CachedAddress SA);
  reqs : gmap rid request;
  loop : D;
  ares : Ch;
  now : Z;
  user : X;
  rlog : list (revent SA)
}.

Abbreviation result := (resolver * outcome call Exn)%type.

Definition with_cfg (c : Config) (s : resolver) : resolver :=
  mkResolver (looped s) c (dns_roll_timer s) (workers s) (queue s) (cache_delayed s) (_cache s) (reqs s) (loop s) (ares s) (now s) (user s) (rlog s).
Definition with_roll (t : option Z) (s : resolver) : resolver :=
  mkResolver (looped s) (cfg s) t (workers s) (queue s) (cache_delayed s) (_cache s) (reqs s) (loop s) (ares s) (now s) (user s) (rlog s).
Definition with_workers (l : list (Worker Exn)) (s : resolver) : resolver :=
  mkResolver (looped s) (cfg s) (dns_roll_timer s) l (queue s) (cache_delayed s) (_cache s) (reqs s) (loop s) (ares s) (now s) (user s) (rlog s).
Definition with_queue (l : list rid) (s : resolver) : resolver :=
  mkResolver (looped s) (cfg s) (dns_roll_timer s) (workers s) l (cache_delayed s) (_cache s) (reqs s) (loop s) (ares s) (now s) (user s) (rlog s).
Definition with_cache_delayed (l : list rid) (s : resolver) : resolver :=
  mkResolver (looped s) (cfg s) (dns_roll_timer s) (workers s) (queue s) l (_cache s) (reqs s) (loop s) (ares s) (now s) (user s) (rlog s).
Definition with_cache (m : gmap CacheKey (CachedAddress SA)) (s : resolver) : resolver :=
  mkResolver (looped s) (cfg s) (dns_roll_timer s) (workers s) (queue s) (cache_delayed s) m (reqs s) (loop s) (ares s) (now s) (user s) (rlog s).
Definition with_reqs (m : gmap rid request) (s : resolver) : resolver :=
  mkResolver (looped s) (cfg s) (dns_roll_timer s) (workers s) (queue s) (cache_delayed s) (_cache s) m (loop s) (ares s) (now s) (user s) (rlog s).
Definition with_loop (d : D) (s : resolver) : resolver :=
  mkResolver (looped s) (cfg s) (dns_roll_timer s) (workers s) (queue s) (cache_delayed s) (_cache s) (reqs s) d (ares s) (now s) (user s) (rlog s).
Definition with_ares (c : Ch) (s : resolver) : resolver :=
  mkResolver (looped s) (cfg s) (dns_roll_timer s) (workers s) (queue s) (cache_delayed s) (_cache s) (reqs s) (loop s) c (now s) (user s) (rlog s).
Definition with_now (t : Z) (s : resolver) : resolver :=
  mkResolver (looped s) (cfg s) (dns_roll_timer s) (workers s) (queue s) (cache_delayed s) (_cache s) (reqs s) (loop s) (ares s) t (user s) (rlog s).
Definition with_user (x : X) (s : resolver) : resolver :=
  mkResolver (looped s) (cfg s) (dns_roll_timer s) (workers s) (queue s) (cache_delayed s) (_cache s) (reqs s) (loop s) (ares s) (now s) x (rlog s).
Definition note (e : revent SA) (s : resolver) : resolver :=
  mkResolver (looped s) (cfg s) (dns_roll_timer s) (workers s) (queue s) (cache_delayed s) (_cache s) (reqs s) (loop s) (ares s) (now s) (user s) (rlog s ++ [e]).

Definition with_req (f : request → request) (r : rid) (s : resolver) : resolver := with_reqs (alter f r (reqs s)) s.
Definition with_w (f : Worker Exn → Worker Exn) (i : wid) (s : resolver) : resolver := with_workers (alter f i (workers s)) s.

Definition set_w_request (r : option rid) (w : Worker Exn) : Worker Exn := mkWorker r (ares_async w) (exc w) (queries w) (polls w).
Definition set_ares_async (b : bool) (w : Worker Exn) : Worker Exn := mkWorker (w_request w) b (exc w) (queries w) (polls w).
Definition set_exc (e : option Exn) (w : Worker Exn) : Worker Exn := mkWorker (w_request w) (ares_async w) e (queries w) (polls w).
Definition set_queries (n : nat) (w : Worker Exn) : Worker Exn := mkWorker (w_request w) (ares_async w) (exc w) n (polls w).
Definition set_polls (m : gmap Z Z) (w : Worker Exn) : Worker Exn := mkWorker (w_request w) (ares_async w) (exc w) (queries w) m.

(** The request that the worker [i] has. *)
Definition request_of (i : wid) (s : resolver) : option rid := workers s !! i ≫= w_request.

(** [loop()->delay(...)] for a request, and [cancel_delay] *)
Definition delay_for (r : rid) (f : rclosure SA) (s : resolver) : resolver :=
  let (d, i) := ds_add f (loop s) in with_req (set_delayed (Some i)) r (with_loop d s).
Definition cancel_delayed (r : rid) (s : resolver) : resolver :=
  match reqs s !! r ≫= delayed with
  | Some i => with_req (set_delayed None) r (with_loop (ds_cancel i (loop s)) s)
  | None => s
  end.

(** *** Workers *)

(** [Worker::Worker]; [Resolver::add_worker] *)
Definition new_worker : Worker Exn := mkWorker None false None 0 ∅.
Definition add_worker (s : resolver) : resolver * outcome call Exn :=
  if decide (length (workers s) < max_workers (cfg s))%nat then
    let (c, ok) := ares_init (ares s) in
    let s := with_ares c s in
    if (ok : bool) then (with_workers (workers s ++ [new_worker]) s, Calls []) else (s, Throws ares_init_failed)
  else (s, Aborts).

(** [Worker::cancel]: c-ares calls back for its queries, which finds no request. *)
Definition worker_cancel (i : wid) (s : resolver) : resolver :=
  match request_of i s with
  | None => s
  | Some r => with_w (λ w, set_queries 0 (set_w_request None w)) i (with_req (set_worker None) r s)
  end.

(** [Worker::on_resolve] while [ares_async] is false: within [Worker::resolve]. *)
Definition on_resolve_sync (i : wid) (status : ares_status) (ai : list (ai_node SA)) (s : resolver) : resolver :=
  match request_of i s with
  | None => s
  | Some r => delay_for r (FinishSync i (ai_of ai) (ares2stderr status)) s
  end.

(** [Worker::resolve] *)
Definition worker_resolve (i : wid) (r : rid) (s : resolver) : resolver :=
  match reqs s !! r with
  | None => s
  | Some q =>
      let s := with_req (set_worker (Some i)) r (with_w (set_w_request (Some r)) i s) in
      let s := with_w (set_ares_async false) i s in
      let (c, answer) := ares_getaddrinfo (key_of q) (ares s) in
      let s := with_ares c s in
      let s := match answer with
               | Some (status, ai) => on_resolve_sync i status ai s
               | None => with_w (λ w, set_queries (S (queries w)) w) i s
               end in
      with_w (set_ares_async true) i s
  end.

(** [Worker::on_sockstate]: the sockets of the channel are polled as it wants. *)
Definition READABLE : Z := 1.
Definition WRITABLE : Z := 2.
Definition on_sockstate (sock : Z) (read write : bool) (m : gmap Z Z) : option (gmap Z Z) :=
  if negb read && negb write then
    match m !! sock with Some _ => Some (delete sock m) | None => None end
  else Some (<[sock := Z.lor (if read then READABLE else 0) (if write then WRITABLE else 0)]> m).

(** *** Finishing a request *)

(** [Resolver::find] *)
Definition rfind (k : CacheKey) (s : resolver) : option (AddrInfo SA * resolver) :=
  match find (cache_expiration_time (cfg s)) (now s) k (_cache s) with
  | Some (a, m) => Some (a, with_cache m s)
  | None => None
  end.

(** The user's callback, [Resolver::on_resolve]. *)
Definition on_resolve (r : rid) (a : AddrInfo SA) (err : option error_code) (s : resolver) : resolver * list call :=
  let (x, l) := user_code r a err (user s) in
  (note (EvCallback r a err) (with_user x s), RApi <$> l).

(** [Resolver::finish_resolve] up to the callback: the request leaves the place it
    waited in, and the answer is put into the cache. *)
Definition release (r : rid) (q : request) (s : resolver) : resolver :=
  let s := with_req (set_timer false) r (cancel_delayed r s) in
  match worker q with
  | Some i => worker_cancel i s
  | None =>
      if queued q then with_queue (filter (λ x, x ≠ r) (queue s)) s
      else with_cache_delayed (filter (λ x, x ≠ r) (cache_delayed s)) s
  end.
Definition store (r : rid) (a : AddrInfo SA) (err : option error_code) (s : resolver) : resolver :=
  match reqs s !! r with
  | Some q =>
      if bool_decide (err = None) && _use_cache q && negb (bool_decide (cache_limit (cfg s) = 0%nat))
      then with_cache (cache_store (cache_limit (cfg s)) (now s) (key_of q) a (_cache s)) s else s
  | None => s
  end.
Definition finish_resolve (r : rid) (a : AddrInfo SA) (err : option error_code) (s : resolver) : result :=
  match reqs s !! r with
  | None => (s, Aborts)
  | Some q =>
      if negb (running q) then (s, Calls []) else
      let s := store r a err (release r q s) in
      let s := with_req (λ q, set_running false (set_queued false q)) r s in
      let (s, calls) := on_resolve r a err s in
      (s, Calls (calls ++ [FinishGuard (worker q)]))
  end.

(** The loop of its guard: the worker takes a request of the queue. *)
Definition guard_loop (i : wid) (s : resolver) : result :=
  match queue s with
  | [] => (s, Calls [])
  | r :: rest =>
      match reqs s !! r with
      | None => (s, Aborts)
      | Some q =>
          let take s := (worker_resolve i r (with_queue (tail (queue s)) s), Calls []) in
          if _use_cache q then
            match rfind (key_of q) s with
            | None => (s, Aborts)
            | Some (a, s) =>
                if ai_bool a
                then (note (EvFromCache r) (with_req (set_use_cache false) r s), Calls [FinishQueued r a; GuardLoop i])
                else take s
            end
          else take s
      end
  end.

Definition busy (s : resolver) : bool := existsb (λ w, match w_request w with Some _ => true | None => false end) (workers s).

(** The guard of [finish_resolve]. *)
Definition finish_guard (i : option wid) (s : resolver) : result :=
  match i with
  | None => (s, Calls [])
  | Some i =>
      match workers s !! i with
      | None => (s, Aborts)
      | Some w =>
          match w_request w, queue s with
          | Some _, _ => (s, Calls [])
          | None, [] => ((if busy s then s else with_roll None s), Calls [])
          | None, _ => guard_loop i s
          end
      end
  end.

(** [Worker::finish_resolve] *)
Definition worker_finish (i : wid) (a : AddrInfo SA) (err : option error_code) (s : resolver) : result :=
  match request_of i s with
  | None => (s, Aborts)
  | Some r => finish_resolve r a err (with_w (set_w_request None) i s)
  end.

(** *** Starting a request *)

(** The first worker without a request. *)
Definition free_worker (s : resolver) : option wid :=
  fst <$> list_find (λ w, w_request w = None) (workers s).

Definition roll_timeout (s : resolver) : Z :=
  let t := query_timeout (cfg s) / 5 in if t <? 1 then 1 else t.
Definition start_roll (s : resolver) : resolver :=
  match dns_roll_timer s with Some _ => s | None => with_roll (Some (roll_timeout s)) s end.

(** [Resolver::resolve_localhost] *)
Definition resolve_localhost (r : rid) (s : resolver) : resolver :=
  delay_for r (FinishLocalhost r) (with_cache_delayed (cache_delayed s ++ [r]) s).

(** Its lambda; [oom]: which of its allocations fails. *)
Definition localhost_port (q : request) : Z :=
  if bool_decide (_service q = EmptyString) then _port q
  else match from_chars (_service q) with Some p => p | None => 0 end.
Definition AF_INET : Z := 2.
Definition AF_INET6 : Z := 10.
Definition localhost (q : request) (oom : option nat) : AddrInfo SA * option error_code :=
  let enomem := Some (Std not_enough_memory) in
  let v6 := family (_hints q) =? AF_INET6 in
  let fam := if v6 then AF_INET6 else AF_INET in
  match oom with
  | Some O | Some 1%nat => (no_addr, enomem)
  | Some _ => (ai_of [mkNode fam 0 0 0 0 null_sa], enomem)
  | None =>
      let sa := if v6 then inet6 "::1" (localhost_port q) else inet4 "127.0.0.1" (localhost_port q) in
      (ai_of [mkNode fam (socktype (_hints q)) (protocol (_hints q)) 0 0 sa], None)
  end.

(** What [Resolver::resolve] does with a request that the cache cannot answer. *)
Definition enqueue (r : rid) (s : resolver) : resolver :=
  with_queue (queue s ++ [r]) (with_req (set_queued true) r s).
Definition resolve_by_worker (r : rid) (q : request) (s : resolver) : result :=
  if win32 && bool_decide (_node q = "localhost"%string) then (resolve_localhost r s, Calls []) else
  let s := if _timeout q =? 0 then s else with_req (set_timer true) r s in
  match queue s with
  | [] =>
      match free_worker s with
      | Some i => (worker_resolve i r (start_roll s), Calls [])
      | None =>
          if decide (length (workers s) < max_workers (cfg s))%nat then
            match add_worker s with
            | (s, Calls _) => (worker_resolve (pred (length (workers s))) r s, Calls [])
            | res => res
            end
          else (enqueue r s, Calls [])
      end
  | _ => (enqueue r s, Calls [])
  end.

(** [Resolver::resolve] *)
Definition resolve (r : rid) (s : resolver) : result :=
  if negb (looped s) then (s, Throws dead_loop) else
  match reqs s !! r with
  | None => (s, Aborts)
  | Some q =>
      let q := if _port q =? 0 then q else set_service (pretty (Z.to_N (_port q))) q in
      let q := set_running true q in
      let s := note (EvStart r) (with_reqs (<[r := q]> (reqs s)) s) in
      if _use_cache q && negb (bool_decide (cache_limit (cfg s) = 0%nat)) then
        match rfind (key_of q) s with
        | None => (s, Aborts)
        | Some (a, s) =>
            if ai_bool a then
              let s := with_req (set_use_cache false) r s in
              (delay_for r (FinishCached r a) (with_cache_delayed (cache_delayed s ++ [r]) s), Calls [])
            else resolve_by_worker r q s
        end
      else resolve_by_worker r q s
  end.

(** *** Cancelling *)

(** [Request::cancel] *)
Definition cancel (r : rid) (err : error_code) (s : resolver) : result := finish_resolve r no_addr (Some err) s.

Definition canceled : error_code := Std operation_canceled.

(** [Resolver::reset]: the three loops are calls that are made one by one. *)
Definition reset (s : resolver) : result :=
  (with_roll None s,
   Calls ([ResetWorkers 0 (length (workers s))] ++
          match last (cache_delayed s) with Some r => [ResetCached r] | None => [] end ++
          match last (queue s) with Some r => [ResetQueued r] | None => [] end)).

(** [for (auto& w : workers) if (w->request) w->request->cancel()]; a callback that
    adds a worker leaves the end of the iteration where it was. *)
Definition reset_workers (i n : wid) (s : resolver) : result :=
  if decide (i < n)%nat then
    (s, Calls (match request_of i s with Some r => [RApi (CancelReq r canceled)] | None => [] end ++ [ResetWorkers (S i) n]))
  else (s, Calls []).

(** [while (l.front() != last) l.front()->cancel(); last->cancel()], where [l] is
    one of the two lists; the front of an empty list is null. *)
Definition reset_list (l : list rid) (last : rid) (again : call) (s : resolver) : result :=
  match head l with
  | None => (s, Aborts)
  | Some r =>
      if decide (r = last) then (s, Calls [RApi (CancelReq last canceled)])
      else (s, Calls [RApi (CancelReq r canceled); again])
  end.

(** *** What the loop calls *)

(** A lambda given to [delay]. *)
Definition run_closure (f : rclosure SA) (oom : option nat) (s : resolver) : result :=
  match f with
  | FinishCached r a => finish_resolve r a None (with_req (set_delayed None) r s)
  | FinishSync i a err =>
      match request_of i s with
      | None => (s, Aborts)
      | Some r => worker_finish i a err (with_req (set_delayed None) r s)
      end
  | FinishLocalhost r =>
      match reqs s !! r with
      | None => (s, Aborts)
      | Some q =>
          let (a, err) := localhost q oom in finish_resolve r a err (with_req (set_delayed None) r s)
      end
  end.

Definition closure_at (i : Z) (s : resolver) : option (rclosure SA) :=
  snd <$> head (filter (λ x, x.1 = i) (ds_waiting (loop s))).
Definition run_delayed (i : Z) (oom : option nat) (s : resolver) : result :=
  match closure_at i s with
  | Some f => run_closure f oom (with_loop (ds_cancel i (loop s)) s)
  | None => (s, Calls [])
  end.

(** c-ares calls back for a query of the channel of a worker, once for each:
    [Worker::on_resolve] with its [try]; or it wants another set of sockets. *)
Definition ares_call (i : wid) (ev : ares_event SA) (s : resolver) : result :=
  match workers s !! i with
  | None => (s, Calls [])
  | Some w =>
      match ev with
      | AresSock sock rd wr =>
          match on_sockstate sock rd wr (polls w) with
          | Some m => (with_w (set_polls m) i s, Calls [])
          | None => (s, Aborts)
          end
      | AresDone status ai =>
          match queries w with
          | O => (s, Calls [])
          | S n =>
              let s := with_w (set_queries n) i s in
              match w_request w with
              | None => (s, Calls [])
              | Some _ =>
                  match worker_finish i (ai_of ai) (ares2stderr status) s with
                  | (s, Calls l) => (s, Calls (l ++ [CatchExc i]))
                  | res => res
                  end
              end
          end
      end
  end.

(** [if (exc) rethrow_exception()] *)
Definition rethrow_if (i : wid) (s : resolver) : result :=
  match workers s !! i ≫= exc with
  | Some e => (with_w (set_exc None) i s, Throws e)
  | None => (s, Calls [])
  end.

(** [Worker::handle_poll], [evs]: what c-ares calls while it processes the sockets. *)
Definition handle_poll (i : wid) (evs : list (ares_event SA)) : list call :=
  (AresCall i <$> evs) ++ [RethrowIf i].

(** [Resolver::handle_timer], one worker after the other. *)
Definition handle_timer (s : resolver) (evs : list (list (ares_event SA))) : list call :=
  [RollIter 0 (length (workers s)) evs].
Definition roll_iter (i n : wid) (evs : list (list (ares_event SA))) (s : resolver) : result :=
  if decide (i < n)%nat then
    (s, Calls (match request_of i s with Some _ => handle_poll i (default [] (head evs)) | None => [] end ++
               [RollIter (S i) n (tail evs)]))
  else (s, Calls []).

(** [cache_limit(val)], [cache_expiration_time(val)] *)
Definition set_cache_limit (n : nat) (s : resolver) : resolver :=
  with_cache (cache_limit_set n (_cache s))
    (with_cfg (mkConfig (cache_expiration_time (cfg s)) n (query_timeout (cfg s)) (max_workers (cfg s))) s).
Definition set_expiration (t : Z) (s : resolver) : resolver :=
  with_cfg (mkConfig t (cache_limit (cfg s)) (query_timeout (cfg s)) (max_workers (cfg s))) s.

Definition rapi_call (a : rapi SA Exn) (s : resolver) : result :=
  match a with
  | New r q => (match reqs s !! r with Some _ => s | None => with_reqs (<[r := fresh q]> (reqs s)) s end, Calls [])
  | Run r => resolve r s
  | CancelReq r err => cancel r err s
  | Reset => reset s
  | SetCacheLimit n => (set_cache_limit n s, Calls [])
  | SetExpiration t => (set_expiration t s, Calls [])
  | MarkBad k sa => match mark_bad_address k sa (_cache s) with
                    | Some m => (with_cache m s, Calls []) | None => (s, Aborts) end
  | Throw e => (s, Throws e)
  end.

Definition rbody (c : call) (s : resolver) : result :=
  match c with
  | RApi a => rapi_call a s
  | RunDelayed i oom => run_delayed i oom s
  | FinishQueued r a => finish_resolve r a None s
  | FinishGuard i => finish_guard i s
  | GuardLoop i => guard_loop i s
  | AresCall i ev => ares_call i ev s
  | CatchExc i => (s, Calls [])
  | RethrowIf i => rethrow_if i s
  | RollIter i n evs => roll_iter i n evs s
  | TimerFired r => match reqs s !! r with
                    | Some q => if timer q then cancel r (Std timed_out) s else (s, Calls [])
                    | None => (s, Calls []) end
  | ResetWorkers i n => reset_workers i n s
  | ResetCached l => reset_list (cache_delayed s) l (ResetCached l) s
  | ResetQueued l => reset_list (queue s) l (ResetQueued l) s
  | Rethrow e => (s, Throws e)
  end.

(** The guard runs and the exception goes on; the [catch] of a worker keeps it. *)
Definition runwind (c : call) (e : Exn) (s : resolver) : result :=
  match c with
  | FinishGuard i =>
      let (s, o) := finish_guard i s in
      (s, match o with Calls l => Calls (l ++ [Rethrow e]) | o => o end)
  | CatchExc i => (with_w (set_exc (Some e)) i s, Calls [])
  | _ => (s, Throws e)
  end.

Definition resolver_program : program resolver call Exn := Program rbody runwind.

(** [Resolver::Resolver] *)
Definition new_resolver (c : Config) (d : D) (ch : Ch) (t : Z) (x : X) : resolver * outcome call Exn :=
  add_worker (mkResolver true c None [] [] [] ∅ ∅ d ch t x []).

Definition resolver_initial (s : resolver) : Prop :=
  ∃ c d ch t x, (∀ p, p ∉ ds_waiting d) ∧ new_resolver c d ch t x = (s, Calls []).

(** The loop calls a delayed lambda, a timer of a request, the roll timer, a poll of
    a worker; the user calls something; or the clock goes on. *)
Definition resolver_input (s : resolver) (cs : list call) (s' : resolver) : Prop :=
  (∃ c, cs = [c] ∧ s' = s ∧ match c with RApi _ | RunDelayed _ _ | TimerFired _ => True | _ => False end) ∨
  (∃ i evs, cs = handle_poll i evs ∧ s' = s) ∨
  (∃ evs t, dns_roll_timer s = Some t ∧ cs = handle_timer s evs ∧ s' = s) ∨
  (∃ t, cs = [] ∧ s' = with_now t s).
End Resolver.

Arguments resolver : clear implicits.

(** ** Invariants *)

(** The requests that were started and that were called back, in order. *)
Definition starts {SA} (l : list (revent SA)) : list rid := omap (λ e, match e with EvStart r => Some r | _ => None end) l.
Definition callbacks {SA} (l : list (revent SA)) : list rid := omap (λ e, match e with EvCallback r _ _ => Some r | _ => None end) l.

(** How often a request occurs in a list. *)
Abbreviation occurs := (count_occ Nat.eq_dec).

(** Each request is run once, and no queued request was answered from the cache. *)
Definition regular {SA} (l : list (revent SA)) : Prop := NoDup (starts l) ∧ ∀ r, EvFromCache r ∉ l.

Lemma starts_app {SA} (l1 l2 : list (revent SA)) : starts (l1 ++ l2) = starts l1 ++ starts l2.
Proof. apply omap_app. Qed.
Lemma callbacks_app {SA} (l1 l2 : list (revent SA)) : callbacks (l1 ++ l2) = callbacks l1 ++ callbacks l2.
Proof. apply omap_app. Qed.
Lemma regular_app {SA} (l1 l2 : list (revent SA)) : regular (l1 ++ l2) → regular l1.
Proof.
  unfold regular. rewrite starts_app. intros [H1 H2]. split; [by apply NoDup_app in H1 as [? _]|].
  intros r Hr. apply (H2 r). apply elem_of_app. by left.
Qed.

Section Invariant.
#[local] Set Default Proof Using "Type*".
Context {SA X Exn Ch D : Type} `{EqDecision SA} `{DelayExact D (rclosure SA)}.
Implicit Types (s : resolver SA X Exn Ch D) (r : rid) (i : wid).

Abbreviation waiting s := (ds_waiting (loop s)).

(** The closure that will finish a request which waits for nothing else. *)
Definition finishes (f : rclosure SA) (r : rid) (q : request) : Prop :=
  match f with
  | FinishCached r' _ | FinishLocalhost r' => r' = r ∧ worker q = None ∧ queued q = false
  | FinishSync i _ _ => worker q = Some i
  end.

(** A worker with the request [r] has one query for it, or the answer waits. *)
Definition serves s (i : wid) (w : Worker Exn) (r : rid) : Prop :=
  ∃ q, reqs s !! r = Some q ∧ running q = true ∧ worker q = Some i ∧
    ((delayed q = None ∧ queries w = 1%nat) ∨
     (∃ id a err, delayed q = Some id ∧ (id, FinishSync i a err) ∈ waiting s ∧ queries w = 0%nat)).
Definition queued_ok s (r : rid) : Prop :=
  ∃ q, reqs s !! r = Some q ∧ running q = true ∧ worker q = None ∧ queued q = true ∧ delayed q = None.
Definition cached_ok s (r : rid) : Prop :=
  ∃ q id f, reqs s !! r = Some q ∧ running q = true ∧ worker q = None ∧ queued q = false ∧ delayed q = Some id ∧
    (id, f) ∈ waiting s ∧ finishes f r q.
Definition placed s (r : rid) (q : request) : Prop :=
  (∃ i w, worker q = Some i ∧ workers s !! i = Some w ∧ w_request w = Some r) ∨ r ∈ queue s ∨ r ∈ cache_delayed s.

Definition runs s (r : rid) : bool := match reqs s !! r with Some q => running q | None => false end.

(** The state between calls; [G]: the workers for which a guard of [finish_resolve]
    is still to be run; [h]: a running request that is in no place, on its way from
    one to another. *)
Record rinv (G : wid → Prop) (h : option rid) s : Prop := {
  ri_worker i w r : workers s !! i = Some w → w_request w = Some r → serves s i w r;
  ri_free i w : workers s !! i = Some w → w_request w = None → queries w = 0%nat;
  ri_queue r : r ∈ queue s → queued_ok s r;
  ri_cache r : r ∈ cache_delayed s → cached_ok s r;
  ri_nodup : NoDup (queue s) ∧ NoDup (cache_delayed s);
  ri_placed r q : reqs s !! r = Some q → running q = true → h ≠ Some r → placed s r q;
  ri_hand r : h = Some r → (r ∉ queue s) ∧ (r ∉ cache_delayed s) ∧
    (∀ i w, workers s !! i = Some w → w_request w ≠ Some r) ∧
    ∃ q, reqs s !! r = Some q ∧ running q = true ∧ delayed q = None;
  ri_new r q : reqs s !! r = Some q → r ∉ starts (rlog s) →
    running q = false ∧ worker q = None ∧ queued q = false ∧ delayed q = None;
  ri_known r : r ∈ starts (rlog s) → is_Some (reqs s !! r);
  ri_delayed r q id : reqs s !! r = Some q → delayed q = Some id → running q = true ∧ id ∈ (waiting s).*1;
  ri_waiting id f : (id, f) ∈ waiting s →
    ∃ r q, reqs s !! r = Some q ∧ running q = true ∧ delayed q = Some id ∧ finishes f r q;
  ri_inj r1 r2 q1 q2 id : reqs s !! r1 = Some q1 → reqs s !! r2 = Some q2 →
    delayed q1 = Some id → delayed q2 = Some id → r1 = r2;
  ri_ids : NoDup (waiting s).*1;
  ri_workers : (length (workers s) ≤ max_workers (cfg s))%nat ∧
    (queue s ≠ [] → length (workers s) = max_workers (cfg s));
  ri_busy i w : queue s ≠ [] → workers s !! i = Some w → w_request w = None → G i;
  ri_count r :
    occurs (starts (rlog s)) r =
    (occurs (callbacks (rlog s)) r + if runs s r then 1 else 0)%nat
}.

Lemma rinv_mono G G' h s : (∀ i, G i → G' i) → rinv G h s → rinv G' h s.
Proof. intros Hg []. econstructor; eauto. Qed.

(** What a step that is about the request [r] keeps of the others. *)
Record others (G : wid → Prop) (r : rid) s s' : Prop := {
  o_reqs r' : r' ≠ r → reqs s' !! r' = reqs s !! r';
  o_wait id f : (∀ q, reqs s !! r = Some q → delayed q ≠ Some id) → (id, f) ∈ waiting s → (id, f) ∈ waiting s';
  o_wait' id f : (id, f) ∈ waiting s' →
    ((id, f) ∈ waiting s ∧ ∀ q, reqs s !! r = Some q → delayed q ≠ Some id) ∨
    (∃ q, reqs s' !! r = Some q ∧ running q = true ∧ delayed q = Some id ∧ finishes f r q);
  o_ids : NoDup (waiting s').*1;
  o_queue r' : r' ≠ r → r' ∈ queue s' ↔ r' ∈ queue s;
  o_cache r' : r' ≠ r → r' ∈ cache_delayed s' ↔ r' ∈ cache_delayed s;
  o_nodup : NoDup (queue s') ∧ NoDup (cache_delayed s');
  o_workers i : workers s' !! i = workers s !! i ∨
    ∃ w', workers s' !! i = Some w' ∧ (w_request w' = Some r ∨ w_request w' = None ∧ queries w' = 0%nat) ∧
      ∀ w, workers s !! i = Some w → w_request w = None ∨ w_request w = Some r;
  o_max : (length (workers s') ≤ max_workers (cfg s'))%nat ∧
    (queue s' ≠ [] → length (workers s') = max_workers (cfg s'));
  o_busy i w : queue s' ≠ [] → workers s' !! i = Some w → w_request w = None → G i;
  o_log r' : r' ≠ r →
    occurs (starts (rlog s')) r' = occurs (starts (rlog s)) r' ∧
    occurs (callbacks (rlog s')) r' = occurs (callbacks (rlog s)) r'
}.

(** What is to be shown of [r] itself. *)
Record own (h : option rid) (r : rid) s s' : Prop := {
  w_worker i w : workers s' !! i = Some w → w_request w = Some r → serves s' i w r;
  w_queue : r ∈ queue s' → queued_ok s' r;
  w_cache : r ∈ cache_delayed s' → cached_ok s' r;
  w_placed q : reqs s' !! r = Some q → running q = true → h ≠ Some r → placed s' r q;
  w_hand : h = Some r → (r ∉ queue s') ∧ (r ∉ cache_delayed s') ∧
    (∀ i w, workers s' !! i = Some w → w_request w ≠ Some r) ∧
    ∃ q, reqs s' !! r = Some q ∧ running q = true ∧ delayed q = None;
  w_new q : reqs s' !! r = Some q → r ∉ starts (rlog s') →
    running q = false ∧ worker q = None ∧ queued q = false ∧ delayed q = None;
  w_known : r ∈ starts (rlog s') → is_Some (reqs s' !! r);
  w_delayed q id : reqs s' !! r = Some q → delayed q = Some id → running q = true ∧ id ∈ (waiting s').*1;
  w_inj q id : reqs s' !! r = Some q → delayed q = Some id →
    ∀ r' q', r' ≠ r → reqs s !! r' = Some q' → delayed q' ≠ Some id;
  w_count : occurs (starts (rlog s')) r =
    (occurs (callbacks (rlog s')) r + if runs s' r then 1 else 0)%nat
}.

Lemma others_starts G r s s' r' : others G r s s' → r' ≠ r → r' ∈ starts (rlog s') ↔ r' ∈ starts (rlog s).
Proof.
  intros Ho Hr. rewrite !list_elem_of_In, !(count_occ_In Nat.eq_dec). by rewrite (proj1 (o_log _ _ _ _ Ho r' Hr)).
Qed.

Lemma others_wait G G' h r s s' r' q id f : rinv G h s → others G' r s s' → r' ≠ r →
  reqs s !! r' = Some q → delayed q = Some id → (id, f) ∈ waiting s → (id, f) ∈ waiting s'.
Proof.
  intros Hi Ho Hr Hq Hd. apply (o_wait _ _ _ _ Ho). intros q' Hq' Hd'.
  by apply Hr, (ri_inj _ _ _ Hi r' r q q' id).
Qed.

Lemma rinv_step G G' h h' r s s' :
  rinv G h s → (h = None ∨ h = Some r) → (h' = None ∨ h' = Some r) →
  others G' r s s' → own h' r s s' → rinv G' h' s'.
Proof.
  intros Hi Hh Hh' Ho Hw.
  assert (Wk : ∀ i w r', r' ≠ r → workers s' !! i = Some w → w_request w = Some r' → workers s !! i = Some w).
  { intros i w r' Hr Hl Hq. destruct (o_workers _ _ _ _ Ho i) as [<-|(w' & E & [?|[? _]] & _)]; congruence. }
  constructor.
  - intros i w r' Hl Hr'. destruct (decide (r' = r)) as [->|Hne]; [by apply (w_worker _ _ _ _ Hw i)|].
    destruct (ri_worker _ _ _ Hi i w r' (Wk i w r' Hne Hl Hr') Hr') as (q & Hq & Hrun & Hwk & Hd).
    exists q. rewrite (o_reqs _ _ _ _ Ho r' Hne). split_and!; try done.
    destruct Hd as [?|(id & a & err & Hd & Hin & ?)]; [by left|]. right. exists id, a, err. split_and!; try done.
    by apply (others_wait G G' h r s s' r' q id _ Hi Ho).
  - intros i w Hl Hn. destruct (o_workers _ _ _ _ Ho i) as [E|(w' & E & [?|[_ ?]] & _)].
    + apply (ri_free _ _ _ Hi i); congruence.
    + congruence.
    + congruence.
  - intros r' Hin. destruct (decide (r' = r)) as [->|Hne]; [by apply (w_queue _ _ _ _ Hw)|].
    unfold queued_ok. rewrite (o_reqs _ _ _ _ Ho r' Hne). apply (ri_queue _ _ _ Hi). by apply (o_queue _ _ _ _ Ho).
  - intros r' Hin. destruct (decide (r' = r)) as [->|Hne]; [by apply (w_cache _ _ _ _ Hw)|].
    destruct (ri_cache _ _ _ Hi r') as (q & id & f & Hq & Hrun & Hwk & Hqu & Hd & Hf & Hfin); [by apply (o_cache _ _ _ _ Ho)|].
    exists q, id, f. rewrite (o_reqs _ _ _ _ Ho r' Hne). split_and!; try done.
    by apply (others_wait G G' h r s s' r' q id _ Hi Ho).
  - apply (o_nodup _ _ _ _ Ho).
  - intros r' q Hq Hrun Hne'. destruct (decide (r' = r)) as [->|Hne]; [by apply (w_placed _ _ _ _ Hw)|].
    rewrite (o_reqs _ _ _ _ Ho r' Hne) in Hq.
    destruct (ri_placed _ _ _ Hi r' q Hq Hrun) as [(i & w & Hwk & Hl & Hr')|[Hin|Hin]]; [destruct Hh; congruence| | |].
    + left. exists i, w. split_and!; try done.
      destruct (o_workers _ _ _ _ Ho i) as [->|(w' & E & _ & Hold)]; [done|]. destruct (Hold w Hl); congruence.
    + right. left. by apply (o_queue _ _ _ _ Ho).
    + right. right. by apply (o_cache _ _ _ _ Ho).
  - intros r' E. assert (r' = r) as -> by (destruct Hh'; congruence). by apply (w_hand _ _ _ _ Hw).
  - intros r' q Hq Hn. destruct (decide (r' = r)) as [->|Hne]; [by apply (w_new _ _ _ _ Hw)|].
    rewrite (o_reqs _ _ _ _ Ho r' Hne) in Hq. apply (ri_new _ _ _ Hi r'); [done|].
    by rewrite <-(others_starts G' r s s').
  - intros r' Hin. destruct (decide (r' = r)) as [->|Hne]; [by apply (w_known _ _ _ _ Hw)|].
    rewrite (o_reqs _ _ _ _ Ho r' Hne). apply (ri_known _ _ _ Hi). by rewrite <-(others_starts G' r s s').
  - intros r' q id Hq Hd. destruct (decide (r' = r)) as [->|Hne]; [by apply (w_delayed _ _ _ _ Hw)|].
    rewrite (o_reqs _ _ _ _ Ho r' Hne) in Hq. destruct (ri_delayed _ _ _ Hi r' q id Hq Hd) as [? Hin]. split; [done|].
    apply list_elem_of_fmap in Hin as ([id' f] & [= ->] & Hin). apply list_elem_of_fmap. exists (id', f). split; [done|].
    by apply (others_wait G G' h r s s' r' q id' _ Hi Ho).
  - intros id f Hin. destruct (o_wait' _ _ _ _ Ho id f Hin) as [[Hold Hno]|(q & ? & ? & ? & ?)]; [|by exists r, q].
    destruct (ri_waiting _ _ _ Hi id f Hold) as (r' & q & Hq & ? & Hd & ?). exists r', q. split_and!; try done.
    rewrite (o_reqs _ _ _ _ Ho); [done|]. intros ->. by apply (Hno q).
  - intros r1 r2 q1 q2 id H1 H2 D1 D2.
    destruct (decide (r1 = r)) as [->|N1], (decide (r2 = r)) as [->|N2]; [done| | |].
    + rewrite (o_reqs _ _ _ _ Ho r2 N2) in H2. by destruct (w_inj _ _ _ _ Hw q1 id H1 D1 r2 q2).
    + rewrite (o_reqs _ _ _ _ Ho r1 N1) in H1. by destruct (w_inj _ _ _ _ Hw q2 id H2 D2 r1 q1).
    + rewrite (o_reqs _ _ _ _ Ho r1 N1) in H1. rewrite (o_reqs _ _ _ _ Ho r2 N2) in H2. by apply (ri_inj _ _ _ Hi r1 r2 q1 q2 id).
  - apply (o_ids _ _ _ _ Ho).
  - apply (o_max _ _ _ _ Ho).
  - apply (o_busy _ _ _ _ Ho).
  - intros r'. destruct (decide (r' = r)) as [->|Hne]; [by apply (w_count _ _ _ _ Hw)|].
    destruct (o_log _ _ _ _ Ho r' Hne) as [-> ->]. unfold runs. rewrite (o_reqs _ _ _ _ Ho r' Hne). apply (ri_count _ _ _ Hi).
Qed.

(** What the invariant looks at in a request and in a worker. *)
Definition core (q : request) : bool * option wid * bool * option Z := (running q, worker q, queued q, delayed q).
Definition w_core (w : Worker Exn) : option rid * nat := (w_request w, queries w).

(** A step that changes nothing of that. *)
Record same s s' : Prop := {
  s_reqs r : core <$> reqs s' !! r = core <$> reqs s !! r;
  s_workers : w_core <$> workers s' = w_core <$> workers s;
  s_queue : queue s' = queue s;
  s_cache : cache_delayed s' = cache_delayed s;
  s_wait : waiting s' = waiting s;
  s_starts : starts (rlog s') = starts (rlog s);
  s_callbacks : callbacks (rlog s') = callbacks (rlog s);
  s_max : max_workers (cfg s') = max_workers (cfg s)
}.

Lemma same_sym s s' : same s s' → same s' s.
Proof. intros []. constructor; auto. Qed.

Lemma same_trans s1 s2 s3 : same s1 s2 → same s2 s3 → same s1 s3.
Proof. intros [] []. constructor; intros; etrans; eauto. Qed.

Lemma same_req s s' r q' : same s s' → reqs s' !! r = Some q' →
  ∃ q, reqs s !! r = Some q ∧ running q' = running q ∧ worker q' = worker q ∧ queued q' = queued q ∧ delayed q' = delayed q.
Proof.
  intros Hs Hq. pose proof (s_reqs _ _ Hs r) as E. rewrite Hq in E. simpl in E.
  destruct (reqs s !! r) as [q|]; [|done]. injection E as E1 E2 E3 E4. by exists q.
Qed.

Lemma same_worker s s' i w' : same s s' → workers s' !! i = Some w' →
  ∃ w, workers s !! i = Some w ∧ w_request w' = w_request w ∧ queries w' = queries w.
Proof.
  intros Hs Hw. pose proof (f_equal (.!! i) (s_workers _ _ Hs)) as E. simpl in E.
  rewrite !list_lookup_fmap, Hw in E. destruct (workers s !! i) as [w|]; [|done]. injection E as E1 E2. by exists w.
Qed.

Lemma rinv_same G h s s' : same s s' → rinv G h s → rinv G h s'.
Proof.
  intros Hs Hi. pose proof (same_sym _ _ Hs) as Hs'.
  constructor; rewrite ?(s_queue _ _ Hs), ?(s_cache _ _ Hs), ?(s_wait _ _ Hs), ?(s_starts _ _ Hs), ?(s_callbacks _ _ Hs).
  - intros i w' r Hl Hr. destruct (same_worker s s' i w' Hs Hl) as (w & Hl0 & E1 & E2). rewrite E1 in Hr.
    destruct (ri_worker _ _ _ Hi i w r Hl0 Hr) as (q & Hq & Hrun & Hwk & Hd).
    destruct (same_req s' s r q Hs' Hq) as (q' & Hq' & F1 & F2 & F3 & F4). exists q'. rewrite E2, (s_wait _ _ Hs), <-F1, <-F2, <-F4. by split_and!.
  - intros i w' Hl Hn. destruct (same_worker s s' i w' Hs Hl) as (w & Hl0 & E1 & E2). rewrite E2. apply (ri_free _ _ _ Hi i w); congruence.
  - intros r Hr. destruct (ri_queue _ _ _ Hi r Hr) as (q & Hq & ? & ? & ? & ?).
    destruct (same_req s' s r q Hs' Hq) as (q' & Hq' & F1 & F2 & F3 & F4). exists q'. split_and!; congruence.
  - intros r Hr. destruct (ri_cache _ _ _ Hi r Hr) as (q & id & f & Hq & ? & ? & ? & ? & ? & Hf).
    destruct (same_req s' s r q Hs' Hq) as (q' & Hq' & F1 & F2 & F3 & F4). exists q', id, f. rewrite (s_wait _ _ Hs).
    split_and!; try congruence. destruct f; simpl in *; [by rewrite <-F2, <-F3|congruence|by rewrite <-F2, <-F3].
  - apply Hi.
  - intros r q' Hq' Hrun Hh. destruct (same_req s s' r q' Hs Hq') as (q & Hq & F1 & F2 & F3 & F4). unfold placed.
    rewrite (s_queue _ _ Hs), (s_cache _ _ Hs).
    destruct (ri_placed _ _ _ Hi r q) as [(i & w & Hwk & Hl & Hr)|?]; [done|congruence|done| |by right].
    left. destruct (same_worker s' s i w Hs' Hl) as (w' & Hl' & E1 & E2). exists i, w'. split_and!; congruence.
  - intros r Hr. destruct (ri_hand _ _ _ Hi r Hr) as (? & ? & Hno & q & Hq & ? & ?).
    destruct (same_req s' s r q Hs' Hq) as (q' & Hq' & F1 & F2 & F3 & F4). split_and!; try done.
    + intros i w' Hl. destruct (same_worker s s' i w' Hs Hl) as (w & Hl0 & -> & E2). by apply (Hno i).
    + exists q'. split_and!; congruence.
  - intros r q' Hq' Hn. destruct (same_req s s' r q' Hs Hq') as (q & Hq & -> & -> & -> & ->). by apply (ri_new _ _ _ Hi r).
  - intros r Hr. destruct (ri_known _ _ _ Hi r Hr) as [q Hq]. destruct (same_req s' s r q Hs' Hq) as (q' & Hq' & _). by exists q'.
  - intros r q' id Hq' Hd. destruct (same_req s s' r q' Hs Hq') as (q & Hq & F1 & F2 & F3 & F4). rewrite F1.
    apply (ri_delayed _ _ _ Hi r); congruence.
  - intros id f Hin. destruct (ri_waiting _ _ _ Hi id f Hin) as (r & q & Hq & ? & ? & Hf).
    destruct (same_req s' s r q Hs' Hq) as (q' & Hq' & F1 & F2 & F3 & F4). exists r, q'. split_and!; try congruence.
    destruct f; simpl in *; [by rewrite <-F2, <-F3|congruence|by rewrite <-F2, <-F3].
  - intros r1 r2 q1 q2 id H1 H2 D1 D2. destruct (same_req s s' r1 q1 Hs H1) as (p1 & P1 & _ & _ & _ & F1).
    destruct (same_req s s' r2 q2 Hs H2) as (p2 & P2 & _ & _ & _ & F2). apply (ri_inj _ _ _ Hi r1 r2 p1 p2 id); congruence.
  - apply Hi.
  - assert (length (workers s') = length (workers s)) as ->.
    { by rewrite <-(length_fmap w_core (workers s')), (s_workers _ _ Hs), length_fmap. }
    rewrite (s_max _ _ Hs). apply Hi.
  - intros i w' Hq Hl Hn. destruct (same_worker s s' i w' Hs Hl) as (w & Hl0 & E1 & E2). apply (ri_busy _ _ _ Hi i w); congruence.
  - intros r. rewrite (ri_count _ _ _ Hi r). unfold runs. pose proof (s_reqs _ _ Hs r) as E.
    destruct (reqs s' !! r) as [q'|], (reqs s !! r) as [q|]; simpl in E; try done. by injection E as -> _ _ _.
Qed.

Lemma same_with_req (f : request → request) r s : (∀ q, core (f q) = core q) → same s (with_req f r s).
Proof.
  intros Hf. constructor; try done. intros r'. simpl. rewrite lookup_alter. case_decide; [|done]. subst.
  destruct (reqs s !! r') as [q|]; [|done]. simpl. by rewrite Hf.
Qed.

Lemma same_with_w (f : Worker Exn → Worker Exn) i s : (∀ w, w_core (f w) = w_core w) → same s (with_w f i s).
Proof.
  intros Hf. constructor; try done. simpl. apply list_eq. intros j. rewrite !list_lookup_fmap, list_lookup_alter.
  case_decide; [|done]. subst. destruct (workers s !! j) as [w|]; [|done]. simpl. by rewrite Hf.
Qed.

(** *** From one place to another *)

(** The list of the workers with [w'] instead of the [i]-th. *)
Lemma workers_insert i w' (l l' : list (Worker Exn)) j :
  l' = <[i := w']> l → (i < length l)%nat → l' !! j = if decide (i = j) then Some w' else l !! j.
Proof. intros -> Hi. case_decide as E; [by subst; apply list_lookup_insert_eq|by apply list_lookup_insert_ne]. Qed.

(** A request that is in no place is called back. *)
Lemma rinv_end G r s a err q :
  rinv G (Some r) s → reqs s !! r = Some q →
  rinv G None (note (EvCallback r a err) (with_req (λ q, set_running false (set_queued false q)) r s)).
Proof.
  intros Hi Hq. destruct (ri_hand _ _ _ Hi r eq_refl) as (Nq & Nc & Nw & q0 & Hq0 & Hrun & Hd). simplify_eq.
  apply (rinv_step G G (Some r) None r s); [done|by right|by left| |].
  - constructor; try done; simpl.
    + intros r' Hr. by rewrite lookup_alter_ne.
    + intros id f Hin. left. split; [done|]. congruence.
    + apply Hi.
    + apply Hi.
    + intros i. by left.
    + apply Hi.
    + apply Hi.
    + intros r' Hr. rewrite starts_app, callbacks_app. simpl. rewrite app_nil_r. split; [done|].
      rewrite count_occ_app. simpl. destruct (Nat.eq_dec r r'); [congruence|lia].
  - constructor; simpl; rewrite ?lookup_alter_eq, ?Hq; try done.
    + intros i w Hl Hr. by destruct (Nw i w Hl).
    + intros q' [= <-]. done.
    + intros q' [= <-]. rewrite starts_app. simpl. rewrite app_nil_r. intros Hn. simpl.
      destruct (ri_new _ _ _ Hi r q Hq Hn) as (? & ? & ? & ?). congruence.
    + intros q' id [= <-]. simpl. congruence.
    + intros q' id [= <-]. simpl. congruence.
    + unfold runs. simpl. rewrite lookup_alter_eq, Hq. simpl. rewrite starts_app, callbacks_app, !count_occ_app. simpl.
      destruct (Nat.eq_dec r r); [|done]. pose proof (ri_count _ _ _ Hi r) as C. unfold runs in C. rewrite Hq, Hrun in C. lia.
Qed.

(** It is put at the end of the queue. *)
Lemma rinv_enqueue G r s q :
  rinv G (Some r) s → reqs s !! r = Some q → worker q = None → length (workers s) = max_workers (cfg s) →
  (queue s ≠ [] ∨ ∀ i w, workers s !! i = Some w → w_request w ≠ None) →
  rinv G None (enqueue r s).
Proof.
  intros Hi Hq Hw Hlen Hfull. destruct (ri_hand _ _ _ Hi r eq_refl) as (Nq & Nc & Nw & q0 & Hq0 & Hrun & Hd). simplify_eq.
  apply (rinv_step G G (Some r) None r s); [done|by right|by left| |].
  - constructor; try done; simpl.
    + intros r' Hr. by rewrite lookup_alter_ne.
    + intros id f Hin. left. split; [done|]. congruence.
    + apply Hi.
    + intros r' Hr. rewrite elem_of_app, list_elem_of_singleton. naive_solver.
    + split; [|apply Hi]. apply NoDup_app. split_and!; [apply Hi| |apply NoDup_singleton]. by intros x Hx ->%list_elem_of_singleton.
    + intros i. by left.
    + split; [apply Hi|done].
    + intros i w _ Hl Hn. destruct Hfull as [Hne|Hall]; [by apply (ri_busy _ _ _ Hi i w)|by destruct (Hall i w)].
  - constructor; simpl; rewrite ?lookup_alter_eq, ?Hq; try done.
    + intros i w Hl Hr. by destruct (Nw i w Hl).
    + intros _. exists (set_queued true q). simpl. by rewrite lookup_alter_eq, Hq.
    + intros q' _ _ _. right. left. simpl. apply elem_of_app. right. by apply list_elem_of_singleton.
    + intros q' [= <-] Hn. destruct (ri_new _ _ _ Hi r q Hq Hn) as (? & ? & ? & ?). congruence.
    + intros q' id [= <-]. simpl. congruence.
    + intros q' id [= <-]. simpl. congruence.
    + unfold runs. simpl. rewrite lookup_alter_eq, Hq. simpl. pose proof (ri_count _ _ _ Hi r) as C. unfold runs in C. by rewrite Hq in C.
Qed.

(** It waits for a lambda in the loop, for the answer that the cache has. *)
Lemma rinv_cached G r s f q :
  rinv G (Some r) s → reqs s !! r = Some q → finishes f r q → worker q = None → queued q = false →
  rinv G None (delay_for r f (with_cache_delayed (cache_delayed s ++ [r]) s)).
Proof.
  intros Hi Hq Hf Hw Hqu. destruct (ri_hand _ _ _ Hi r eq_refl) as (Nq & Nc & Nw & q0 & Hq0 & Hrun & Hd). simplify_eq.
  unfold delay_for. simpl. pose proof (dx_add f (loop s)) as Ha. pose proof (dx_fresh f (loop s)) as Hfr.
  destruct (ds_add f (loop s)) as [d id]. simpl in *.
  apply (rinv_step G G (Some r) None r s); [done|by right|by left| |].
  - constructor; try done; simpl; rewrite ?Ha.
    + intros r' Hr. by rewrite lookup_alter_ne.
    + intros id' f' _ Hin. apply elem_of_app. by left.
    + rewrite lookup_alter_eq, Hq. intros id' f' [Hin|[= -> ->]%list_elem_of_singleton]%elem_of_app.
      * left. split; [done|]. congruence.
      * right. exists (set_delayed (Some id) q). by split_and!.
    + rewrite fmap_app. apply NoDup_app. split_and!; [apply Hi| |apply NoDup_singleton]. by intros x Hx ->%list_elem_of_singleton.
    + intros r' Hr. rewrite elem_of_app, list_elem_of_singleton. naive_solver.
    + split; [apply Hi|]. apply NoDup_app. split_and!; [apply Hi| |apply NoDup_singleton]. by intros x Hx ->%list_elem_of_singleton.
    + intros i. by left.
    + apply Hi.
    + apply Hi.
  - constructor; simpl; rewrite ?lookup_alter_eq, ?Hq; try done.
    + intros i w Hl Hr. by destruct (Nw i w Hl).
    + intros _. exists (set_delayed (Some id) q), id, f. simpl. rewrite lookup_alter_eq, Hq, Ha. split_and!; try done.
      apply elem_of_app. right. by apply list_elem_of_singleton.
    + intros q' _ _ _. right. right. simpl. apply elem_of_app. right. by apply list_elem_of_singleton.
    + intros q' [= <-] Hn. destruct (ri_new _ _ _ Hi r q Hq Hn) as (? & ? & ? & ?). congruence.
    + intros q' id' [= <-] [= <-]. split; [done|]. rewrite Ha, fmap_app. apply elem_of_app. right. by apply list_elem_of_singleton.
    + intros q' id' [= <-] [= <-] r' p Hr Hp Hd'. by destruct (ri_delayed _ _ _ Hi r' p id Hp Hd').
    + unfold runs. simpl. rewrite lookup_alter_eq, Hq. simpl. pose proof (ri_count _ _ _ Hi r) as C. unfold runs in C. by rewrite Hq in C.
Qed.

(** A worker takes it: c-ares is asked, or has answered at once. *)
Lemma rinv_asked G r s i w q :
  rinv G (Some r) s → reqs s !! r = Some q → workers s !! i = Some w → w_request w = None →
  rinv G None (with_w (λ w, set_queries (S (queries w)) (set_w_request (Some r) w)) i (with_req (set_worker (Some i)) r s)).
Proof.
  intros Hi Hq Hw Hn. destruct (ri_hand _ _ _ Hi r eq_refl) as (Nq & Nc & Nw & q0 & Hq0 & Hrun & Hd). simplify_eq.
  assert (Hlt : (i < length (workers s))%nat) by by eapply lookup_lt_Some.
  apply (rinv_step G G (Some r) None r s); [done|by right|by left| |].
  - constructor; try done; simpl.
    + intros r' Hr. by rewrite lookup_alter_ne.
    + intros id f Hin. left. split; [done|]. congruence.
    + apply Hi.
    + apply Hi.
    + intros j. rewrite list_lookup_alter. case_decide; [|by left]. subst j. right. rewrite Hw. simpl. eexists.
      split; [done|]. split; [by left|]. intros ? [= <-]. by left.
    + rewrite length_alter. apply Hi.
    + intros j w'. rewrite list_lookup_alter. case_decide; [|apply Hi]. subst j. rewrite Hw. by intros _ [= <-].
  - constructor; simpl; rewrite ?lookup_alter_eq, ?Hq; try done.
    + intros j w'. rewrite list_lookup_alter. case_decide as Hj; [|intros Hl Hr; by destruct (Nw j w' Hl)]. subst j.
      rewrite Hw. intros [= <-] _. exists (set_worker (Some i) q). simpl. rewrite lookup_alter_eq, Hq.
      split_and!; try done. left. split; [done|]. by rewrite (ri_free _ _ _ Hi i w Hw Hn).
    + intros q' [= <-] _ _. left. exists i. eexists. simpl. rewrite list_lookup_alter, decide_True, Hw by done. done.
    + intros q' [= <-] Hs. destruct (ri_new _ _ _ Hi r q Hq Hs) as (? & ? & ? & ?). congruence.
    + intros q' id [= <-]. simpl. congruence.
    + intros q' id [= <-]. simpl. congruence.
    + unfold runs. simpl. rewrite lookup_alter_eq, Hq. simpl. pose proof (ri_count _ _ _ Hi r) as C. unfold runs in C. by rewrite Hq in C.
Qed.

Lemma rinv_answered G r s i w q a err :
  rinv G (Some r) s → reqs s !! r = Some q → workers s !! i = Some w → w_request w = None →
  rinv G None (delay_for r (FinishSync i a err) (with_w (set_w_request (Some r)) i (with_req (set_worker (Some i)) r s))).
Proof.
  intros Hi Hq Hw Hn. destruct (ri_hand _ _ _ Hi r eq_refl) as (Nq & Nc & Nw & q0 & Hq0 & Hrun & Hd). simplify_eq.
  assert (Hlt : (i < length (workers s))%nat) by by eapply lookup_lt_Some.
  unfold delay_for. simpl. set (f := FinishSync i a err). pose proof (dx_add f (loop s)) as Ha. pose proof (dx_fresh f (loop s)) as Hfr.
  destruct (ds_add f (loop s)) as [d id]. simpl in *.
  apply (rinv_step G G (Some r) None r s); [done|by right|by left| |].
  - constructor; try done; simpl; rewrite ?Ha, ?lookup_alter_eq, ?Hq.
    + intros r' Hr. by rewrite !lookup_alter_ne.
    + intros id' f' _ Hin. apply elem_of_app. by left.
    + intros id' f' [Hin|[= -> ->]%list_elem_of_singleton]%elem_of_app; [left; split; [done|congruence]|].
      right. eexists. simpl. by split_and!.
    + rewrite fmap_app. apply NoDup_app. split_and!; [apply Hi| |apply NoDup_singleton]. by intros x Hx ->%list_elem_of_singleton.
    + apply Hi.
    + intros j. rewrite list_lookup_alter. case_decide; [|by left]. subst j. right. rewrite Hw. simpl. eexists.
      split; [done|]. split; [by left|]. intros ? [= <-]. by left.
    + rewrite length_alter. apply Hi.
    + intros j w'. rewrite list_lookup_alter. case_decide; [|apply Hi]. subst j. rewrite Hw. by intros _ [= <-].
  - constructor; simpl; rewrite ?lookup_alter_eq, ?Hq; try done.
    + intros j w'. rewrite list_lookup_alter. case_decide as Hj; [|intros Hl Hr; by destruct (Nw j w' Hl)]. subst j.
      rewrite Hw. intros [= <-] _. eexists. simpl. rewrite !lookup_alter_eq, Hq. simpl.
      split_and!; try done. right. exists id, a, err. rewrite Ha, (ri_free _ _ _ Hi i w Hw Hn). split_and!; try done.
      apply elem_of_app. right. by apply list_elem_of_singleton.
    + intros q' [= <-] _ _. left. exists i. eexists. simpl. rewrite list_lookup_alter, decide_True, Hw by done. done.
    + intros q' [= <-] Hs. destruct (ri_new _ _ _ Hi r q Hq Hs) as (? & ? & ? & ?). congruence.
    + intros q' id' [= <-] [= <-]. split; [done|]. rewrite Ha, fmap_app. apply elem_of_app. right. by apply list_elem_of_singleton.
    + intros q' id' [= <-] [= <-] r' p Hr Hp Hd'. by destruct (ri_delayed _ _ _ Hi r' p id Hp Hd').
    + unfold runs. simpl. rewrite !lookup_alter_eq, Hq. simpl. pose proof (ri_count _ _ _ Hi r) as C. unfold runs in C. by rewrite Hq in C.
Qed.

(** *** A request leaves its place *)

(** The worker [i] has no request any more: its query is answered or cancelled, or
    the lambda with the answer is called or cancelled. *)
Lemma rinv_unserve G G' r s s' i w w' q q' :
  rinv G None s → reqs s !! r = Some q → running q = true → worker q = Some i →
  workers s !! i = Some w → w_request w = Some r →
  reqs s' = <[r := q']> (reqs s) → running q' = true → delayed q' = None →
  workers s' = <[i := w']> (workers s) → w_request w' = None → queries w' = 0%nat →
  queue s' = queue s → cache_delayed s' = cache_delayed s → rlog s' = rlog s → cfg s' = cfg s →
  waiting s' = filter (λ x, Some x.1 ≠ delayed q) (waiting s) →
  (∀ j, G j → G' j) → G' i →
  rinv G' (Some r) s'.
Proof.
  intros Hi Hq Hrun Hwk Hw Hr Eq Hrun' Hd' Ew Hn' Hq0 Equ Ec El Ecf Ewt HG HGi.
  assert (Hlt : (i < length (workers s))%nat) by by eapply lookup_lt_Some.
  assert (Nq : r ∉ queue s). { intros Hin. destruct (ri_queue _ _ _ Hi r Hin) as (? & ? & ? & ? & _). congruence. }
  assert (Nc : r ∉ cache_delayed s). { intros Hin. destruct (ri_cache _ _ _ Hi r Hin) as (? & ? & ? & ? & ? & ? & _). congruence. }
  assert (Lw : ∀ j, workers s' !! j = if decide (i = j) then Some w' else workers s !! j) by (intros j; by apply workers_insert).
  apply (rinv_step G G' None (Some r) r s); [done|by left|by right| |].
  - constructor; rewrite ?Eq, ?Equ, ?Ec, ?El, ?Ecf, ?Ewt; try done; try apply Hi.
    + intros r' Hr'. by rewrite lookup_insert_ne.
    + intros id f Hno Hin. apply list_elem_of_filter. split; [|done]. simpl. intros E. by apply (Hno q).
    + intros id f [Hne Hin]%list_elem_of_filter. left. split; [done|]. intros q1 Hq1. simpl in Hne. congruence.
    + eapply (sublist_NoDup _ (waiting s).*1); [apply Hi|apply fmap_sublist, sublist_filter].
    + intros j. rewrite Lw. case_decide; [|by left]. subst j. right. exists w'. split; [done|]. split; [by right|].
      intros w0 E. right. congruence.
    + rewrite Ew, length_insert. apply Hi.
    + intros j w0 Hne. rewrite Lw. case_decide; [by subst|]. intros Hl Hn. by apply HG, (ri_busy _ _ _ Hi j w0).
  - constructor; rewrite ?Eq, ?Equ, ?Ec, ?El, ?lookup_insert_eq; try done.
    + intros j w0. rewrite Lw. case_decide; [congruence|]. intros Hl E.
      destruct (ri_worker _ _ _ Hi j w0 r Hl E) as (? & ? & ? & ? & _). congruence.
    + intros _. split_and!; try done; [|by exists q'].
      intros j w0. rewrite Lw. case_decide; [congruence|]. intros Hl E.
      destruct (ri_worker _ _ _ Hi j w0 r Hl E) as (? & ? & ? & ? & _). congruence.
    + intros q1 [= <-] Hs. destruct (ri_new _ _ _ Hi r q Hq Hs) as (? & ? & ? & ?). congruence.
    + congruence.
    + congruence.
    + unfold runs. rewrite Eq, lookup_insert_eq, Hrun'. pose proof (ri_count _ _ _ Hi r) as C. unfold runs in C. by rewrite Hq, Hrun in C.
Qed.

(** It leaves a list. *)
Lemma rinv_unlist G r s s' q q' :
  rinv G None s → reqs s !! r = Some q → running q = true → worker q = None →
  reqs s' = <[r := q']> (reqs s) → running q' = true → delayed q' = None →
  workers s' = workers s →
  queue s' = filter (λ x, x ≠ r) (queue s) → cache_delayed s' = filter (λ x, x ≠ r) (cache_delayed s) →
  rlog s' = rlog s → cfg s' = cfg s →
  waiting s' = filter (λ x, Some x.1 ≠ delayed q) (waiting s) →
  rinv G (Some r) s'.
Proof.
  intros Hi Hq Hrun Hwk Eq Hrun' Hd' Ew Equ Ec El Ecf Ewt.
  assert (Nw : ∀ i w, workers s !! i = Some w → w_request w ≠ Some r).
  { intros i w Hl E. destruct (ri_worker _ _ _ Hi i w r Hl E) as (? & ? & ? & ? & _). congruence. }
  assert (Hne : queue s' ≠ [] → queue s ≠ []) by (rewrite Equ; by destruct (queue s)).
  apply (rinv_step G G None (Some r) r s); [done|by left|by right| |].
  - constructor; rewrite ?Eq, ?Ec, ?El, ?Ecf, ?Ewt, ?Ew; try done.
    + intros r' Hr'. by rewrite lookup_insert_ne.
    + intros id f Hno Hin. apply list_elem_of_filter. split; [|done]. simpl. intros E. by apply (Hno q).
    + intros id f [Hn Hin]%list_elem_of_filter. left. split; [done|]. intros q1 Hq1. simpl in Hn. congruence.
    + eapply (sublist_NoDup _ (waiting s).*1); [apply Hi|apply fmap_sublist, sublist_filter].
    + intros r' Hr'. rewrite Equ, list_elem_of_filter. tauto.
    + intros r' Hr'. rewrite list_elem_of_filter. tauto.
    + rewrite Equ. split; apply NoDup_filter, Hi.
    + intros j. by left.
    + split; [apply Hi|]. intros H'. by apply Hi, Hne.
    + intros i w H'. by apply (ri_busy _ _ _ Hi), Hne.
  - constructor; rewrite ?Eq, ?Ec, ?El, ?Ew, ?lookup_insert_eq; try done.
    + intros i w Hl E. by destruct (Nw i w Hl).
    + rewrite Equ, list_elem_of_filter. by intros [].
    + rewrite list_elem_of_filter. by intros [].
    + intros _. rewrite Equ, !list_elem_of_filter. split_and!; try tauto. by exists q'.
    + intros q1 [= <-] Hs. destruct (ri_new _ _ _ Hi r q Hq Hs) as (? & ? & ? & ?). congruence.
    + congruence.
    + congruence.
    + unfold runs. rewrite Eq, lookup_insert_eq, Hrun'. pose proof (ri_count _ _ _ Hi r) as C. unfold runs in C. by rewrite Hq, Hrun in C.
Qed.

(** *** Requests and workers appear *)

Lemma rinv_start G s r q q' :
  rinv G None s → reqs s !! r = Some q → r ∉ starts (rlog s) → core q' = (true, None, false, None) →
  rinv G (Some r) (note (EvStart r) (with_reqs (<[r := q']> (reqs s)) s)).
Proof.
  intros Hi Hq Hs [= Hrun Hwk Hqu Hd]. destruct (ri_new _ _ _ Hi r q Hq Hs) as (Nr & Nw & Nqu & Nd).
  assert (Nq : r ∉ queue s). { intros Hin. destruct (ri_queue _ _ _ Hi r Hin) as (? & ? & ? & _). congruence. }
  assert (Nc : r ∉ cache_delayed s). { intros Hin. destruct (ri_cache _ _ _ Hi r Hin) as (? & ? & ? & ? & ? & _). congruence. }
  assert (Nwk : ∀ i w, workers s !! i = Some w → w_request w ≠ Some r).
  { intros i w Hl E. destruct (ri_worker _ _ _ Hi i w r Hl E) as (? & ? & ? & _). congruence. }
  apply (rinv_step G G None (Some r) r s); [done|by left|by right| |].
  - constructor; simpl; try done; try apply Hi.
    + intros r' Hr. by rewrite lookup_insert_ne.
    + intros id f Hin. left. split; [done|]. congruence.
    + intros i. by left.
    + intros r' Hr. rewrite starts_app, callbacks_app. simpl. rewrite app_nil_r. split; [|done].
      rewrite count_occ_app. simpl. destruct (Nat.eq_dec r r'); [congruence|lia].
  - constructor; simpl; rewrite ?lookup_insert_eq; try done.
    + intros i w Hl E. by destruct (Nwk i w Hl).
    + intros _. split_and!; try done. by exists q'.
    + intros q1 [= <-]. rewrite starts_app. intros Hn. destruct Hn. apply elem_of_app. right. by left.
    + congruence.
    + congruence.
    + unfold runs. simpl. rewrite lookup_insert_eq, Hrun, starts_app, callbacks_app, !count_occ_app. simpl.
      destruct (Nat.eq_dec r r); [|done]. pose proof (ri_count _ _ _ Hi r) as C. unfold runs in C. rewrite Hq, Nr in C. lia.
Qed.

Lemma rinv_create G s r q :
  rinv G None s → reqs s !! r = None → rinv G None (with_reqs (<[r := fresh q]> (reqs s)) s).
Proof.
  intros Hi Hq.
  assert (Hs : r ∉ starts (rlog s)). { intros Hin. destruct (ri_known _ _ _ Hi r Hin). congruence. }
  apply (rinv_step G G None None r s); [done|by left|by left| |].
  - constructor; simpl; try done; try apply Hi.
    + intros r' Hr. by rewrite lookup_insert_ne.
    + intros id f Hin. left. split; [done|]. congruence.
    + intros i. by left.
  - constructor; simpl; rewrite ?lookup_insert_eq; try done.
    + intros i w Hl E. destruct (ri_worker _ _ _ Hi i w r Hl E) as (? & ? & ? & _). congruence.
    + intros Hin. destruct (ri_queue _ _ _ Hi r Hin) as (? & ? & ? & _). congruence.
    + intros Hin. destruct (ri_cache _ _ _ Hi r Hin) as (? & ? & ? & ? & ? & _). congruence.
    + by intros q' [= <-].
    + by intros q' [= <-].
    + by intros q' id [= <-].
    + by intros q' id [= <-].
    + unfold runs. simpl. rewrite lookup_insert_eq. simpl. pose proof (ri_count _ _ _ Hi r) as C. unfold runs in C. by rewrite Hq in C.
Qed.

Lemma rinv_add_worker G s r :
  rinv G (Some r) s → queue s = [] → (length (workers s) < max_workers (cfg s))%nat →
  rinv G (Some r) (with_workers (workers s ++ [new_worker]) s).
Proof.
  intros Hi Hq Hlt. destruct (ri_hand _ _ _ Hi r eq_refl) as (Nq & Nc & Nw & q0 & Hq0 & Hrun & Hd).
  assert (Lw : ∀ i w, (workers s ++ [new_worker]) !! i = Some w → workers s !! i = Some w ∨ w = new_worker).
  { intros i w [?|[_ Hl]]%lookup_app_Some; [by left|right]. by apply list_lookup_singleton_Some in Hl as [_ <-]. }
  apply (rinv_step G G (Some r) (Some r) r s); [done|by right|by right| |].
  - constructor; simpl; try done; try apply Hi.
    + intros id f Hin. left. split; [done|]. congruence.
    + intros i. destruct (decide (i < length (workers s))%nat); [left; by apply lookup_app_l|].
      destruct (decide (i = length (workers s))) as [->|]; [|left; rewrite !lookup_ge_None_2; rewrite ?length_app; simpl; lia || done].
      right. exists new_worker. rewrite lookup_app_r, Nat.sub_diag by lia. split_and!; [done|by right|].
      intros w Hw. apply lookup_lt_Some in Hw. lia.
    + rewrite length_app. simpl. split; [lia|]. congruence.
  - constructor; simpl; try done; try apply Hi.
    + intros i w [Hl| ->]%Lw E; [by destruct (Nw i w Hl)|done].
    + intros _. split_and!; try done; [|by exists q0]. intros i w [Hl| ->]%Lw; [by apply (Nw i)|done].
    + intros q id Hq1 Hd1 r' q' Hr Hq' Hd'. by apply Hr, (ri_inj _ _ _ Hi r' r q' q id).
Qed.
End Invariant.

Lemma alter_Some_insert {A} (f : A → A) (m : gmap nat A) i x : m !! i = Some x → alter f i m = <[i := f x]> m.
Proof.
  intros Hx. apply map_eq. intros j. rewrite lookup_alter. case_decide; [subst; by rewrite Hx, lookup_insert_eq|].
  by rewrite lookup_insert_ne.
Qed.

Lemma list_alter_Some_insert {A} (f : A → A) (l : list A) i x : l !! i = Some x → alter f i l = <[i := f x]> l.
Proof.
  intros Hx. apply list_eq. intros j. rewrite list_lookup_alter. case_decide.
  - subst. rewrite Hx, list_lookup_insert_eq; [done|by eapply lookup_lt_Some].
  - by rewrite list_lookup_insert_ne.
Qed.

Section Steps.
#[local] Set Default Proof Using "Type*".
Context {SA X Exn Ch D : Type} `{EqDecision SA} `{DelayExact D (rclosure SA)}.
Context (user_code : rid → AddrInfo SA → option error_code → X → X * list (rapi SA Exn)).
Context (dead_loop ares_init_failed : Exn).
Context (ares_init : Ch → Ch * bool).
Context (ares_getaddrinfo : CacheKey → Ch → Ch * option (ares_status * list (ai_node SA))).
Context (win32 : bool) (inet4 inet6 : string → Z → SA) (null_sa : SA) (from_chars : string → option Z).
Implicit Types (s : resolver SA X Exn Ch D) (r : rid) (i : wid).

Abbreviation prog := (resolver_program user_code dead_loop ares_init_failed ares_init ares_getaddrinfo
  win32 inet4 inet6 null_sa from_chars).
Abbreviation body := (rbody user_code dead_loop ares_init_failed ares_init ares_getaddrinfo
  win32 inet4 inet6 null_sa from_chars).
Abbreviation take := (worker_resolve (SA:=SA) (X:=X) (Exn:=Exn) (D:=D) ares_getaddrinfo).

Lemma cancel_delayed_spec r q s : reqs s !! r = Some q →
  ∃ d, cancel_delayed r s = with_reqs (<[r := set_delayed None q]> (reqs s)) (with_loop d s) ∧
    ds_waiting d = filter (λ x, Some x.1 ≠ delayed q) (ds_waiting (loop s)).
Proof.
  intros Hq. unfold cancel_delayed. rewrite Hq. simpl. destruct (delayed q) as [id|] eqn:Hd.
  - exists (ds_cancel id (loop s)). split.
    + unfold with_req. simpl. by rewrite (alter_Some_insert _ _ r q Hq).
    + rewrite dx_cancel. apply list_filter_iff. intros x. split; congruence.
  - exists (loop s). split.
    + rewrite insert_id; [by destruct s|]. rewrite Hq. by destruct q; simpl in *; subst.
    + symmetry. by apply filter_all.
Qed.

Lemma rlog_delay_for r (f : rclosure SA) s : rlog (delay_for r f s) = rlog s.
Proof. unfold delay_for. by destruct (ds_add _ _). Qed.

Lemma worker_resolve_inv G r s i w q :
  rinv G (Some r) s → reqs s !! r = Some q → workers s !! i = Some w → w_request w = None →
  rinv G None (take i r s) ∧ rlog (take i r s) = rlog s ∧ request_of i (take i r s) = Some r.
Proof.
  intros Hi Hq Hw Hn. unfold worker_resolve. rewrite Hq.
  destruct (ares_getaddrinfo (key_of q) _) as [c [[st ai]|]].
  - unfold on_resolve_sync, request_of. simpl.
    rewrite !list_lookup_alter, !decide_True, Hw by done. simpl. split; [|split; [by rewrite rlog_delay_for|]].
    2: { unfold delay_for. destruct (ds_add _ _) as [d id]. simpl. by rewrite !list_lookup_alter, !decide_True, Hw by done. }
    eapply rinv_same; [|apply (rinv_answered G r s i w q (ai_of ai) (ares2stderr st) Hi Hq Hw Hn)].
    unfold delay_for. simpl. destruct (ds_add _ _) as [d id]. constructor; try done. simpl.
    apply list_eq. intros j. rewrite !list_lookup_fmap, !list_lookup_alter. by repeat case_decide; simplify_eq; rewrite ?Hw.
  - split; [|split; [done|]].
    2: { unfold request_of. simpl. by rewrite !list_lookup_alter, !decide_True, Hw by done. }
    eapply rinv_same; [|apply (rinv_asked G r s i w q Hi Hq Hw Hn)].
    constructor; try done. simpl.
    apply list_eq. intros j. rewrite !list_lookup_fmap, !list_lookup_alter. by repeat case_decide; simplify_eq; rewrite ?Hw.
Qed.

Lemma placed_worker G s r q i :
  rinv G None s → reqs s !! r = Some q → running q = true → worker q = Some i →
  ∃ w, workers s !! i = Some w ∧ w_request w = Some r.
Proof.
  intros Hi Hq Hrun Hwk. destruct (ri_placed _ _ _ Hi r q Hq Hrun) as [(j & w & E & Hl & Hr)|[Hin|Hin]]; [done| | |].
  - exists w. split; [congruence|done].
  - destruct (ri_queue _ _ _ Hi r Hin) as (? & ? & ? & ? & _). congruence.
  - destruct (ri_cache _ _ _ Hi r Hin) as (? & ? & ? & ? & ? & ? & _). congruence.
Qed.

(** [finish_resolve] takes a request from wherever it is. *)
Lemma release_inv G s r q :
  rinv G None s → reqs s !! r = Some q → running q = true →
  rinv (λ i, G i ∨ worker q = Some i) (Some r) (release r q s) ∧ rlog (release r q s) = rlog s.
Proof.
  intros Hi Hq Hrun. destruct (cancel_delayed_spec r q s Hq) as (d & Ec & Hd). unfold release. rewrite Ec.
  set (q1 := set_timer false (set_delayed None q)).
  replace (with_req (set_timer false) r _) with (with_reqs (<[r := q1]> (reqs s)) (with_loop d s)).
  2: { unfold with_req. simpl. rewrite (alter_Some_insert _ _ r (set_delayed None q)) by apply lookup_insert_eq.
       by rewrite insert_insert_eq. }
  destruct (worker q) as [i|] eqn:Hwk.
  - destruct (placed_worker G s r q i Hi Hq Hrun Hwk) as (w & Hl & Hr).
    unfold worker_cancel, request_of. simpl. rewrite Hl. simpl. rewrite Hr. split; [|done].
    eapply (rinv_unserve G _ r s _ i w _ q (set_worker None q1)); simpl; try done.
    + rewrite (alter_Some_insert _ _ r q1) by apply lookup_insert_eq. by rewrite insert_insert_eq.
    + by apply list_alter_Some_insert.
    + done.
    + done.
    + auto.
    + by right.
  - assert (Hcases : (r ∈ queue s ∧ queued q = true ∧ r ∉ cache_delayed s) ∨ (r ∈ cache_delayed s ∧ queued q = false ∧ r ∉ queue s)).
    { destruct (ri_placed _ _ _ Hi r q Hq Hrun) as [(j & w & E & _)|[Hin|Hin]]; [done|congruence| |].
      - left. destruct (ri_queue _ _ _ Hi r Hin) as (? & ? & _ & _ & ? & _). split_and!; [done|congruence|].
        intros Hin'. destruct (ri_cache _ _ _ Hi r Hin') as (? & ? & ? & ? & _ & _ & ? & _). congruence.
      - right. destruct (ri_cache _ _ _ Hi r Hin) as (? & ? & ? & ? & _ & _ & ? & _). split_and!; [done|congruence|].
        intros Hin'. destruct (ri_queue _ _ _ Hi r Hin') as (? & ? & _ & _ & ? & _). congruence. }
    assert (Hall : ∀ l : list rid, r ∉ l → filter (λ x, x ≠ r) l = l).
    { intros l Hn. apply filter_all. by intros x Hx ->. }
    destruct Hcases as [(Hin & -> & Hn)|(Hin & -> & Hn)]; (split; [|done]);
      (eapply rinv_mono; [|eapply (rinv_unlist G r s _ q q1); simpl; try done]; [by left|]); by rewrite Hall.
Qed.

Lemma store_same r (a : AddrInfo SA) err s : same s (store r a err s).
Proof. unfold store. destruct (reqs s !! r) as [q|]; [|done]. by destruct (_ && _ && _). Qed.
Lemma store_reqs r (a : AddrInfo SA) err s : reqs (store r a err s) = reqs s ∧ rlog (store r a err s) = rlog s.
Proof. unfold store. destruct (reqs s !! r) as [q|]; [|done]. by destruct (_ && _ && _). Qed.

(** The rest of it, the user's callback included. *)
Lemma finish_ends G r q a err s :
  reqs s !! r = Some q → running q = true → rinv G (Some r) (release r q s) → rlog (release r q s) = rlog s →
  ∃ s' l, finish_resolve user_code r a err s = (s', Calls ((RApi <$> l) ++ [FinishGuard (worker q)])) ∧
    rinv G None s' ∧ rlog s' = rlog s ++ [EvCallback r a err].
Proof.
  intros Hq Hrun Hi Hl. unfold finish_resolve. rewrite Hq, Hrun. simpl.
  destruct (ri_hand _ _ _ Hi r eq_refl) as (_ & _ & _ & q1 & Hq1 & _).
  destruct (store_reqs r a err (release r q s)) as [Er El].
  pose proof (rinv_end G r _ a err q1 (rinv_same _ _ _ _ (store_same r a err _) Hi) ltac:(by rewrite Er)) as He.
  unfold on_resolve. destruct (user_code r a err _) as [x l]. eexists _, l. split; [done|]. split.
  - eapply rinv_same; [|exact He]. by constructor.
  - simpl. by rewrite El, Hl.
Qed.

Lemma finish_resolve_inv G r a err s :
  rinv G None s →
  (∃ o, finish_resolve user_code r a err s = (s, o) ∧ (o = Aborts ∨ o = Calls [])) ∨
  (∃ s' l (i : option wid), finish_resolve user_code r a err s = (s', Calls ((RApi <$> l) ++ [FinishGuard i])) ∧
    rinv (λ j, G j ∨ i = Some j) None s' ∧ rlog s' = rlog s ++ [EvCallback r a err]).
Proof.
  intros Hi. destruct (reqs s !! r) as [q|] eqn:Hq; [|left; exists Aborts; unfold finish_resolve; rewrite Hq; auto].
  destruct (running q) eqn:Hrun; [|left; exists (Calls []); unfold finish_resolve; rewrite Hq, Hrun; auto].
  right. destruct (release_inv G s r q Hi Hq Hrun) as [Hr Hl].
  destruct (finish_ends _ r q a err s Hq Hrun Hr Hl) as (s' & l & E & Hi' & El). by exists s', l, (worker q).
Qed.

(** A worker finishes its request, whose query was answered: it leaves the worker
    first. *)
Lemma worker_finish_inv G i w r q s0 s a err :
  rinv G None s0 → workers s0 !! i = Some w → w_request w = Some r → reqs s0 !! r = Some q →
  reqs s = <[r := set_delayed None q]> (reqs s0) →
  (∃ w', workers s = <[i := w']> (workers s0) ∧ w_request w' = Some r ∧ queries w' = 0%nat) →
  queue s = queue s0 → cache_delayed s = cache_delayed s0 → rlog s = rlog s0 → cfg s = cfg s0 →
  ds_waiting (loop s) = filter (λ x, Some x.1 ≠ delayed q) (ds_waiting (loop s0)) →
  ∃ s' l, worker_finish user_code i a err s = (s', Calls ((RApi <$> l) ++ [FinishGuard (Some i)])) ∧
    rinv (λ j, G j ∨ i = j) None s' ∧ rlog s' = rlog s0 ++ [EvCallback r a err].
Proof.
  intros Hi Hw Hr Hq Er (w' & Ew & Hr' & Hq') Eq Ec El Ecf Ewt.
  assert (Hlt : (i < length (workers s0))%nat) by by eapply lookup_lt_Some.
  destruct (ri_worker _ _ _ Hi i w r Hw Hr) as (q0 & Hq0 & Hrun & Hwk & _). simplify_eq.
  unfold worker_finish, request_of. rewrite Ew, list_lookup_insert_eq by done. simpl. rewrite Hr'.
  set (s1 := with_w (set_w_request None) i s).
  assert (H1 : reqs s1 !! r = Some (set_delayed None q)) by (simpl; by rewrite Er, lookup_insert_eq).
  assert (Hw1 : workers s1 !! i = Some (set_w_request None w')).
  { simpl. by rewrite list_lookup_alter, decide_True, Ew, list_lookup_insert_eq by done. }
  assert (E1 : release r (set_delayed None q) s1 = with_req (set_timer false) r s1).
  { unfold release, cancel_delayed. rewrite H1. simpl. rewrite Hwk. unfold worker_cancel, request_of.
    simpl. simpl in Hw1. by rewrite Hw1. }
  assert (Hi1 : rinv (λ j, G j ∨ i = j) (Some r) (release r (set_delayed None q) s1)).
  { rewrite E1. eapply (rinv_unserve G _ r s0 _ i w (set_w_request None w') q (set_timer false (set_delayed None q))); simpl; try done.
    - rewrite (alter_Some_insert _ _ r (set_delayed None q)) by done. by rewrite Er, insert_insert_eq.
    - rewrite (list_alter_Some_insert _ _ i w') by by rewrite Ew, list_lookup_insert_eq. by rewrite Ew, list_insert_insert_eq.
    - auto.
    - by right. }
  destruct (finish_ends _ r (set_delayed None q) a err s1 H1 Hrun Hi1) as (s' & l & E & Hi' & El').
  - by rewrite E1.
  - exists s', l. simpl in E. rewrite Hwk in E. simpl in El'. by rewrite E, El', El.
Qed.

(** The guard of [finish_resolve] for a worker. *)
Lemma finish_guard_inv G (i : option wid) s s' o :
  rinv (λ j, G j ∨ i = Some j) None s → finish_guard ares_getaddrinfo i s = (s', o) → regular (rlog s') →
  (o = Calls [] ∧ rinv G None s' ∧ rlog s' = rlog s) ∨ o = Aborts.
Proof.
  intros Hi Hb Hreg. unfold finish_guard in Hb. destruct i as [i|].
  2: { injection Hb as <- <-. left. split_and!; [done| |done]. eapply rinv_mono; [|exact Hi]. by intros j [?|?]. }
  destruct (workers s !! i) as [w|] eqn:Hw; [|right; congruence].
  assert (Hdrop : ∀ s1, rinv (λ j, G j ∨ Some i = Some j) None s1 →
    (queue s1 = [] ∨ ∃ w r, workers s1 !! i = Some w ∧ w_request w = Some r) → rinv G None s1).
  { intros s1 [] Hor. econstructor; eauto. intros j w' Hne Hl Hn. destruct (ri_busy0 j w' Hne Hl Hn) as [?|[= <-]]; [done|].
    destruct Hor as [?|(w2 & r & Hl' & Hr)]; congruence. }
  destruct (w_request w) as [r|] eqn:Hr.
  { injection Hb as <- <-. left. split_and!; [done| |done]. apply Hdrop; [done|]. right. by exists w, r. }
  destruct (queue s) as [|r rest] eqn:Hq.
  { injection Hb as <- <-. left. split; [done|]. destruct (busy s); (split; [|done]); apply Hdrop; try by left.
    - done.
    - eapply rinv_same; [|exact Hi]. by constructor. }
  assert (Hrq : queued_ok s r) by (apply (ri_queue _ _ _ Hi); rewrite Hq; by left).
  destruct Hrq as (q & Hrq & Hrun & Hwk & Hqu & Hd).
  destruct (ri_nodup _ _ _ Hi) as [Nd _]. rewrite Hq in Nd. apply NoDup_cons in Nd as [Nr Nd].
  assert (Htake : ∀ s1, same s s1 → queue s1 = r :: rest → rlog s1 = rlog s →
    (take i r (with_queue rest s1), Calls []) = (s', o) → rinv G None s' ∧ rlog s' = rlog s).
  { intros s1 Hs1 Eq1 El1 [= <- _]. pose proof (rinv_same _ _ _ _ Hs1 Hi) as Hi1.
    destruct (same_req s1 s r q (same_sym _ _ Hs1) Hrq) as (q1 & Hq1 & F1 & F2 & F3 & F4).
    destruct (same_worker s1 s i w (same_sym _ _ Hs1) Hw) as (w1 & Hw1 & G1 & G2).
    assert (Hh : rinv (λ j, G j ∨ Some i = Some j) (Some r) (with_queue rest s1)).
    { eapply (rinv_unlist _ r s1 _ q1 q1); simpl; try congruence; try done.
      - by rewrite insert_id.
      - rewrite Eq1. rewrite filter_cons_False by (by intros ?). symmetry. apply filter_all. by intros x Hx ->.
      - symmetry. apply filter_all. intros x Hx ->. destruct (ri_cache _ _ _ Hi1 r Hx) as (? & ? & ? & ? & _ & _ & ? & _). congruence.
      - symmetry. apply filter_all. intros x _. congruence. }
    destruct (worker_resolve_inv _ r _ i w1 q1 Hh) as (Hi2 & El2 & Hr2); [done|done|congruence|].
    split; [|by rewrite El2, <-El1]. apply Hdrop; [done|]. right. unfold request_of in Hr2.
    destruct (workers (take i r _) !! i) as [w2|]; [|done]. by exists w2, r. }
  unfold guard_loop in Hb. rewrite Hq, Hrq in Hb. simpl in Hb.
  assert (E0 : o = Aborts ∨ o = Calls [] ∧ rinv G None s' ∧ rlog s' = rlog s); [|tauto].
  destruct (_use_cache q).
  2: { right. split; [by injection Hb|]. by apply (Htake s). }
  unfold rfind in Hb. destruct (find _ _ _ _) as [[a m]|]; [|left; congruence].
  destruct (ai_bool a).
  - injection Hb as <- <-. exfalso. apply (proj2 Hreg r). simpl. apply elem_of_app. right. by left.
  - right. split; [by injection Hb|]. simpl in Hb. rewrite Hq in Hb. by apply (Htake (with_cache m s)).
Qed.

(** *** The log only grows *)

Definition grows s s' : Prop := ∃ l, rlog s' = rlog s ++ l.

Lemma grows_eq s s' : rlog s' = rlog s → grows s s'.
Proof. intros E. exists []. by rewrite E, app_nil_r. Qed.
Lemma grows_trans s1 s2 s3 : grows s1 s2 → grows s2 s3 → grows s1 s3.
Proof. intros [l1 E1] [l2 E2]. exists (l1 ++ l2). by rewrite E2, E1, app_assoc. Qed.

Lemma rlog_cancel_delayed r s : rlog (cancel_delayed r s) = rlog s.
Proof. unfold cancel_delayed. by destruct (_ ≫= _). Qed.
Lemma rlog_worker_cancel i s : rlog (worker_cancel i s) = rlog s.
Proof. unfold worker_cancel. by destruct (request_of i s). Qed.
Lemma rlog_release r q s : rlog (release r q s) = rlog s.
Proof.
  unfold release. destruct (worker q) as [i|]; [by rewrite rlog_worker_cancel; simpl; rewrite rlog_cancel_delayed|].
  destruct (queued q); simpl; apply rlog_cancel_delayed.
Qed.
Lemma rlog_take i r s : rlog (take i r s) = rlog s.
Proof.
  unfold worker_resolve. destruct (reqs s !! r); [|done]. destruct (ares_getaddrinfo _ _) as [c [[st ai]|]]; [|done].
  unfold on_resolve_sync. destruct (request_of i _); [|done]. simpl. by rewrite rlog_delay_for.
Qed.

Lemma finish_grows r a err s : grows s (finish_resolve user_code r a err s).1.
Proof.
  unfold finish_resolve. destruct (reqs s !! r) as [q|]; [|by apply grows_eq]. destruct (negb _); [by apply grows_eq|].
  unfold on_resolve. destruct (user_code _ _ _ _) as [x l]. simpl. eexists. simpl. f_equal.
  rewrite (proj2 (store_reqs _ _ _ _)). apply rlog_release.
Qed.

Lemma worker_finish_grows i a err s : grows s (worker_finish user_code i a err s).1.
Proof.
  unfold worker_finish. destruct (request_of i s); [|by apply grows_eq].
  eapply grows_trans; [|apply finish_grows]. by apply grows_eq.
Qed.

Lemma loop_grows i s : grows s (guard_loop ares_getaddrinfo i s).1.
Proof.
  unfold guard_loop. destruct (queue s) as [|r rest]; [by apply grows_eq|].
  destruct (reqs s !! r) as [q|]; [|by apply grows_eq].
  destruct (_use_cache q); [|apply grows_eq; simpl; by rewrite rlog_take].
  unfold rfind. destruct (find _ _ _ _) as [[a m]|]; [|by apply grows_eq].
  destruct (ai_bool a); [by eexists|apply grows_eq]. simpl. by rewrite rlog_take.
Qed.

Lemma guard_grows (i : option wid) s : grows s (finish_guard ares_getaddrinfo i s).1.
Proof.
  unfold finish_guard. destruct i as [i|]; [|by apply grows_eq]. destruct (workers s !! i) as [w|]; [|by apply grows_eq].
  destruct (w_request w); [by apply grows_eq|]. destruct (queue s) eqn:E; [destruct (busy s); by apply grows_eq|].
  apply loop_grows.
Qed.

Abbreviation start := (resolve (SA:=SA) (X:=X) (D:=D) dead_loop ares_init_failed ares_init ares_getaddrinfo win32).
Abbreviation start_by_worker := (resolve_by_worker (SA:=SA) (X:=X) (D:=D) ares_init_failed ares_init ares_getaddrinfo win32).

Lemma by_worker_grows r q s : rlog (start_by_worker r q s).1 = rlog s.
Proof.
  unfold resolve_by_worker. destruct (win32 && _); [simpl; unfold resolve_localhost; by rewrite rlog_delay_for|].
  set (s1 := if _ =? _ then s else _). assert (rlog s1 = rlog s) as <- by (unfold s1; by destruct (_ =? _)).
  destruct (queue s1); [|done]. destruct (free_worker s1) as [i|].
  - simpl. rewrite rlog_take. unfold start_roll. by destruct (dns_roll_timer s1).
  - case_decide; [|done]. unfold add_worker. rewrite decide_True by done.
    destruct (ares_init _) as [c []]; [|done]. simpl. by rewrite rlog_take.
Qed.

Lemma resolve_log r q s : looped s = true → reqs s !! r = Some q → rlog (start r s).1 = rlog s ++ [EvStart r].
Proof.
  intros Hl Hq. unfold resolve. rewrite Hl, Hq. simpl. destruct (_ && _); [|by rewrite by_worker_grows].
  unfold rfind. destruct (find _ _ _ _) as [[a m]|]; [|done]. destruct (ai_bool a).
  - simpl. by rewrite rlog_delay_for.
  - by rewrite by_worker_grows.
Qed.

Lemma resolve_grows r s : grows s (start r s).1.
Proof.
  destruct (looped s) eqn:Hl, (reqs s !! r) as [q|] eqn:Hq; try (eexists; by eapply resolve_log);
    apply grows_eq; unfold resolve; by rewrite Hl, ?Hq.
Qed.

Lemma body_grows c s : grows s (body c s).1.
Proof.
  destruct c as [[]| |r a|i|i|i ev| |i|i n evs|r|i n|l|l|e]; simpl; try by apply grows_eq.
  - apply grows_eq. by destruct (reqs s !! r).
  - apply resolve_grows.
  - apply finish_grows.
  - apply grows_eq. by destruct (mark_bad_address _ _ _).
  - unfold run_delayed. destruct (closure_at _ _) as [[]|]; simpl; [| | |by apply grows_eq].
    + eapply grows_trans; [|apply finish_grows]. by apply grows_eq.
    + destruct (request_of _ _); [|by apply grows_eq]. eapply grows_trans; [|apply worker_finish_grows]. by apply grows_eq.
    + destruct (_ !! _); [|by apply grows_eq]. destruct (localhost _ _ _ _ _ _) as [a err].
      eapply grows_trans; [|apply finish_grows]. by apply grows_eq.
  - apply finish_grows.
  - apply guard_grows.
  - apply loop_grows.
  - unfold ares_call. destruct (workers s !! i) as [w|]; [|by apply grows_eq].
    destruct ev; [|apply grows_eq; by destruct (on_sockstate _ _ _ _)].
    destruct (queries w); [by apply grows_eq|]. destruct (w_request w); [|by apply grows_eq].
    pose proof (worker_finish_grows i (ai_of ai) (ares2stderr status) (with_w (set_queries n) i s)) as Hg.
    destruct (worker_finish _ _ _ _ _) as [s' []]; exact Hg.
  - apply grows_eq. unfold rethrow_if. by destruct (_ ≫= _).
  - apply grows_eq. unfold roll_iter. by case_decide.
  - destruct (reqs s !! r) as [q|]; [|by apply grows_eq]. destruct (timer q); [apply finish_grows|by apply grows_eq].
  - apply grows_eq. unfold reset_workers. by case_decide.
  - apply grows_eq. unfold reset_list. destruct (head _); [by case_decide|done].
  - apply grows_eq. unfold reset_list. destruct (head _); [by case_decide|done].
Qed.

(** *** Every step keeps the invariant *)

Context (Hinit : ∀ c, (ares_init c).2 = true).

Lemma free_worker_Some s i : free_worker s = Some i → ∃ w, workers s !! i = Some w ∧ w_request w = None.
Proof using Type.
  unfold free_worker. destruct (list_find _ _) as [[j w]|] eqn:E; [|done]. intros [= <-].
  apply list_find_Some in E as (Hl & Hn & _). by exists w.
Qed.
Lemma free_worker_None s : free_worker s = None → ∀ i w, workers s !! i = Some w → w_request w ≠ None.
Proof using Type.
  unfold free_worker. destruct (list_find _ _) as [[j w]|] eqn:E; [done|]. intros _ i w Hl.
  apply list_find_None in E. by eapply (Forall_lookup_1 _ _ i w) in E.
Qed.

Lemma by_worker_inv G r q q0 s o s' :
  rinv G (Some r) s → reqs s !! r = Some q0 → worker q0 = None → queued q0 = false →
  start_by_worker r q s = (s', o) → o = Aborts ∨ (o = Calls [] ∧ rinv G None s').
Proof.
  intros Hi Hq Hwk Hqu. unfold resolve_by_worker. destruct (win32 && _).
  { intros [= <- <-]. right. split; [done|]. by apply (rinv_cached G r s (FinishLocalhost r) q0). }
  set (s1 := if _ =? _ then s else _).
  assert (Hs1 : same s s1 ∧ ∃ q1, reqs s1 !! r = Some q1 ∧ worker q1 = None).
  { unfold s1. destruct (_ =? _); [split; [by constructor|by exists q0]|]. split; [by apply same_with_req|].
    exists (set_timer true q0). simpl. by rewrite lookup_alter_eq, Hq. }
  destruct Hs1 as (Hs1 & q1 & Hq1 & Hwk1). clearbody s1.
  pose proof (rinv_same _ _ _ _ Hs1 Hi) as Hi1. clear Hi Hs1 Hq Hwk Hqu.
  destruct (queue s1) as [|x rest] eqn:Eq.
  - destruct (free_worker s1) as [i|] eqn:Ef.
    + intros [= <- <-]. right. split; [done|]. destruct (free_worker_Some _ _ Ef) as (w & Hl & Hn).
      assert (same s1 (start_roll s1)) as Hr by (unfold start_roll; destruct (dns_roll_timer s1); by constructor).
      assert (reqs (start_roll s1) = reqs s1 ∧ workers (start_roll s1) = workers s1) as [E1 E2]
        by (unfold start_roll; by destruct (dns_roll_timer s1)).
      eapply (worker_resolve_inv G r (start_roll s1) i w q1); [by eapply rinv_same|by rewrite E1|by rewrite E2|done].
    + case_decide as Hlt.
      * unfold add_worker. rewrite decide_True by done. pose proof (Hinit (ares s1)) as Hok.
        destruct (ares_init (ares s1)) as [c b]. simpl in Hok. subst b. simpl. intros [= <- <-]. right. split; [done|].
        rewrite length_app. simpl. rewrite Nat.add_1_r. simpl.
        eapply (worker_resolve_inv G r _ (length (workers s1)) new_worker q1); simpl; [|done| |done].
        -- eapply rinv_same; [|by apply (rinv_add_worker G s1 r)]. by constructor.
        -- by rewrite lookup_app_r, Nat.sub_diag by lia.
      * intros [= <- <-]. right. split; [done|]. eapply (rinv_enqueue G r s1 q1); try done.
        -- pose proof (proj1 (ri_workers _ _ _ Hi1)). lia.
        -- right. by apply free_worker_None.
  - intros [= <- <-]. right. split; [done|]. eapply (rinv_enqueue G r s1 q1); try done.
    + apply Hi1. by rewrite Eq.
    + left. by rewrite Eq.
Qed.

Lemma resolve_inv G r s s' o :
  rinv G None s → start r s = (s', o) → regular (rlog s') →
  o = Aborts ∨ ((o = Calls [] ∨ ∃ e, o = Throws e) ∧ rinv G None s').
Proof.
  intros Hi Hb Hreg.
  destruct (looped s) eqn:Hloop; [|unfold resolve in Hb; rewrite Hloop in Hb; injection Hb as <- <-; right; eauto].
  destruct (reqs s !! r) as [q|] eqn:Hq; [|left; unfold resolve in Hb; rewrite Hloop, Hq in Hb; simpl in Hb; congruence].
  assert (Hs : r ∉ starts (rlog s)).
  { pose proof (resolve_log r q s Hloop Hq) as El. rewrite Hb in El. simpl in El. rewrite El in Hreg.
    destruct Hreg as [Hnd _]. rewrite starts_app in Hnd. apply NoDup_app in Hnd as (_ & Hnd & _).
    intros Hin. apply (Hnd r Hin). by left. }
  unfold resolve in Hb. rewrite Hloop, Hq in Hb. simpl in Hb.
  set (q1 := set_running true (if _port q =? 0 then q else set_service (pretty (Z.to_N (_port q))) q)) in *.
  destruct (ri_new _ _ _ Hi r q Hq Hs) as (Nr & Nw & Nqu & Nd).
  assert (Hc : core q1 = (true, None, false, None)) by (unfold core, q1; destruct (_ =? _); simpl; congruence).
  pose proof (rinv_start G s r q q1 Hi Hq Hs Hc) as Hi1.
  set (s1 := note (EvStart r) (with_reqs (<[r:=q1]> (reqs s)) s)) in *.
  assert (Hq1 : reqs s1 !! r = Some q1) by apply lookup_insert_eq. assert (worker q1 = None ∧ queued q1 = false) as [Hwk Hqu] by (unfold core in Hc; split; congruence).
  assert (Hby : ∀ s2, same s1 s2 → reqs s2 = reqs s1 → start_by_worker r q1 s2 = (s', o) → o = Aborts ∨ (o = Calls [] ∧ rinv G None s')).
  { intros s2 Hs2 Er. apply (by_worker_inv G r q1 q1); [by eapply rinv_same|by rewrite Er|done|done]. }
  clearbody s1.
  destruct (_ && _); [|destruct (Hby s1) as [?|[? ?]]; auto; by constructor].
  unfold rfind in Hb. destruct (find _ _ _ _) as [[a m]|]; [|left; congruence]. destruct (ai_bool a).
  - injection Hb as <- <-. right. split; [by left|].
    apply (rinv_cached G r (with_req (set_use_cache false) r (with_cache m s1)) (FinishCached r a) (set_use_cache false q1));
      simpl; try done.
    + eapply rinv_same; [apply same_with_req; by intros []|]. eapply rinv_same; [|exact Hi1]. by constructor.
    + by rewrite lookup_alter_eq, Hq1.
  - destruct (Hby (with_cache m s1)) as [?|[? ?]]; auto; by constructor.
Qed.

(** The calls that a step makes. *)
Definition calls_of (o : outcome (rcall SA Exn) Exn) : list (rcall SA Exn) := match o with Calls l => l | _ => [] end.

(** What a call leaves: the guards among the calls it makes join the others. *)
Definition kept (G : wid → Prop) (s' : resolver SA X Exn Ch D) (o : outcome (rcall SA Exn) Exn) : Prop :=
  o = Aborts ∨ rinv (λ j, G j ∨ FinishGuard (Some j) ∈ calls_of o) None s'.

Lemma kept_same G s s' o : rinv G None s → same s s' → kept G s' o.
Proof. intros Hi Hs. right. eapply rinv_mono; [|by eapply rinv_same]. by left. Qed.

Lemma finish_kept G r a err s : rinv G None s →
  kept G (finish_resolve user_code r a err s).1 (finish_resolve user_code r a err s).2.
Proof.
  intros Hi. destruct (finish_resolve_inv G r a err s Hi) as [(o & -> & [->| ->])|(s' & l & i & -> & Hi' & _)]; simpl.
  - by left.
  - apply (kept_same G s); [done|by constructor].
  - right. eapply rinv_mono; [|exact Hi']. intros j [?| ->]; [by left|right]. simpl. apply elem_of_app. right. by left.
Qed.

Lemma run_delayed_kept G id oom s :
  let r := run_delayed user_code inet4 inet6 null_sa from_chars id oom s in
  rinv G None s → kept G r.1 r.2.
Proof.
  intros res Hi. unfold res, run_delayed. clear res. unfold closure_at.
  destruct (head (filter (λ x, x.1 = id) (ds_waiting (loop s)))) as [[id' f]|] eqn:Hh; [|by apply (kept_same G s)].
  assert (Hin : (id', f) ∈ ds_waiting (loop s) ∧ id' = id).
  { apply head_Some_elem_of, list_elem_of_filter in Hh as [E ?]. by simpl in E. }
  destruct Hin as [Hin ->]. simpl.
  destruct (ri_waiting _ _ _ Hi id f Hin) as (r & q & Hq & Hrun & Hd & Hf).
  assert (Ew : ds_waiting (ds_cancel id (loop s)) = filter (λ x, Some x.1 ≠ delayed q) (ds_waiting (loop s))).
  { rewrite dx_cancel, Hd. apply list_filter_iff. intros x. split; congruence. }
  set (s1 := with_req (set_delayed None) r (with_loop (ds_cancel id (loop s)) s)).
  assert (E1 : reqs s1 = <[r := set_delayed None q]> (reqs s)) by by apply alter_Some_insert.
  assert (Hlist : worker q = None → queued q = false →
    ∀ a err, kept G (finish_resolve user_code r a err s1).1 (finish_resolve user_code r a err s1).2).
  { intros Hwk Hqu a err. assert (H1 : reqs s1 !! r = Some (set_delayed None q)) by by rewrite E1, lookup_insert_eq.
    assert (Hn : r ∉ queue s). { intros Hn. destruct (ri_queue _ _ _ Hi r Hn) as (? & ? & _ & _ & ? & _). congruence. }
    destruct (finish_ends G r (set_delayed None q) a err s1 H1 Hrun) as (s' & l & -> & Hi' & _).
    - unfold release, cancel_delayed. rewrite H1. simpl. rewrite Hwk, Hqu.
      eapply (rinv_unlist G r s _ q (set_timer false (set_delayed None q))); simpl; try done.
      + rewrite (alter_Some_insert _ _ r (set_delayed None q)) by done. by rewrite (alter_Some_insert _ _ r q), insert_insert_eq.
      + symmetry. apply filter_all. by intros x Hx ->.
    - apply rlog_release.
    - right. eapply rinv_mono; [|exact Hi']. by left. }
  destruct f as [r' a|i a err|r']; simpl in *.
  - destruct Hf as (-> & Hwk & Hqu). by apply Hlist.
  - destruct (placed_worker G s r q i Hi Hq Hrun Hf) as (w & Hl & Hr).
    unfold request_of. simpl. rewrite Hl. simpl. rewrite Hr.
    change (with_req (set_delayed None) r (with_loop (ds_cancel id (loop s)) s)) with s1.
    destruct (ri_worker _ _ _ Hi i w r Hl Hr) as (q0 & Hq0 & _ & _ & Hor). simplify_eq.
    destruct Hor as [[? _]|(id' & a' & err' & _ & _ & Hq0')]; [congruence|].
    destruct (worker_finish_inv G i w r q s s1 a err Hi Hl Hr Hq E1) as (s' & l & -> & Hi' & _); try done.
    { exists w. split_and!; try done. simpl. by rewrite list_insert_id. }
    right. eapply rinv_mono; [|exact Hi']. intros j [?| ->]; [by left|right]. simpl. apply elem_of_app. right. by left.
  - destruct Hf as (-> & Hwk & Hqu). rewrite Hq. destruct (localhost _ _ _ _ _ _) as [a err]. by apply Hlist.
Qed.

Lemma ares_call_kept G i ev s : rinv G None s →
  kept G (ares_call user_code i ev s).1 (ares_call user_code i ev s).2.
Proof.
  intros Hi. unfold ares_call. destruct (workers s !! i) as [w|] eqn:Hw; [|by apply (kept_same G s)].
  destruct ev as [status ai|sock rd wr].
  2: { destruct (on_sockstate _ _ _ _); [|by left]. by apply (kept_same G s), same_with_w. }
  destruct (queries w) as [|n] eqn:Hn; [by apply (kept_same G s)|].
  destruct (w_request w) as [r|] eqn:Hr.
  2: { pose proof (ri_free _ _ _ Hi i w Hw Hr). congruence. }
  destruct (ri_worker _ _ _ Hi i w r Hw Hr) as (q & Hq & Hrun & Hwk & Hor).
  destruct Hor as [[Hd Hq1]|(id & a & err & _ & _ & ?)]; [|congruence].
  destruct (worker_finish_inv G i w r q s (with_w (set_queries n) i s) (ai_of ai) (ares2stderr status) Hi Hw Hr Hq)
    as (s' & l & -> & Hi' & _); try done.
  - simpl. rewrite insert_id; [done|]. rewrite Hq. by destruct q; simpl in *; subst.
  - exists (set_queries n w). simpl. rewrite (list_alter_Some_insert _ _ i w) by done. split_and!; [done|done|congruence].
  - simpl. symmetry. apply filter_all. intros x _. congruence.
  - right. eapply rinv_mono; [|exact Hi']. simpl. intros j [?| ->]; [by left|right].
    apply elem_of_app. left. apply elem_of_app. right. by left.
Qed.

Lemma rethrow_kept G i s : rinv G None s → kept G (rethrow_if i s).1 (rethrow_if i s).2.
Proof.
  intros Hi. unfold rethrow_if. destruct (_ ≫= _); [by apply (kept_same G s), same_with_w|by apply (kept_same G s)].
Qed.

Lemma rapi_kept G a s s' o : rinv G None s → body (RApi a) s = (s', o) → regular (rlog s') → kept G s' o.
Proof.
  intros Hi Hb Hreg. destruct a as [r q|r|r err| |n|t|k sa|e]; simpl in Hb.
  - injection Hb as <- <-. destruct (reqs s !! r) eqn:Hq; [by apply (kept_same G s)|].
    right. eapply rinv_mono; [|by apply rinv_create]. by left.
  - destruct (resolve_inv G r s s' o Hi Hb Hreg) as [?|[_ Hi']]; [by left|]. right. eapply rinv_mono; [|exact Hi']. by left.
  - pose proof (finish_kept G r no_addr (Some err) s Hi) as Hk. unfold cancel in Hb. by rewrite Hb in Hk.
  - injection Hb as <- <-. apply (kept_same G s); [done|by constructor].
  - injection Hb as <- <-. apply (kept_same G s); [done|by constructor].
  - injection Hb as <- <-. apply (kept_same G s); [done|by constructor].
  - destruct (mark_bad_address _ _ _); injection Hb as <- <-; [apply (kept_same G s); [done|by constructor]|by left].
  - injection Hb as <- <-. by apply (kept_same G s).
Qed.

Lemma reset_kept G s l last again : rinv G None s →
  kept G (reset_list (SA:=SA) (Exn:=Exn) l last again s).1 (reset_list l last again s).2.
Proof.
  intros Hi. unfold reset_list. destruct (head l); [|by left]. case_decide; by apply (kept_same G s).
Qed.

Lemma body_kept G c s s' o :
  (∀ i, c ≠ GuardLoop i) → rinv (λ j, G j ∨ c = FinishGuard (Some j)) None s →
  body c s = (s', o) → regular (rlog s') → kept G s' o.
Proof.
  intros Hng Hi Hb Hreg.
  assert (Hi' : (∀ j, c ≠ FinishGuard j) → rinv G None s).
  { intros Hn. eapply rinv_mono; [|exact Hi]. intros j [?|E]; [done|by destruct (Hn (Some j))]. }
  destruct c as [a|id oom|r a|i|i|i ev|i|i|i n evs|r|i n|l|l|e]; simpl in Hb; try (specialize (Hi' ltac:(done))).
  - by apply (rapi_kept G a s).
  - pose proof (run_delayed_kept G id oom s Hi') as Hk. by rewrite Hb in Hk.
  - pose proof (finish_kept G r a None s Hi') as Hk. by rewrite Hb in Hk.
  - destruct (finish_guard_inv G i s s' o) as [(_ & Hr & _)|?]; try done; [|right|by left].
    + eapply rinv_mono; [|exact Hi]. intros j [?|[= ->]]; [by left|by right].
    + eapply rinv_mono; [|exact Hr]. by left.
  - by destruct (Hng i).
  - pose proof (ares_call_kept G i ev s Hi') as Hk. by rewrite Hb in Hk.
  - injection Hb as <- <-. by apply (kept_same G s).
  - pose proof (rethrow_kept G i s Hi') as Hk. by rewrite Hb in Hk.
  - unfold roll_iter in Hb. case_decide; injection Hb as <- <-; by apply (kept_same G s).
  - destruct (reqs s !! r) as [q|]; [destruct (timer q)|]; [|injection Hb as <- <-; by apply (kept_same G s)..].
    pose proof (finish_kept G r no_addr (Some (Std timed_out)) s Hi') as Hk. unfold cancel in Hb. by rewrite Hb in Hk.
  - unfold reset_workers in Hb. case_decide; injection Hb as <- <-; by apply (kept_same G s).
  - pose proof (reset_kept G s (cache_delayed s) l (ResetCached l) Hi') as Hk. by rewrite Hb in Hk.
  - pose proof (reset_kept G s (queue s) l (ResetQueued l) Hi') as Hk. by rewrite Hb in Hk.
  - injection Hb as <- <-. by apply (kept_same G s).
Qed.

Definition is_loop (c : rcall SA Exn) : bool := match c with GuardLoop _ => true | _ => false end.
Definition no_loop (l : list (rcall SA Exn)) : Prop := Forall (λ c, is_loop c = false) l.

Lemma no_loop_app l1 l2 : no_loop l1 → no_loop l2 → no_loop (l1 ++ l2).
Proof using Type. intros. by apply Forall_app. Qed.
Lemma no_loop_api (l : list (rapi SA Exn)) : no_loop (RApi <$> l).
Proof. apply Forall_fmap, Forall_true. done. Qed.
Lemma no_loop_ares i (evs : list (ares_event SA)) : no_loop (handle_poll i evs).
Proof using Type. unfold handle_poll. apply no_loop_app; [apply Forall_fmap, Forall_true; done|by repeat constructor]. Qed.

Lemma finish_no_loop r a err s : no_loop (calls_of (finish_resolve user_code r a err s).2).
Proof.
  unfold finish_resolve. destruct (reqs s !! r) as [q|]; [|constructor]. destruct (negb _); [constructor|].
  unfold on_resolve. destruct (user_code _ _ _ _) as [x l]. simpl. apply no_loop_app; [apply no_loop_api|by repeat constructor].
Qed.

Lemma worker_finish_no_loop i a err s : no_loop (calls_of (worker_finish user_code i a err s).2).
Proof. unfold worker_finish. destruct (request_of i s); [apply finish_no_loop|constructor]. Qed.

Lemma guard_no_loop (i : option wid) s s' o :
  finish_guard ares_getaddrinfo i s = (s', o) → regular (rlog s') → no_loop (calls_of o).
Proof.
  unfold finish_guard, guard_loop. destruct i as [i|]; [|intros [= _ <-]; constructor].
  destruct (workers s !! i) as [w|]; [|intros [= _ <-]; constructor].
  destruct (w_request w), (queue s) as [|r rest]; [intros [= _ <-]; constructor..|].
  destruct (reqs s !! r) as [q|]; [|intros [= _ <-]; constructor].
  destruct (_use_cache q); [|intros [= _ <-]; constructor].
  destruct (rfind _ _) as [[a s1]|]; [|intros [= _ <-]; constructor].
  destruct (ai_bool a); [|intros [= _ <-]; constructor].
  intros [= <- <-] [_ Hreg]. destruct (Hreg r). simpl. apply elem_of_app. right. by left.
Qed.

Lemma by_worker_no_loop r q s : no_loop (calls_of (start_by_worker r q s).2).
Proof.
  unfold resolve_by_worker. destruct (win32 && _); [constructor|]. destruct (queue _); [|constructor].
  destruct (free_worker _); [constructor|]. case_decide; [|constructor].
  unfold add_worker. case_decide; [|constructor]. destruct (ares_init _) as [c []]; constructor.
Qed.

Lemma resolve_no_loop r s : no_loop (calls_of (start r s).2).
Proof.
  unfold resolve. destruct (negb _); [constructor|]. destruct (reqs s !! r); [|constructor].
  destruct (_ && _); [|apply by_worker_no_loop]. destruct (rfind _ _) as [[a s1]|]; [|constructor].
  destruct (ai_bool a); [constructor|apply by_worker_no_loop].
Qed.

Lemma body_no_loop c s s' o :
  (∀ i, c ≠ GuardLoop i) → body c s = (s', o) → regular (rlog s') → no_loop (calls_of o).
Proof.
  intros Hng Hb Hreg. destruct c as [a|id oom|r a|i|i|i ev|i|i|i n evs|r|i n|l|l|e].
  all: match type of Hb with ?t = _ => replace o with t.2 by by rewrite Hb end.
  - destruct a; simpl; try (by constructor); [apply resolve_no_loop|apply finish_no_loop| |destruct (mark_bad_address _ _ _); constructor].
    simpl. constructor; [done|]. apply no_loop_app; [destruct (last _)|destruct (last _)]; by repeat constructor.
  - simpl. unfold run_delayed. destruct (closure_at id s) as [f|]; [|constructor]. destruct f; simpl; [apply finish_no_loop| |].
    + destruct (request_of _ _); [apply worker_finish_no_loop|constructor].
    + destruct (_ !! _); [|constructor]. destruct (localhost _ _ _ _ _ _). apply finish_no_loop.
  - apply finish_no_loop.
  - rewrite Hb. simpl in Hb. by eapply guard_no_loop.
  - by destruct (Hng i).
  - simpl. unfold ares_call. destruct (workers s !! i) as [w|]; [|constructor].
    destruct ev; [|destruct (on_sockstate _ _ _ _); constructor]. destruct (queries w); [constructor|].
    destruct (w_request w); [|constructor].
    pose proof (worker_finish_no_loop i (ai_of ai) (ares2stderr status) (with_w (set_queries n) i s)) as Hg.
    destruct (worker_finish _ _ _ _ _) as [s1 []]; try constructor. apply no_loop_app; [done|by repeat constructor].
  - constructor.
  - simpl. unfold rethrow_if. destruct (_ ≫= _); constructor.
  - simpl. unfold roll_iter. case_decide; [|constructor]. simpl. apply no_loop_app; [|by repeat constructor].
    destruct (request_of _ _); [apply no_loop_ares|constructor].
  - simpl. destruct (reqs s !! r) as [q|]; [|constructor]. destruct (timer q); [apply finish_no_loop|constructor].
  - simpl. unfold reset_workers. case_decide; [|constructor]. simpl. apply no_loop_app; [|by repeat constructor].
    destruct (request_of _ _); by repeat constructor.
  - simpl. unfold reset_list. destruct (head _); [|constructor]. case_decide; by repeat constructor.
  - simpl. unfold reset_list. destruct (head _); [|constructor]. case_decide; by repeat constructor.
  - constructor.
Qed.

(** *** Reachable configurations *)

Abbreviation rconf := (config (resolver SA X Exn Ch D) (rcall SA Exn) Exn).

Definition guarded (k : list (rcall SA Exn)) (i : wid) : Prop := FinishGuard (Some i) ∈ k.

Definition conf_ok (c : rconf) : Prop :=
  cmode c ≠ Aborted → regular (rlog (mem c)) → rinv (guarded (stack c)) None (mem c) ∧ no_loop (stack c).

Lemma guarded_cons f k s : rinv (guarded (f :: k)) None s → rinv (λ j, guarded k j ∨ f = FinishGuard (Some j)) None s.
Proof. apply rinv_mono. intros j [->|?]%elem_of_cons; [by right|by left]. Qed.

Lemma kept_guarded k s o l : kept (guarded k) s o → o ≠ Aborts → l = calls_of o → rinv (guarded (l ++ k)) None s.
Proof.
  intros [?|Hi] Hn ->; [done|]. eapply rinv_mono; [|exact Hi]. intros j [Hj|Hj]; apply elem_of_app; [by right|by left].
Qed.

Lemma unwind_ok f e k s s' o :
  runwind ares_getaddrinfo f e s = (s', o) → (∀ i, f ≠ GuardLoop i) → rinv (guarded (f :: k)) None s → regular (rlog s') → o ≠ Aborts →
  rinv (guarded (calls_of o ++ k)) None s' ∧ no_loop (calls_of o).
Proof.
  intros Hu Hng Hi%guarded_cons Hreg Hna.
  assert (Hplain : (∀ j, f ≠ FinishGuard j) → rinv (guarded k) None s).
  { intros Hn. eapply rinv_mono; [|exact Hi]. intros j [?|E]; [done|by destruct (Hn (Some j))]. }
  destruct f; simpl in Hu; try (injection Hu as <- <-; split; [by apply Hplain|constructor]).
  - destruct (finish_guard ares_getaddrinfo i s) as [s1 o1] eqn:Hg.
    destruct (finish_guard_inv (guarded k) i s s1 o1) as [(-> & Hr & _)| ->]; try done.
    + eapply rinv_mono; [|exact Hi]. intros j [?|[= ->]]; [by left|by right].
    + by injection Hu as <- <-.
    + injection Hu as <- <-. simpl. split; [|by repeat constructor]. eapply rinv_mono; [|exact Hr].
      intros j Hj. by apply elem_of_cons; right.
    + injection Hu as <- <-. done.
  - injection Hu as <- <-. simpl. split; [|constructor]. eapply rinv_same; [by apply same_with_w|]. by apply Hplain.
Qed.

Lemma unwind_grows f e s : grows s (runwind ares_getaddrinfo f e s).1.
Proof.
  destruct f; simpl; try by apply grows_eq.
  pose proof (guard_grows i s) as Hg. by destruct (finish_guard _ _ _).
Qed.

Lemma conf_ok_step (c c' : rconf) : conf_ok c → step prog c = Some c' → conf_ok c'.
Proof.
  intros Hok Hstep. destruct c as [[|f k] s [|e|]]; try done; unfold step in Hstep; simpl in Hstep.
  - destruct (body f s) as [s' o] eqn:Hb.
    intros Hm Hreg. assert (mem c' = s') as Em by (destruct o; by injection Hstep as <-). rewrite Em in *.
    assert (regular (rlog s)) as Hreg0.
    { pose proof (body_grows f s) as [l El]. rewrite Hb in El. simpl in El. rewrite El in Hreg. by eapply regular_app. }
    destruct (Hok ltac:(done) Hreg0) as [Hi Hnl]. simpl in Hi, Hnl. apply Forall_cons in Hnl as [Hf Hnl].
    assert (Hng : ∀ i, f ≠ GuardLoop i) by (by intros i ->).
    pose proof (body_kept (guarded k) f s s' o Hng (guarded_cons _ _ _ Hi) Hb Hreg) as Hk.
    pose proof (body_no_loop f s s' o Hng Hb Hreg) as Hl.
    destruct o as [l|e|]; injection Hstep as <-; simpl in *; [| |done].
    + split; [by eapply kept_guarded|by apply no_loop_app].
    + split; [|done]. by apply (kept_guarded k s' (Throws e) []).
  - destruct (runwind ares_getaddrinfo f e s) as [s' o] eqn:Hb.
    intros Hm Hreg. assert (mem c' = s') as Em by (destruct o; by injection Hstep as <-). rewrite Em in *.
    assert (regular (rlog s)) as Hreg0.
    { pose proof (unwind_grows f e s) as [l El]. rewrite Hb in El. simpl in El. rewrite El in Hreg. by eapply regular_app. }
    destruct (Hok ltac:(done) Hreg0) as [Hi Hnl]. simpl in Hi, Hnl. apply Forall_cons in Hnl as [Hf Hnl].
    assert (o ≠ Aborts) by (intros ->; by injection Hstep as <-).
    destruct (unwind_ok f e k s s' o Hb) as [Hr Hl]; try done; [by intros i ->|].
    destruct o as [l|e'|]; injection Hstep as <-; simpl in *; [| |done].
    + split; [done|by apply no_loop_app].
    + done.
Qed.

Lemma initial_ok s : resolver_initial ares_init_failed ares_init s → rinv (guarded []) None s.
Proof.
  intros (cf & d & ch & t & x & Hd & Hn). unfold new_resolver, add_worker in Hn. simpl in Hn.
  case_decide as Hlt; [|done]. destruct (ares_init ch) as [c []]; [|done]. injection Hn as <-.
  assert (Hw : ∀ i w, [new_worker (Exn:=Exn)] !! i = Some w → w = new_worker).
  { intros i w. by intros [_ <-]%list_lookup_singleton_Some. }
  assert (Hnil : ds_waiting d = []).
  { destruct (ds_waiting d) as [|p l] eqn:E; [done|]. destruct (Hd p). rewrite ?E. by left. }
  constructor; simpl; rewrite ?Hnil; try done.
  - by intros i w r ->%Hw.
  - by intros i w ->%Hw.
  - by intros r ?%elem_of_nil.
  - by intros r ?%elem_of_nil.
  - split; apply NoDup_nil_2.
  - by intros r ?%elem_of_nil.
  - by intros id f ?%elem_of_nil.
  - apply NoDup_nil_2.
Qed.

Lemma conf_ok_reachable (c : rconf) :
  reachable prog (resolver_initial ares_init_failed ares_init) resolver_input c → conf_ok c.
Proof.
  apply reachable_inv.
  - intros s Hs _ _. split; [by apply initial_ok|constructor].
  - apply conf_ok_step.
  - intros s m cs s' Hok Hm Hin _ Hreg.
    assert (Hlog : rlog s' = rlog s ∧ same s s' ∧ no_loop cs ).
    { destruct Hin as [(c0 & -> & -> & Hc)|[(i & evs & -> & ->)|[(evs & t & _ & -> & ->)|(t & -> & ->)]]]; split_and!; try done;
        try (by constructor); try apply no_loop_ares; try by repeat constructor.
      constructor; [by destruct c0|constructor]. }
    destruct Hlog as (El & Hs & Hnl). simpl in *. rewrite El in Hreg.
    destruct (Hok Hm Hreg) as [Hi _]. simpl in Hi. split; [|done].
    eapply rinv_same; [exact Hs|]. eapply rinv_mono; [|exact Hi]. by intros j ?%elem_of_nil.
Qed.
End Steps.

(** ** Properties *)

(** C5: in every reachable configuration a request was called back once for each time it
    was started, but for the time it is running now: exactly once when it stops, whatever
    callbacks, cancellations, timeouts, resets, exceptions and answers of c-ares happen in
    between. This where no assertion failed, c-ares could create its channels, and the
    history is [regular]: each request object was run at most once, and no request that
    was queued was answered from the cache; a request that is answered from the cache
    while it is queued is not called back ([resolver_wrong_answer]). *)
Theorem resolver_calls_back_once {SA X Exn Ch D : Type} `{EqDecision SA} `{DelayExact D (rclosure SA)}
    (user_code : rid → AddrInfo SA → option error_code → X → X * list (rapi SA Exn))
    (dead_loop ares_init_failed : Exn) (ares_init : Ch → Ch * bool)
    (ares_getaddrinfo : CacheKey → Ch → Ch * option (ares_status * list (ai_node SA)))
    (win32 : bool) (inet4 inet6 : string → Z → SA) (null_sa : SA) (from_chars : string → option Z)
    (Hinit : ∀ c, (ares_init c).2 = true)
    (c : config (resolver SA X Exn Ch D) (rcall SA Exn) Exn) (r : rid)
    (Hreach : reachable (resolver_program user_code dead_loop ares_init_failed ares_init ares_getaddrinfo
       win32 inet4 inet6 null_sa from_chars) (resolver_initial ares_init_failed ares_init) resolver_input c)
    (Hok : cmode c ≠ Aborted) (Hreg : regular (rlog (mem c))) :
  occurs (starts (rlog (mem c))) r =
  (occurs (callbacks (rlog (mem c))) r + if runs (mem c) r then 1 else 0)%nat.
Proof.
  eapply conf_ok_reachable in Hreach; [|done]. by apply Hreach.
Qed.

(** C6: no request is forgotten: when the resolver is at rest every running
    request is with a worker of its own, which has exactly one query for it with
    c-ares or whose answer waits in the loop; or its answer from the cache waits in
    the loop; or it is queued, and then all the workers there may be are busy. This where
    no assertion failed, c-ares could create its channels, and the history is [regular]:
    each request object was run at most once, and no request that was queued was answered
    from the cache; one that was may be left without a worker ([resolver_wrong_answer]). *)
Theorem resolver_forgets_nobody {SA X Exn Ch D : Type} `{EqDecision SA} `{DelayExact D (rclosure SA)}
    (user_code : rid → AddrInfo SA → option error_code → X → X * list (rapi SA Exn))
    (dead_loop ares_init_failed : Exn) (ares_init : Ch → Ch * bool)
    (ares_getaddrinfo : CacheKey → Ch → Ch * option (ares_status * list (ai_node SA)))
    (win32 : bool) (inet4 inet6 : string → Z → SA) (null_sa : SA) (from_chars : string → option Z)
    (Hinit : ∀ c, (ares_init c).2 = true)
    (s : resolver SA X Exn Ch D) (m : mode Exn) (r : rid) (q : request)
    (Hreach : reachable (resolver_program user_code dead_loop ares_init_failed ares_init ares_getaddrinfo
       win32 inet4 inet6 null_sa from_chars) (resolver_initial ares_init_failed ares_init) resolver_input (Machine.Config [] s m))
    (Hok : m ≠ Aborted) (Hreg : regular (rlog s)) (Hq : reqs s !! r = Some q) (Hrun : running q = true) :
  (∃ i w, workers s !! i = Some w ∧ w_request w = Some r ∧
     ((delayed q = None ∧ queries w = 1%nat) ∨
      (queries w = 0%nat ∧ ∃ id a err, delayed q = Some id ∧ (id, FinishSync i a err) ∈ ds_waiting (loop s)))) ∨
  (r ∈ cache_delayed s ∧ ∃ id f, delayed q = Some id ∧ (id, f) ∈ ds_waiting (loop s) ∧ finishes f r q) ∨
  (r ∈ queue s ∧ length (workers s) = max_workers (cfg s) ∧
     ∀ i w, workers s !! i = Some w → is_Some (w_request w)).
Proof.
  eapply conf_ok_reachable in Hreach as Hc; [|done]. destruct (Hc Hok Hreg) as [Hi _]. simpl in Hi.
  destruct (ri_placed _ _ _ Hi r q Hq Hrun) as [(i & w & Hwk & Hl & Hr)|[Hin|Hin]]; [done| | |].
  - left. exists i, w. split_and!; [done|done|].
    destruct (ri_worker _ _ _ Hi i w r Hl Hr) as (q' & Hq' & _ & _ & Hor). simplify_eq. naive_solver.
  - right. right. split; [done|]. assert (queue s ≠ []) as Hne by (intros E; rewrite E in Hin; by apply elem_of_nil in Hin).
    split; [by apply Hi|]. intros i w Hl. destruct (w_request w) eqn:E; [done|].
    by apply (ri_busy _ _ _ Hi i w Hne Hl), elem_of_nil in E.
  - right. left. split; [done|]. destruct (ri_cache _ _ _ Hi r Hin) as (q' & id & f & Hq' & _ & _ & _ & Hd & Hf & Hfin).
    simplify_eq. by exists id, f.
Qed.

(** *** Witnesses and findings: a network that knows one name at once

    Users with a table of what their callbacks call; they note the address they get. *)

Definition ex_user := (list (rid * option nat) * (rid → list (rapi nat nat)))%type.
Definition ex_user_code (r : rid) (a : AddrInfo nat) (err : option error_code) (x : ex_user) : ex_user * list (rapi nat nat) :=
  ((x.1 ++ [(r, addr a)], x.2), x.2 r).
Definition ex_getaddrinfo (k : CacheKey) (ch : unit) : unit * option (ares_status * list (ai_node nat)) :=
  (ch, if bool_decide (k_node k = "local"%string) then Some (ARES_SUCCESS, [mkNode 2 1 6 0 300 1%nat]) else None).
Definition ex_init (ch : unit) : unit * bool := (ch, true).
Abbreviation ex_resolver := (resolver nat ex_user nat unit (delays (rclosure nat))).
Abbreviation ex_call := (rcall nat nat).
Definition ex_prog : program ex_resolver ex_call nat :=
  resolver_program ex_user_code 0%nat 1%nat ex_init ex_getaddrinfo false (λ _ _, 0%nat) (λ _ _, 0%nat) 0%nat (λ _, None).
Definition ex_resolver0 (n : nat) (plan : rid → list (rapi nat nat)) : ex_resolver :=
  (new_resolver 1%nat ex_init (mkConfig 600 100 500 n) (mkDelays []) tt 1000 ([], plan)).1.

Definition ex_hints : AddrInfoHints := mkHints 0 1 0 0.
Definition ex_new (r : rid) (node : string) (use_cache : bool) : ex_call :=
  RApi (New r (new_request node "80" 0 ex_hints use_cache 5000)).
Definition ex_run (r : rid) : ex_call := RApi (Run r).
Definition ex_answer (i : wid) (a : nat) : list ex_call := handle_poll i [AresDone ARES_SUCCESS [mkNode 2 1 6 0 300 a]].

(** The loop makes these calls one after the other, each to its end. *)
Fixpoint ex_drive (l : list (list ex_call)) (c : config ex_resolver ex_call nat) : config ex_resolver ex_call nat :=
  match l with
  | [] => c
  | cs :: l =>
      match c with
      | Machine.Config [] s (Normal | Unwinding _) => ex_drive l (Machine.run ex_prog 100 (Machine.Config cs s Normal))
      | c => c
      end
  end.

Definition ex_input (cs : list ex_call) : bool :=
  match cs with
  | [RApi _] | [RunDelayed _ _] | [TimerFired _] => true
  | [AresCall i _; RethrowIf j] => bool_decide (i = j)
  | _ => false
  end.

Lemma ex_drive_runs l : ∀ c, forallb ex_input l = true →
  reachable ex_prog (resolver_initial 1%nat ex_init) resolver_input c →
  reachable ex_prog (resolver_initial 1%nat ex_init) resolver_input (ex_drive l c).
Proof.
  induction l as [|cs l IH]; intros c Hl Hc; [exact Hc|]. cbn [forallb] in Hl. apply andb_true_iff in Hl as [Hcs Hl].
  assert (Hin : ∀ s : ex_resolver, resolver_input s cs s).
  { intros s. destruct cs as [|[] [|[] []]]; try done; try (left; by eexists).
    right. left. apply bool_decide_eq_true in Hcs as ->. by exists i0, [ev]. }
  cbn [ex_drive]. destruct c as [[|] s [|e|]]; try exact Hc;
    (apply IH; [done|]; eapply reachable_steps; [|apply run_steps]; by eapply reach_input).
Qed.

Lemma ex_resolver0_reachable n plan : (0 < n)%nat →
  reachable ex_prog (resolver_initial 1%nat ex_init) resolver_input (Machine.Config [] (ex_resolver0 n plan) Normal).
Proof.
  intros Hn. apply reach_init. exists (mkConfig 600 100 500 n), (mkDelays []), tt, 1000, ([], plan).
  split; [by intros p ?%elem_of_nil|]. unfold ex_resolver0, new_resolver, add_worker. simpl. by destruct n; [lia|].
Qed.

Definition regular_b {SA} (l : list (revent SA)) : bool :=
  bool_decide (NoDup (starts l)) && forallb (λ e, match e with EvFromCache _ => false | _ => true end) l.
Lemma regular_b_regular {SA} (l : list (revent SA)) : regular_b l = true → regular l.
Proof.
  unfold regular_b. rewrite andb_true_iff, bool_decide_eq_true, forallb_forall. intros [H1 H2]. split; [done|].
  intros r Hr%list_elem_of_In. by specialize (H2 _ Hr).
Qed.

(** One worker, two requests, an answer whose callback throws. *)
Definition ex_plan (r : rid) : list (rapi nat nat) := match r with 1%nat => [Throw 5%nat] | _ => [] end.
Definition ex_turns : list (list ex_call) :=
  [[ex_new 1 "a" false]; [ex_new 2 "b" false]; [ex_run 1]; [ex_run 2]; ex_answer 0 10].
Definition ex_end : config ex_resolver ex_call nat := ex_drive ex_turns (Machine.Config [] (ex_resolver0 1 ex_plan) Normal).

Lemma ex_end_reachable : reachable ex_prog (resolver_initial 1%nat ex_init) resolver_input ex_end.
Proof. apply ex_drive_runs; [reflexivity|]. apply ex_resolver0_reachable. lia. Qed.

Lemma resolver_calls_back_once_witness :
  occurs (starts (rlog (mem ex_end))) 1%nat = (occurs (callbacks (rlog (mem ex_end))) 1%nat + 0)%nat ∧
  cmode ex_end = Unwinding 5%nat.
Proof.
  split; [|vm_compute; reflexivity].
  etrans; [apply (resolver_calls_back_once ex_user_code 0%nat 1%nat ex_init ex_getaddrinfo false (λ _ _, 0%nat) (λ _ _, 0%nat)
    0%nat (λ _, None) (λ _, eq_refl) ex_end 1%nat ex_end_reachable)|vm_compute; reflexivity].
  - vm_compute. discriminate.
  - apply regular_b_regular. vm_compute. reflexivity.
Defined.

Definition ex_state : ex_resolver := Eval vm_compute in mem ex_end.
Lemma ex_end_eq : ex_end = Machine.Config [] ex_state (Unwinding 5%nat).
Proof. vm_compute. reflexivity. Qed.

Lemma resolver_forgets_nobody_witness :
  runs ex_state 2%nat = true ∧ request_of 0%nat ex_state = Some 2%nat ∧
  ∃ q, reqs ex_state !! 2%nat = Some q ∧
  ((∃ i w, workers ex_state !! i = Some w ∧ w_request w = Some 2%nat ∧
     ((delayed q = None ∧ queries w = 1%nat) ∨
      (queries w = 0%nat ∧ ∃ id a err, delayed q = Some id ∧ (id, FinishSync i a err) ∈ ds_waiting (loop ex_state)))) ∨
  (2%nat ∈ cache_delayed ex_state ∧ ∃ id f, delayed q = Some id ∧ (id, f) ∈ ds_waiting (loop ex_state) ∧ finishes f 2%nat q) ∨
  (2%nat ∈ queue ex_state ∧ length (workers ex_state) = max_workers (cfg ex_state) ∧
     ∀ i w, workers ex_state !! i = Some w → is_Some (w_request w))).
Proof.
  split; [vm_compute; reflexivity|]. split; [vm_compute; reflexivity|]. eexists. split; [vm_compute; reflexivity|].
  eapply (resolver_forgets_nobody ex_user_code 0%nat 1%nat ex_init ex_getaddrinfo false (λ _ _, 0%nat) (λ _ _, 0%nat)
    0%nat (λ _, None) (λ _, eq_refl) ex_state (Unwinding 5%nat)).
  - rewrite <-ex_end_eq. exact ex_end_reachable.
  - discriminate.
  - apply regular_b_regular. vm_compute. reflexivity.
  - vm_compute. reflexivity.
  - reflexivity.
Defined.

(** [reset] with a request that waits in the queue: cancelling the request of the
    worker makes it take the queued one, and then [queue.front()->cancel()] is a
    call on a null request. *)
Theorem resolver_reset_null :
  cmode (ex_drive [[ex_new 1 "a" false]; [ex_new 2 "b" false]; [ex_run 1]; [ex_run 2]; [RApi Reset]]
    (Machine.Config [] (ex_resolver0 1 (λ _, [])) Normal)) = Aborted.
Proof. vm_compute. reflexivity. Qed.

(** With more of them, the one that the worker takes survives the [reset], with the
    timer for c-ares' timeouts stopped. *)
Theorem resolver_reset_incomplete :
  let c := ex_drive [[ex_new 1 "a" false]; [ex_new 2 "b" false]; [ex_new 3 "c" false]; [ex_run 1]; [ex_run 2]; [ex_run 3]; [RApi Reset]]
    (Machine.Config [] (ex_resolver0 1 (λ _, [])) Normal) in
  cmode c = Normal ∧ callbacks (rlog (mem c)) = [1; 3]%nat ∧ runs (mem c) 2%nat = true ∧ dns_roll_timer (mem c) = None.
Proof. vm_compute. done. Qed.

(** A queued request is answered from the cache and its callback starts two more: the
    first one takes the free worker, and the loop then gives that worker the second
    one, which gets the answer for the first; the first one has no worker. *)
Theorem resolver_wrong_answer :
  let plan r := match r with 2%nat => [Run 3%nat; Run 4%nat] | _ => [] end in
  let c := ex_drive [[ex_new 1 "a" true]; [ex_new 2 "a" true]; [ex_new 3 "b" false]; [ex_new 4 "c" false];
                     [ex_run 1]; [ex_run 2]; ex_answer 0 10; ex_answer 0 11]
    (Machine.Config [] (ex_resolver0 1 plan) Normal) in
  (user (mem c)).1 = [(1, Some 10); (2, Some 10); (4, Some 11)]%nat ∧
  runs (mem c) 3%nat = true ∧ request_of 0%nat (mem c) = None.
Proof. vm_compute. done. Qed.

(** A request object that is run again remembers its old worker, so that an answer
    from the cache leaves it in [cache_delayed]; with two of them [reset] never ends. *)
Theorem resolver_reset_loops :
  let c := ex_drive [[ex_new 1 "a" true]; [ex_new 2 "b" true]; [ex_run 1]; ex_answer 0 10; [ex_run 2]; ex_answer 0 11;
                     [ex_run 1]; [ex_run 2]; [RunDelayed 1 None]; [RunDelayed 2 None]; [RApi Reset]]
    (Machine.Config [] (ex_resolver0 1 (λ _, [])) Normal) in
  stack c ≠ [] ∧ cmode c = Normal ∧ Machine.run ex_prog 2 c = c.
Proof. vm_compute. done. Qed.
