(* ===== verification/ResolverLoop.v ===== *)
(** The resolver that belongs to a loop: its life with the loop ([Loop.cc],
    [Resolver.cc]), and [sync_resolve] of [util.cc], which runs the loop for synchronous
    calls of [Loops] until its resolver has answered. *)
From S2P Require Import Prelude Machine Errors Delayer AddrInfo Resolver.
#[local] Open Scope Z_scope.

(** What is called when a loop dies, beside the calls of [Resolver]. *)
Inductive dcall (SA Exn : Type) :=
| Res (c : rcall SA Exn)
| ClearWorkers
| DestroyWorker (i n : wid)
| DisableRest.
Arguments Res {SA Exn}.
Arguments ClearWorkers {SA Exn}.
Arguments DestroyWorker {SA Exn}.
Arguments DisableRest {SA Exn}.

Section ResolverLoop.
Context {SA X Exn Ch D : Type} `{EqDecision SA} `{DelayService D (rclosure SA)}.
Context (user_code : rid → AddrInfo SA → option error_code → X → X * list (rapi SA Exn)).
Context (dead_loop ares_init_failed : Exn).
Context (ares_init : Ch → Ch * bool).
Context (ares_getaddrinfo : CacheKey → Ch → Ch * option (ares_status * list (ai_node SA))).
Context (win32 : bool) (inet4 inet6 : string → Z → SA) (null_sa : SA) (from_chars : string → option Z).
Implicit Types (s : resolver SA X Exn Ch D) (r : rid) (i : wid).

Abbreviation prog := (resolver_program user_code dead_loop ares_init_failed ares_init ares_getaddrinfo
  win32 inet4 inet6 null_sa from_chars).

(** [Resolver::create_loop_resolver]: with the defaults of [Config]. *)
Definition create_loop_resolver (d : D) (ch : Ch) (t : Z) (x : X) : resolver SA X Exn Ch D * outcome (rcall SA Exn) Exn :=
  new_resolver ares_init_failed ares_init default_config d ch t x.

Definition with_looped (b : bool) s : resolver SA X Exn Ch D :=
  mkResolver b (cfg s) (dns_roll_timer s) (workers s) (queue s) (cache_delayed s) (_cache s) (reqs s) (loop s) (ares s) (now s) (user s) (rlog s).

(** [Resolver::disable_loop_resolver]: [reset], [workers.clear()], and the rest. *)
Definition disable_loop_resolver : list (dcall SA Exn) := [Res (RApi Reset); ClearWorkers; DisableRest].

(** [Worker::~Worker]: c-ares ends the queries of the channel, and calls back for each;
    its sockets are polled no more. *)
Definition destroy_worker i s : list (dcall SA Exn) :=
  match workers s !! i with
  | Some w => replicate (queries w) (Res (AresCall i (AresDone ARES_EDESTRUCTION [])))
  | None => []
  end.

Definition dresult (p : resolver SA X Exn Ch D * outcome (rcall SA Exn) Exn) : resolver SA X Exn Ch D * outcome (dcall SA Exn) Exn :=
  (p.1, match p.2 with Calls l => Calls (Res <$> l) | Throws e => Throws e | Aborts => Aborts end).

Definition dbody (c : dcall SA Exn) s : resolver SA X Exn Ch D * outcome (dcall SA Exn) Exn :=
  match c with
  | Res c => dresult (body prog c s)
  | ClearWorkers => (s, Calls [DestroyWorker 0 (length (workers s))])
  | DestroyWorker i n =>
      if decide (i < n)%nat then (s, Calls (destroy_worker i s ++ [DestroyWorker (S i) n]))
      else (with_workers [] s, Calls [])
  | DisableRest => (with_looped false (with_roll None s), Calls [])
  end.
Definition dunwind (c : dcall SA Exn) (e : Exn) s : resolver SA X Exn Ch D * outcome (dcall SA Exn) Exn :=
  match c with
  | Res c => dresult (unwind prog c e s)
  | _ => (s, Throws e)
  end.
Definition loop_resolver_program : program (resolver SA X Exn Ch D) (dcall SA Exn) Exn := Program dbody dunwind.

(** [Resolver::~Resolver], up to the timer. *)
Definition destroy_resolver s : outcome (rcall SA Exn) Exn :=
  if existsb (λ w, match w_request w with Some _ => true | None => false end) (workers s) then Aborts
  else match queue s with [] => Calls [] | _ => Aborts end.
End ResolverLoop.

(** ** [sync_resolve] *)

Section Sync.
Context {SA Exn Ch D : Type} `{EqDecision SA} `{DelayService D (rclosure SA)}.
Context (dead_loop ares_init_failed : Exn).
Context (ares_init : Ch → Ch * bool).
Context (ares_getaddrinfo : CacheKey → Ch → Ch * option (ares_status * list (ai_node SA))).
Context (win32 : bool) (inet4 inet6 : string → Z → SA) (null_sa : SA) (from_chars : string → option Z).

(** The variables [ai] and [error] of the function, and the lambda that sets them. *)
Abbreviation locals := (AddrInfo SA * option error_code)%type.
Abbreviation sresolver := (resolver SA locals Exn Ch D).
Definition sync_lambda (r : rid) (res : AddrInfo SA) (err : option error_code) (x : locals) : locals * list (rapi SA Exn) :=
  (match err with Some e => (x.1, Some e) | None => (res, x.2) end, []).

Definition sync_program : program sresolver (rcall SA Exn) Exn :=
  resolver_program sync_lambda dead_loop ares_init_failed ares_init ares_getaddrinfo win32 inet4 inet6 null_sa from_chars.

(** What keeps the loop running: a call that was put off, the timer of a request, a
    socket that is polled. The roll timer is weak. *)
Definition loop_alive (s : sresolver) : bool :=
  match ds_waiting (loop s) with [] => false | _ => true end ||
  existsb (λ p, timer p.2) (map_to_list (reqs s)) ||
  existsb (λ w, negb (bool_decide (polls w = ∅))) (workers s).

(** What the loop calls while it runs. *)
Definition loop_calls (s : sresolver) (cs : list (rcall SA Exn)) : Prop :=
  (∃ id oom, cs = [RunDelayed id oom]) ∨ (∃ r, cs = [TimerFired r]) ∨
  (∃ i evs, cs = handle_poll i evs) ∨ (∃ evs t, dns_roll_timer s = Some t ∧ cs = handle_timer s evs).
Definition sync_turn (s s' : sresolver) : Prop :=
  ∃ t cs, loop_calls s cs ∧ steps sync_program (Machine.Config cs (with_now t s) Normal) (Machine.Config [] s' Normal).

(** [l->run()]: turns while the loop is alive. *)
Definition running_turn (s s' : sresolver) : Prop := loop_alive s = true ∧ sync_turn s s'.
Definition sync_run (s s' : sresolver) : Prop := rtc running_turn s s' ∧ loop_alive s' = false.

Definition sync_request (host : string) (port : Z) (hints : AddrInfoHints) (use_cache : bool) : request :=
  new_request host "" port hints use_cache DEFAULT_RESOLVE_TIMEOUT.

(** What is returned. *)
Definition sync_result (x : locals) : excepted (AddrInfo SA) error_code :=
  match x.2 with Some e => inr e | None => inl x.1 end.

(** [sync_resolve] up to [l->run()], for a new request object [r], at the time [t]. *)
Definition sync_locals (t : Z) (s : sresolver) : sresolver := with_now t (with_user (no_addr, None) s).
Definition sync_start (s : sresolver) (t : Z) (r : rid) (q : request) (s1 : sresolver) : Prop :=
  reqs s !! r = None ∧
  steps sync_program (Machine.Config [RApi (New r q); RApi (Run r)] (sync_locals t s) Normal) (Machine.Config [] s1 Normal).
Definition sync_resolve (s : sresolver) (t : Z) (r : rid) (host : string) (port : Z) (hints : AddrInfoHints) (use_cache : bool)
    (s' : sresolver) (res : excepted (AddrInfo SA) error_code) : Prop :=
  ∃ s1, sync_start s t r (sync_request host port hints use_cache) s1 ∧ sync_run s1 s' ∧ res = sync_result (user s').

(** The states of the resolver of a [SyncLoop] between the calls of [sync_resolve]. *)
Inductive sync_state : sresolver → Prop :=
| sync_created d ch t s : (∀ p, p ∉ ds_waiting d) →
    create_loop_resolver ares_init_failed ares_init d ch t (no_addr, None) = (s, Calls []) → sync_state s
| sync_resolved s t r host port hints use_cache s' res :
    sync_state s → sync_resolve s t r host port hints use_cache s' res → sync_state s'.
End Sync.

(** ** What a call of the loop does to the resolver *)

(** The parts of a request that tell whether it will be answered. *)
Definition tcore (q : request) : bool * bool * option Z := (running q, timer q, delayed q).

Section Frame.
Context {SA X Exn Ch D : Type} `{EqDecision SA} `{DelayService D (rclosure SA)}.
Implicit Types (s : resolver SA X Exn Ch D) (r : rid) (i : wid).

(** [s'] differs from [s] in nothing that matters, but for the request [o]. *)
Record frame (o : option rid) s s' : Prop := {
  f_reqs x : o ≠ Some x → tcore <$> reqs s' !! x = tcore <$> reqs s !! x;
  f_exc : exc <$> workers s' = exc <$> workers s;
  f_looped : looped s' = looped s;
  f_queue : queue s = [] → queue s' = []
}.

Lemma frame_refl o s : frame o s s.
Proof. by constructor. Qed.
Lemma frame_trans o s1 s2 s3 : frame o s1 s2 → frame o s2 s3 → frame o s1 s3.
Proof. intros [] []. constructor; [|congruence|congruence|auto]. intros x Hx. rewrite f_reqs1 by done. auto. Qed.
Lemma frame_weaken o s s' : frame None s s' → frame o s s'.
Proof. intros []. constructor; auto. Qed.

Lemma frame_with_req f r s : frame (Some r) s (with_req f r s).
Proof. constructor; try done. intros x Hx. simpl. rewrite lookup_alter_ne by congruence. done. Qed.

Lemma frame_with_req_tame (f : request → request) o r s : (∀ q, tcore (f q) = tcore q) → frame o s (with_req f r s).
Proof.
  intros Hf. constructor; try done. intros x _. simpl. destruct (decide (x = r)) as [->|Hn].
  - rewrite lookup_alter_eq. destruct (reqs s !! r); simpl; [by rewrite Hf|done].
  - by rewrite lookup_alter_ne.
Qed.

Lemma frame_with_w (f : Worker Exn → Worker Exn) o i s : (∀ w, exc (f w) = exc w) → frame o s (with_w f i s).
Proof.
  intros Hf. constructor; try done. simpl. apply list_eq. intros j. rewrite !list_lookup_fmap.
  destruct (decide (j = i)) as [->|Hn].
  - rewrite list_lookup_alter_eq. destruct (workers s !! i); simpl; [by rewrite Hf|done].
  - by rewrite list_lookup_alter_ne.
Qed.

Lemma frame_delay_for r (f : rclosure SA) s : frame (Some r) s (delay_for r f s).
Proof.
  unfold delay_for. destruct (ds_add f (loop s)) as [d id]. eapply frame_trans; [|apply frame_with_req].
  by constructor.
Qed.

Lemma frame_cancel_delayed r s : frame (Some r) s (cancel_delayed r s).
Proof.
  unfold cancel_delayed. destruct (reqs s !! r ≫= delayed); [|apply frame_refl].
  eapply frame_trans; [|apply frame_with_req]. by constructor.
Qed.

Lemma frame_worker_cancel o i s : frame o s (worker_cancel i s).
Proof.
  unfold worker_cancel. destruct (request_of i s); [|apply frame_refl].
  eapply frame_trans; [by apply (frame_with_req_tame (set_worker None))|by apply frame_with_w].
Qed.

Lemma frame_release r q s : frame (Some r) s (release r q s).
Proof.
  unfold release. eapply frame_trans; [apply (frame_trans _ _ (cancel_delayed r s)); [apply frame_cancel_delayed|apply frame_with_req]|].
  destruct (worker q); [apply frame_worker_cancel|]. destruct (queued q); constructor; try done. simpl.
  by intros ->.
Qed.

Lemma frame_store r (a : AddrInfo SA) err s : frame (Some r) s (store r a err s).
Proof. unfold store. destruct (reqs s !! r); [|apply frame_refl]. by destruct (_ && _ && _). Qed.

Lemma runs_frame o s s' x : frame o s s' → o ≠ Some x → runs s' x = runs s x.
Proof.
  intros Hf Hx. pose proof (f_reqs _ _ _ Hf x Hx) as E. unfold runs.
  destruct (reqs s' !! x) as [q'|], (reqs s !! x) as [q|]; simplify_eq/=; congruence.
Qed.

(** Every running request has a timer, or a call is put off for it. *)
Definition timed s : Prop :=
  ∀ r q, reqs s !! r = Some q → running q = true → timer q = true ∨ is_Some (delayed q).

Lemma timed_frame o s s' : frame o s s' → timed s → (∀ r, o = Some r → runs s' r = false) → timed s'.
Proof.
  intros Hf Ht Ho x q Hq Hr. destruct (decide (o = Some x)) as [->|Hn].
  - specialize (Ho x eq_refl). unfold runs in Ho. rewrite Hq in Ho. congruence.
  - pose proof (f_reqs _ _ _ Hf x Hn) as E. rewrite Hq in E. destruct (reqs s !! x) as [q0|] eqn:Hq0; [|done].
    injection E as E1 E2 E3. rewrite E2, E3. apply (Ht x q0 Hq0). congruence.
Qed.
End Frame.

Section SyncSteps.
#[local] Set Default Proof Using "Type*".
Context {SA Exn Ch D : Type} `{EqDecision SA} `{DelayExact D (rclosure SA)}.
Context (dead_loop ares_init_failed : Exn).
Context (ares_init : Ch → Ch * bool).
Context (ares_getaddrinfo : CacheKey → Ch → Ch * option (ares_status * list (ai_node SA))).
Context (win32 : bool) (inet4 inet6 : string → Z → SA) (null_sa : SA) (from_chars : string → option Z).
Abbreviation locals := (AddrInfo SA * option error_code)%type.
Abbreviation sresolver := (resolver SA locals Exn Ch D).
Implicit Types (s : sresolver) (r : rid) (i : wid).

Abbreviation prog := (sync_program (SA:=SA) (Exn:=Exn) (Ch:=Ch) (D:=D) dead_loop ares_init_failed ares_init ares_getaddrinfo
  win32 inet4 inet6 null_sa from_chars).
Abbreviation body := (rbody (X:=locals) (Exn:=Exn) (Ch:=Ch) (D:=D) sync_lambda dead_loop ares_init_failed ares_init ares_getaddrinfo
  win32 inet4 inet6 null_sa from_chars).
Abbreviation finish := (finish_resolve (X:=locals) (Exn:=Exn) (Ch:=Ch) (D:=D) sync_lambda).

(** The request [r] is answered; or nothing happens that matters. *)
Record told r (a : AddrInfo SA) err s s' : Prop := {
  t_frame : frame (Some r) s s';
  t_ran : runs s r = true;
  t_done : runs s' r = false;
  t_log : rlog s' = rlog s ++ [EvCallback r a err];
  t_user : user s' = (sync_lambda (Exn:=Exn) r a err (user s)).1
}.
Record silent s s' : Prop := {
  q_frame : ∃ o, frame o s s' ∧ ∀ r, o = Some r → runs s r = false ∧ runs s' r = false;
  q_log : rlog s' = rlog s;
  q_user : user s' = user s
}.
Definition event s s' : Prop := silent s s' ∨ ∃ r a err, told r a err s s'.

Lemma silent_frame s s' : frame None s s' → rlog s' = rlog s → user s' = user s → silent s s'.
Proof. intros. constructor; [|done|done]. by exists None. Qed.
Lemma silent_refl s : silent s s.
Proof. apply silent_frame; [apply frame_refl|done|done]. Qed.

Lemma finish_spec r a err s s' o : finish r a err s = (s', o) → o ≠ Aborts →
  (runs s r = false ∧ s' = s ∧ o = Calls []) ∨ (told r a err s s' ∧ ∃ g, o = Calls [FinishGuard g]).
Proof.
  intros Hf Ho. unfold finish_resolve in Hf. destruct (reqs s !! r) as [q|] eqn:Hq; [|congruence].
  unfold runs at 1. rewrite Hq. destruct (running q) eqn:Hr; simpl in Hf; [|left; by injection Hf].
  right. injection Hf as <- <-. split; [|by exists (worker q)].
  assert (user (store r a err (release r q s)) = user s ∧ rlog (store r a err (release r q s)) = rlog s) as [Eu El].
  { unfold store. assert (user (release r q s) = user s ∧ rlog (release r q s) = rlog s) as [E1 E2].
    { unfold release, cancel_delayed, worker_cancel. destruct (reqs s !! r ≫= delayed); simpl;
        destruct (worker q); try destruct (request_of _ _); try destruct (queued q); done. }
    destruct (reqs (release r q s) !! r) as [q1|]; [|done]. by destruct (bool_decide (err = None) && _ && _). }
  constructor.
  - apply (frame_trans _ _ (store r a err (release r q s))).
    + apply (frame_trans _ _ (release r q s)); [apply frame_release|apply frame_store].
    + eapply frame_trans; [apply (frame_with_req (λ q, set_running false (set_queued false q)) r)|]. by constructor.
  - unfold runs. by rewrite Hq.
  - unfold runs. simpl. rewrite lookup_alter_eq. by destruct (reqs (store r a err (release r q s)) !! r).
  - simpl. by rewrite El.
  - simpl. by rewrite Eu.
Qed.

Lemma told_from r a err s0 s s' : frame (Some r) s0 s → rlog s = rlog s0 → user s = user s0 → runs s r = runs s0 r →
  told r a err s s' → told r a err s0 s'.
Proof. intros Hf El Eu Er []. constructor; [by eapply frame_trans|congruence|done|congruence|congruence]. Qed.

(** [finish_resolve] after the request has left the loop or its worker. *)
Lemma finish_event r a err s0 s s' o : frame (Some r) s0 s → rlog s = rlog s0 → user s = user s0 → runs s r = runs s0 r →
  finish r a err s = (s', o) → o ≠ Aborts → event s0 s' ∧ ∃ l, o = Calls l ∧ (l = [] ∨ ∃ g, l = [FinishGuard g]).
Proof.
  intros Hf El Eu Er Hb Ho. destruct (finish_spec _ _ _ _ _ _ Hb Ho) as [(Hn & -> & ->)|[Ht [i ->]]].
  - split; [|exists []; auto]. left. constructor; [|done|done]. exists (Some r). split; [done|].
    intros ? [= <-]. by rewrite <-Er.
  - split; [|exists [FinishGuard i]; eauto]. right. exists r, a, err. by eapply told_from.
Qed.

Lemma runs_with_req (f : request → request) r s x : (∀ q, running (f q) = running q) → runs (with_req f r s) x = runs s x.
Proof.
  intros Hf. unfold runs. simpl. destruct (decide (x = r)) as [->|Hn].
  - rewrite lookup_alter_eq. destruct (reqs s !! r); simpl; [apply Hf|done].
  - by rewrite lookup_alter_ne.
Qed.

Lemma worker_finish_event i a err s0 s s' o :
  (∀ r, request_of i s = Some r → frame (Some r) s0 s ∧ rlog s = rlog s0 ∧ user s = user s0 ∧ runs s r = runs s0 r) →
  worker_finish sync_lambda i a err s = (s', o) → o ≠ Aborts → event s0 s' ∧ ∃ l, o = Calls l ∧ (l = [] ∨ ∃ g, l = [FinishGuard g]).
Proof.
  intros Hs Hb Ho. unfold worker_finish in Hb. destruct (request_of i s) as [r|] eqn:Hr; [|congruence].
  destruct (Hs r eq_refl) as (Hf & El & Eu & Er). eapply finish_event; [| | | |exact Hb|done]; try done.
  eapply frame_trans; [exact Hf|by apply frame_with_w].
Qed.

(** *** One call *)

(** The calls that the loop makes here. *)
Definition sync_call (c : rcall SA Exn) : bool :=
  match c with
  | RunDelayed _ _ | FinishGuard _ | AresCall _ _ | CatchExc _ | RethrowIf _ | RollIter _ _ _ | TimerFired _ => true
  | _ => false
  end.
(** No exception is kept by a worker. *)
Definition quiet s : Prop := Forall (λ e, e = None) (exc <$> workers s).

Lemma sync_calls_finish (l : list (rcall SA Exn)) : (l = [] ∨ ∃ g, l = [FinishGuard g]) → Forall sync_call l.
Proof. intros [->|[i ->]]; by repeat constructor. Qed.

Lemma run_delayed_event id oom s s' o : run_delayed sync_lambda inet4 inet6 null_sa from_chars id oom s = (s', o) → o ≠ Aborts →
  event s s' ∧ ∃ l, o = Calls l ∧ (l = [] ∨ ∃ g, l = [FinishGuard g]).
Proof.
  intros Hb Ho. unfold run_delayed in Hb. destruct (closure_at id s) as [f|].
  2: { injection Hb as <- <-. split; [left; apply silent_refl|]. exists []. auto. }
  set (s1 := with_loop _ s) in Hb.
  assert (Hs1 : ∀ r, frame (Some r) s (with_req (set_delayed None) r s1) ∧ runs (with_req (set_delayed None) r s1) r = runs s r).
  { intros r. split; [|by rewrite runs_with_req]. eapply frame_trans; [|apply frame_with_req]. by constructor. }
  destruct f as [r a|i a err|r]; simpl in Hb.
  - eapply finish_event; [| | | |exact Hb|done]; try done; apply Hs1.
  - destruct (request_of i s1) as [r|] eqn:Hr; [|congruence].
    eapply worker_finish_event; [|exact Hb|done]. intros r' Hr'.
    assert (r' = r) as -> by (unfold request_of in *; simpl in *; congruence). split_and!; try done; apply Hs1.
  - destruct (reqs s !! r) as [q|]; [|congruence]. destruct (localhost _ _ _ _ _ _) as [a err].
    eapply finish_event; [| | | |exact Hb|done]; try done; apply Hs1.
Qed.

Lemma ares_call_event i ev s s' o : ares_call sync_lambda i ev s = (s', o) → o ≠ Aborts →
  event s s' ∧ ∃ l, o = Calls l ∧ Forall sync_call l.
Proof.
  intros Hb Ho. unfold ares_call in Hb.
  assert (Hsil : ∀ f : Worker Exn → Worker Exn, (∀ w, exc (f w) = exc w) → silent s (with_w f i s)).
  { intros f Hf. apply silent_frame; [by apply frame_with_w|done|done]. }
  destruct (workers s !! i) as [w|]; [|injection Hb as <- <-; split; [left; apply silent_refl|by exists []]].
  destruct ev as [status ai|sock rd wr].
  - destruct (queries w) as [|n]; [injection Hb as <- <-; split; [left; apply silent_refl|by exists []]|].
    destruct (w_request w); [|injection Hb as <- <-; split; [left; by apply Hsil|by exists []]].
    destruct (worker_finish sync_lambda i _ _ _) as [s1 o1] eqn:Hf.
    assert (o1 ≠ Aborts) as Ho1 by (intros ->; congruence).
    assert (event s s1 ∧ ∃ l, o1 = Calls l ∧ (l = [] ∨ ∃ g, l = [FinishGuard g])) as (He & l & -> & Hl).
    { eapply worker_finish_event; [|exact Hf|done]. intros r' _. split_and!; try done. by apply frame_with_w. }
    injection Hb as <- <-. split; [done|]. eexists. split; [done|]. apply Forall_app. split; [by apply sync_calls_finish|by repeat constructor].
  - destruct (on_sockstate _ _ _ _); [|congruence]. injection Hb as <- <-. split; [left; by apply Hsil|by exists []].
Qed.

Lemma sync_body c s s' o : sync_call c → body c s = (s', o) → o ≠ Aborts → queue s = [] → quiet s →
  event s s' ∧ ∃ l, o = Calls l ∧ Forall sync_call l.
Proof.
  intros Hc Hb Ho Hq Hx. assert (Hs0 : event s s ∧ ∃ l, Calls (Exn:=Exn) (Call:=rcall SA Exn) [] = Calls l ∧ Forall sync_call l).
  { split; [left; apply silent_refl|by exists []]. }
  destruct c; try done; simpl in Hb.
  - destruct (run_delayed_event _ _ _ _ _ Hb Ho) as (He & l & -> & Hl). split; [done|]. exists l. split; [done|]. by apply sync_calls_finish.
  - unfold finish_guard in Hb. destruct i as [i|]; [|by injection Hb as <- <-].
    destruct (workers s !! i) as [w|]; [|congruence]. rewrite Hq in Hb.
    destruct (w_request w); [by injection Hb as <- <-|]. injection Hb as <- <-. split; [|by exists []]. left.
    destruct (busy s); [apply silent_refl|]. by apply silent_frame.
  - by eapply ares_call_event.
  - by injection Hb as <- <-.
  - unfold rethrow_if in Hb. destruct (workers s !! i) as [w|] eqn:Hw; simpl in Hb; [|by injection Hb as <- <-].
    assert (exc w = None) as E.
    { unfold quiet in Hx. rewrite Forall_fmap, Forall_lookup in Hx. by apply (Hx i). }
    rewrite E in Hb. by injection Hb as <- <-.
  - unfold roll_iter in Hb. destruct (decide (i < n)%nat); [|by injection Hb as <- <-]. injection Hb as <- <-.
    split; [left; apply silent_refl|]. eexists. split; [done|]. apply Forall_app. split; [|by repeat constructor].
    destruct (request_of i s); [|done]. apply Forall_app. split; [|by repeat constructor].
    apply Forall_fmap. by apply Forall_true.
  - destruct (reqs s !! r) as [q|]; [|by injection Hb as <- <-]. destruct (timer q); [|by injection Hb as <- <-].
    unfold cancel in Hb. destruct (finish_event _ _ _ s _ _ _ (frame_refl _ _) eq_refl eq_refl eq_refl Hb Ho) as (He & l & -> & Hl).
    split; [done|]. exists l. split; [done|]. by apply sync_calls_finish.
Qed.

(** None of these calls asks c-ares. *)
Lemma finish_ares r a err s : ares (finish r a err s).1 = ares s.
Proof using Type.
  unfold finish_resolve. destruct (reqs s !! r) as [q|]; [|done]. destruct (running q); [|done]. simpl.
  assert (ares (release r q s) = ares s) as <-.
  { unfold release, cancel_delayed, worker_cancel. destruct (reqs s !! r ≫= delayed); simpl;
      destruct (worker q); try destruct (request_of _ _); try destruct (queued q); done. }
  unfold store. destruct (reqs (release r q s) !! r) as [q1|]; [|done]. by destruct (bool_decide (err = None) && _ && _).
Qed.

Lemma worker_finish_ares i a err s : ares (worker_finish sync_lambda i a err s).1 = ares s.
Proof using Type. unfold worker_finish. destruct (request_of i s); [|done]. by rewrite finish_ares. Qed.

Lemma sync_body_ares c s s' o : sync_call c → body c s = (s', o) → queue s = [] → ares s' = ares s.
Proof using Type.
  intros Hc Hb Hq. replace s' with (body c s).1 by by rewrite Hb. clear Hb s' o. destruct c; try done; simpl.
  - unfold run_delayed. destruct (closure_at id s) as [[r a|i a err|r]|]; simpl; [by rewrite finish_ares| | |done].
    + destruct (request_of _ _); [|done]. by rewrite worker_finish_ares.
    + destruct (reqs s !! r); [|done]. destruct (localhost _ _ _ _ _ _). by rewrite finish_ares.
  - unfold finish_guard. destruct i as [i|]; [|done]. destruct (workers s !! i) as [w|]; [|done]. rewrite Hq.
    destruct (w_request w); [done|]. simpl. by destruct (busy s).
  - unfold ares_call. destruct (workers s !! i) as [w|]; [|done]. destruct ev as [status ai|].
    + destruct (queries w); [done|]. destruct (w_request w); [|done].
      pose proof (worker_finish_ares i (ai_of ai) (ares2stderr status) (with_w (set_queries n) i s)) as E.
      by destruct (worker_finish _ _ _ _ _) as [s1 []].
    + by destruct (on_sockstate _ _ _ _).
  - unfold rethrow_if. by destruct (workers s !! i ≫= exc).
  - unfold roll_iter. by destruct (decide (i < n)%nat).
  - destruct (reqs s !! r) as [q|]; [|done]. destruct (timer q); [|done]. apply finish_ares.
Qed.

(** *** Starting the request *)

Lemma worker_resolve_spec i r w q s : workers s !! i = Some w → reqs s !! r = Some q →
  let s' := worker_resolve ares_getaddrinfo i r s in
  frame (Some r) s s' ∧ user s' = user s ∧ rlog s' = rlog s ∧
  ∃ q', reqs s' !! r = Some q' ∧ running q' = running q ∧ timer q' = timer q.
Proof.
  intros Hw Hq. unfold worker_resolve. rewrite Hq.
  set (s1 := with_w (set_ares_async false) i (with_req (set_worker (Some i)) r (with_w (set_w_request (Some r)) i s))).
  assert (H1 : frame (Some r) s s1).
  { eapply frame_trans; [by apply (frame_with_w (set_w_request (Some r)) _ i)|].
    eapply frame_trans; [apply (frame_with_req (set_worker (Some i)))|by apply frame_with_w]. }
  assert (Hr : request_of i s1 = Some r).
  { unfold request_of. change (workers s1) with (alter (set_ares_async false) i (alter (set_w_request (Some r)) i (workers s))).
    by rewrite !list_lookup_alter_eq, Hw. }
  assert (Hq1 : reqs s1 !! r = Some (set_worker (Some i) q)) by (simpl; by rewrite lookup_alter_eq, Hq).
  destruct (ares_getaddrinfo (key_of q) (ares s1)) as [c [[status ai]|]]; unfold on_resolve_sync.
  - change (request_of i (with_ares c s1)) with (request_of i s1). rewrite Hr. unfold delay_for. destruct (ds_add _ _) as [d id]. split_and!; try done.
    + eapply frame_trans; [exact H1|]. eapply frame_trans; [|by apply (frame_with_w (set_ares_async true))].
      eapply frame_trans; [|apply (frame_with_req (set_delayed (Some id)))]. by constructor.
    + simpl in Hq1 |- *. rewrite lookup_alter_eq, Hq1. simpl. by eexists.
  - split_and!; try done.
    + eapply frame_trans; [exact H1|]. eapply frame_trans; [|by apply (frame_with_w (set_ares_async true))].
      eapply frame_trans; [|by apply (frame_with_w (λ w, set_queries (S (queries w)) w))]. by constructor.
    + by eexists.
Qed.

Lemma free_worker_frame s s' : w_request <$> workers s' = w_request <$> workers s →
  (∃ i w, workers s !! i = Some w ∧ w_request w = None) → ∃ i w, free_worker s' = Some i ∧ workers s' !! i = Some w.
Proof.
  intros E (i & w & Hw & Hn). destruct (free_worker s') as [j|] eqn:Hf.
  - destruct (free_worker_Some s' j Hf) as (w' & Hw' & _). by exists j, w'.
  - assert ((w_request <$> workers s') !! i = Some None) as Hi by (rewrite E, list_lookup_fmap, Hw; simpl; by rewrite Hn).
    rewrite list_lookup_fmap in Hi. destruct (workers s' !! i) as [w'|] eqn:Hw'; [|done]. injection Hi as Hi.
    by destruct (free_worker_None s' Hf i w' Hw').
Qed.

(** What starting the request [r] does. *)
Record begun r s s' : Prop := {
  b_frame : frame (Some r) s s';
  b_user : user s' = user s;
  b_log : rlog s' = rlog s;
  b_req : ∃ q, reqs s' !! r = Some q ∧ running q = true ∧ (timer q = true ∨ is_Some (delayed q))
}.

Lemma delay_for_begun r (f : rclosure SA) s q : reqs s !! r = Some q → running q = true → begun r s (delay_for r f s).
Proof.
  intros Hq Hr. pose proof (frame_delay_for r f s) as Hf. unfold delay_for in *. destruct (ds_add f (loop s)) as [d id].
  constructor; try done. exists (set_delayed (Some id) q). split_and!; [|done|right; by eexists].
  simpl. by rewrite lookup_alter_eq, Hq.
Qed.

Lemma begun_from r s0 s s' : frame (Some r) s0 s → user s = user s0 → rlog s = rlog s0 → begun r s s' → begun r s0 s'.
Proof. intros Hf Eu El []. constructor; [by eapply frame_trans|congruence|congruence|done]. Qed.

Lemma by_worker_begun r q s q0 : queue s = [] → (∃ i w, workers s !! i = Some w ∧ w_request w = None) →
  reqs s !! r = Some q0 → running q0 = true → _timeout q ≠ 0 →
  ∃ s', resolve_by_worker ares_init_failed ares_init ares_getaddrinfo win32 r q s = (s', Calls []) ∧ begun r s s'.
Proof.
  intros Hqu Hfree Hq Hr Ht. unfold resolve_by_worker. destruct (win32 && _).
  - eexists. split; [done|]. unfold resolve_localhost.
    apply (begun_from r s (with_cache_delayed (cache_delayed s ++ [r]) s)); [by constructor|done|done|].
    by eapply delay_for_begun.
  - apply Z.eqb_neq in Ht. rewrite Ht. simpl. rewrite Hqu. set (s1 := with_req (set_timer true) r s).
    destruct (free_worker_frame s s1 eq_refl Hfree) as (i & w & Hf & Hw). rewrite Hf. eexists. split; [done|].
    assert (Hw' : workers (start_roll s1) !! i = Some w) by (unfold start_roll; by destruct (dns_roll_timer s1)).
    assert (Hq' : reqs (start_roll s1) !! r = Some (set_timer true q0)).
    { unfold start_roll. destruct (dns_roll_timer s1); simpl; by rewrite lookup_alter_eq, Hq. }
    destruct (worker_resolve_spec i r w _ _ Hw' Hq') as (Hfr & Eu & El & q' & Hq2 & Er & Et).
    assert (begun r (start_roll s1) (worker_resolve ares_getaddrinfo i r (start_roll s1))) as Hb.
    { constructor; [done|done|done|]. exists q'. split_and!; [done|by rewrite Er|left; by rewrite Et]. }
    eapply begun_from; [| | |exact Hb].
    + eapply frame_trans; [apply (frame_with_req (set_timer true))|]. unfold start_roll. by destruct (dns_roll_timer _).
    + unfold start_roll. by destruct (dns_roll_timer _).
    + unfold start_roll. by destruct (dns_roll_timer _).
Qed.

Lemma resolve_begun r q s s' o : looped s = true → queue s = [] → (∃ i w, workers s !! i = Some w ∧ w_request w = None) →
  reqs s !! r = Some q → _timeout q ≠ 0 →
  resolve dead_loop ares_init_failed ares_init ares_getaddrinfo win32 r s = (s', o) →
  (o = Aborts ∧ _use_cache q = true ∧
     rfind (key_of (if _port q =? 0 then q else set_service (pretty.pretty (Z.to_N (_port q))) q)) s = None) ∨
  (o = Calls [] ∧ frame (Some r) s s' ∧ user s' = user s ∧ rlog s' = rlog s ++ [EvStart r] ∧
   ∃ q, reqs s' !! r = Some q ∧ running q = true ∧ (timer q = true ∨ is_Some (delayed q))).
Proof.
  intros Hl Hqu Hfree Hq Ht Hb. unfold resolve in Hb. rewrite Hl, Hq in Hb. cbn [negb] in Hb.
  set (q1 := set_running true _) in Hb. set (s1 := note _ _) in Hb.
  assert (H1 : reqs s1 !! r = Some q1) by apply lookup_insert_eq.
  assert (Hr1 : running q1 = true) by done.
  assert (Ht1 : _timeout q1 ≠ 0) by (unfold q1; by destruct (_port q =? 0)).
  assert (Hf : frame (Some r) s s1).
  { constructor; try done. intros x Hx. simpl. by rewrite lookup_insert_ne by congruence. }
  assert (Hend : begun r s1 s' → o = Calls [] → o = Calls [] ∧ frame (Some r) s s' ∧ user s' = user s ∧ rlog s' = rlog s ++ [EvStart r] ∧
    ∃ q, reqs s' !! r = Some q ∧ running q = true ∧ (timer q = true ∨ is_Some (delayed q))).
  { intros [] ->. split_and!; [done|by eapply frame_trans|done|done|done]. }
  assert (Hw : ∀ s2, frame (Some r) s1 s2 → user s2 = user s1 → rlog s2 = rlog s1 → reqs s2 = reqs s1 → workers s2 = workers s →
    resolve_by_worker ares_init_failed ares_init ares_getaddrinfo win32 r q1 s2 = (s', o) → begun r s1 s' ∧ o = Calls []).
  { intros s2 Hf2 Eu El Er Ew Hb2. destruct (by_worker_begun r q1 s2 q1) as (s3 & E & Hb3); [by apply Hf2, Hf|by rewrite Ew|by rewrite Er|done|done|].
    rewrite E in Hb2. injection Hb2 as <- <-. split; [by eapply begun_from|done]. }
  destruct (_use_cache q1) eqn:Eu; simpl in Hb.
  2: { right. apply Hend; by apply (Hw s1). }
  destruct (bool_decide (cache_limit (cfg s) = 0%nat)); simpl in Hb.
  1: { right. apply Hend; by apply (Hw s1). }
  unfold rfind in *. simpl in Hb. change (key_of q1) with (key_of (if _port q =? 0 then q else set_service (pretty.pretty (Z.to_N (_port q))) q)) in Hb.
  destruct (find _ _ _ _) as [[a m]|].
  2: { left. injection Hb as <- <-. split; [done|]. split; [|done]. by destruct (_port q =? 0). }
  right. destruct (ai_bool a).
  2: { apply Hend; by apply (Hw (with_cache m s1)). }
  injection Hb as <- <-. apply Hend; [|done]. set (s2 := with_cache_delayed _ _).
  apply (begun_from r s1 s2); [|done|done|].
  - apply (frame_trans _ _ (with_cache m s1)); [by constructor|].
    eapply frame_trans; [apply (frame_with_req (set_use_cache false))|by constructor].
  - apply (delay_for_begun _ _ _ (set_use_cache false q1)); [|exact Hr1]. simpl. by rewrite lookup_alter_eq, lookup_insert_eq.
Qed.

(** *** A call of [sync_resolve] *)

(** The resolver between two calls. *)
Record resting s : Prop := {
  r_inv : rinv (guarded (SA:=SA) (Exn:=Exn) []) None s;
  r_reg : regular (rlog s);
  r_queue : queue s = [];
  r_quiet : quiet s;
  r_looped : looped s = true;
  r_workers : workers s ≠ [];
  r_idle r : runs s r = false
}.

(** The resolver [s] of a call for the request [r], which found it in the state [s0]. *)
Record during s0 r s : Prop := {
  d_queue : queue s = [];
  d_quiet : quiet s;
  d_looped : looped s = true;
  d_workers : workers s ≠ [];
  d_timed : timed s;
  d_others x : x ≠ r → runs s x = false;
  d_answer :
    (runs s r = true ∧ rlog s = rlog s0 ++ [EvStart r] ∧ user s = (no_addr, None)) ∨
    (runs s r = false ∧ ∃ a err, rlog s = rlog s0 ++ [EvStart r; EvCallback r a err] ∧
       user s = match err with Some e => (no_addr, Some e) | None => (a, None) end)
}.

Lemma workers_frame o s s' : frame o s s' → workers s ≠ [] → workers s' ≠ [].
Proof.
  intros Hf Hw E. apply Hw. pose proof (f_exc _ _ _ Hf) as Ee. rewrite E in Ee. simpl in Ee.
  symmetry in Ee. by apply fmap_nil_inv in Ee.
Qed.

Lemma during_event s0 r s s' : event s s' → during s0 r s → during s0 r s'.
Proof.
  intros He []. assert (∃ o, frame o s s' ∧ ∀ r, o = Some r → runs s' r = false) as (o & Hf & Ho).
  { destruct He as [[(o & Hf & Ho) _ _]|(r' & a & err & [])].
    - exists o. split; [done|]. intros x Hx. by apply Ho.
    - exists (Some r'). split; [done|]. by intros x [= <-]. }
  constructor.
  - by apply Hf.
  - unfold quiet. by rewrite (f_exc _ _ _ Hf).
  - by rewrite (f_looped _ _ _ Hf).
  - by eapply workers_frame.
  - by eapply timed_frame.
  - intros x Hx. destruct (decide (o = Some x)) as [->|Hn]; [by apply Ho|]. rewrite (runs_frame o s s' x); auto.
  - destruct He as [[(o' & Hf' & Ho') El Eu]|(r' & a & err & [])].
    + rewrite El, Eu. assert (runs s' r = runs s r) as ->; [|done].
      destruct (decide (o' = Some r)) as [->|Hn]; [|by apply (runs_frame o')].
      destruct (Ho' r eq_refl) as [E1 E2]. by rewrite E1, E2.
    + destruct (decide (r' = r)) as [->|Hn]; [|by rewrite d_others0 in t_ran0].
      right. split; [done|]. destruct d_answer0 as [(_ & El & Eu)|(E & _)]; [|congruence].
      exists a, err. rewrite t_log0, El, t_user0, Eu, <-app_assoc. split; [done|]. by destruct err.
Qed.

Lemma during_regular s0 r s : regular (rlog s0) → r ∉ starts (rlog s0) → during s0 r s → regular (rlog s).
Proof using Type.
  intros [H1 H2] Hr Hd. assert (∃ l, rlog s = rlog s0 ++ l ∧ starts l = [r] ∧ ∀ x, EvFromCache x ∉ l) as (l & -> & El & Hl).
  { destruct (d_answer _ _ _ Hd) as [(_ & -> & _)|(_ & a & err & -> & _)]; eexists; (split; [done|]); split; try done;
      intros x Hx; repeat (apply elem_of_cons in Hx as [Hx|Hx]; [done|]); by apply elem_of_nil in Hx. }
  split.
  - rewrite starts_app, El. apply NoDup_app. split_and!; [done| |apply NoDup_singleton].
    intros x Hx Hx'. apply list_elem_of_singleton in Hx' as ->. done.
  - intros x [Hx|Hx]%elem_of_app; [by apply (H2 x)|by apply (Hl x)].
Qed.

Abbreviation sconf := (config sresolver (rcall SA Exn) Exn).

Definition during_conf s0 r (c : sconf) : Prop :=
  cmode c ≠ Aborted → cmode c = Normal ∧ Forall sync_call (stack c) ∧ during s0 r (mem c).

Lemma during_step s0 r (c c' : sconf) : during_conf s0 r c → step prog c = Some c' → during_conf s0 r c'.
Proof.
  intros Hok Hstep Hm. destruct c as [[|f k] s m]; [by destruct m|]. unfold step in Hstep. simpl in Hstep.
  destruct m as [|e|]; [| |done].
  2: { by destruct (Hok ltac:(done)) as [? _]. }
  destruct (Hok ltac:(done)) as (_ & Hs & Hd). apply Forall_cons in Hs as [Hf Hk].
  destruct (body f s) as [s' o] eqn:Hb. injection Hstep as <-.
  assert (o ≠ Aborts) as Ho by (intros ->; done).
  destruct (sync_body f s s' o Hf Hb Ho (d_queue _ _ _ Hd) (d_quiet _ _ _ Hd)) as (He & l & -> & Hl).
  simpl. split; [done|]. split; [by apply Forall_app|by eapply during_event].
Qed.

(** Together with the invariant of the resolver. *)
Definition sync_conf s0 r (c : sconf) : Prop := during_conf s0 r c ∧ conf_ok c.

Context (ares_init_ok : ∀ c, (ares_init c).2 = true).

Lemma sync_conf_step s0 r (c c' : sconf) : sync_conf s0 r c → step prog c = Some c' → sync_conf s0 r c'.
Proof. intros [Hd Hc] Hs. split; [by eapply during_step|]. by eapply (conf_ok_step sync_lambda dead_loop ares_init_failed ares_init ares_getaddrinfo win32 inet4 inet6 null_sa from_chars). Qed.

Lemma loop_calls_sync s cs : loop_calls s cs → Forall sync_call cs ∧ no_loop cs.
Proof.
  intros [(id & oom & ->)|[(r & ->)|[(i & evs & ->)|(evs & t & _ & ->)]]].
  - split; by repeat constructor.
  - split; by repeat constructor.
  - split; [|apply no_loop_ares]. apply Forall_app. split; [|by repeat constructor].
    apply Forall_fmap. by apply Forall_true.
  - split; by repeat constructor.
Qed.

(** The state of a call, with the invariant. *)
Definition calling s0 r s : Prop := during s0 r s ∧ rinv (guarded (SA:=SA) (Exn:=Exn) []) None s.

Lemma calling_conf s0 r s cs : Forall sync_call cs → no_loop cs → calling s0 r s → sync_conf s0 r (Machine.Config cs s Normal).
Proof.
  intros Hs Hl [Hd Hi]. split; [done|]. intros _ _. split; [|done]. simpl.
  eapply rinv_mono; [|exact Hi]. intros j Hj. by apply elem_of_nil in Hj.
Qed.

Lemma calling_now s0 r s t : calling s0 r s → calling s0 r (with_now t s).
Proof. intros [[] Hi]. split; [by constructor|]. eapply rinv_same; [|exact Hi]. by constructor. Qed.

Lemma sync_conf_steps s0 r (c c' : sconf) : steps prog c c' → sync_conf s0 r c → sync_conf s0 r c'.
Proof. apply steps_inv. intros c1 c2 H1 H2. by eapply sync_conf_step. Qed.

Lemma turn_steps_calling s0 r s t cs s' m : regular (rlog s0) → r ∉ starts (rlog s0) → calling s0 r s → loop_calls s cs →
  steps prog (Machine.Config cs (with_now t s) Normal) (Machine.Config [] s' m) → m ≠ Aborted → m = Normal ∧ calling s0 r s'.
Proof.
  intros Hreg Hr Hc Hcs Hst Hm. destruct (loop_calls_sync _ _ Hcs) as [Hs Hl].
  destruct (sync_conf_steps s0 r _ _ Hst) as [Hd Hk]; [by apply calling_conf, calling_now|].
  destruct (Hd Hm) as (Em & _ & Hd'). simpl in Em. subst m. split; [done|]. split; [done|].
  by destruct (Hk ltac:(done)) as [Hi _]; [by eapply during_regular|].
Qed.

Lemma run_calling s0 r s s' : regular (rlog s0) → r ∉ starts (rlog s0) → calling s0 r s →
  rtc (running_turn dead_loop ares_init_failed ares_init ares_getaddrinfo win32 inet4 inet6 null_sa from_chars) s s' → calling s0 r s'.
Proof.
  intros Hreg Hr Hc. induction 1 as [|s s1 s' [_ (t & cs & Hcs & Hst)] _ IH]; [done|]. apply IH.
  by destruct (turn_steps_calling s0 r s t cs s1 Normal Hreg Hr Hc Hcs Hst).
Qed.

Lemma resting_free s : resting s → ∃ i w, workers s !! i = Some w ∧ w_request w = None.
Proof.
  intros []. destruct (workers s) as [|w l] eqn:Ew; [done|]. exists 0%nat, w. split; [done|].
  destruct (w_request w) as [r|] eqn:Hr; [|done]. exfalso.
  destruct (ri_worker _ _ _ r_inv0 0%nat w r) as (q & Hq & Hrun & _); [by rewrite Ew|done|].
  specialize (r_idle0 r). unfold runs in r_idle0. rewrite Hq in r_idle0. congruence.
Qed.

Lemma resting_locals t s : resting s → resting (sync_locals t s).
Proof. intros []. constructor; try done. eapply rinv_same; [|exact r_inv0]. by constructor. Qed.

Lemma resting_unknown s r : resting s → reqs s !! r = None → r ∉ starts (rlog s).
Proof using Type. intros [] Hr Hin. destruct (ri_known _ _ _ r_inv0 r Hin) as [q Hq]. congruence. Qed.

Abbreviation start := (resolve (X:=locals) (Exn:=Exn) (Ch:=Ch) (D:=D) dead_loop ares_init_failed ares_init ares_getaddrinfo win32).

(** The resolver with the new request. *)
Definition with_new t r q s : sresolver := with_reqs (<[r := fresh q]> (reqs s)) (sync_locals t s).

Lemma start_end s t r q s1 m : reqs s !! r = None →
  steps prog (Machine.Config [RApi (New r q); RApi (Run r)] (sync_locals t s) Normal) (Machine.Config [] s1 m) →
  step prog (Machine.Config [RApi (New r q); RApi (Run r)] (sync_locals t s) Normal) =
    Some (Machine.Config [RApi (Run r)] (with_new t r q s) Normal) ∧
  steps prog (settle [] (start r (with_new t r q s))) (Machine.Config [] s1 m).
Proof.
  intros Hr Hst.
  assert (H1 : step prog (Machine.Config [RApi (New r q); RApi (Run r)] (sync_locals t s) Normal) =
    Some (Machine.Config [RApi (Run r)] (with_new t r q s) Normal)) by (unfold step; simpl; by rewrite Hr).
  split; [done|]. eapply steps_det; [|exact Hst|by left]. eapply steps_cons; [exact H1|]. by apply steps_once.
Qed.

(** Starting a request never throws, and it runs then. *)
Lemma start_calling s t r q s1 m : resting s → reqs s !! r = None → _timeout q ≠ 0 →
  steps prog (Machine.Config [RApi (New r q); RApi (Run r)] (sync_locals t s) Normal) (Machine.Config [] s1 m) →
  m ≠ Aborted → m = Normal ∧ calling s r s1.
Proof.
  intros Hs Hr Ht Hst Hm. destruct (start_end s t r q s1 m Hr Hst) as [H1 Hend].
  set (su := sync_locals t s) in *. assert (Hsu : resting su) by by apply resting_locals.
  set (s2 := with_new t r q s) in *. set (c0 := Machine.Config [RApi (New r q); RApi (Run r)] su Normal) in *.
  assert (Hok : conf_ok c0).
  { intros _ _. split; [|by repeat constructor]. eapply rinv_mono; [|exact (r_inv _ Hsu)]. intros j Hj. by apply elem_of_nil in Hj. }
  destruct (start r s2) as [s3 o] eqn:Hb.
  assert (H2 : step prog (Machine.Config [RApi (Run r)] s2 Normal) = Some (settle [] (s3, o))) by (unfold step; simpl; by rewrite Hb).
  assert (Ho : o ≠ Aborts).
  { intros ->. apply steps_end in Hend as [_ ->]. done. }
  destruct (resolve_begun r (fresh q) s2 s3 o) as [[-> _]|(-> & Hf & Eu & El & q3 & Hq3 & Hrun & Hor)]; try done.
  - by apply Hsu.
  - by apply Hsu.
  - apply (resting_free _ Hsu).
  - apply lookup_insert_eq.
  - apply steps_end in Hend as [-> ->]. split; [done|].
    assert (Hf0 : frame (Some r) su s3).
    { eapply frame_trans; [|exact Hf]. constructor; try done. intros x Hx. simpl. by rewrite lookup_insert_ne by congruence. }
    assert (Hd : during s r s3).
    { constructor.
      - by apply Hf0, Hsu.
      - unfold quiet. rewrite (f_exc _ _ _ Hf0). apply Hsu.
      - rewrite (f_looped _ _ _ Hf0). apply Hsu.
      - eapply workers_frame; [exact Hf0|apply Hsu].
      - intros x q' Hq' Hr'. destruct (decide (x = r)) as [->|Hn]; [by simplify_eq|].
        assert (runs s3 x = true) as E by (unfold runs; by rewrite Hq').
        rewrite (runs_frame _ _ _ x Hf0) in E by congruence. by rewrite (r_idle _ Hsu) in E.
      - intros x Hn. rewrite (runs_frame _ _ _ x Hf0) by congruence. apply Hsu.
      - left. split_and!; [unfold runs; by rewrite Hq3|by rewrite El|by rewrite Eu]. }
    split; [done|]. assert (Hok2 : conf_ok (settle [] (s3, Calls (Exn:=Exn) (Call:=rcall SA Exn) []))).
    { eapply (conf_ok_step sync_lambda dead_loop ares_init_failed ares_init ares_getaddrinfo win32 inet4 inet6 null_sa from_chars);
        [done| |exact H2].
      by eapply (conf_ok_step sync_lambda dead_loop ares_init_failed ares_init ares_getaddrinfo win32 inet4 inet6 null_sa from_chars). }
    apply Hok2; [done|]. eapply during_regular; [apply Hs|by apply resting_unknown|exact Hd].
Qed.

(** A running request keeps the loop alive. *)
Lemma running_alive s0 r s x : calling s0 r s → runs s x = true → loop_alive s = true.
Proof using Type.
  intros [Hd Hi] Hx. unfold runs in Hx. destruct (reqs s !! x) as [q|] eqn:Hq; [|done]. unfold loop_alive.
  destruct (d_timed _ _ _ Hd x q Hq Hx) as [Ht|[id Hid]].
  - apply orb_true_iff. left. apply orb_true_iff. right. apply existsb_exists. exists (x, q). split; [|done].
    apply list_elem_of_In. by apply elem_of_map_to_list.
  - destruct (ri_delayed _ _ _ Hi x q id Hq Hid) as [_ Hin]. destruct (ds_waiting (loop s)); [by apply elem_of_nil in Hin|done].
Qed.

Lemma calling_resting s0 r s : regular (rlog s0) → r ∉ starts (rlog s0) → calling s0 r s → loop_alive s = false → resting s ∧
  ∃ a err, rlog s = rlog s0 ++ [EvStart r; EvCallback r a err] ∧
    user s = match err with Some e => (no_addr, Some e) | None => (a, None) end.
Proof using Type.
  intros Hreg Hr Hc Hal. assert (Hn : ∀ x, runs s x = false).
  { intros x. destruct (runs s x) eqn:E; [|done]. by rewrite (running_alive s0 r s x Hc E) in Hal. }
  destruct Hc as [Hd Hi]. split.
  - constructor; try done; try apply Hd. by eapply during_regular.
  - destruct (d_answer _ _ _ Hd) as [(E & _)|(_ & a & err & El & Eu)]; [by rewrite Hn in E|]. eauto.
Qed.

Abbreviation sync_call_to := (sync_resolve (Exn:=Exn) (Ch:=Ch) (D:=D) dead_loop ares_init_failed ares_init ares_getaddrinfo
  win32 inet4 inet6 null_sa from_chars).

Lemma sync_resolve_calling s t r host port hints use_cache s' res :
  resting s → sync_call_to s t r host port hints use_cache s' res → calling s r s' ∧ loop_alive s' = false ∧ res = sync_result (user s').
Proof.
  intros Hs (s1 & [Hr Hst] & [Hrun Hal] & Hres). split; [|done].
  destruct (start_calling s t r (sync_request host port hints use_cache) s1 Normal) as [_ Hc]; try done.
  eapply run_calling; [apply Hs|by apply resting_unknown|exact Hc|exact Hrun].
Qed.

Lemma sync_state_resting s :
  sync_state dead_loop ares_init_failed ares_init ares_getaddrinfo win32 inet4 inet6 null_sa from_chars s → resting s.
Proof.
  induction 1 as [d ch t s Hd Hn|s t r host port hints use_cache s' res _ IH Hc].
  - assert (Hi : rinv (guarded (SA:=SA) (Exn:=Exn) []) None s).
    { eapply (initial_ok sync_lambda dead_loop ares_init_failed ares_init ares_getaddrinfo inet4 inet6 null_sa); [done|]. by exists default_config, d, ch, t, (no_addr, None). }
    unfold create_loop_resolver, new_resolver, add_worker in Hn. case_decide; [|done]. simpl in Hn.
    destruct (ares_init ch) as [c []]; [|done]. injection Hn as <-. constructor; try done.
    + split; [constructor|]. intros x. apply not_elem_of_nil.
    + by repeat constructor.
  - destruct (sync_resolve_calling s t r host port hints use_cache s' res IH Hc) as (Hca & Hal & _).
    eapply calling_resting; [| |exact Hca|exact Hal]; [apply IH|]. destruct Hc as (s1 & [Hr _] & _). by apply resting_unknown.
Qed.

(** *** The loop can always answer *)

Lemma finish_ends_turn r a err s q : reqs s !! r = Some q → running q = true → queue s = [] →
  (∀ i, worker q = Some i → is_Some (workers s !! i)) →
  ∃ s', steps prog (settle [] (finish r a err s)) (Machine.Config [] s' Normal) ∧ runs s' r = false.
Proof.
  intros Hq Hrun Hqu Hw. destruct (finish r a err s) as [s1 o] eqn:Hf.
  assert (o = Calls [FinishGuard (worker q)]) as ->.
  { unfold finish_resolve in Hf. rewrite Hq, Hrun in Hf. by injection Hf as <- <-. }
  destruct (finish_spec r a err s s1 _ Hf) as [(_ & _ & [=])|[[] _]]; [done|]. simpl.
  assert (Hg : ∃ s2, finish_guard ares_getaddrinfo (worker q) s1 = (s2, Calls []) ∧ runs s2 r = false).
  { unfold finish_guard. destruct (worker q) as [i|]; [|by eexists]. specialize (Hw i eq_refl).
    assert (Hw1 : is_Some (workers s1 !! i)).
    { apply (fmap_is_Some exc). rewrite <-list_lookup_fmap, (f_exc _ _ _ t_frame0), list_lookup_fmap. by apply fmap_is_Some. }
    destruct Hw1 as [w ->]. rewrite (f_queue _ _ _ t_frame0 Hqu). destruct (w_request w); [by eexists|].
    eexists. split; [done|]. by destruct (busy s1). }
  destruct Hg as (s2 & Eg & Hr2). exists s2. split; [|done]. apply steps_once. unfold step. simpl. by rewrite Eg.
Qed.

Lemma waiting_closure s r q id : rinv (guarded (SA:=SA) (Exn:=Exn) []) None s → reqs s !! r = Some q → delayed q = Some id →
  ∃ f, closure_at id s = Some f ∧ (id, f) ∈ ds_waiting (loop s) ∧ finishes f r q.
Proof.
  intros Hi Hq Hd. destruct (ri_delayed _ _ _ Hi r q id Hq Hd) as [_ Hin]. apply list_elem_of_fmap in Hin as ([id0 f0] & -> & Hin0).
  simpl in *. unfold closure_at. destruct (filter _ _) as [|[id' f] l] eqn:Ef.
  { exfalso. assert ((id0, f0) ∈ filter (λ x : Z * rclosure SA, x.1 = id0) (ds_waiting (loop s))) as E by by apply list_elem_of_filter.
    rewrite Ef in E. by apply elem_of_nil in E. }
  assert ((id', f) ∈ filter (λ x : Z * rclosure SA, x.1 = id0) (ds_waiting (loop s))) as E by (rewrite Ef; by left).
  apply list_elem_of_filter in E as [E1 E2]. simpl in E1. subst id'. exists f. split_and!; [done|done|].
  destruct (ri_waiting _ _ _ Hi id0 f E2) as (r' & q' & Hq' & _ & Hd' & Hf).
  assert (r' = r) as -> by by eapply (ri_inj _ _ _ Hi). by assert (q' = q) as -> by congruence.
Qed.

Lemma worker_of s r q i : rinv (guarded (SA:=SA) (Exn:=Exn) []) None s → queue s = [] → reqs s !! r = Some q → running q = true →
  worker q = Some i → ∃ w, workers s !! i = Some w ∧ w_request w = Some r.
Proof.
  intros Hi Hqu Hq Hr Hw. destruct (ri_placed _ _ _ Hi r q Hq Hr) as [(j & w & E & Hl & Hr')|[Hin|Hin]]; [done| | |].
  - exists w. by assert (j = i) as -> by congruence.
  - rewrite Hqu in Hin. by apply elem_of_nil in Hin.
  - destruct (ri_cache _ _ _ Hi r Hin) as (q' & ? & ? & Hq' & _ & E & _). congruence.
Qed.

Lemma can_answer s0 r s : calling s0 r s → runs s r = true →
  ∃ cs s', loop_calls s cs ∧ steps prog (Machine.Config cs s Normal) (Machine.Config [] s' Normal) ∧ runs s' r = false.
Proof.
  intros [Hd Hi] Hr. unfold runs in Hr. destruct (reqs s !! r) as [q|] eqn:Hq; [|done].
  pose proof (d_queue _ _ _ Hd) as Hqu. pose proof (worker_of s r q) as Hwk. specialize (λ i, Hwk i Hi Hqu Hq Hr).
  destruct (d_timed _ _ _ Hd r q Hq Hr) as [Ht|[id Hid]].
  - destruct (finish_ends_turn r no_addr (Some (Std timed_out)) s q Hq Hr Hqu) as (s' & Hs' & Hend).
    { intros i Hw. destruct (Hwk i Hw) as (w & -> & _). by eexists. }
    exists [TimerFired r], s'. split_and!; [right; left; by exists r| |done]. eapply steps_cons; [|exact Hs'].
    unfold step. simpl. by rewrite Hq, Ht.
  - destruct (waiting_closure s r q id Hi Hq Hid) as (f & Hf & _ & Hfin).
    set (s1 := with_req (set_delayed None) r (with_loop (ds_cancel id (loop s)) s)).
    assert (Hq1 : reqs s1 !! r = Some (set_delayed None q)) by (simpl; by rewrite lookup_alter_eq, Hq).
    assert (∃ s', steps prog (settle [] (run_delayed sync_lambda inet4 inet6 null_sa from_chars id None s)) (Machine.Config [] s' Normal) ∧
      runs s' r = false) as (s' & Hs' & Hend).
    2: { exists [RunDelayed id None], s'. split_and!; [left; by exists id, None| |done]. by eapply steps_cons. }
    unfold run_delayed. rewrite Hf. destruct f as [r' a|i a err|r']; simpl in Hfin |- *.
    + destruct Hfin as (-> & Hw & _). apply (finish_ends_turn r a None s1 _ Hq1 Hr Hqu). simpl. congruence.
    + destruct (Hwk i Hfin) as (w & Hw & Hwr). unfold request_of at 1. simpl. rewrite Hw. simpl. rewrite Hwr.
      change (with_req _ r _) with s1. unfold worker_finish. assert (request_of i s1 = Some r) as -> by (unfold request_of; simpl; by rewrite Hw).
      apply (finish_ends_turn r a err (with_w (set_w_request None) i s1) _ Hq1 Hr Hqu). simpl. intros j Hj.
      assert (j = i) as -> by congruence. rewrite list_lookup_alter_eq, Hw. by eexists.
    + destruct Hfin as (-> & Hw & _). rewrite Hq. apply (finish_ends_turn r _ _ s1 _ Hq1 Hr Hqu). simpl. congruence.
Qed.

(** *** A call that the cache can answer *)

(** The request [r] runs and will be given the address [a], which the cache had. *)
Definition cached_for (r : rid) (a : AddrInfo SA) s : Prop :=
  ∃ q id, reqs s !! r = Some q ∧ running q = true ∧ timer q = false ∧ worker q = None ∧ delayed q = Some id ∧
    (id, FinishCached r a) ∈ ds_waiting (loop s).

Lemma ids_unique {F} (l : list (Z * F)) id f1 f2 : NoDup l.*1 → (id, f1) ∈ l → (id, f2) ∈ l → f1 = f2.
Proof.
  induction l as [|[i f] l IH]; [by intros _ ?%elem_of_nil|]. simpl. intros [Hn Hd]%NoDup_cons H1 H2.
  apply elem_of_cons in H1 as [E1|H1]; apply elem_of_cons in H2 as [E2|H2]; simplify_eq; auto.
  - exfalso. apply Hn. apply list_elem_of_fmap. by exists (i, f2).
  - exfalso. apply Hn. apply list_elem_of_fmap. by exists (i, f1).
Qed.

Lemma cached_run_delayed G r a s id oom s' o : rinv G None s → (∀ x, x ≠ r → runs s x = false) → cached_for r a s →
  run_delayed sync_lambda inet4 inet6 null_sa from_chars id oom s = (s', o) → o ≠ Aborts →
  s' = s ∨ (runs s' r = false ∧ user s' = (sync_lambda (Exn:=Exn) r a None (user s)).1).
Proof.
  intros Hi Ho (q & id0 & Hq & Hr & Ht & Hw & Hd & Hin) Hb Hna. unfold run_delayed in Hb.
  destruct (closure_at id s) as [f|] eqn:Hc; [|by injection Hb as <- <-; left]. right.
  assert (Hf : (id, f) ∈ ds_waiting (loop s)).
  { unfold closure_at in Hc. destruct (filter _ _) as [|p l] eqn:Ef; [done|]. injection Hc as Hc.
    assert (p ∈ filter (λ x : Z * rclosure SA, x.1 = id) (ds_waiting (loop s))) as E by (rewrite Ef; by left).
    apply list_elem_of_filter in E as [E1 E2]. destruct p; simpl in *; by subst. }
  destruct (ri_waiting _ _ _ Hi id f Hf) as (r' & q' & Hq' & Hr' & Hd' & _).
  assert (r' = r) as ->.
  { destruct (decide (r' = r)) as [|Hn]; [done|]. specialize (Ho r' Hn). unfold runs in Ho. rewrite Hq' in Ho. congruence. }
  assert (id = id0) as -> by congruence.
  assert (f = FinishCached r a) as -> by (eapply ids_unique; [apply (ri_ids _ _ _ Hi)|done|done]).
  simpl in Hb. destruct (finish_spec _ _ _ _ _ _ Hb Hna) as [(Hn & _)|[[] _]]; [|by split].
  unfold runs in Hn. simpl in Hn. rewrite lookup_alter_eq, Hq in Hn. simpl in Hn. congruence.
Qed.

Lemma cached_body G r a c s s' o : sync_call c → rinv G None s → (∀ x, x ≠ r → runs s x = false) → cached_for r a s →
  body c s = (s', o) → o ≠ Aborts → queue s = [] →
  cached_for r a s' ∨ (runs s' r = false ∧ user s' = (sync_lambda (Exn:=Exn) r a None (user s)).1).
Proof.
  intros Hc Hi Ho Hp Hb Hna Hqu.
  assert (Hfree : ∀ i w, workers s !! i = Some w → w_request w = None ∧ queries w = 0%nat).
  { intros i w Hl. destruct (w_request w) as [x|] eqn:E; [|split; [done|by apply (ri_free _ _ _ Hi i)]]. exfalso.
    destruct (ri_worker _ _ _ Hi i w x Hl E) as (q' & Hq' & Hr' & Hw' & _). destruct Hp as (q & id & Hq & _ & _ & Hw & _).
    destruct (decide (x = r)) as [->|Hn]; [congruence|]. specialize (Ho x Hn). unfold runs in Ho. rewrite Hq' in Ho. congruence. }
  assert (Hkeep : ∀ s1, reqs s1 = reqs s → loop s1 = loop s → cached_for r a s1).
  { intros s1 Er El. unfold cached_for. by rewrite Er, El. }
  destruct c; try done; simpl in Hb.
  - destruct (cached_run_delayed G r a s id oom s' o Hi Ho Hp Hb Hna) as [->|?]; auto.
  - left. unfold finish_guard in Hb. destruct i as [i|]; [|injection Hb as <- <-; by apply Hkeep].
    destruct (workers s !! i) as [w|]; [|congruence]. rewrite Hqu in Hb.
    destruct (w_request w); [by injection Hb as <- <-; apply Hkeep|]. injection Hb as <- <-. apply Hkeep; by destruct (busy s).
  - left. unfold ares_call in Hb. destruct (workers s !! i) as [w|] eqn:Hw; [|by injection Hb as <- <-; apply Hkeep].
    destruct (Hfree i w Hw) as [_ Hq0]. destruct ev.
    + rewrite Hq0 in Hb. injection Hb as <- <-. by apply Hkeep.
    + destruct (on_sockstate _ _ _ _); [|congruence]. injection Hb as <- <-. by apply Hkeep.
  - injection Hb as <- <-. by left.
  - left. unfold rethrow_if in Hb. destruct (workers s !! i ≫= exc); injection Hb as <- <-; by apply Hkeep.
  - left. unfold roll_iter in Hb. destruct (decide (i < n)%nat); injection Hb as <- <-; by apply Hkeep.
  - left. destruct (reqs s !! r0) as [q'|] eqn:Hq'; [|injection Hb as <- <-; by apply Hkeep].
    destruct (timer q') eqn:Ht; [|injection Hb as <- <-; by apply Hkeep].
    assert (r0 ≠ r) as Hn by (intros ->; destruct Hp as (? & ? & ? & ? & ? & _); congruence).
    specialize (Ho r0 Hn). unfold runs in Ho. rewrite Hq' in Ho. unfold cancel, finish_resolve in Hb. rewrite Hq', Ho in Hb.
    injection Hb as <- <-. by apply Hkeep.
Qed.

Lemma resolve_cached r q a s s2 : looped s = true → reqs s !! r = Some q → worker q = None → timer q = false → _use_cache q = true →
  cache_limit (cfg s) ≠ 0%nat → let q1 := if _port q =? 0 then q else set_service (pretty.pretty (Z.to_N (_port q))) q in
  rfind (key_of q1) s = Some (a, s2) → ai_bool a = true →
  (start r s).2 = Calls [] ∧ ares (start r s).1 = ares s ∧ cached_for r a (start r s).1.
Proof.
  intros Hl Hq Hw Ht Hu Hc q1 Hf Ha. unfold resolve. rewrite Hl, Hq. cbn [negb]. fold q1.
  assert (worker q1 = None ∧ timer q1 = false ∧ _use_cache q1 = true) as (Ew & Et & Eu).
  { unfold q1. by destruct (_port q =? 0). }
  change (_use_cache (set_running true q1)) with (_use_cache q1). rewrite Eu. rewrite bool_decide_eq_false_2 by done. cbn [negb andb].
  unfold rfind in *. simpl. change (key_of (set_running true q1)) with (key_of q1).
  destruct (find (cache_expiration_time (cfg s)) (now s) (key_of q1) (_cache s)) as [[a' m]|]; [|done].
  injection Hf as -> _. rewrite Ha. split; [done|]. unfold delay_for. simpl. destruct (ds_add _ _) as [d id] eqn:Hd. simpl. split; [done|].
  exists (set_delayed (Some id) (set_use_cache false (set_running true q1))), id. split_and!; try done.
  - simpl. by rewrite !lookup_alter_eq, lookup_insert_eq.
  - simpl. pose proof (dx_add (FinishCached r a) (loop s)) as E. rewrite Hd in E. simpl in E. rewrite E. apply elem_of_app. right. by left.
Qed.

(** The invariant of such a call. *)
Definition cached_call (ch : Ch) (r : rid) (a : AddrInfo SA) s : Prop :=
  ares s = ch ∧ (cached_for r a s ∨ (runs s r = false ∧ user s = (a, None))).
Definition cached_conf ch s0 r a (c : sconf) : Prop :=
  sync_conf s0 r c ∧ (cmode c ≠ Aborted → cached_call ch r a (mem c)).

Lemma cached_step ch s0 r a (c c' : sconf) : regular (rlog s0) → r ∉ starts (rlog s0) →
  cached_conf ch s0 r a c → step prog c = Some c' → cached_conf ch s0 r a c'.
Proof.
  intros Hreg Hr [Hs Hk] Hstep. split; [by eapply sync_conf_step|]. intros Hm. destruct Hs as [Hd Hc].
  destruct c as [[|f k] s m]; [by destruct m|]. assert (m ≠ Aborted) as Hm0 by by intros ->.
  destruct (Hd Hm0) as (Em & Hf & Hdu). simpl in Em, Hf, Hdu. subst m. apply Forall_cons in Hf as [Hf _].
  destruct (Hc Hm0) as [Hi _]; [by eapply during_regular|]. unfold step in Hstep. simpl in Hstep, Hi.
  destruct (body f s) as [s' o] eqn:Hb. injection Hstep as Ec. assert (o ≠ Aborts) as Ho by by intros ->; subst c'.
  assert (mem c' = s') as -> by (subst c'; by destruct o). pose proof (d_queue _ _ _ Hdu) as Hqu.
  destruct (Hk Hm0) as [Har Hor]. split; [by rewrite (sync_body_ares f s s' o Hf Hb Hqu)|].
  destruct Hor as [Hp|[Hn Hu]]; simpl in *.
  - destruct (cached_body _ r a f s s' o Hf Hi (d_others _ _ _ Hdu) Hp Hb Ho Hqu) as [?|[E1 E2]]; [by left|]. right. split; [done|].
    rewrite E2. destruct (d_answer _ _ _ Hdu) as [(_ & _ & ->)|(E & _)]; [done|].
    destruct Hp as (q & id & Hq & Hrun & _). unfold runs in E. rewrite Hq in E. congruence.
  - right. destruct (sync_body f s s' o Hf Hb Ho Hqu (d_quiet _ _ _ Hdu)) as ([[(o' & Hfr & Ho') _ Eu]|(r' & a' & err & [])] & _).
    + rewrite Eu. split; [|done]. destruct (decide (o' = Some r)) as [->|Hn']; [by apply Ho'|]. by rewrite (runs_frame o' s s' r).
    + destruct (decide (r' = r)) as [->|Hn']; [congruence|]. by rewrite (d_others _ _ _ Hdu) in t_ran0.
Qed.

Lemma cached_run ch s0 r a s s' : regular (rlog s0) → r ∉ starts (rlog s0) → calling s0 r s → cached_call ch r a s →
  rtc (running_turn dead_loop ares_init_failed ares_init ares_getaddrinfo win32 inet4 inet6 null_sa from_chars) s s' → cached_call ch r a s'.
Proof.
  intros Hreg Hr Hc Hk. induction 1 as [|s s1 s' [_ (t & cs & Hcs & Hst)] _ IH]; [done|].
  destruct (turn_steps_calling s0 r s t cs s1 Normal Hreg Hr Hc Hcs Hst) as [_ Hc1]; [done|]. apply IH; [done|].
  destruct (loop_calls_sync _ _ Hcs) as [Hs Hl].
  assert (cached_conf ch s0 r a (Machine.Config [] s1 Normal)) as [_ Hk1]; [|by apply Hk1].
  eapply (steps_inv prog (cached_conf ch s0 r a)); [|exact Hst|].
  - intros c1 c2 H1 H2. by eapply cached_step.
  - split; [by apply calling_conf, calling_now|done].
Qed.
(** The key of a request of [sync_resolve]. *)
Definition sync_key (host : string) (port : Z) (hints : AddrInfoHints) : CacheKey :=
  mkKey host (if port =? 0 then "" else pretty.pretty (Z.to_N port)) hints.

Lemma sync_cached s t r host port hints s' res a s2 : resting s → sync_call_to s t r host port hints true s' res →
  cache_limit (cfg s) ≠ 0%nat → rfind (sync_key host port hints) (with_now t s) = Some (a, s2) → ai_bool a = true →
  res = inl a ∧ ares s' = ares s.
Proof.
  intros Hs Hcall Hlim Hf Ha. destruct (sync_resolve_calling _ _ _ _ _ _ _ _ _ Hs Hcall) as (Hc & Hal & ->).
  destruct Hcall as (s1 & [Hr Hst] & [Hrun _] & _). set (q := sync_request host port hints true) in *.
  pose proof (resting_unknown s r Hs Hr) as Hnew.
  destruct (start_calling s t r q s1 Normal) as [_ Hc1]; try done. destruct (start_end s t r q s1 Normal Hr Hst) as [_ Hend].
  assert (∃ s3, rfind (sync_key host port hints) (with_new t r q s) = Some (a, s3)) as [s3 Hf3].
  { unfold rfind in *. simpl in *. destruct (find _ _ _ _) as [[a' m]|]; [|done]. injection Hf as -> _. by eexists. }
  destruct (resolve_cached r (fresh q) a (with_new t r q s) s3) as (Eo & Ear & Hk); try done.
  - apply Hs.
  - apply lookup_insert_eq.
  - rewrite <-Hf3. unfold sync_key. simpl. by destruct (port =? 0).
  - destruct (start r (with_new t r q s)) as [s4 o]. simpl in Eo, Ear, Hk. subst o. apply steps_end in Hend as [-> _].
    destruct (cached_run (ares s) s r a s4 s') as [Ear' [(q' & id & Hq' & Hrun' & _)|[_ Eu]]]; try done.
    + apply Hs.
    + split; [done|by left].
    + exfalso. assert (loop_alive s' = true) as E; [|congruence]. eapply running_alive; [exact Hc|]. unfold runs. by rewrite Hq'.
    + by rewrite Eu.
Qed.

(** The start ends, and does not throw; it fails only on a cached answer without
    addresses. *)
Lemma start_ends s t r host port hints use_cache : resting s → reqs s !! r = None →
  let q := sync_request host port hints use_cache in
  ∃ s1 m, steps prog (Machine.Config [RApi (New r q); RApi (Run r)] (sync_locals t s) Normal) (Machine.Config [] s1 m) ∧
    (m = Normal ∧ runs s1 r = true ∨
     m = Aborted ∧ use_cache = true ∧ rfind (sync_key host port hints) (with_now t s) = None).
Proof.
  intros Hs Hr q. assert (Hsu : resting (sync_locals t s)) by by apply resting_locals.
  destruct (start r (with_new t r q s)) as [s1 o] eqn:Hb.
  assert (steps prog (Machine.Config [RApi (New r q); RApi (Run r)] (sync_locals t s) Normal) (settle [] (s1, o))) as Hst.
  { eapply steps_cons; [by unfold step; simpl; rewrite Hr|]. apply steps_once. unfold step. simpl.
    change (with_reqs _ _) with (with_new t r q s). by rewrite Hb. }
  destruct (resolve_begun r (fresh q) (with_new t r q s) s1 o)
    as [(-> & Hu & Hf)|(-> & _ & _ & _ & q3 & Hq3 & Hrun & _)]; try done.
  - apply Hsu.
  - apply Hsu.
  - apply (resting_free _ Hsu).
  - apply lookup_insert_eq.
  - exists s1, Aborted. split; [exact Hst|]. right. split; [done|]. split; [done|].
    unfold rfind, sync_key in *. simpl in *. destruct (port =? 0); simpl in Hf; by destruct (find _ _ _ _) as [[]|].
  - exists s1, Normal. split; [exact Hst|]. left. split; [done|]. unfold runs. by rewrite Hq3.
Qed.
End SyncSteps.

(** ** The end of a loop *)

Section Disable.
#[local] Set Default Proof Using "Type*".
Context {SA X Exn Ch D : Type} `{EqDecision SA} `{DelayService D (rclosure SA)}.
Context (user_code : rid → AddrInfo SA → option error_code → X → X * list (rapi SA Exn)).
Context (dead_loop ares_init_failed : Exn).
Context (ares_init : Ch → Ch * bool).
Context (ares_getaddrinfo : CacheKey → Ch → Ch * option (ares_status * list (ai_node SA))).
Context (win32 : bool) (inet4 inet6 : string → Z → SA) (null_sa : SA) (from_chars : string → option Z).
Implicit Types (s : resolver SA X Exn Ch D) (r : rid) (i : wid).

Abbreviation dprog := (loop_resolver_program user_code dead_loop ares_init_failed ares_init ares_getaddrinfo
  win32 inet4 inet6 null_sa from_chars).

(** No worker has a request or a query. *)
Definition workers_idle s : Prop := ∀ i w, workers s !! i = Some w → w_request w = None ∧ queries w = 0%nat.

Lemma workers_idle_request s i : workers_idle s → request_of i s = None.
Proof. intros Hw. unfold request_of. destruct (workers s !! i) as [w|] eqn:E; [|done]. by apply (Hw i w). Qed.

Lemma reset_workers_idle s i n k : workers_idle s →
  steps dprog (Machine.Config (Res (ResetWorkers i n) :: k) s Normal) (Machine.Config k s Normal).
Proof.
  intros Hw. remember (n - i)%nat as m eqn:Em. revert i Em. induction m as [|m IH]; intros i Em.
  - apply steps_once. unfold step. simpl. unfold reset_workers. by rewrite decide_False by lia.
  - eapply steps_cons; [|apply (IH (S i)); lia]. unfold step. simpl. unfold reset_workers.
    rewrite decide_True by lia. by rewrite workers_idle_request.
Qed.

Lemma destroy_workers_idle s i n k : workers_idle s →
  steps dprog (Machine.Config (DestroyWorker i n :: k) s Normal) (Machine.Config k (with_workers [] s) Normal).
Proof.
  intros Hw. remember (n - i)%nat as m eqn:Em. revert i Em. induction m as [|m IH]; intros i Em.
  - apply steps_once. unfold step. simpl. by rewrite decide_False by lia.
  - eapply steps_cons; [|apply (IH (S i)); lia]. unfold step. simpl. rewrite decide_True by lia. unfold destroy_worker.
    destruct (workers s !! i) as [w|] eqn:E; [|done]. destruct (Hw i w E) as [_ ->]. done.
Qed.

Lemma disable_idle s : workers_idle s → queue s = [] → cache_delayed s = [] →
  steps dprog (Machine.Config disable_loop_resolver s Normal)
    (Machine.Config [] (with_looped false (with_roll None (with_workers [] s))) Normal).
Proof.
  intros Hw Hq Hc. unfold disable_loop_resolver.
  eapply steps_cons. { unfold step. simpl. unfold reset. rewrite Hq, Hc. done. }
  eapply steps_trans; [by apply reset_workers_idle|].
  eapply steps_cons; [done|]. eapply steps_trans; [by apply destroy_workers_idle|]. by apply steps_once.
Qed.
End Disable.

Lemma rinv_idle {SA X Exn Ch D : Type} `{EqDecision SA} `{DelayExact D (rclosure SA)} (G : wid → Prop) (s : resolver SA X Exn Ch D) :
  rinv G None s → (∀ r, runs s r = false) → workers_idle s ∧ queue s = [] ∧ cache_delayed s = [].
Proof.
  intros Hi Hn. assert (Hr : ∀ r q, reqs s !! r = Some q → running q = true → False).
  { intros r q Hq Hr. specialize (Hn r). unfold runs in Hn. rewrite Hq in Hn. congruence. }
  split_and!.
  - intros i w Hw. destruct (w_request w) as [r|] eqn:E; [|split; [done|by apply (ri_free _ _ _ Hi i)]].
    destruct (ri_worker _ _ _ Hi i w r Hw E) as (q & Hq & Hrun & _). by destruct (Hr r q).
  - destruct (queue s) as [|r l] eqn:E; [done|]. destruct (ri_queue _ _ _ Hi r) as (q & Hq & Hrun & _); [rewrite E; by left|].
    by destruct (Hr r q).
  - destruct (cache_delayed s) as [|r l] eqn:E; [done|]. destruct (ri_cache _ _ _ Hi r) as (q & id & f & Hq & Hrun & _); [rewrite E; by left|].
    by destruct (Hr r q).
Qed.

(** ** Properties *)

(** C31: the end of a loop leaves nothing of its resolver behind. For a resolver between
    two turns none of whose requests runs (a request that runs keeps its loop), whose
    history is [regular] (each request object was run once, and no queued request was
    answered from the cache), and for which c-ares could make its channels:
    [disable_loop_resolver] comes to its end without calling anybody back, without an
    exception and without a failed assertion; then the resolver has no workers, no timer
    and no loop, it can be destroyed with its assertions satisfied, and a request that
    somebody gives it later is refused with an exception and not touched. *)
Theorem loop_resolver_dies_clean {SA X Exn Ch D : Type} `{EqDecision SA} `{DelayExact D (rclosure SA)}
    (user_code : rid → AddrInfo SA → option error_code → X → X * list (rapi SA Exn))
    (dead_loop ares_init_failed : Exn) (ares_init : Ch → Ch * bool)
    (ares_getaddrinfo : CacheKey → Ch → Ch * option (ares_status * list (ai_node SA)))
    (win32 : bool) (inet4 inet6 : string → Z → SA) (null_sa : SA) (from_chars : string → option Z)
    (Hinit : ∀ c, (ares_init c).2 = true)
    (s : resolver SA X Exn Ch D) (m : mode Exn)
    (Hreach : reachable (resolver_program user_code dead_loop ares_init_failed ares_init ares_getaddrinfo
       win32 inet4 inet6 null_sa from_chars) (resolver_initial ares_init_failed ares_init) resolver_input (Machine.Config [] s m))
    (Hok : m ≠ Aborted) (Hreg : regular (rlog s)) (Hidle : ∀ r, runs s r = false) :
  ∃ s', steps (loop_resolver_program user_code dead_loop ares_init_failed ares_init ares_getaddrinfo
       win32 inet4 inet6 null_sa from_chars)
       (Machine.Config disable_loop_resolver s Normal) (Machine.Config [] s' Normal) ∧
    rlog s' = rlog s ∧ user s' = user s ∧ workers s' = [] ∧ dns_roll_timer s' = None ∧
    destroy_resolver s' = Calls [] ∧
    ∀ r, resolve dead_loop ares_init_failed ares_init ares_getaddrinfo win32 r s' = (s', Throws dead_loop).
Proof.
  eapply conf_ok_reachable in Hreach as Hc; [|done]. destruct (Hc Hok Hreg) as [Hi _].
  destruct (rinv_idle _ _ Hi Hidle) as (Hw & Hq & Hcd). simpl in Hw, Hq, Hcd.
  eexists. split; [by apply disable_idle|]. split_and!; try done. unfold destroy_resolver. simpl. by rewrite Hq.
Qed.

(** C7: [sync_resolve] returns what its request was told. A call of it that returns has
    called back exactly once, for this request and for no other one, and returns the
    error, or else the address, that this callback was given; it leaves the resolver as
    it was found, with no request that runs, for the next call; and when the cache has an
    address for the key that is not expired, that address is returned, and c-ares is not
    asked: its state is the one before the call. (c-ares can create its channels; and the
    resolver is one that served only such calls.) *)
Theorem sync_resolve_returns_answer {SA Exn Ch D : Type} `{EqDecision SA} `{DelayExact D (rclosure SA)}
    (dead_loop ares_init_failed : Exn) (ares_init : Ch → Ch * bool)
    (ares_getaddrinfo : CacheKey → Ch → Ch * option (ares_status * list (ai_node SA)))
    (win32 : bool) (inet4 inet6 : string → Z → SA) (null_sa : SA) (from_chars : string → option Z)
    (Hinit : ∀ c, (ares_init c).2 = true)
    (s s' : resolver SA (AddrInfo SA * option error_code) Exn Ch D) (t : Z) (r : rid)
    (host : string) (port : Z) (hints : AddrInfoHints) (use_cache : bool) (res : excepted (AddrInfo SA) error_code)
    (Hs : sync_state dead_loop ares_init_failed ares_init ares_getaddrinfo win32 inet4 inet6 null_sa from_chars s)
    (Hcall : sync_resolve dead_loop ares_init_failed ares_init ares_getaddrinfo win32 inet4 inet6 null_sa from_chars
       s t r host port hints use_cache s' res) :
  (∃ a err, rlog s' = rlog s ++ [EvStart r; EvCallback r a err] ∧ res = match err with Some e => inr e | None => inl a end) ∧
  (∀ x, runs s' x = false) ∧
  (∀ a s2, use_cache = true → cache_limit (cfg s) ≠ 0%nat →
     rfind (sync_key host port hints) (with_now t s) = Some (a, s2) →
     ai_bool a = true → res = inl a ∧ ares s' = ares s).
Proof.
  assert (Hrest : resting s) by by eapply sync_state_resting.
  destruct (sync_resolve_calling dead_loop ares_init_failed ares_init ares_getaddrinfo win32 inet4 inet6 null_sa from_chars
    Hinit _ _ _ _ _ _ _ _ _ Hrest Hcall) as (Hc & Hal & Hres).
  assert (Hnew : r ∉ starts (rlog s)).
  { destruct Hcall as (s1 & [Hr _] & _). by apply resting_unknown. }
  destruct (calling_resting s r s' (r_reg _ Hrest) Hnew Hc Hal) as (Hrest' & a & err & El & Eu).
  split; [|split; [apply Hrest'|]].
  - exists a, err. split; [done|]. rewrite Hres, Eu. by destruct err.
  - intros a' s2 -> Hlim Hf Ha.
    exact (sync_cached dead_loop ares_init_failed ares_init ares_getaddrinfo win32 inet4 inet6 null_sa from_chars
      Hinit s t r host port hints s' res a' s2 Hrest Hcall Hlim Hf Ha).
Qed.

(** C8: [sync_resolve] does not hang and does not end too early. Starting its new request
    comes to an end and does not throw, and the request runs then; the only other end is
    the crash on an entry of the cache for its key that has no address. After that, at
    each point of the run of the loop at which the request was not called back the loop
    is alive, so it goes on running, and there is something it can call, the timer of the
    request or the call that was put off for it, that ends the request; and no turn of
    the loop throws. (c-ares can create its channels; and the resolver is one that served
    only such calls.) *)
Theorem sync_resolve_never_stuck {SA Exn Ch D : Type} `{EqDecision SA} `{DelayExact D (rclosure SA)}
    (dead_loop ares_init_failed : Exn) (ares_init : Ch → Ch * bool)
    (ares_getaddrinfo : CacheKey → Ch → Ch * option (ares_status * list (ai_node SA)))
    (win32 : bool) (inet4 inet6 : string → Z → SA) (null_sa : SA) (from_chars : string → option Z)
    (Hinit : ∀ c, (ares_init c).2 = true)
    (s : resolver SA (AddrInfo SA * option error_code) Exn Ch D) (t : Z) (r : rid)
    (host : string) (port : Z) (hints : AddrInfoHints) (use_cache : bool)
    (Hs : sync_state dead_loop ares_init_failed ares_init ares_getaddrinfo win32 inet4 inet6 null_sa from_chars s)
    (Hr : reqs s !! r = None) :
  let prog := sync_program dead_loop ares_init_failed ares_init ares_getaddrinfo win32 inet4 inet6 null_sa from_chars in
  let q := sync_request host port hints use_cache in
  (∃ s1 m, steps prog (Machine.Config [RApi (New r q); RApi (Run r)] (sync_locals t s) Normal) (Machine.Config [] s1 m) ∧
     (m = Normal ∧ runs s1 r = true ∨
      m = Aborted ∧ use_cache = true ∧ rfind (sync_key host port hints) (with_now t s) = None)) ∧
  ∀ s1 s', sync_start dead_loop ares_init_failed ares_init ares_getaddrinfo win32 inet4 inet6 null_sa from_chars s t r q s1 →
    rtc (running_turn dead_loop ares_init_failed ares_init ares_getaddrinfo win32 inet4 inet6 null_sa from_chars) s1 s' →
    (runs s' r = true → loop_alive s' = true ∧
       ∃ cs s2, loop_calls s' cs ∧ runs s2 r = false ∧
         steps prog (Machine.Config cs s' Normal) (Machine.Config [] s2 Normal)) ∧
    (∀ cs s2 m u, loop_calls s' cs →
       steps prog (Machine.Config cs (with_now u s') Normal) (Machine.Config [] s2 m) → m ≠ Aborted → m = Normal).
Proof.
  intros prog q. assert (Hrest : resting s) by by eapply sync_state_resting.
  split; [by eapply start_ends|]. intros s1 s' [_ Hst] Hrun. pose proof (resting_unknown s r Hrest Hr) as Hnew.
  destruct (start_calling dead_loop ares_init_failed ares_init ares_getaddrinfo win32 inet4 inet6 null_sa from_chars
    Hinit s t r q s1 Normal Hrest Hr ltac:(done) Hst ltac:(done)) as [_ Hc1].
  pose proof (run_calling dead_loop ares_init_failed ares_init ares_getaddrinfo win32 inet4 inet6 null_sa from_chars
    Hinit s r s1 s' (r_reg _ Hrest) Hnew Hc1 Hrun) as Hc.
  split.
  - intros Hx. split; [by eapply running_alive|].
    destruct (can_answer dead_loop ares_init_failed ares_init ares_getaddrinfo win32 inet4 inet6 null_sa from_chars
      Hinit s r s' Hc Hx) as (cs & s2 & H1 & H2 & H3). eauto.
  - intros cs s2 m u Hcs Hst2 Hm.
    by destruct (turn_steps_calling dead_loop ares_init_failed ares_init ares_getaddrinfo win32 inet4 inet6 null_sa from_chars
      Hinit s r s' u cs s2 m (r_reg _ Hrest) Hnew Hc Hcs Hst2 Hm).
Qed.

(** *** Witnesses: the network of [Resolver]'s examples *)

Abbreviation sx_resolver := (resolver nat (AddrInfo nat * option error_code) nat unit (delays (rclosure nat))).
Definition sx_prog : program sx_resolver (rcall nat nat) nat :=
  sync_program 0%nat 1%nat ex_init ex_getaddrinfo false (λ _ _, 0%nat) (λ _ _, 0%nat) 0%nat (λ _, None).
Abbreviation sx_state := (sync_state (D:=delays (rclosure nat)) 0%nat 1%nat ex_init ex_getaddrinfo false (λ _ _, 0%nat) (λ _ _, 0%nat) 0%nat (λ _, None)).
Abbreviation sx_call := (sync_resolve (D:=delays (rclosure nat)) 0%nat 1%nat ex_init ex_getaddrinfo false (λ _ _, 0%nat) (λ _ _, 0%nat) 0%nat (λ _, None)).
Abbreviation sx_start := (sync_start (D:=delays (rclosure nat)) 0%nat 1%nat ex_init ex_getaddrinfo false (λ _ _, 0%nat) (λ _ _, 0%nat) 0%nat (λ _, None)).
Definition sx_run (cs : list (rcall nat nat)) (s : sx_resolver) : sx_resolver := mem (Machine.run sx_prog 20 (Machine.Config cs s Normal)).

(** The name is looked up, and once more a second later. *)
Definition sx_new (r : rid) : list (rcall nat nat) := [RApi (New r (sync_request "local" 80 ex_hints true)); RApi (Run r)].
Definition sx0 : sx_resolver := Eval vm_compute in (create_loop_resolver 1%nat ex_init (mkDelays []) tt 1000 (no_addr, None)).1.
Definition sx1 : sx_resolver := Eval vm_compute in sx_run (sx_new 1) (sync_locals 1000 sx0).
Definition sx2 : sx_resolver := Eval vm_compute in sx_run [RunDelayed 1 None] sx1.
Definition sx3 : sx_resolver := Eval vm_compute in sx_run (sx_new 2) (sync_locals 1001 sx2).
Definition sx4 : sx_resolver := Eval vm_compute in sx_run [RunDelayed 1 None] (with_now 1001 sx3).
Definition sx_addr : AddrInfo nat := ai_of [mkNode 2 1 6 0 300 1%nat].

Lemma sx_run_steps cs s s' : Machine.run sx_prog 20 (Machine.Config cs s Normal) = Machine.Config [] s' Normal →
  steps sx_prog (Machine.Config cs s Normal) (Machine.Config [] s' Normal).
Proof. intros <-. apply run_steps. Qed.

Lemma sx_start1 : sx_start sx0 1000 1 (sync_request "local" 80 ex_hints true) sx1.
Proof. split; [vm_compute; reflexivity|]. apply sx_run_steps. vm_compute. reflexivity. Qed.

Lemma sx_state0 : sx_state sx0.
Proof. apply (sync_created _ _ _ _ _ _ _ _ _ (mkDelays []) tt 1000); [intros p Hp; by apply elem_of_nil in Hp|vm_compute; reflexivity]. Qed.

Lemma sx_run_once (s1 s2 : sx_resolver) id t : loop_alive s1 = true → loop_alive s2 = false →
  Machine.run sx_prog 20 (Machine.Config [RunDelayed id None] (with_now t s1) Normal) = Machine.Config [] s2 Normal →
  sync_run 0%nat 1%nat ex_init ex_getaddrinfo false (λ _ _, 0%nat) (λ _ _, 0%nat) 0%nat (λ _, None) s1 s2.
Proof.
  intros H1 H2 H3. split; [|done]. apply rtc_once. split; [done|]. exists t, [RunDelayed id None]. split; [left; eauto|].
  by apply sx_run_steps.
Qed.

Lemma sx_first : sx_call sx0 1000 1 "local" 80 ex_hints true sx2 (inl sx_addr).
Proof.
  exists sx1. split; [apply sx_start1|]. split; [|vm_compute; reflexivity].
  apply (sx_run_once _ _ 1 1000); vm_compute; reflexivity.
Qed.

Lemma sx_second : sx_call sx2 1001 2 "local" 80 ex_hints true sx4 (inl sx_addr).
Proof.
  exists sx3. split; [split; [vm_compute; reflexivity|apply sx_run_steps; vm_compute; reflexivity]|]. split; [|vm_compute; reflexivity].
  apply (sx_run_once _ _ 1 1001); vm_compute; reflexivity.
Qed.

Lemma sync_resolve_returns_answer_witness :
  (∃ a err, rlog sx4 = rlog sx2 ++ [EvStart 2%nat; EvCallback 2%nat a err] ∧
     @inl (AddrInfo nat) error_code sx_addr = match err with Some e => inr e | None => inl a end) ∧
  (∀ x, runs sx4 x = false) ∧
  ∃ s2, rfind (sync_key "local" 80 ex_hints) (with_now 1001 sx2) = Some (sx_addr, s2) ∧
    @inl (AddrInfo nat) error_code sx_addr = inl sx_addr ∧ ares sx4 = ares sx2.
Proof.
  destruct (sync_resolve_returns_answer 0%nat 1%nat ex_init ex_getaddrinfo false (λ _ _, 0%nat) (λ _ _, 0%nat) 0%nat (λ _, None)
    (λ _, eq_refl) sx2 sx4 1001 2 "local" 80 ex_hints true (inl sx_addr)
    (sync_resolved _ _ _ _ _ _ _ _ _ _ _ _ _ _ _ _ _ _ sx_state0 sx_first) sx_second) as (H1 & H2 & H3).
  split; [exact H1|]. split; [exact H2|]. eexists. split; [vm_compute; reflexivity|].
  eapply H3; [reflexivity|vm_compute; discriminate|vm_compute; reflexivity|reflexivity].
Defined.

Lemma sync_resolve_never_stuck_witness :
  (∃ s1 m, steps sx_prog (Machine.Config [RApi (New 1%nat (sync_request "local" 80 ex_hints true)); RApi (Run 1%nat)]
       (sync_locals 1000 sx0) Normal) (Machine.Config [] s1 m) ∧
     (m = Normal ∧ runs s1 1%nat = true ∨ m = Aborted ∧ true = true ∧ rfind (sync_key "local" 80 ex_hints) (with_now 1000 sx0) = None)) ∧
  loop_alive sx1 = true ∧ ∃ cs s2, loop_calls sx1 cs ∧ runs s2 1%nat = false ∧
    steps sx_prog (Machine.Config cs sx1 Normal) (Machine.Config [] s2 Normal).
Proof.
  destruct (sync_resolve_never_stuck 0%nat 1%nat ex_init ex_getaddrinfo false (λ _ _, 0%nat) (λ _ _, 0%nat) 0%nat (λ _, None)
    (λ _, eq_refl) sx0 1000 1 "local" 80 ex_hints true sx_state0 eq_refl) as [H1 H2].
  split; [exact H1|]. apply (proj1 (H2 sx1 sx1 sx_start1 (rtc_refl _ _))). vm_compute. reflexivity.
Defined.

(** A loop that dies after one request was answered. *)
Definition dx_turns : list (list ex_call) := [[ex_new 1 "a" false]; [ex_run 1]; ex_answer 0 10].
Definition dx_end : ex_resolver := Eval vm_compute in mem (ex_drive dx_turns (Machine.Config [] (ex_resolver0 1 (λ _, [])) Normal)).

Lemma dx_reachable : reachable ex_prog (resolver_initial 1%nat ex_init) resolver_input (Machine.Config [] dx_end Normal).
Proof.
  assert (ex_drive dx_turns (Machine.Config [] (ex_resolver0 1 (λ _, [])) Normal) = Machine.Config [] dx_end Normal) as <-
    by (vm_compute; reflexivity).
  apply ex_drive_runs; [reflexivity|]. apply ex_resolver0_reachable. lia.
Qed.

Lemma dx_idle r : runs dx_end r = false.
Proof.
  assert (map_Forall (λ _ q, running q = false) (reqs dx_end)) as Hm by (apply map_Forall_to_list; vm_compute; by repeat constructor).
  unfold runs. destruct (reqs dx_end !! r) as [q|] eqn:Hq; [|done]. by apply (Hm r).
Qed.

Lemma loop_resolver_dies_clean_witness :
  callbacks (rlog dx_end) = [1%nat] ∧ length (workers dx_end) = 1%nat ∧
  ∃ s', steps (loop_resolver_program ex_user_code 0%nat 1%nat ex_init ex_getaddrinfo false (λ _ _, 0%nat) (λ _ _, 0%nat) 0%nat (λ _, None))
     (Machine.Config disable_loop_resolver dx_end Normal) (Machine.Config [] s' Normal) ∧
    rlog s' = rlog dx_end ∧ user s' = user dx_end ∧ workers s' = [] ∧ dns_roll_timer s' = None ∧
    destroy_resolver s' = Calls [] ∧
    ∀ r, resolve 0%nat 1%nat ex_init ex_getaddrinfo false r s' = (s', Throws 0%nat).
Proof.
  split; [vm_compute; reflexivity|]. split; [vm_compute; reflexivity|].
  apply (loop_resolver_dies_clean ex_user_code 0%nat 1%nat ex_init ex_getaddrinfo false (λ _ _, 0%nat) (λ _ _, 0%nat) 0%nat (λ _, None)
    (λ _, eq_refl) dx_end Normal dx_reachable).
  - discriminate.
  - apply regular_b_regular. vm_compute. reflexivity.
  - apply dx_idle.
Defined.
