(* ===== verification/Connect.v ===== *)
(** Connecting by name: the requests of [Tcp.h] and [Pipe.h] as their users build
    them, the request that a [TcpConnectRequest] gives to the resolver of the loop,
    and connections by name together with the resolver's cache: [Stream] is the
    stream, [Resolver] the resolver, [AddrInfo] the cache.

    A connection whose [addr] is not set asks the resolver for the addresses of its
    host; when it then fails, it marks the address that it tried as bad, and the cache
    gives the next one to the next connection. *)
From stdpp Require Import pretty.
From S2P Require Import Prelude Machine Errors Handle Delayer Queue AddrInfo Resolver Stream.
#[local] Open Scope Z_scope.

(** ** The requests as their users build them *)

Definition AF_UNSPEC : Z := 0.
Definition SOCK_STREAM : Z := 1.

(** [AddrInfoHints{}], [Tcp::defhints] *)
Definition no_hints : AddrInfoHints := mkHints AF_UNSPEC 0 0 0.
Definition defhints : AddrInfoHints := mkHints AF_UNSPEC SOCK_STREAM 0 0.

(** [TcpConnectRequest], before it runs; [conn_addr]: [None] for a null address;
    [event]: the callbacks added; [handle]: whether it has one. *)
Record tcp_request (A F : Type) := mkTcp {
  conn_addr : option A; conn_place : place; conn_cached : bool; conn_timeout : Z;
  event : list F; handle : bool
}.
Arguments mkTcp {A F}.
Arguments conn_addr {A F}.
Arguments conn_place {A F}.
Arguments conn_cached {A F}.
Arguments conn_timeout {A F}.
Arguments event {A F}.
Arguments handle {A F}.

Section Builders.
Context {A F : Type}.
Abbreviation req := (tcp_request A F).

(** [TcpConnectRequest(h)], [to(host, port, hints)], [to(addr)], [timeout],
    [on_connect], [use_cache], [set_hints] *)
Definition tcp_new (h : bool) : req := mkTcp None (mkPlace EmptyString 0 no_hints) true 0 [] h.
Definition to_place (name : string) (port : Z) (hints : AddrInfoHints) (q : req) : req :=
  mkTcp (conn_addr q) (mkPlace name port hints) (conn_cached q) (conn_timeout q) (event q) (handle q).
Definition to_addr (val : option A) (q : req) : req :=
  mkTcp val (conn_place q) (conn_cached q) (conn_timeout q) (event q) (handle q).
Definition timeout (val : Z) (q : req) : req :=
  mkTcp (conn_addr q) (conn_place q) (conn_cached q) val (event q) (handle q).
Definition on_connect (f : F) (q : req) : req :=
  mkTcp (conn_addr q) (conn_place q) (conn_cached q) (conn_timeout q) (event q ++ [f]) (handle q).
Definition use_cache (val : bool) (q : req) : req :=
  mkTcp (conn_addr q) (conn_place q) val (conn_timeout q) (event q) (handle q).
Definition set_hints (val : AddrInfoHints) (q : req) : req :=
  mkTcp (conn_addr q) (mkPlace (host (conn_place q)) (port (conn_place q)) val) (conn_cached q)
    (conn_timeout q) (event q) (handle q).

(** [TcpConnectRequest::run]: [Tcp::connect] on its handle, with the request as the
    object [r]; [None]: a call on a null handle. *)
Definition conn_run (r : rid) (q : req) : option (sapi A) :=
  if handle q then Some (TcpConnect r (conn_addr q) (conn_place q) (conn_cached q) (conn_timeout q)) else None.

(** [Tcp::connect()], [Tcp::connect(addr, timeout)],
    [Tcp::connect(host, port, timeout, hints)] *)
Definition connect : req := tcp_new true.
Definition connect_addr (r : rid) (a : option A) (t : Z) : option (sapi A) :=
  conn_run r (timeout t (to_addr a connect)).
Definition connect_host (r : rid) (name : string) (port : Z) (t : Z) (hints : AddrInfoHints) : option (sapi A) :=
  conn_run r (timeout t (to_place name port hints connect)).

(** [Pipe::connect(name, callback)], whose request is the object [r]. *)
Definition pipe_connect_name (r : rid) (name : string) : sapi A := PipeConnect r name 0.

(** [Stream::write(data)], [write(begin, end)], [write(range)]; [shutdown()], [shutdown(timeout)] *)
Definition write_string (r : rid) (data : string) : sapi A := Write r [data].
Definition write_between (r : rid) (bufs : list string) : sapi A := Write r bufs.
Definition write_range (r : rid) (bufs : list string) : sapi A := Write r bufs.
Definition shutdown (r : rid) : sapi A := Shutdown r 0.
Definition shutdown_within (r : rid) (t : Z) : sapi A := Shutdown r t.
End Builders.

(** *** The resolver's requests *)

Abbreviation rrequest := Resolver.request.

(** [Resolver::Request(r)] and its setters. *)
Definition resolve_new : rrequest :=
  Resolver.new_request EmptyString EmptyString 0 no_hints true DEFAULT_RESOLVE_TIMEOUT.
Definition node (val : string) (q : rrequest) : rrequest :=
  Resolver.new_request val (_service q) (_port q) (_hints q) (_use_cache q) (_timeout q).
Definition service (val : string) (q : rrequest) : rrequest :=
  Resolver.new_request (_node q) val (_port q) (_hints q) (_use_cache q) (_timeout q).
Definition set_port (val : Z) (q : rrequest) : rrequest :=
  Resolver.new_request (_node q) (_service q) val (_hints q) (_use_cache q) (_timeout q).
Definition resolve_hints (val : AddrInfoHints) (q : rrequest) : rrequest :=
  Resolver.new_request (_node q) (_service q) (_port q) val (_use_cache q) (_timeout q).
Definition resolve_cached (val : bool) (q : rrequest) : rrequest :=
  Resolver.new_request (_node q) (_service q) (_port q) (_hints q) val (_timeout q).
Definition resolve_timeout (val : Z) (q : rrequest) : rrequest :=
  Resolver.new_request (_node q) (_service q) (_port q) (_hints q) (_use_cache q) val.

(** [Resolver::resolve(node, callback, timeout)]: what it runs. *)
Definition resolve_node (name : string) (t : Z) : rrequest := resolve_timeout t (node name resolve_new).

(** The request that [TcpConnectRequest::finalize_connect] runs. *)
Definition resolve_request (to : place) (cached : bool) : rrequest :=
  resolve_cached cached (resolve_hints (hints to) (set_port (port to) (node (host to) resolve_new))).

(** ** A connection by name *)

Section ByName.
Context {S B A EC W C Exn Ch D : Type} `{UvStream S B A, ErrorStack EC, EqDecision A} `{DelayService D (rclosure A)} {HD : DelayExact D (rclosure A)}.
#[local] Set Default Proof Using "Type HD".
Context (dead_loop ares_init_failed : Exn) (ares_init : Ch → Ch * bool).
Context (ares_getaddrinfo : CacheKey → Ch → Ch * option (ares_status * list (ai_node A))).
Context (win32 : bool) (inet4 inet6 : string → Z → A) (null_sa : A) (from_chars : string → option Z).

(** What the callbacks of the requests were called with, in order. *)
Abbreviation answers := (list (rid * (AddrInfo A * option error_code))).
Abbreviation stream := (stream S B A EC W C Exn).
Abbreviation resolver := (resolver A answers Exn Ch D).

(** The callback that [finalize_connect] gives to its request takes the answer;
    what it does with it is [Stream.on_resolve]. *)
Definition take_answer (rr : rid) (a : AddrInfo A) (err : option error_code) (l : answers) :
    answers * list (rapi A Exn) := (l ++ [(rr, (a, err))], []).

Definition resolver_code : program resolver (rcall A Exn) Exn :=
  resolver_program take_answer dead_loop ares_init_failed ares_init ares_getaddrinfo
    win32 inet4 inet6 null_sa from_chars.

(** The resolver makes these calls to their end, within [n] steps. *)
Definition resolver_runs (n : nat) (cs : list (rcall A Exn)) (s : resolver) : option resolver :=
  match Machine.run resolver_code n (Machine.Config cs s Normal) with
  | Machine.Config [] s Normal => Some s
  | _ => None
  end.

(** The request [rr] is run; the cache has the answer, and the loop calls what waits
    for the request. *)
Definition ask (rr : rid) (q : rrequest) (s : resolver) : option resolver :=
  resolver_runs 2 [RApi (New rr q); RApi (Run rr)] s.
Definition serve (rr : rid) (s : resolver) : option resolver :=
  id ← Resolver.reqs s !! rr ≫= delayed; resolver_runs 2 [RunDelayed id None] s.

(** What the callback hands to the stream: the address of the answer, or the error. *)
Definition answer (rr : rid) (s : resolver) : option (A + error_code) :=
  '(_, (a, err)) ← last (filter (λ x, x.1 = rr) (Resolver.user s));
  match err with Some e => Some (inr e) | None => inl <$> addr a end.

(** [resolver()->cache().mark_bad_address], for what the stream marked since it had
    marked [n] addresses. *)
Definition marks (n : nat) (s : stream) : list (rcall A Exn) :=
  (λ x, RApi (MarkBad x.1 (default sa_default x.2))) <$> drop n (cache_bad s).

(** The address that the request [r] connected to. *)
Definition tried (r : rid) (s : stream) : option A :=
  q ← Stream.reqs s !! r; match kind q with KTcpConnect a _ _ => a | _ => None end.

(** A connection to [to]: its request [r] is made, executed, and goes to the resolver
    as [rr]; with the answer it connects; and it ends with [err]. *)
Definition attempt (r rr : rid) (to : place) (err : EC) (w : stream * resolver) : option (option A * (stream * resolver)) :=
  let '(st, rs) := w in
  let n := length (cache_bad st) in
  let st := (tcp_connect r None to true 0 st).1 in
  let st := (tcp_connect_exec r (Stream.new_request (KTcpConnect None to true) [] 0) st).1 in
  let st := (tcp_finalize_connect (Exn:=Exn) r st).1 in
  rs ← ask rr (resolve_request to true) rs;
  rs ← serve rr rs;
  res ← answer rr rs;
  let st := (Stream.on_resolve r res st).1 in
  q ← Stream.reqs st !! r;
  let st := tcp_handle_event r q err st in
  rs ← resolver_runs (length (marks n st)) (marks n st) rs;
  Some (tried r st, (st, rs)).

(** One after the other. *)
Fixpoint attempts (to : place) (js : list (rid * rid * EC)) (w : stream * resolver) : option (list (option A) * (stream * resolver)) :=
  match js with
  | [] => Some ([], w)
  | (r, rr, err) :: js =>
      '(a, w) ← attempt r rr to err w;
      '(l, w) ← attempts to js w;
      Some (a :: l, w)
  end.

(** *** What an attempt does *)

Implicit Types (st : stream) (rs : resolver) (to : place).

(** The entry of [to] is at this position, and has not expired. *)
Definition entry_at (to : place) (l : list (ai_node A)) (i : nat) (t : Z) (rs : resolver) : Prop :=
  _cache rs !! place_key to = Some (mkCached (mkAi l (Some i)) t) ∧ (i < length l)%nat.
Definition unexpired (l : list (ai_node A)) (t : Z) (rs : resolver) : Prop :=
  Forall (λ n, now rs ≤ t + Z.min (ai_ttl n) (cache_expiration_time (cfg rs))) l.

(** What an attempt keeps of the resolver. *)
Definition same_but (rr : rid) (rs rs' : resolver) : Prop :=
  looped rs' = looped rs ∧ cfg rs' = cfg rs ∧ now rs' = now rs ∧
  ∀ r, r ≠ rr → Resolver.reqs rs' !! r = Resolver.reqs rs !! r.

Lemma runs_nil n rs : resolver_runs n [] rs = Some rs.
Proof. by destruct n. Qed.

Lemma runs_calls n c cs cs' rs rs' :
  body resolver_code c rs = (rs', Calls cs') → resolver_runs (Datatypes.S n) (c :: cs) rs = resolver_runs n (cs' ++ cs) rs'.
Proof. intros E. unfold resolver_runs. simpl in *. by rewrite E. Qed.

Lemma closure_at_added (f : rclosure A) rs d :
  Resolver.loop rs = (ds_add f d).1 → closure_at (ds_add f d).2 rs = Some f.
Proof.
  intros El. unfold closure_at. rewrite El, dx_add, filter_app.
  assert (filter (λ x, x.1 = (ds_add f d).2) (ds_waiting d) = []) as ->.
  { destruct (filter _ _) as [|x l] eqn:Ef; [done|]. destruct (dx_fresh f d).
    assert (x ∈ x :: l) as Hx by left. rewrite <-Ef, list_elem_of_filter in Hx. destruct Hx as [<- Hx].
    by apply list_elem_of_fmap_2. }
  by rewrite filter_cons_True.
Qed.

(** The cache has the answer to a request that is run. *)
Lemma resolve_hit (rr : rid) (q : rrequest) (a : AddrInfo A) rs :
  looped rs = true → cache_limit (cfg rs) ≠ 0%nat → Resolver.reqs rs !! rr = Some q → _use_cache q = true → _port q ≠ 0 →
  find (cache_expiration_time (cfg rs)) (now rs) (key_of (set_service (pretty (Z.to_N (_port q))) q)) (_cache rs) =
    Some (a, _cache rs) → ai_bool a = true →
  ∃ q' d, resolve (Exn:=Exn) dead_loop ares_init_failed ares_init ares_getaddrinfo win32 rr rs =
    (Resolver.mkResolver true (cfg rs) (dns_roll_timer rs) (workers rs) (Resolver.queue rs) (cache_delayed rs ++ [rr])
       (_cache rs) (<[rr := q']> (Resolver.reqs rs)) (ds_add (FinishCached rr a) (Resolver.loop rs)).1 (ares rs) (now rs)
       (Resolver.user rs) (rlog rs ++ [EvStart rr]), Calls []) ∧
    delayed q' = Some d ∧ d = (ds_add (FinishCached rr a) (Resolver.loop rs)).2 ∧
    running q' = true ∧ worker q' = worker q ∧ queued q' = queued q ∧ _use_cache q' = false.
Proof.
  intros Hl Hc Hr Hu Hp Hf Ha. unfold resolve. rewrite Hl, Hr. simpl.
  rewrite (proj2 (Z.eqb_neq _ _)) by done. simpl. rewrite Hu, bool_decide_eq_false_2 by done. simpl.
  unfold rfind. simpl. change (key_of (set_running true ?q)) with (key_of q). rewrite Hf. simpl. rewrite Ha.
  unfold delay_for. simpl. destruct (ds_add _ _) as [d i]. unfold Resolver.with_req, Resolver.with_reqs. simpl.
  rewrite !alter_insert_eq. eexists _, i. split; [unfold with_loop, with_cache_delayed, with_cache, Resolver.note; simpl; by rewrite Hl|]. done.
Qed.

(** What waits for it is called, and gives the answer to the callback. *)
Lemma serve_hit (rr : rid) (q : rrequest) (d : Z) (a : AddrInfo A) rs :
  Resolver.reqs rs !! rr = Some q → delayed q = Some d → running q = true → worker q = None → queued q = false →
  _use_cache q = false → closure_at d rs = Some (FinishCached rr a) →
  ∃ rs', serve rr rs = Some rs' ∧ Resolver.user rs' = Resolver.user rs ++ [(rr, (a, None))] ∧
    _cache rs' = _cache rs ∧ same_but rr rs rs'.
Proof.
  intros Hr Hd Hrun Hw Hq Hu Hcl. unfold serve. rewrite Hr. simpl. rewrite Hd. simpl.
  eassert (body resolver_code (RunDelayed d None) rs = (_, Calls [FinishGuard None])) as E.
  { simpl. unfold run_delayed. rewrite Hcl. unfold run_closure, finish_resolve.
    unfold Resolver.with_req. simpl. rewrite lookup_alter_eq, Hr. simpl. rewrite Hrun. simpl.
    unfold release, cancel_delayed. simpl. rewrite lookup_alter_eq, Hr. simpl. rewrite Hw, Hq.
    unfold store. simpl. rewrite !lookup_alter_eq, Hr. simpl. rewrite Hu. simpl. reflexivity. }
  rewrite (runs_calls _ _ _ _ _ _ E). simpl. unfold resolver_runs. simpl. eexists. split; [reflexivity|]. simpl.
  split; [done|]. split; [done|]. do 3 (split; [done|]). simpl. intros r Hne. by rewrite !lookup_alter_ne.
Qed.

Lemma cache_answers (rr : rid) to l i t rs n :
  looped rs = true → cache_limit (cfg rs) ≠ 0%nat → port to ≠ 0 → Resolver.reqs rs !! rr = None →
  entry_at to l i t rs → unexpired l t rs → l !! i = Some n →
  ∃ rs1 rs2, ask rr (resolve_request to true) rs = Some rs1 ∧ serve rr rs1 = Some rs2 ∧
    answer rr rs2 = Some (inl (ai_addr n)) ∧ _cache rs2 = _cache rs ∧ same_but rr rs rs2.
Proof.
  intros Hl Hc Hp Hr [He Hi] Hu Hn.
  assert (find (cache_expiration_time (cfg rs)) (now rs) (place_key to) (_cache rs) =
    Some (mkAi l (Some i), _cache rs)) as Hf.
  { unfold find. rewrite He. simpl. unfold ttl, ai_at. simpl. rewrite Hn. simpl.
    unfold expired. simpl. rewrite (proj2 (Z.ltb_ge _ _)); [done|].
    unfold unexpired in Hu. rewrite Forall_lookup in Hu. by apply (Hu i). }
  assert (ai_bool (mkAi l (Some i)) = true) as Hb by done.
  set (q := fresh (resolve_request to true)).
  set (rs0 := Resolver.with_reqs (<[rr := q]> (Resolver.reqs rs)) rs).
  destruct (resolve_hit rr q (mkAi l (Some i)) rs0) as (q' & d & E & Hd & Hd' & Hrun & Hw & Hq & Hu'); try done.
  { simpl. apply lookup_insert_eq. }
  match type of E with _ = (?s, _) => set (rs1 := s) in E end.
  assert (ask rr (resolve_request to true) rs = Some rs1) as Ea.
  { unfold ask. erewrite runs_calls; [|simpl; rewrite Hr; reflexivity]. cbn [app].
    erewrite runs_calls; [|exact E]. apply runs_nil. }
  destruct (serve_hit rr q' d (mkAi l (Some i)) rs1) as (rs2 & Es & Eu & Ec & Hs); try done.
  { simpl. apply lookup_insert_eq. }
  { rewrite Hd'. by apply closure_at_added. }
  exists rs1, rs2. split_and!; [done|done| |done|].
  - unfold answer. rewrite Eu, filter_app, filter_cons_True by done. rewrite filter_nil, last_snoc. simpl.
    unfold addr, ai_at. simpl. by rewrite Hn.
  - destruct Hs as (Hl2 & Hc2 & Hn2 & Hr2). unfold same_but. rewrite Hl2, Hc2, Hn2. simpl. split_and!; try done.
    intros r Hne. rewrite Hr2 by done. simpl. by rewrite !lookup_insert_ne.
Qed.

(** The stream's side: what it does with an answer, and how it takes a failure. *)
Definition failed (err : EC) : bool := ec_bool err && negb (ec_has err (Std operation_canceled)).

(** A request of this kind that no resolver works on. *)
Definition has_kind (r : rid) (k : rkind A) st : Prop :=
  ∃ q, Stream.reqs st !! r = Some q ∧ kind q = k ∧ resolving q = false.

Lemma connected_kind (r : rid) a k st :
  has_kind r k st → has_kind r k (uvtcp_connect r a (request_impl r st)).1 ∧
  cache_bad (uvtcp_connect r a (request_impl r st)).1 = cache_bad st.
Proof.
  intros (q & Hq & Hk & Hr). unfold request_impl, stream_impl. destruct (impl (hdl st) (uvs st)) as [[h u] b].
  unfold uvtcp_connect, on_impl, stream_impl. simpl. destruct (impl h u) as [[h' u'] b'].
  match goal with |- context [uv_tcp_connect b' r a ?x] => destruct (uv_tcp_connect b' r a x) as [u2 [e|]] end;
    (split; [|done]); eexists; simpl; rewrite !lookup_alter_eq, Hq; (split; [reflexivity|simpl; by destruct (r_impl q)]).
Qed.

Lemma stream_connects (r : rid) to a err st :
  host to ≠ EmptyString →
  let st1 := (tcp_connect r None to true 0 st).1 in
  let st1 := (tcp_connect_exec r (Stream.new_request (KTcpConnect None to true) [] 0) st1).1 in
  let st1 := (tcp_finalize_connect (Exn:=Exn) r st1).1 in
  let st2 := (Stream.on_resolve r (inl a) st1).1 in
  ∃ q, Stream.reqs st2 !! r = Some q ∧ tried r (tcp_handle_event r q err st2) = Some a ∧
    cache_bad (tcp_handle_event r q err st2) = cache_bad st ++ (if failed err then [(place_key to, Some a)] else []).
Proof.
  intros Hh st0 st1 st1' st2.
  assert (∃ q, Stream.reqs st1' !! r = Some q ∧ kind q = KTcpConnect None to true ∧ resolving q = true ∧
    cache_bad st1' = cache_bad st) as (q1 & Hq1 & Hk1 & Hr1 & Hb1).
  { unfold st1', tcp_finalize_connect, st1, tcp_connect_exec. destruct (head _); simpl;
      repeat (rewrite ?lookup_alter_eq, ?lookup_insert_eq; simpl); by eexists. }
  unfold st2, Stream.on_resolve. rewrite Hq1, Hr1. simpl.
  set (st3 := Stream.with_req (set_addr a) r _).
  assert (has_kind r (KTcpConnect (Some a) to true) st3) as H3k.
  { eexists. split; [simpl; by rewrite !lookup_alter_eq, Hq1|]. simpl. by rewrite Hk1. }
  destruct (connected_kind r a _ _ H3k) as [(q & Hq & Hk & Hr) Hb].
  destruct (uvtcp_connect r a (request_impl r st3)) as [st4 e]. simpl in *.
  exists q. split; [done|]. unfold tcp_handle_event. rewrite Hk, Hr. unfold tried, failed. simpl.
  rewrite (bool_decide_eq_false_2 (host to = EmptyString)), !andb_true_r by done.
  destruct (ec_bool err && _); simpl; rewrite Hq; simpl; rewrite Hk, Hb; simpl; by rewrite ?Hb1, ?app_nil_r.
Qed.

Lemma mark_bad_spec to l i t rs n :
  entry_at to l i t rs → l !! i = Some n →
  resolver_runs 1 [RApi (MarkBad (place_key to) (ai_addr n))] rs =
  Some (with_cache (<[place_key to := mkCached (mkAi l (Some (Datatypes.S i mod length l)%nat)) t]> (_cache rs)) rs).
Proof.
  intros [He Hi] Hn. pose proof (mark_current_rotates _ _ _ _ _ He Hi) as Hm.
  unfold mark_current in Hm. rewrite He in Hm. simpl in Hm. unfold addr, ai_at in Hm. simpl in Hm. rewrite Hn in Hm. simpl in Hm.
  erewrite runs_calls; [|simpl; by rewrite Hm]. apply runs_nil.
Qed.

Lemma attempt_connects (r rr : rid) to err l i t st rs n :
  looped rs = true → cache_limit (cfg rs) ≠ 0%nat → host to ≠ EmptyString → port to ≠ 0 → Resolver.reqs rs !! rr = None →
  entry_at to l i t rs → unexpired l t rs → l !! i = Some n →
  let j := if failed err then (Datatypes.S i mod length l)%nat else i in
  ∃ st' rs', attempt r rr to err (st, rs) = Some (Some (ai_addr n), (st', rs')) ∧
    _cache rs' = <[place_key to := mkCached (mkAi l (Some j)) t]> (_cache rs) ∧ same_but rr rs rs'.
Proof.
  intros Hl Hc Hh Hp Hr He Hu Hn j.
  destruct (cache_answers rr to l i t rs n) as (rs1 & rs2 & Ea & Es & Ean & Eca & Hs); try done.
  unfold attempt. rewrite Ea. simpl. rewrite Es. simpl. rewrite Ean. simpl.
  destruct (stream_connects r to (ai_addr n) err st Hh) as (q & Hq & Ht & Hb). simpl in Hq, Ht, Hb.
  rewrite Hq. simpl. rewrite Ht. unfold marks. rewrite Hb, drop_app_length.
  assert (entry_at to l i t rs2) as He2 by (unfold entry_at; by rewrite Eca).
  unfold j. destruct (failed err); simpl.
  - rewrite (mark_bad_spec to l i t rs2 n) by done. simpl. eexists _, _. split; [done|]. simpl. by rewrite Eca.
  - eexists _, _. split; [done|]. split; [|done].
    destruct He as [He _]. by rewrite Eca, insert_id.
Qed.

(** The positions of the addresses that attempts which end so connect to. *)
Fixpoint positions (n i : nat) (errs : list EC) : list nat :=
  match errs with
  | [] => []
  | e :: errs => i :: positions n (if failed e then (Datatypes.S i mod n)%nat else i) errs
  end.
Definition failures (errs : list EC) : nat := length (filter (λ e, failed e = true) errs).

Lemma failures_cons e errs : failures (e :: errs) = ((if failed e then 1 else 0) + failures errs)%nat.
Proof. unfold failures. rewrite filter_cons. by destruct (failed e). Qed.

Lemma next_position n i e errs : (i < n)%nat →
  (((if failed e then Datatypes.S i mod n else i) + failures errs) mod n = (i + failures (e :: errs)) mod n)%nat.
Proof.
  intros Hi. rewrite failures_cons. destruct (failed e); [|done].
  rewrite Nat.Div0.add_mod_idemp_l. f_equal. lia.
Qed.

Lemma attempts_connect to l t js : ∀ i st rs,
  looped rs = true → cache_limit (cfg rs) ≠ 0%nat → host to ≠ EmptyString → port to ≠ 0 →
  NoDup (js.*1.*2) → (∀ rr, rr ∈ js.*1.*2 → Resolver.reqs rs !! rr = None) →
  entry_at to l i t rs → unexpired l t rs →
  ∃ st' rs', attempts to js (st, rs) =
      Some ((λ j, ai_addr <$> l !! j) <$> positions (length l) i js.*2, (st', rs')) ∧
    _cache rs' = <[place_key to := mkCached (mkAi l (Some ((i + failures js.*2) mod length l)%nat)) t]> (_cache rs).
Proof.
  induction js as [|[[r rr] err] js IH]; intros i st rs Hl Hc Hh Hp Hnd Hnew He Hu; simpl.
  - eexists _, _. split; [done|]. destruct He as [He Hi]. by rewrite Nat.add_0_r, Nat.mod_small, insert_id.
  - simpl in *. apply NoDup_cons in Hnd as [Hni Hnd].
    destruct He as [He Hi]. destruct (lookup_lt_is_Some_2 l i Hi) as [n Hn].
    destruct (attempt_connects r rr to err l i t st rs n) as (st1 & rs1 & Ea & Eca & Hs1 & Hs2 & Hs3 & Hs4); try done.
    { apply Hnew. by left. }
    simpl in Ea. rewrite Ea. simpl.
    set (j := if failed err then _ else _) in *.
    assert (j < length l)%nat as Hj.
    { unfold j. destruct (failed err); [|done]. apply Nat.mod_upper_bound. lia. }
    destruct (IH j st1 rs1) as (st2 & rs2 & E2 & C2); try done.
    + by rewrite Hs1.
    + by rewrite Hs2.
    + intros x Hx. rewrite Hs4; [apply Hnew; by right|]. by intros ->.
    + split; [|done]. by rewrite Eca, lookup_insert_eq.
    + unfold unexpired. by rewrite Hs2, Hs3.
    + rewrite E2. simpl. rewrite Hn. eexists _, _. split; [done|]. rewrite C2, Eca, insert_insert_eq.
      do 3 f_equal. unfold j. rewrite next_position by done. done.
Qed.

Lemma positions_lookup n errs : ∀ i k, (i < n)%nat → (k < length errs)%nat →
  positions n i errs !! k = Some ((i + failures (take k errs)) mod n)%nat.
Proof.
  induction errs as [|e errs IH]; intros i k Hi Hk; simpl in *; [lia|]. destruct k as [|k]; simpl.
  - by rewrite Nat.add_0_r, Nat.mod_small.
  - rewrite IH; [|destruct (failed e); [apply Nat.mod_upper_bound; lia|done]|lia]. by rewrite next_position.
Qed.

Lemma positions_length n errs : ∀ i, length (positions n i errs) = length errs.
Proof. induction errs as [|e errs IH]; intros i; simpl; [done|]. by rewrite IH. Qed.

Lemma failures_all errs : Forall (λ e, failed e = true) errs → failures errs = length errs.
Proof. induction 1 as [|e errs He _ IH]; [done|]. rewrite failures_cons, He, IH. done. Qed.

(** All of them fail: they go round, from the position on and then from the start. *)
Lemma positions_round i errs :
  Forall (λ e, failed e = true) errs → (i < length errs)%nat →
  positions (length errs) i errs ≡ₚ seq 0 (length errs).
Proof.
  intros Hf Hi. set (n := length errs).
  assert (positions n i errs = seq i (n - i) ++ seq 0 i) as ->.
  { apply list_eq_same_length with (n := n); [rewrite length_app, !length_seq; unfold n; lia|apply positions_length|].
    intros k x y Hk Hx Hy. rewrite positions_lookup in Hx by (unfold n; lia). injection Hx as <-.
    rewrite failures_all, length_take, Nat.min_l by first [by apply Forall_take|unfold n in *; lia].
    destruct (decide (k < n - i)%nat) as [Hlt|Hge].
    - rewrite lookup_app_l, lookup_seq_lt in Hy by (rewrite ?length_seq; lia). injection Hy as <-.
      rewrite Nat.mod_small by lia. lia.
    - rewrite lookup_app_r, length_seq, lookup_seq_lt in Hy by (rewrite ?length_seq; lia). injection Hy as <-.
      replace (i + k)%nat with ((k - (n - i)) + 1 * n)%nat by lia. rewrite Nat.Div0.mod_add, Nat.mod_small; lia. }
  rewrite Permutation_app_comm. replace n with (i + (n - i))%nat at 2 by (unfold n in *; lia). by rewrite seq_app.
Qed.

Lemma nodes_in_order (l : list (ai_node A)) :
  (λ j, ai_addr <$> l !! j) <$> seq 0 (length l) = Some ∘ ai_addr <$> l.
Proof.
  apply list_eq. intros j. rewrite !list_lookup_fmap. destruct (decide (j < length l)%nat) as [Hj|Hj].
  - rewrite lookup_seq_lt by done. simpl. by destruct (lookup_lt_is_Some_2 l j Hj) as [n ->].
  - rewrite lookup_seq_ge, lookup_ge_None_2 by lia. done.
Qed.

(** An answer that c-ares gave to such a request, and that the cache did not have, makes
    an entry at the first address, which has not expired. *)
Lemma answer_makes_entry (rr : rid) (q : rrequest) to l rs :
  Resolver.reqs rs !! rr = Some q → key_of q = place_key to → _use_cache q = true →
  cache_limit (cfg rs) ≠ 0%nat → _cache rs !! place_key to = None → l ≠ [] →
  Forall (λ n, 0 ≤ ai_ttl n) l → 0 ≤ cache_expiration_time (cfg rs) →
  entry_at to l 0 (now rs) (store rr (ai_of l) None rs) ∧ unexpired l (now rs) (store rr (ai_of l) None rs).
Proof.
  intros Hr Hk Hu Hc Hn Hl Ht He. unfold store. rewrite Hr, Hu.
  rewrite bool_decide_eq_true_2, (bool_decide_eq_false_2 (cache_limit _ = _)) by done. simpl.
  destruct l as [|n l]; [done|]. split.
  - split; [|simpl; lia]. simpl. rewrite Hk. unfold cache_store.
    case_decide; simpl; [by rewrite lookup_empty, lookup_insert_eq|by rewrite Hn, lookup_insert_eq].
  - unfold unexpired. simpl. eapply Forall_impl; [exact Ht|]. simpl. lia.
Qed.

(** ** Properties *)

(** C34: connections by name to a place that the cache has, one after the other and
    ending as they may, all get an address; a connection that fails makes the next one
    go to the next address of the list, round it, and one that succeeds or is
    cancelled leaves the next one with the same address; the cache ends at that
    position, with nothing else changed; so that as many failures as there are
    addresses have tried each of them once. For a place with a name and a port that is not
    0 ([port_zero_never_marked]), whose entry does not expire meanwhile, and requests that
    are used once. *)
Theorem connections_go_round to (l : list (ai_node A)) (i : nat) (t : Z) (js : list (rid * rid * EC)) st rs
    (Hlooped : looped rs = true) (Hlimit : cache_limit (cfg rs) ≠ 0%nat)
    (Hhost : host to ≠ EmptyString) (Hport : port to ≠ 0)
    (Hobjs : NoDup js.*1.*2) (Hnew : ∀ rr, rr ∈ js.*1.*2 → Resolver.reqs rs !! rr = None)
    (Hentry : entry_at to l i t rs) (Htime : unexpired l t rs) :
  ∃ tr st' rs', attempts to js (st, rs) = Some (tr, (st', rs')) ∧ length tr = length js ∧
    (∀ k, (k < length js)%nat →
       tr !! k = Some (ai_addr <$> l !! ((i + failures (take k js.*2)) mod length l)%nat)) ∧
    _cache rs' = <[place_key to := mkCached (mkAi l (Some ((i + failures js.*2) mod length l)%nat)) t]> (_cache rs) ∧
    (Forall (λ e, failed e = true) js.*2 → length js = length l → tr ≡ₚ Some ∘ ai_addr <$> l).
Proof.
  destruct (attempts_connect to l t js i st rs) as (st' & rs' & Ha & Hc); try done.
  destruct Hentry as [_ Hi]. eexists _, st', rs'. split; [exact Ha|]. split_and!; [|intros k Hk|done|intros Hf Hn].
  - by rewrite length_fmap, positions_length, length_fmap.
  - by rewrite list_lookup_fmap, positions_lookup by (by rewrite ?length_fmap).
  - rewrite <-nodes_in_order. apply fmap_Permutation. rewrite <-Hn, <-(length_fmap snd js) in Hi |- *.
    by apply positions_round.
Qed.

(** *** What the model shows of the code *)

(** A port of 0 is left out of the resolver's key but not of the one that marks a bad
    address, so that no address of such a place is ever marked; the keys of any other
    port are the same. *)
Theorem port_zero_never_marked to cached :
  let q := resolve_request to cached in
  let asked := key_of (if _port q =? 0 then q else set_service (pretty (Z.to_N (_port q))) q) in
  if port to =? 0 then asked ≠ place_key to else asked = place_key to.
Proof. simpl. destruct (port to =? 0) eqn:E; [|done]. apply Z.eqb_eq in E. unfold place_key. rewrite E. discriminate. Qed.

(** The address that a request got, from [to(addr)] or from the resolver when it ran,
    stays: [to(host, port)] does not clear it, and the next run connects to it and
    does not ask the resolver. *)
Theorem to_place_keeps_address {F : Type} (r : rid) a name p hs (q : tcp_request A F) st :
  conn_addr q = Some a → handle q = true →
  conn_run r (to_place name p hs q) = Some (TcpConnect r (Some a) (mkPlace name p hs) (conn_cached q) (conn_timeout q)) ∧
  ∀ k, has_kind r (KTcpConnect (Some a) (mkPlace name p hs) k) st →
    has_kind r (KTcpConnect (Some a) (mkPlace name p hs) k) (tcp_finalize_connect (Exn:=Exn) r st).1.
Proof.
  intros Ha Hh. split; [unfold conn_run; simpl; by rewrite Hh, Ha|]. intros k Hk.
  pose proof (connected_kind r a _ _ Hk) as [Hk' _]. destruct Hk as (q' & Hq & Hkind & _).
  unfold tcp_finalize_connect. rewrite Hq, Hkind. by destruct (uvtcp_connect _ _ _).
Qed.
End ByName.

(** *** Witness: a host with three addresses *)

Definition ex_place : place := mkPlace "example.org" 80 (mkHints 0 1 0 0).

Definition ex_names : Resolver.resolver nat (list (rid * (AddrInfo nat * option error_code))) nat unit (delays (rclosure nat)) :=
  Resolver.mkResolver true (mkConfig 600 100 500 1) None [] [] []
    (cache_store 100 1000 (place_key ex_place) (ai_of ex_ai) ∅) ∅ (mkDelays []) tt 1100 [] [].

Definition ex_failures : list (rid * rid * ex_ec) :=
  [(1, 1, ec_of (Std connection_refused)); (2, 2, ec_of (Std Errors.timed_out)); (3, 3, ec_of (Std connection_reset))]%nat.

Definition ex_attempts : option (list (option nat) * (ex_stream * Resolver.resolver nat _ nat unit (delays (rclosure nat)))) :=
  attempts 0%nat 1%nat (λ c, (c, true)) (λ _ c, (c, None)) false (λ _ _, 0%nat) (λ _ _, 0%nat) 0%nat (λ _, None)
    ex_place ex_failures (new_stream ex_uv0 (λ _, []) tt, ex_names).

Lemma connections_go_round_witness :
  ∃ tr w, ex_attempts = Some (tr, w) ∧ tr ≡ₚ [Some 10; Some 11; Some 12]%nat.
Proof.
  destruct (connections_go_round 0%nat 1%nat (λ c, (c, true)) (λ _ c, (c, None)) false (λ _ _, 0%nat) (λ _ _, 0%nat) 0%nat
    (λ _, None) ex_place ex_ai 0 1000 ex_failures (new_stream ex_uv0 (λ _, []) tt : ex_stream) ex_names)
    as (tr & st & rs & Ha & _ & _ & _ & Hp).
  - reflexivity.
  - discriminate.
  - discriminate.
  - discriminate.
  - apply (bool_decide_unpack _). vm_compute. exact I.
  - intros rr _. apply lookup_empty.
  - split; [vm_compute; reflexivity|simpl; lia].
  - apply (bool_decide_unpack _). vm_compute. exact I.
  - exists tr, (st, rs). split; [exact Ha|]. apply Hp; [|reflexivity]. repeat constructor.
Defined.
