(* ===== verification/Util.v ===== *)
(** Utilities: [util.h], [util.cc] and [util_unix.icc].

    The functions are thin covers of system calls and of functions of libuv, with some
    logic of their own: duplicating a descriptor with its flags and giving it back when
    that fails, asking again with a larger buffer, copying lists out of libuv's memory
    and freeing it.

    The system and libuv are parameters: [Sys] has their calls, [SysLaws] what POSIX says
    of descriptors, [HostLaws] what libuv says of the name of the host. *)
From Stdlib Require Import Ascii.
From S2P Require Import Prelude Errors.
#[local] Open Scope Z_scope.

(** ** System calls *)

(** [SA]: [net::SockAddr] *)
Inductive sysop (SA : Type) :=
| GetFd (fd : Z) | SetFd (fd flags : Z)          (* [fcntl] with [F_GETFD], [F_SETFD] *)
| GetFl (fd : Z) | SetFl (fd flags : Z)          (* with [F_GETFL], [F_SETFL] *)
| Dup (fd : Z)
| Close (fd : Z)
| SocketCall (domain type protocol : Z)
| AcceptCall (srv : Z)
| ConnectCall (sock : Z) (sa : SA)
| BindCall (sock : Z) (sa : SA)
| ListenCall (sock backlog : Z)
| SetsockoptCall (sock level optname : Z) (optval : list ascii)
| GetsocknameCall (sock : Z)
| GetpeernameCall (sock : Z).
Arguments GetFd {SA}.
Arguments SetFd {SA}.
Arguments GetFl {SA}.
Arguments SetFl {SA}.
Arguments Dup {SA}.
Arguments Close {SA}.
Arguments SocketCall {SA}.
Arguments AcceptCall {SA}.
Arguments ConnectCall {SA}.
Arguments BindCall {SA}.
Arguments ListenCall {SA}.
Arguments SetsockoptCall {SA}.
Arguments GetsocknameCall {SA}.
Arguments GetpeernameCall {SA}.

(** [-1] and [errno], or what the call returns, with the address it stores. *)
Inductive sysres (SA : Type) := Ok (v : Z) (sa : option SA) | Errno (e : Z).
Arguments Ok {SA}.
Arguments Errno {SA}.

(** Rows of libuv's lists. *)
Record uv_interface_address_t (SA : Type) := mkUvIf {
  if_name : string; if_phys_addr : list ascii; if_is_internal : Z; if_address : SA; if_netmask : SA }.
Arguments mkUvIf {SA}.
Arguments if_name {SA}.
Arguments if_phys_addr {SA}.
Arguments if_is_internal {SA}.
Arguments if_address {SA}.
Arguments if_netmask {SA}.
Record uv_cpu_info_t := mkUvCpu {
  uc_model : string; uc_speed : Z; uc_user : Z; uc_nice : Z; uc_sys : Z; uc_idle : Z; uc_irq : Z }.
Record uv_rusage_t := mkUvRusage {
  ru_utime : Z * Z; ru_stime : Z * Z; ru_maxrss : Z; ru_ixrss : Z; ru_idrss : Z; ru_isrss : Z;
  ru_minflt : Z; ru_majflt : Z; ru_nswap : Z; ru_inblock : Z; ru_oublock : Z; ru_msgsnd : Z;
  ru_msgrcv : Z; ru_nsignals : Z; ru_nvcsw : Z; ru_nivcsw : Z }.
Record uv_utsname_t := mkUvUts { un_sysname : string; un_release : string; un_version : string; un_machine : string }.

Inductive uv_handle_type :=
| UV_TTY | UV_FILE | UV_NAMED_PIPE | UV_UDP | UV_TCP | UV_UNKNOWN_HANDLE | UV_OTHER_HANDLE.

(** What a function that stores into a buffer does: the bytes stored, with the length
    it reports. *)
Record filled := mkFilled { f_bytes : list ascii; f_size : Z }.

Class Sys (Σ SA : Type) := {
  sys_call : sysop SA → Σ → Σ * sysres SA;
  uv_socketpair : Z → Z → Z → Z → Σ → Σ * (Z * Z + uv_errno);
  uv_pipe : Z → Z → Σ → Σ * (Z * Z + uv_errno);
  uv_gettimeofday : Σ → Z * Z + uv_errno;
  uv_os_gethostname : Z → Σ → filled * option uv_errno;      (* with the size of the buffer *)
  uv_resident_set_memory : Σ → Z + uv_errno;
  uv_interface_addresses : Σ → Σ * (list (uv_interface_address_t SA) + uv_errno);
  uv_free_interface_addresses : list (uv_interface_address_t SA) → Σ → Σ;
  uv_cpu_info : Σ → Σ * (list uv_cpu_info_t + uv_errno);
  uv_free_cpu_info : list uv_cpu_info_t → Σ → Σ;
  uv_getrusage : Σ → uv_rusage_t + uv_errno;
  uv_os_uname : Σ → uv_utsname_t + uv_errno;
  uv_random : Z → Σ → Σ * (list ascii + uv_errno);
  uv_get_process_title : Z → Σ → list ascii + uv_errno;
  uv_set_process_title : string → Σ → Σ * option uv_errno;
  uv_guess_handle : Z → Σ → uv_handle_type;
  UV_NONBLOCK_PIPE : Z;
  FD_CLOEXEC : Z;
  O_NONBLOCK : Z;
  sys_open : Σ → gset Z;            (* the descriptors that are open *)
  sys_fd_flags : Σ → Z → Z;         (* the flags of a descriptor *)
  sys_status : Σ → Z → Z            (* the status flags of its file *)
}.

(** POSIX: [dup] gives a descriptor that was not open, without flags of its own; [close]
    closes also when it fails; [fcntl] opens and closes nothing. *)
Class SysLaws (Σ SA : Type) `{Sys Σ SA} := {
  getfd_same fd σ : (sys_call (GetFd fd) σ).1 = σ;
  getfd_value fd σ v a : (sys_call (GetFd fd) σ).2 = Ok v a → v = sys_fd_flags σ fd;
  setfd_open fd n σ : sys_open (sys_call (SetFd fd n) σ).1 = sys_open σ;
  setfd_value fd n σ v a : (sys_call (SetFd fd n) σ).2 = Ok v a → sys_fd_flags (sys_call (SetFd fd n) σ).1 fd = n;
  getfl_same fd σ : (sys_call (GetFl fd) σ).1 = σ;
  getfl_value fd σ v a : (sys_call (GetFl fd) σ).2 = Ok v a → v = sys_status σ fd;
  setfl_value fd n σ v a : (sys_call (SetFl fd n) σ).2 = Ok v a → sys_status (sys_call (SetFl fd n) σ).1 fd = n;
  dup_ok fd σ v a : (sys_call (Dup fd) σ).2 = Ok v a →
    v ∉ sys_open σ ∧ sys_open (sys_call (Dup fd) σ).1 = {[v]} ∪ sys_open σ ∧
    sys_fd_flags (sys_call (Dup fd) σ).1 v = 0;
  dup_err fd σ e : (sys_call (Dup fd) σ).2 = Errno e → sys_open (sys_call (Dup fd) σ).1 = sys_open σ;
  close_open fd σ : sys_open (sys_call (Close fd) σ).1 = sys_open σ ∖ {[fd]};
  cloexec_bit : FD_CLOEXEC = 1
}.

(** libuv: the name is stored with its null byte and the size is its length, or, when
    it does not fit, the size is what is needed. *)
Class HostLaws (Σ SA : Type) `{Sys Σ SA} := {
  host_name : Σ → list ascii;
  gethostname_fits n σ e : Z.of_nat (length (host_name σ)) < n → (uv_os_gethostname n σ).2 = e →
    e = None ∧ uv_os_gethostname n σ = (mkFilled (host_name σ) (Z.of_nat (length (host_name σ))), e);
  gethostname_small n σ : n ≤ Z.of_nat (length (host_name σ)) →
    (uv_os_gethostname n σ).2 = Some UV_ENOBUFS ∧
    f_size (uv_os_gethostname n σ).1 = Z.of_nat (length (host_name σ)) + 1
}.

(** ** The functions *)

(** [std::error_code]: of the system ([std::generic_category]) or translated from libuv. *)
Inductive scode := SysCode (errno : Z) | Code (e : error_code).

(** [PairFlags], the rows of [util.h] *)
Definition nonblock_pipe : Z := 1.
Record InterfaceAddress (SA : Type) := mkIf {
  name : string; phys_addr : list ascii; is_internal : bool; address : SA; netmask : SA }.
Arguments mkIf {SA}.
Record CpuInfo := mkCpu { model : string; speed : Z; user : Z; nice : Z; sys : Z; idle : Z; irq : Z }.
Record TimeVal := mkTimeVal { sec : Z; usec : Z }.

(** Its comparisons. *)
Definition tv_eq (a b : TimeVal) : bool := (sec a =? sec b) && (usec a =? usec b).
Definition tv_ne (a b : TimeVal) : bool := negb (tv_eq a b).
Definition tv_ge (a b : TimeVal) : bool := (sec b <? sec a) || ((sec a =? sec b) && (usec b <=? usec a)).
Definition tv_gt (a b : TimeVal) : bool := (sec b <? sec a) || ((sec a =? sec b) && (usec b <? usec a)).
Definition tv_le (a b : TimeVal) : bool := negb (tv_gt a b).
Definition tv_lt (a b : TimeVal) : bool := negb (tv_ge a b).

(** A total order: of two times one is before the other or they are equal. *)
Lemma tv_trichotomy a b :
  tv_lt a b = tv_gt b a ∧ tv_le a b = tv_lt a b || tv_eq a b ∧
  tv_lt a b && tv_gt a b = false ∧ (a = b ↔ tv_lt a b = false ∧ tv_gt a b = false).
Proof.
  destruct a as [s u], b as [s' u']. unfold tv_lt, tv_le, tv_gt, tv_ge, tv_eq. simpl.
  destruct (Z.ltb_spec s' s), (Z.ltb_spec s s'), (Z.eqb_spec s s'), (Z.eqb_spec s' s), (Z.leb_spec u' u),
    (Z.ltb_spec u' u), (Z.ltb_spec u u'), (Z.eqb_spec u u'); simpl; try lia; split_and!; try done;
    (split; [intros [= -> ->]|intros [? ?]]); try done; try lia; f_equal; lia.
Qed.
Record ResourceUsage := mkUsage {
  utime : TimeVal; stime : TimeVal; maxrss : Z; ixrss : Z; idrss : Z; isrss : Z; minflt : Z; majflt : Z;
  nswap : Z; inblock : Z; oublock : Z; msgsnd : Z; msgrcv : Z; nsignals : Z; nvcsw : Z; nivcsw : Z }.
Record UtsName := mkUts { sysname : string; release : string; version : string; machine : string }.
Inductive Wsl := WslNot | Wsl1 | Wsl2.

(** The types of handles that [guess_type] returns. *)
Inductive htype := TtyType | FsType | PipeType | UdpType | TcpType | UNKNOWN_TYPE.

Section Util.
Context {Σ SA : Type} `{Sys Σ SA}.

(** A function of the program: it changes the state of the system and returns a value,
    or an error ([make_unexpected], [throw]). *)
Definition sysm (T : Type) : Type := Σ → Σ * excepted T scode.
Definition ret {T} (x : T) : sysm T := λ σ, (σ, inl x).
Definition fail {T} (e : scode) : sysm T := λ σ, (σ, inr e).
Definition bind {T U} (m : sysm T) (k : T → sysm U) : sysm U := λ σ,
  match m σ with (σ, inl x) => k x σ | (σ, inr e) => (σ, inr e) end.

(** A system call whose failure is [last_sys_error()]; with the address stored. *)
Definition sys_error (errno : Z) : scode := SysCode errno.
Definition call_addr (op : sysop SA) : sysm (Z * option SA) := λ σ,
  match sys_call op σ with
  | (σ, Ok v a) => (σ, inl (v, a))
  | (σ, Errno e) => (σ, inr (sys_error e))
  end.
Definition call (op : sysop SA) : sysm Z := bind (call_addr op) (λ '(v, _), ret v).

(** [if (status != 0) return make_unexpected(...)] *)
Definition call0 (op : sysop SA) : sysm unit := bind (call op) (λ _, ret tt).

(** The handler that closes the new descriptor before the exception goes on. *)
Definition close_on_error {T} (fd : Z) (m : sysm T) : sysm T := λ σ,
  match m σ with
  | (σ, inr e) => ((sys_call (Close fd) σ).1, inr e)
  | r => r
  end.

Definition fd2sock (fd : Z) : Z := fd.
Definition sock2fd (sock : Z) : Z := sock.

Definition file_dup (src : Z) : sysm Z :=
  bind (call (GetFd src)) (λ src_flags,
  bind (call (Dup src)) (λ r,
  if negb (Z.land src_flags FD_CLOEXEC =? 0) then
    bind (close_on_error r (call (GetFd r))) (λ flags,
    bind (close_on_error r (call (SetFd r (Z.lor flags FD_CLOEXEC)))) (λ _, ret r))
  else ret r)).
Definition sock_dup (sock : Z) : sysm Z := file_dup sock.

Definition socket (domain type protocol : Z) : sysm Z := call (SocketCall domain type protocol).
Definition connect (sock : Z) (sa : SA) : sysm unit := call0 (ConnectCall sock sa).
Definition sbind (sock : Z) (sa : SA) : sysm unit := call0 (BindCall sock sa).
Definition listen (sock backlog : Z) : sysm unit := call0 (ListenCall sock backlog).
(** The address of the peer is stored where the caller asks, or dropped. *)
Definition accept (srv : Z) : sysm (Z * option SA) := call_addr (AcceptCall srv).
Definition setsockopt (sock level optname : Z) (optval : list ascii) : sysm unit :=
  call0 (SetsockoptCall sock level optname optval).
(** [F_SETFL] returns 0 or fails. *)
Definition setblocking (sock : Z) (val : bool) : sysm unit :=
  bind (call (GetFl sock)) (λ flags,
  let flags := if val then Z.ldiff flags O_NONBLOCK else Z.lor flags O_NONBLOCK in
  bind (call (SetFl sock flags)) (λ r, if r =? 0 then ret tt else fail (sys_error 0))).
Definition close (sock : Z) : sysm unit := call0 (Close sock).
Definition getsockname (sock : Z) : sysm (option SA) := bind (call_addr (GetsocknameCall sock)) (λ r, ret r.2).
Definition getpeername (sock : Z) : sysm (option SA) := bind (call_addr (GetpeernameCall sock)) (λ r, ret r.2).

(** A function of libuv: its error is translated. *)
Definition uv {T} (r : T + uv_errno) : excepted T scode :=
  match r with inl x => inl x | inr e => inr (Code (uvx_error e)) end.

Definition pair_flags (flags : Z) : Z :=
  if negb (Z.land flags nonblock_pipe =? 0) then Z.lor 0 UV_NONBLOCK_PIPE else 0.
Definition socketpair (type protocol flags1 flags2 : Z) : sysm (Z * Z) := λ σ,
  let (σ, r) := uv_socketpair type protocol (pair_flags flags1) (pair_flags flags2) σ in (σ, uv r).
Definition pipe (read_flags write_flags : Z) : sysm (Z * Z) := λ σ,
  let (σ, r) := uv_pipe (pair_flags read_flags) (pair_flags write_flags) σ in (σ, uv r).

Definition gettimeofday : sysm TimeVal := λ σ,
  (σ, match uv (uv_gettimeofday σ) with inl tv => inl (mkTimeVal tv.1 tv.2) | inr e => inr e end).
Definition get_rss : sysm Z := λ σ, (σ, uv (uv_resident_set_memory σ)).

(** [ret.length(len)]: the string is the first bytes of its buffer. *)
Definition with_length (b : filled) : list ascii := take (Z.to_nat (f_size b)) (f_bytes b).

(** [cap]: the capacity that [string ret(20)] has, at least 20. *)
Definition hostname (cap : Z) : sysm (list ascii) := λ σ,
  match uv_os_gethostname cap σ with
  | (b, None) => (σ, inl (with_length b))
  | (b, Some UV_ENOBUFS) =>
      match uv_os_gethostname (f_size b) σ with
      | (b, None) => (σ, inl (with_length b))
      | (_, Some e) => (σ, inr (Code (uvx_error e)))
      end
  | (_, Some e) => (σ, inr (Code (uvx_error e)))
  end.

Definition to_interface (r : uv_interface_address_t SA) : InterfaceAddress SA :=
  mkIf (if_name r) (take 6 (if_phys_addr r)) (negb (if_is_internal r =? 0)) (if_address r) (if_netmask r).
Definition interface_info : sysm (list (InterfaceAddress SA)) := λ σ,
  match uv_interface_addresses σ with
  | (σ, inl l) => (uv_free_interface_addresses l σ, inl (to_interface <$> l))
  | (σ, inr e) => (σ, inr (Code (uvx_error e)))
  end.

Definition to_cpu (r : uv_cpu_info_t) : CpuInfo :=
  mkCpu (uc_model r) (uc_speed r) (uc_user r) (uc_nice r) (uc_sys r) (uc_idle r) (uc_irq r).
Definition cpu_info : sysm (list CpuInfo) := λ σ,
  match uv_cpu_info σ with
  | (σ, inl l) => (uv_free_cpu_info l σ, inl (to_cpu <$> l))
  | (σ, inr e) => (σ, inr (Code (uvx_error e)))
  end.

Definition to_usage (d : uv_rusage_t) : ResourceUsage := {|
  utime := mkTimeVal (ru_utime d).1 (ru_utime d).2; stime := mkTimeVal (ru_stime d).1 (ru_stime d).2;
  maxrss := ru_maxrss d; ixrss := ru_ixrss d; idrss := ru_idrss d; isrss := ru_isrss d;
  minflt := ru_minflt d; majflt := ru_majflt d; nswap := ru_nswap d; inblock := ru_inblock d;
  oublock := ru_oublock d; msgsnd := ru_msgsnd d; msgrcv := ru_msgrcv d; nsignals := ru_nsignals d;
  nvcsw := ru_nvcsw d; nivcsw := ru_nivcsw d |}.
Definition get_rusage : sysm ResourceUsage := λ σ,
  (σ, match uv (uv_getrusage σ) with inl d => inl (to_usage d) | inr e => inr e end).

Definition uname : sysm UtsName := λ σ,
  (σ, match uv (uv_os_uname σ) with
      | inl b => inl (mkUts (un_sysname b) (un_release b) (un_version b) (un_machine b))
      | inr e => inr e end).

(** [string::find(...) != npos] *)
Definition contains (pat s : string) : bool :=
  match String.index 0 pat s with Some _ => true | None => false end.
Definition is_wsl (σ : Σ) : Wsl :=
  match (uname σ).2 with
  | inl info =>
      if contains "Microsoft" (release info) then Wsl1
      else if contains "microsoft" (release info) then Wsl2 else WslNot
  | inr _ => WslNot
  end.

Definition get_random (len : Z) : sysm (list ascii) := λ σ,
  match uv_random len σ with
  | (σ, inl b) => (σ, inl (take (Z.to_nat len) b))
  | (σ, inr e) => (σ, inr (Code (uvx_error e)))
  end.

(** [RandomRequest]: the fields of its own; what it is as a [Work] is in [Work.v]. *)
Record random_request := mkRandom { _len : Z; _err : option scode; _result : list ascii }.
Definition new_random : random_request := mkRandom 0 None [].
Definition random_start (len : Z) (r : random_request) : random_request := mkRandom len (_err r) (_result r).
Definition on_work (r : random_request) (σ : Σ) : Σ * random_request :=
  match get_random (_len r) σ with
  | (σ, inl b) => (σ, mkRandom (_len r) (_err r) b)
  | (σ, inr e) => (σ, mkRandom (_len r) (Some e) (_result r))
  end.
(** What the callback is given. *)
Definition on_after_work (err : option scode) (r : random_request) : list ascii * option scode :=
  (_result r, match err with Some e => Some e | None => _err r end).

(** [get_process_title]: the buffer is not given a length before it is returned, so the
    string that the caller sees is the one that [string ret(i)] made, which is empty. *)
Fixpoint title_loop (sizes : list Z) : sysm (list ascii) := λ σ,
  match sizes with
  | [] => (σ, inl [])
  | i :: sizes =>
      match uv_get_process_title i σ with
      | inl _ => (σ, inl [])
      | inr UV_ENOBUFS => title_loop sizes σ
      | inr e => (σ, inr (Code (uvx_error e)))
      end
  end.
Definition get_process_title : sysm (list ascii) := title_loop [256; 1024; 4096].
Definition set_process_title (title : string) : sysm unit := λ σ,
  let (σ, e) := uv_set_process_title title σ in
  (σ, match e with Some e => inr (Code (uvx_error e)) | None => inl tt end).

Definition guess_type (file : Z) (σ : Σ) : htype :=
  match uv_guess_handle file σ with
  | UV_TTY => TtyType
  | UV_FILE => FsType
  | UV_NAMED_PIPE => PipeType
  | UV_UDP => UdpType
  | UV_TCP => TcpType
  | _ => UNKNOWN_TYPE
  end.
End Util.

(** ** Lemmas *)

Section Lemmas.
#[local] Set Default Proof Using "Type*".
Context {Σ SA : Type} `{SysLaws Σ SA}.
Implicit Types σ : Σ.

Lemma call_spec op σ :
  (∃ v a, (sys_call op σ).2 = Ok v a ∧ call op σ = ((sys_call op σ).1, inl v)) ∨
  (∃ n, (sys_call op σ).2 = Errno n ∧ call op σ = ((sys_call op σ).1, inr (SysCode n))).
Proof.
  unfold call, bind, call_addr. destruct (sys_call op σ) as [σ' [v a|n]]; [left|right]; simpl; eauto.
Qed.

Lemma close_on_error_spec {T} fd (m : sysm (Σ := Σ) T) σ :
  (∃ σ' x, m σ = (σ', inl x) ∧ close_on_error fd m σ = (σ', inl x)) ∨
  (∃ σ' e, m σ = (σ', inr e) ∧ close_on_error fd m σ = ((sys_call (Close fd) σ').1, inr e)).
Proof. unfold close_on_error. destruct (m σ) as [σ' [x|e]]; [left|right]; eauto. Qed.

(** [FD_CLOEXEC] is the lowest bit of the flags. *)
Definition cloexec σ (fd : Z) : bool := Z.testbit (sys_fd_flags σ fd) 0.

Lemma cloexec_test n : negb (Z.land n FD_CLOEXEC =? 0) = Z.testbit n 0.
Proof.
  rewrite cloexec_bit, Z.bit0_odd. change 1 with (Z.ones 1). rewrite Z.land_ones by done.
  change (2 ^ 1) with 2. rewrite Zmod_odd. by destruct (Z.odd n).
Qed.

Lemma cloexec_set n : Z.testbit (Z.lor n FD_CLOEXEC) 0 = true.
Proof. rewrite cloexec_bit, Z.lor_spec. change (Z.testbit 1 0) with true. apply orb_true_r. Qed.

(** The two outcomes of [file_dup]. *)
Lemma file_dup_spec (src : Z) σ :
  match file_dup src σ with
  | (σ', inl r) => r ∉ sys_open σ ∧ sys_open σ' = {[r]} ∪ sys_open σ ∧ cloexec σ' r = cloexec σ src
  | (σ', inr e) => sys_open σ' = sys_open σ ∧ ∃ n, e = SysCode n
  end.
Proof.
  unfold file_dup, bind at 1.
  destruct (call_spec (GetFd src) σ) as [(v & a & Hv & ->)|(n & Hn & ->)]; rewrite getfd_same; [|eauto].
  apply getfd_value in Hv as ->. unfold bind at 1.
  destruct (call_spec (Dup src) σ) as [(r & a' & Hr & ->)|(n & Hn & ->)];
    [|apply dup_err in Hn; eauto].
  apply dup_ok in Hr as (Hfresh & Hopen & Hflags). rewrite cloexec_test.
  set (σ1 := (sys_call (Dup src) σ).1) in *.
  assert (sys_open σ1 ∖ {[r]} = sys_open σ) as Hback by (rewrite Hopen; set_solver).
  destruct (Z.testbit (sys_fd_flags σ src) 0) eqn:Hc; unfold cloexec; rewrite Hc.
  - unfold bind at 1.
    destruct (close_on_error_spec r (call (GetFd r)) σ1) as [(σ2 & fl & E & ->)|(σ2 & e & E & ->)];
      destruct (call_spec (GetFd r) σ1) as [(v & b & Hv & E')|(n & Hn & E')]; rewrite E in E'; simplify_eq.
    + rewrite getfd_same. unfold bind.
      destruct (close_on_error_spec r (call (SetFd r (Z.lor v FD_CLOEXEC))) σ1) as [(σ2 & x & E2 & ->)|(σ2 & e & E2 & ->)];
        destruct (call_spec (SetFd r (Z.lor v FD_CLOEXEC)) σ1) as [(y & c & Hy & E2')|(n & Hn & E2')];
        rewrite E2 in E2'; simplify_eq.
      * simpl. rewrite setfd_open. apply setfd_value in Hy as ->. split_and!; [done..|apply cloexec_set].
      * rewrite close_open, setfd_open. eauto.
    + rewrite getfd_same, close_open. eauto.
  - simpl. unfold cloexec. by rewrite Hflags.
Qed.
End Lemmas.

(** ** Properties *)

(** [file_dup] leaks no descriptor: either it returns one that was not open and is
    now open besides the others, closed on [exec] exactly when the original is, or it
    fails with the error of the system and the descriptors that are open are the same. *)
Theorem file_dup_exact {Σ SA : Type} `{SysLaws Σ SA} (src : Z) (σ : Σ) :
  match file_dup src σ with
  | (σ', inl r) => r ∉ sys_open σ ∧ sys_open σ' = {[r]} ∪ sys_open σ ∧ cloexec σ' r = cloexec σ src
  | (σ', inr e) => sys_open σ' = sys_open σ ∧ ∃ n, e = SysCode n
  end.
Proof. apply file_dup_spec. Qed.

(** [hostname] returns the whole name, however long it is. *)
Lemma hostname_complete {Σ SA : Type} `{HostLaws Σ SA} (cap : Z) (σ : Σ) :
  hostname cap σ = (σ, inl (host_name σ)).
Proof.
  assert (∀ n, Z.of_nat (length (host_name σ)) < n →
    uv_os_gethostname n σ = (mkFilled (host_name σ) (Z.of_nat (length (host_name σ))), None)) as Hfits.
  { intros n Hn. by destruct (gethostname_fits n σ _ Hn eq_refl) as [-> ->]. }
  assert (with_length (mkFilled (host_name σ) (Z.of_nat (length (host_name σ)))) = host_name σ) as Hlen.
  { unfold with_length. simpl. by rewrite Nat2Z.id, firstn_all. }
  unfold hostname. destruct (decide (Z.of_nat (length (host_name σ)) < cap)) as [Hc|Hc].
  - by rewrite Hfits, Hlen.
  - destruct (gethostname_small cap σ) as [He Hs]; [lia|].
    destruct (uv_os_gethostname cap σ) as [b e]. simpl in *. subst e.
    rewrite Hs, Hfits by lia. by rewrite Hlen.
Qed.

(** [setblocking] changes the one flag of the file. *)
Lemma setblocking_exact {Σ SA : Type} `{SysLaws Σ SA} (sock : Z) (val : bool) (σ σ' : Σ) :
  setblocking sock val σ = (σ', inl tt) →
  sys_status σ' sock =
    (if val then Z.ldiff (sys_status σ sock) O_NONBLOCK else Z.lor (sys_status σ sock) O_NONBLOCK).
Proof.
  unfold setblocking, bind at 1.
  destruct (call_spec (GetFl sock) σ) as [(v & a & Hv & ->)|(n & Hn & ->)]; rewrite getfl_same; [|done].
  apply getfl_value in Hv as ->. set (fl := if val then _ else _). unfold bind.
  destruct (call_spec (SetFl sock fl) σ) as [(r & b & Hr & ->)|(n & Hn & ->)]; [|done].
  apply setfl_value in Hr. unfold ret, fail. destruct (r =? 0); [|done]. by intros [= <-].
Qed.

(** ** Witnesses *)

(** A system of which [F_SETFD] can fail. *)
Record ex_sys := mkExSys { ex_fds : gmap Z Z; ex_fl : gmap Z Z; ex_fails : bool }.
#[local] Definition ex_call (op : sysop nat) (σ : ex_sys) : ex_sys * sysres nat :=
  match op with
  | GetFd fd => (σ, Ok (default 0 (ex_fds σ !! fd)) None)
  | SetFd fd n =>
      if ex_fails σ then (σ, Errno 9) else
      match ex_fds σ !! fd with
      | Some _ => (mkExSys (<[fd := n]> (ex_fds σ)) (ex_fl σ) false, Ok 0 None)
      | None => (σ, Errno 9)
      end
  | GetFl fd => (σ, Ok (default 0 (ex_fl σ !! fd)) None)
  | SetFl fd n => (mkExSys (ex_fds σ) (<[fd := n]> (ex_fl σ)) (ex_fails σ), Ok 0 None)
  | Dup fd =>
      match ex_fds σ !! fd with
      | Some _ =>
          let r := fresh (dom (ex_fds σ)) in
          (mkExSys (<[r := 0]> (ex_fds σ)) (ex_fl σ) (ex_fails σ), Ok r None)
      | None => (σ, Errno 9)
      end
  | Close fd => (mkExSys (delete fd (ex_fds σ)) (ex_fl σ) (ex_fails σ), Ok 0 None)
  | _ => (σ, Errno 38)
  end.
#[local] Instance ex_sys_calls : Sys ex_sys nat := {|
  sys_call := ex_call;
  uv_socketpair _ _ _ _ σ := (σ, inr UV_ENOSYS); uv_pipe _ _ σ := (σ, inr UV_ENOSYS);
  uv_gettimeofday _ := inr UV_ENOSYS; uv_os_gethostname _ _ := (mkFilled [] 0, None);
  uv_resident_set_memory _ := inr UV_ENOSYS; uv_interface_addresses σ := (σ, inl []);
  uv_free_interface_addresses _ σ := σ; uv_cpu_info σ := (σ, inl []); uv_free_cpu_info _ σ := σ;
  uv_getrusage _ := inr UV_ENOSYS; uv_os_uname _ := inr UV_ENOSYS; uv_random _ σ := (σ, inr UV_ENOSYS);
  uv_get_process_title _ _ := inl [Ascii.ascii_of_nat 65]; uv_set_process_title _ σ := (σ, None);
  uv_guess_handle _ _ := UV_FILE; UV_NONBLOCK_PIPE := 64; FD_CLOEXEC := 1; O_NONBLOCK := 2048;
  sys_open σ := dom (ex_fds σ); sys_fd_flags σ fd := default 0 (ex_fds σ !! fd);
  sys_status σ fd := default 0 (ex_fl σ !! fd)
|}.
#[local] Instance ex_sys_laws : SysLaws ex_sys nat.
Proof.
  split; try done; simpl; intros.
  - naive_solver.
  - destruct (ex_fails σ); [done|]. destruct (ex_fds σ !! fd) eqn:E; simpl; [|done].
    rewrite dom_insert_L. apply elem_of_dom_2 in E. set_solver.
  - destruct (ex_fails σ); [done|]. destruct (ex_fds σ !! fd); simpl in *; [|done]. by rewrite lookup_insert_eq.
  - naive_solver.
  - by rewrite lookup_insert_eq.
  - destruct (ex_fds σ !! fd); simpl in *; [|done]. simplify_eq. rewrite dom_insert_L, lookup_insert_eq.
    split_and!; [apply is_fresh|done|done].
  - by destruct (ex_fds σ !! fd).
  - by rewrite dom_delete_L.
Qed.

#[local] Definition ex_fails_in (b : bool) : ex_sys := mkExSys {[ 3 := 1; 4 := 0 ]} ∅ b.

Lemma file_dup_exact_witness :
  (∃ σ' r, file_dup 3 (ex_fails_in false) = (σ', inl r) ∧ r ∉ sys_open (ex_fails_in false) ∧
    sys_open σ' = {[r]} ∪ sys_open (ex_fails_in false) ∧ cloexec σ' r = true) ∧
  (∃ σ' e, file_dup 3 (ex_fails_in true) = (σ', inr e) ∧ sys_open σ' = sys_open (ex_fails_in true)).
Proof.
  split.
  - pose proof (file_dup_exact 3 (ex_fails_in false)) as Hf.
    destruct (file_dup 3 (ex_fails_in false)) as [σ' [r|e]] eqn:E; [|by vm_compute in E].
    exists σ', r. split; [done|]. exact Hf.
  - pose proof (file_dup_exact 3 (ex_fails_in true)) as Hf.
    destruct (file_dup 3 (ex_fails_in true)) as [σ' [r|e]] eqn:E; [by vm_compute in E|].
    exists σ', e. split; [done|]. apply Hf.
Defined.

(** ** What the code does not do *)

(** [get_process_title] never returns the title: whatever libuv has stored, the string
    has the length it was made with. *)
Lemma get_process_title_empty {Σ SA : Type} `{Sys Σ SA} (σ σ' : Σ) l :
  get_process_title σ = (σ', inl l) → l = [].
Proof.
  unfold get_process_title. generalize [256; 1024; 4096]. intros sizes. revert σ.
  induction sizes as [|i sizes IH]; intros σ; simpl; [by intros [= <- <-]|].
  destruct (uv_get_process_title i σ) as [b|e]; [by intros [= <- <-]|].
  destruct e; try done. apply IH.
Qed.
