(* ===== verification/Timer.v ===== *)
(** Timers: [Timer.h], [Timer.cc], [TimerImpl.h] and [UVTimer.h].

    A timer adds to the libuv timer the pause: [pause()] stops the libuv timer and
    remembers the time that was left, [resume()] starts it again with this time.
    libuv is a parameter: the class [UvTimerLaws] states what its documentation says
    of starting, stopping and asking a timer. *)
From S2P Require Import Prelude Errors.
#[local] Open Scope Z_scope.

(** ** libuv *)

(** The functions on the one libuv timer of the handle; [uv_expire]: the loop takes
    the timer off when its time has come, before it calls back (a repeating one is
    started again). *)
Class UvTimer (S : Type) := {
  uv_update_time : S → S;
  uv_timer_start : Z → Z → S → S;           (* timeout, repeat *)
  uv_timer_stop : S → S;
  uv_timer_again : S → S * option uv_errno;
  uv_timer_get_repeat : S → Z;
  uv_timer_set_repeat : Z → S → S;
  uv_timer_get_due_in : S → Z;
  uv_is_active : S → bool;
  uv_set_ref : bool → S → S;
  uv_now : S → Z;
  uv_expire : S → S
}.

Class UvTimerLaws (S : Type) `{UvTimer S} := {
  start_active t r s : uv_is_active (uv_timer_start t r s) = true;
  start_repeat t r s : uv_timer_get_repeat (uv_timer_start t r s) = r;
  start_due t r s : 0 ≤ t → uv_now s + t < 2 ^ 64 → uv_timer_get_due_in (uv_timer_start t r s) = t;
  start_now t r s : uv_now (uv_timer_start t r s) = uv_now s;
  stop_active s : uv_is_active (uv_timer_stop s) = false;
  stop_repeat s : uv_timer_get_repeat (uv_timer_stop s) = uv_timer_get_repeat s;
  update_active s : uv_is_active (uv_update_time s) = uv_is_active s;
  update_repeat s : uv_timer_get_repeat (uv_update_time s) = uv_timer_get_repeat s;
  set_ref_active b s : uv_is_active (uv_set_ref b s) = uv_is_active s;
  set_ref_repeat b s : uv_timer_get_repeat (uv_set_ref b s) = uv_timer_get_repeat s;
  due_range s : 0 ≤ uv_timer_get_due_in s;
  expire_active s : uv_is_active s = true → uv_timer_get_repeat s ≠ 0 → uv_is_active (uv_expire s) = true;
  expire_repeat s : uv_timer_get_repeat (uv_expire s) = uv_timer_get_repeat s
}.

(** ** The timer *)

Section Timer.
Context {S C : Type} `{UvTimer S}.

(** [_paused_due_in], [Handle::_weak], [event], [_listener]; [fired]: the callbacks
    called so far, a ghost. *)
Record timer := mkTimer {
  lib : S; _paused_due_in : Z; _weak : bool; event : list C; _listener : option C; fired : list C
}.

Definition UINT64_MAX : Z := 2 ^ 64 - 1.

(** [Timer::Timer]; the state of libuv is that after [uv_timer_init]. *)
Definition new_timer (s : S) : timer := mkTimer s UINT64_MAX false [] None [].

Definition with_lib (f : S → S) (t : timer) : timer :=
  mkTimer (f (lib t)) (_paused_due_in t) (_weak t) (event t) (_listener t) (fired t).
Definition with_paused (n : Z) (t : timer) : timer :=
  mkTimer (lib t) n (_weak t) (event t) (_listener t) (fired t).
Definition add_event (cb : option C) (t : timer) : timer :=
  mkTimer (lib t) (_paused_due_in t) (_weak t)
    (match cb with Some c => event t ++ [c] | None => event t end) (_listener t) (fired t).
Definition event_listener (l : option C) (t : timer) : timer :=
  mkTimer (lib t) (_paused_due_in t) (_weak t) (event t) l (fired t).

(** [UVTimer::start]: libuv takes the time before the interval. *)
Definition impl_start (repeat initial : Z) (s : S) : S := uv_timer_start initial repeat s.

Definition active (t : timer) : bool := uv_is_active (lib t).
Definition repeat (t : timer) : Z := uv_timer_get_repeat (lib t).
Definition set_repeat (n : Z) : timer → timer := with_lib (uv_timer_set_repeat n).
Definition due_in (t : timer) : Z := uv_timer_get_due_in (lib t).

Definition start (repeat initial : Z) (cb : option C) (t : timer) : timer :=
  with_lib (impl_start repeat initial) (with_lib uv_update_time (add_event cb t)).
Definition once (initial : Z) (cb : option C) : timer → timer := start 0 initial cb.
Definition start_repeat_only (repeat : Z) (cb : option C) : timer → timer := start repeat repeat cb.

(** [Timer::create], [create_once] *)
Definition create (repeat : Z) (cb : option C) (s : S) : timer := start_repeat_only repeat cb (new_timer s).
Definition create_once (initial : Z) (cb : option C) (s : S) : timer := once initial cb (new_timer s).

Definition stop (t : timer) : timer := with_paused UINT64_MAX (with_lib uv_timer_stop t).

Definition pause (t : timer) : timer :=
  if negb (active t) then t else
  let t := with_lib uv_update_time t in
  with_lib uv_timer_stop (with_paused (due_in t) t).

Definition again (t : timer) : timer * option error_code :=
  let t := with_lib uv_update_time t in
  let (s, err) := uv_timer_again (lib t) in (with_lib (λ _, s) t, uvx_ce err).

Definition resume (t : timer) : timer * option error_code :=
  if active t || (_paused_due_in t =? UINT64_MAX) then (t, Some (Std invalid_argument)) else
  let t := with_lib uv_update_time t in
  let rpt := repeat t in
  let t := if rpt =? 0 then once (_paused_due_in t) None t else start rpt (_paused_due_in t) None t in
  (with_paused UINT64_MAX t, None).

(** [Handle::weak] with [UVHandle::set_weak] and [unset_weak] *)
Definition weak (value : bool) (t : timer) : timer :=
  if decide (_weak t = value) then t else
  mkTimer (uv_set_ref (negb value) (lib t)) (_paused_due_in t) value (event t) (_listener t) (fired t).

Definition reset (t : timer) : timer := with_lib uv_timer_stop t.
Definition clear (t : timer) : timer :=
  let t := weak false (with_lib uv_timer_stop t) in
  mkTimer (lib t) (_paused_due_in t) (_weak t) [] None (fired t).

(** The callbacks in the order they are called, for callbacks that leave the timer
    alone. *)
Definition handle_timer (t : timer) : timer :=
  mkTimer (lib t) (_paused_due_in t) (_weak t) (event t) (_listener t)
    (fired t ++ event t ++ match _listener t with Some l => [l] | None => [] end).
Definition call_now : timer → timer := handle_timer.

(** The loop reaches the time of the timer: [UVTimer::_call]. *)
Definition _call (t : timer) : timer := handle_timer (with_lib uv_expire t).

(** *** Sequences of calls *)

Inductive top :=
| Start (repeat initial : Z) (cb : option C) | Stop | Pause | Again | Resume
| SetRepeat (n : Z) | SetWeak (b : bool) | Listener (l : option C) | CallNow
| ResetTimer | ClearTimer | Expire | UpdateTime.

Definition tstep (o : top) (t : timer) : timer :=
  match o with
  | Start r i cb => start r i cb t
  | Stop => stop t
  | Pause => pause t
  | Again => (again t).1
  | Resume => (resume t).1
  | SetRepeat n => set_repeat n t
  | SetWeak b => weak b t
  | Listener l => event_listener l t
  | CallNow => call_now t
  | ResetTimer => reset t
  | ClearTimer => clear t
  | Expire => _call t
  | UpdateTime => with_lib uv_update_time t
  end.
Definition trun (os : list top) (t : timer) : timer := fold_left (λ t o, tstep o t) os t.

(** The calls that have nothing to do with the time of the timer. *)
Definition quiet (o : top) : bool :=
  match o with Pause | SetWeak _ | Listener _ | CallNow | UpdateTime => true | _ => false end.
End Timer.

Arguments timer : clear implicits.
Arguments top : clear implicits.

(** ** Lemmas *)

Section Lemmas.
#[local] Set Default Proof Using "Type*".
Context {S C : Type} `{UvTimerLaws S}.
Implicit Types t : timer S C.

(** A timer that is paused with [left] to go. *)
Definition paused (left rpt : Z) t : Prop :=
  active t = false ∧ _paused_due_in t = left ∧ repeat t = rpt.

Lemma pause_paused t :
  active t = true →
  paused (uv_timer_get_due_in (uv_update_time (lib t))) (repeat t) (pause t).
Proof.
  intros Ha. unfold pause, paused, active, repeat in *. rewrite Ha. simpl.
  by rewrite stop_active, stop_repeat, update_repeat.
Qed.

Lemma quiet_paused o left rpt t : quiet o = true → paused left rpt t → paused left rpt (tstep o t).
Proof.
  intros Ho (Ha & Hp & Hr). destruct o; try done; simpl.
  - unfold pause. by rewrite Ha.
  - unfold weak. case_decide; [done|]. unfold paused, active, repeat in *. simpl.
    by rewrite set_ref_active, set_ref_repeat.
  - unfold paused, active, repeat in *. simpl. by rewrite update_active, update_repeat.
Qed.

Lemma quiet_run_paused os left rpt t :
  forallb quiet os = true → paused left rpt t → paused left rpt (trun os t).
Proof.
  revert t. induction os as [|o os IH]; intros t Hq Hp; [done|].
  simpl in Hq. apply andb_true_iff in Hq as [Ho Hq]. by apply IH, quiet_paused.
Qed.

Lemma resume_paused left rpt t :
  paused left rpt t → left ≠ UINT64_MAX →
  let s := uv_update_time (uv_update_time (lib t)) in
  ∃ t', resume t = (t', None) ∧ lib t' = uv_timer_start left rpt s ∧ _paused_due_in t' = UINT64_MAX.
Proof.
  intros (Ha & Hp & Hr) Hl s. unfold resume. rewrite Ha, Hp.
  destruct (Z.eqb_spec left UINT64_MAX); [done|].
  assert (repeat (with_lib uv_update_time t) = rpt) as ->.
  { unfold repeat in *. simpl. by rewrite update_repeat. }
  eexists. split; [done|]. simpl. rewrite Hp.
  destruct (Z.eqb_spec rpt 0) as [->|]; by split.
Qed.

Lemma resume_not_paused t :
  active t = true ∨ _paused_due_in t = UINT64_MAX → resume t = (t, Some (Std invalid_argument)).
Proof. intros Ht. unfold resume. destruct Ht as [-> | ->]; [done|]. rewrite Z.eqb_refl. by destruct (active t). Qed.
End Lemmas.

(** ** Properties *)

(** A timer that was paused goes on when it is resumed: the time that was left
    at the pause is left again, and the interval is the same, whatever time passes and
    however often it is paused, called by hand or made weak in between; resuming it
    twice is an error that changes nothing. *)
Theorem timer_pause_resume {S C : Type} `{UvTimerLaws S} (t : timer S C) (os : list (top C)) :
  active t = true → forallb quiet os = true →
  let t1 := trun os (pause t) in
  let left := uv_timer_get_due_in (uv_update_time (lib t)) in
  left < UINT64_MAX → uv_now (uv_update_time (uv_update_time (lib t1))) + left < 2 ^ 64 →
  ∃ t2, resume t1 = (t2, None) ∧ active t2 = true ∧ due_in t2 = left ∧ repeat t2 = repeat t ∧
    resume t2 = (t2, Some (Std invalid_argument)).
Proof.
  intros Ha Hq t1 left Hmax Hnow.
  assert (paused left (repeat t) t1) as Hp by by apply quiet_run_paused, pause_paused.
  pose proof (due_range (uv_update_time (lib t))) as Hpos. fold left in Hpos.
  destruct (resume_paused left (repeat t) t1 Hp) as (t2 & H2 & Hlib & Hm); [lia|]. exists t2.
  unfold active, due_in, repeat at 1. rewrite Hlib, start_active, start_due, start_repeat by done.
  split_and!; try done. apply resume_not_paused. by right.
Qed.

(** ** Witnesses *)

(** A libuv whose clock advances by one each time it is looked at. *)
Record ex_uv := mkExUv { ex_now : Z; ex_due : option Z; ex_repeat : Z }.
#[export] Instance ex_timer : UvTimer ex_uv := {|
  uv_update_time s := mkExUv (ex_now s + 1) (ex_due s) (ex_repeat s);
  uv_timer_start t r s := mkExUv (ex_now s) (Some (ex_now s + t)) r;
  uv_timer_stop s := mkExUv (ex_now s) None (ex_repeat s);
  uv_timer_again s := (s, None);
  uv_timer_get_repeat := ex_repeat;
  uv_timer_set_repeat n s := mkExUv (ex_now s) (ex_due s) n;
  uv_timer_get_due_in s := match ex_due s with Some d => Z.max 0 (d - ex_now s) | None => 0 end;
  uv_is_active s := bool_decide (is_Some (ex_due s));
  uv_set_ref _ s := s;
  uv_now s := ex_now s;
  uv_expire s := mkExUv (ex_now s) (if ex_repeat s =? 0 then None else Some (ex_now s + ex_repeat s)) (ex_repeat s)
|}.
#[export] Instance ex_timer_laws : UvTimerLaws ex_uv.
Proof.
  split; try done; intros; simpl in *; [lia|case_match; lia|].
  destruct (Z.eqb_spec (ex_repeat s) 0); [done|by vm_compute].
Qed.

#[local] Definition ex_running : timer ex_uv unit := create 100 (Some tt) (mkExUv 0 None 0).

Lemma timer_pause_resume_witness :
  let os := [UpdateTime; CallNow; Pause; UpdateTime] in
  ∃ t2, resume (trun os (pause ex_running)) = (t2, None) ∧ active t2 = true ∧ due_in t2 = 99 ∧
    repeat t2 = 100 ∧ resume t2 = (t2, Some (Std invalid_argument)).
Proof.
  intros os. assert (uv_timer_get_due_in (uv_update_time (lib ex_running)) = 99 ∧ repeat ex_running = 100)
    as [<- <-] by by vm_compute.
  by apply (timer_pause_resume ex_running os); vm_compute.
Defined.

(** ** What the code does not do *)

(** [start()], [reset()] and [clear()] leave the remembered pause: a timer that was
    started anew after it, and has fired once and for all, or that was reset, can still
    be resumed. *)
Lemma timer_resume_stale :
  (let t := trun [Pause; Start 0 5 None; Expire] ex_running in
   active t = false ∧ (resume t).2 = None ∧ due_in (resume t).1 = 99) ∧
  (let t := trun [Pause; ResetTimer] ex_running in active t = false ∧ (resume t).2 = None) ∧
  (let t := trun [Pause; ClearTimer] ex_running in active t = false ∧ (resume t).2 = None).
Proof. by vm_compute. Qed.
