(* ===== verification/FsPoll.v ===== *)
(** Watching a path by polling: [FsPoll.h], [FsPoll.cc].

    A watch asks for the status of its path at every tick of its timer, through one
    file system request, and tells its user when the status has changed.  A request
    that the thread pool has already taken cannot be cancelled: its answer may come
    after the watch was stopped, and even after it was started for another path.

    The timer is that of [Timer.v], a stat request is represented by its identity:
    what the request does is in [Fs.v]. *)
From S2P Require Import Prelude Errors Fs Timer.
#[local] Open Scope Z_scope.

(** ** Data *)

(** The calls of user code: [poll_event] and [on_fs_poll], [start_event] and
    [on_fs_start]. *)
Inductive pevent :=
| OnPoll (prev cur : option FStat) (err : option error_code)
| OnStart (cur : option FStat) (err : option error_code).

(** What callbacks call; the flag: a request in flight can still be cancelled. *)
Inductive papi := PStart (p : path) (interval : Z) | PStop (can : bool).

(** A ghost record of what happened: the starts, the stops, and the answers, each with
    the number of the start that its request was made after. *)
Inductive ghost := TStart | TStop | TAnswer (n : nat) (res : FStat + error_code).

Section FsPoll.
Context {S : Type} `{UvTimer S}.

(** The calls that the user's callbacks make. *)
Context (user : list pevent → pevent → list papi).

(** [in_flight]: the active requests, with the start they were made after;
    [alive]: the object is not destroyed, which [wself.lock()] tests; [starts]: how
    many starts there were (ghost). *)
Record fspoll := mkPoll {
  poll_timer : timer S unit;
  fsr : nat;
  in_flight : gmap nat nat;
  new_fsr : nat;
  _path : path;
  prev : FStat;
  prev_err : option error_code;
  fetched : bool;
  alive : bool;
  elog : list pevent;
  starts : nat;
  history : list ghost
}.

Definition with_timer (t : timer S unit) (s : fspoll) : fspoll :=
  mkPoll t (fsr s) (in_flight s) (new_fsr s) (_path s) (prev s) (prev_err s) (fetched s) (alive s)
    (elog s) (starts s) (history s).
Definition with_fsr (r : nat) (m : gmap nat nat) (n : nat) (s : fspoll) : fspoll :=
  mkPoll (poll_timer s) r m n (_path s) (prev s) (prev_err s) (fetched s) (alive s)
    (elog s) (starts s) (history s).
Definition with_path (p : path) (s : fspoll) : fspoll :=
  mkPoll (poll_timer s) (fsr s) (in_flight s) (new_fsr s) p (prev s) (prev_err s) (fetched s) (alive s)
    (elog s) (starts s) (history s).
Definition with_prev (f : FStat) (s : fspoll) : fspoll :=
  mkPoll (poll_timer s) (fsr s) (in_flight s) (new_fsr s) (_path s) f (prev_err s) (fetched s) (alive s)
    (elog s) (starts s) (history s).
Definition with_prev_err (e : option error_code) (s : fspoll) : fspoll :=
  mkPoll (poll_timer s) (fsr s) (in_flight s) (new_fsr s) (_path s) (prev s) e (fetched s) (alive s)
    (elog s) (starts s) (history s).
Definition with_fetched (b : bool) (s : fspoll) : fspoll :=
  mkPoll (poll_timer s) (fsr s) (in_flight s) (new_fsr s) (_path s) (prev s) (prev_err s) b (alive s)
    (elog s) (starts s) (history s).
Definition note (e : pevent) (s : fspoll) : fspoll :=
  mkPoll (poll_timer s) (fsr s) (in_flight s) (new_fsr s) (_path s) (prev s) (prev_err s) (fetched s) (alive s)
    (elog s ++ [e]) (starts s) (history s).
Definition record (g : ghost) (s : fspoll) : fspoll :=
  mkPoll (poll_timer s) (fsr s) (in_flight s) (new_fsr s) (_path s) (prev s) (prev_err s) (fetched s) (alive s)
    (elog s) (match g with TStart => Datatypes.S (starts s) | _ => starts s end) (history s ++ [g]).

(** [FStat()] *)
Definition no_stat : FStat :=
  let t := mkTimeSpec 0 0 in mkFStat 0 0 0 0 0 0 0 0 0 0 0 0 t t t t.

(** [FsPoll::FsPoll] *)
Definition new_fspoll (t : S) : fspoll :=
  mkPoll (new_timer t) 0 ∅ 1 [] no_stat None false true [] 0 [].

(** [fsr->active()] *)
Definition fsr_active (s : fspoll) : bool := bool_decide (is_Some (in_flight s !! fsr s)).

(** [do_stat], up to the callback of the request *)
Definition do_stat (s : fspoll) : fspoll :=
  with_fsr (fsr s) (<[fsr s := starts s]> (in_flight s)) (new_fsr s) s.

(** The function called by the timer. *)
Definition on_tick (s : fspoll) : fspoll := if fsr_active s then s else do_stat s.

(** [FsPoll::start]; [None]: it throws. *)
Definition start (p : path) (interval : Z) (s : fspoll) : option fspoll :=
  if active (poll_timer s) then None else
  let s := with_path p (record TStart s) in
  let s := with_timer (start_repeat_only interval None (poll_timer s)) s in
  let s := if fsr_active s then with_fsr (new_fsr s) (in_flight s) (Datatypes.S (new_fsr s)) s else s in
  Some (do_stat s).

(** The first lines of the callback of a request: its answer is not looked at. *)
Definition ignored (r : nat) (s : fspoll) : bool :=
  negb (alive s) || negb (active (poll_timer s)) || negb (bool_decide (fsr s = r)).

(** [fsr->cancel()] calls the callback of the request at once, if it can be cancelled;
    the timer is stopped by then, and the callback does nothing. *)
Definition cancel_fsr (can : bool) (s : fspoll) : fspoll :=
  if fsr_active s && can && ignored (fsr s) s
  then with_fsr (fsr s) (delete (fsr s) (in_flight s)) (new_fsr s) s else s.

Definition stop (can : bool) (s : fspoll) : fspoll :=
  if negb (active (poll_timer s)) then s else
  let s := record TStop (with_timer (Timer.stop (poll_timer s)) s) in
  let s := with_prev no_stat s in
  with_fetched false (cancel_fsr can s).

Definition call (s : fspoll) (a : papi) : fspoll :=
  match a with
  | PStart p i => default s (start p i s)    (* an exception of [start] is the user's *)
  | PStop can => stop can s
  end.

Definition notify (prev cur : option FStat) (err : option error_code) (s : fspoll) : fspoll :=
  let e := OnPoll prev cur err in fold_left call (user (elog s) e) (note e s).
Definition initial_notify (cur : option FStat) (err : option error_code) (s : fspoll) : fspoll :=
  let e := OnStart cur err in fold_left call (user (elog s) e) (note e s).

(** The callback of the stat request [r]. *)
Definition on_stat (r : nat) (res : FStat + error_code) (s : fspoll) : fspoll :=
  if ignored r s then s else
  let prev_opt := match prev_err s with None => Some (prev s) | Some _ => None end in
  let s :=
    match res with
    | inr err =>
        if decide (Some err = prev_err s) then s else
        let s := with_prev_err (Some err) s in
        let s := if fetched s then s else initial_notify None (Some err) s in
        notify prev_opt None (Some err) s
    | inl stat =>
        if negb (fetched s) || negb (bool_decide (prev s = stat)) then
          let s := if fetched s then notify prev_opt (Some stat) None s
                   else initial_notify (Some stat) None s in
          with_prev stat s
        else s
    end in
  with_fetched true s.

(** The request ends: it is not active any more when its callback is called. *)
Definition stat_done (r : nat) (res : FStat + error_code) (s : fspoll) : fspoll :=
  match in_flight s !! r with
  | Some n =>
      let s := with_fsr (fsr s) (delete r (in_flight s)) (new_fsr s) s in
      on_stat r res (record (TAnswer n res) s)
  | None => s
  end.

Definition reset (can : bool) (s : fspoll) : fspoll := stop can s.
Definition clear (can : bool) (s : fspoll) : fspoll :=
  let s := stop can s in with_timer (weak false (poll_timer s)) s.
Definition poll_weak (value : bool) (s : fspoll) : fspoll := with_timer (weak value (poll_timer s)) s.

(** [~FsPoll]: the timer goes with the object. *)
Definition destroy (s : fspoll) : fspoll :=
  let s := record TStop s in
  mkPoll (Timer.stop (poll_timer s)) (fsr s) (in_flight s) (new_fsr s) (_path s) (prev s) (prev_err s)
    (fetched s) false (elog s) (starts s) (history s).

(** *** The world: the user between two turns of the loop, the timer, the threads. *)
Inductive pin :=
| UserStart (p : path) (interval : Z) | UserStop (can : bool) | UserClear (can : bool)
| UserWeak (b : bool) | Delete | Tick | Done (r : nat) (res : FStat + error_code).

(** The loop calls back only a timer that is active; a deleted object is not used. *)
Definition pstep (i : pin) (s : fspoll) : fspoll :=
  match i with
  | Done r res => stat_done r res s
  | _ => if negb (alive s) then s else
    match i with
    | UserStart p n => call s (PStart p n)
    | UserStop can => stop can s
    | UserClear can => clear can s
    | UserWeak b => poll_weak b s
    | Tick => if active (poll_timer s) then on_tick (with_timer (_call (poll_timer s)) s) else s
    | _ => destroy s
    end
  end.
Definition prun (l : list pin) (s : fspoll) : fspoll := fold_left (λ s i, pstep i s) l s.
End FsPoll.

(** ** The specification *)

(** A watch is idle, or was started and has seen a status or not yet; [n]: the number
    of starts so far.  Only the answers to requests made since the last start count. *)
Inductive watch := Idle | Watching (seen : option FStat).

Definition wstep (w : nat * watch) (g : ghost) : (nat * watch) * list pevent :=
  let (n, st) := w in
  match g, st with
  | TStart, _ => ((S n, Watching None), [])
  | TStop, _ => ((n, Idle), [])
  | TAnswer m (inl cur), Watching seen =>
      if decide (m = n) then
        match seen with
        | None => ((n, Watching (Some cur)), [OnStart (Some cur) None])
        | Some old =>
            if decide (old = cur) then (w, [])
            else ((n, Watching (Some cur)), [OnPoll (Some old) (Some cur) None])
        end
      else (w, [])
  | _, _ => (w, [])
  end.

Fixpoint wrun (w : nat * watch) (gs : list ghost) : (nat * watch) * list pevent :=
  match gs with
  | [] => (w, [])
  | g :: gs => let (w, e) := wstep w g in let (w, es) := wrun w gs in (w, e ++ es)
  end.

(** ** Lemmas *)

Definition quiet_user (_ : list pevent) (_ : pevent) : list papi := [].

(** Inputs of a user who polls at a positive interval, on a path whose status can be had. *)
Definition good_input (i : pin) : Prop :=
  match i with UserStart _ n => n ≠ 0 | Done _ (inr _) => False | _ => True end.

Section Lemmas.
#[local] Set Default Proof Using "Type*".
Context {S : Type} `{UvTimerLaws S}.
Implicit Types (s : fspoll (S := S)).

(** The state of the watch that the fields of the object stand for. *)
Definition watch_of s : watch :=
  if alive s && active (poll_timer s) then Watching (if fetched s then Some (prev s) else None) else Idle.

Record poll_ok s : Prop := {
  ok_wrun : wrun (0%nat, Idle) (history s) = ((starts s, watch_of s), elog s);
  ok_err : prev_err s = None;
  ok_idle : alive s = true → active (poll_timer s) = false → fetched s = false;
  ok_dead : alive s = false → active (poll_timer s) = false;
  ok_repeat : active (poll_timer s) = true → repeat (poll_timer s) ≠ 0;
  (* the request of the object was made after the last start, all others before *)
  ok_fsr n : active (poll_timer s) = true → in_flight s !! fsr s = Some n → n = starts s;
  ok_old r n : in_flight s !! r = Some n → r ≠ fsr s → active (poll_timer s) = true → n ≠ starts s;
  ok_past r n : in_flight s !! r = Some n → (n ≤ starts s)%nat;
  ok_new r : is_Some (in_flight s !! r) → (r < new_fsr s)%nat;
  ok_fsr_new : (fsr s < new_fsr s)%nat
}.

Lemma wrun_snoc w gs g :
  wrun w (gs ++ [g]) = let (w, e) := wrun w gs in let (w, e') := wstep w g in (w, e ++ e').
Proof.
  revert w. induction gs as [|g' gs IH]; intros w; cbn [wrun app].
  - destruct (wstep w g). by rewrite app_nil_r.
  - destruct (wstep w g') as [w1 e1]. rewrite IH. destruct (wrun w1 gs) as [w2 e2].
    destruct (wstep w2 g) as [w3 e3]. by rewrite app_assoc.
Qed.

Lemma new_fspoll_ok t : uv_is_active t = false → poll_ok (new_fspoll t).
Proof.
  intros Ht. split; simpl; try done; try lia.
  - unfold watch_of, active. simpl. by rewrite Ht.
  - unfold active. simpl. congruence.
  - intros r [? Hr]. by rewrite lookup_empty in Hr.
Qed.

Lemma timer_started n (t : timer S unit) :
  n ≠ 0 → active (start_repeat_only n None t) = true ∧ repeat (start_repeat_only n None t) ≠ 0.
Proof.
  intros Hn. unfold active, repeat. simpl. unfold impl_start. by rewrite start_active, start_repeat.
Qed.

Lemma timer_stopped (t : timer S unit) : active (Timer.stop t) = false.
Proof. unfold active. simpl. apply stop_active. Qed.

Lemma timer_weak b (t : timer S unit) :
  active (weak b t) = active t ∧ repeat (weak b t) = repeat t.
Proof.
  unfold weak. case_decide; [done|]. unfold active, repeat. simpl.
  by rewrite set_ref_active, set_ref_repeat.
Qed.

Lemma timer_expired (t : timer S unit) :
  active t = true → repeat t ≠ 0 → active (_call t) = true ∧ repeat (_call t) = repeat t.
Proof.
  unfold active, repeat. simpl. intros Ha Hr. by rewrite expire_active, expire_repeat.
Qed.

(** A request for the status is made: one at a time. *)
Lemma do_stat_ok s :
  poll_ok s → in_flight s !! fsr s = None → active (poll_timer s) = true → poll_ok (do_stat s).
Proof.
  intros [] Hf Ha. split; simpl; try done.
  - intros n _. rewrite lookup_insert_eq. congruence.
  - intros r n. destruct (decide (r = fsr s)) as [->|]; [done|]. rewrite lookup_insert_ne by done. eauto.
  - intros r n. destruct (decide (r = fsr s)) as [->|]; [rewrite lookup_insert_eq|rewrite lookup_insert_ne by done; eauto].
    intros. simplify_eq. done.
  - intros r. destruct (decide (r = fsr s)) as [->|]; [done|]. rewrite lookup_insert_ne by done. eauto.
Qed.

(** What a change of the timer that keeps it running, or keeps it stopped, needs. *)
Lemma with_timer_ok t s :
  poll_ok s → active t = active (poll_timer s) → repeat t = repeat (poll_timer s) → poll_ok (with_timer t s).
Proof.
  intros [] Ha Hr. split; simpl; rewrite ?Ha, ?Hr; try done.
  unfold watch_of in *. simpl. by rewrite Ha.
Qed.

Lemma start_ok p n s s' :
  poll_ok s → alive s = true → n ≠ 0 → start p n s = Some s' → poll_ok s'.
Proof.
  intros Hs Hal Hn. unfold start. destruct (active (poll_timer s)) eqn:Ha; [done|]. intros [= <-].
  destruct (timer_started n (poll_timer s) Hn) as [Ht Hr].
  set (s1 := with_timer (start_repeat_only n None (poll_timer s)) (with_path p (record TStart s))).
  change (start_repeat_only n None (poll_timer (with_path p (record TStart s))))
    with (start_repeat_only n None (poll_timer s)). fold s1.
  assert (fetched s = false) as Hfe by by apply ok_idle.
  assert (wrun (0%nat, Idle) (history s1) = ((starts s1, watch_of s1), elog s1)) as Hw.
  { simpl. rewrite wrun_snoc, ok_wrun by done. simpl. unfold watch_of. simpl.
    by rewrite Hal, Ht, Hfe, app_nil_r. }
  assert (∀ r k, in_flight s !! r = Some k → (k < starts s1)%nat) as Hpast.
  { intros r k Hk. simpl. pose proof (ok_past s Hs r k Hk). lia. }
  destruct Hs. unfold fsr_active. case_bool_decide as Hact; apply do_stat_ok; try done.
  - split; simpl; try done; try (by intros; congruence).
    + intros k _ Hk. pose proof (ok_new0 (new_fsr s) (mk_is_Some _ _ Hk)). lia.
    + intros r k Hk _ _ ->. apply Hpast in Hk. simpl in Hk. lia.
    + intros r k Hk. apply Hpast in Hk. simpl in Hk. lia.
    + intros r Hk. pose proof (ok_new0 r Hk). lia.
    + lia.
  - simpl. destruct (in_flight s !! new_fsr s) eqn:E; [|done]. pose proof (ok_new0 (new_fsr s) (mk_is_Some _ _ E)). lia.
  - assert (in_flight s !! fsr s = None) as Hn' by (by apply eq_None_not_Some).
    split; simpl; try done; try (by intros; congruence).
    + intros r k Hk _ _ ->. apply Hpast in Hk. simpl in Hk. lia.
    + intros r k Hk. apply Hpast in Hk. simpl in Hk. lia.
  - by apply eq_None_not_Some.
Qed.

Lemma stop_timer_ok t s :
  poll_ok s → active t = false →
  poll_ok (with_fetched false (with_prev no_stat (record TStop (with_timer t s)))).
Proof.
  intros [] Ht. split; simpl; try done; try congruence.
  rewrite wrun_snoc, ok_wrun0. unfold watch_of. simpl. rewrite Ht, andb_false_r, app_nil_r.
  by destruct (alive s && active (poll_timer s)).
Qed.

Lemma forget_ok r s : poll_ok s → poll_ok (with_fsr (fsr s) (delete r (in_flight s)) (new_fsr s) s).
Proof.
  intros []. split; simpl; try done.
  - intros n Ha Hn%lookup_delete_Some. naive_solver.
  - intros r' n Hn%lookup_delete_Some. naive_solver.
  - intros r' n Hn%lookup_delete_Some. naive_solver.
  - intros r' [n Hn%lookup_delete_Some]. naive_solver.
Qed.

Lemma stop_ok can s : poll_ok s → poll_ok (stop can s).
Proof.
  intros Hs. unfold stop. destruct (active (poll_timer s)) eqn:Ha; [|done]. simpl.
  pose proof (stop_timer_ok (Timer.stop (poll_timer s)) s Hs (timer_stopped _)) as Hs1.
  unfold cancel_fsr. case_match; [|done]. by apply (forget_ok (fsr s)) in Hs1.
Qed.

Lemma answer_ok r n cur s :
  poll_ok s → in_flight s !! r = Some n → poll_ok (stat_done quiet_user r (inl cur) s).
Proof.
  intros Hs Hr. unfold stat_done. rewrite Hr.
  pose proof (forget_ok r s Hs) as Hs1. set (s1 := with_fsr _ _ _ s) in *.
  assert (∀ w es, wstep (starts s, watch_of s) (TAnswer n (inl cur)) = (w, es) →
    wrun (0%nat, Idle) (history s ++ [TAnswer n (inl cur)]) = (w, elog s ++ es)) as Hw.
  { intros w es Hst. rewrite wrun_snoc, ok_wrun by done. by rewrite Hst. }
  unfold on_stat, ignored. simpl.
  destruct (alive s && active (poll_timer s) && bool_decide (fsr s = r)) eqn:Hc.
  - apply andb_true_iff in Hc as [[Hal Ha]%andb_true_iff Hf%bool_decide_eq_true].
    rewrite Hal, Ha, bool_decide_true by done. simpl.
    assert (n = starts s) as -> by (apply (ok_fsr s Hs); [done|congruence]).
    unfold watch_of in Hw. rewrite Hal, Ha in Hw. cbn [wstep andb] in Hw. rewrite decide_True in Hw by done.
    destruct (fetched s) eqn:Hfe; simpl.
    + case_bool_decide as Hp; simpl.
      * rewrite decide_True in Hw by done. specialize (Hw _ _ eq_refl). rewrite app_nil_r in Hw.
        destruct Hs1. split; simpl; try done; try congruence. unfold watch_of. simpl. by rewrite Hal, Ha.
      * rewrite decide_False in Hw by done. specialize (Hw _ _ eq_refl).
        assert (prev_err s = None) as -> by apply Hs.
        destruct Hs1. split; simpl; try done; try congruence. unfold watch_of. simpl. by rewrite Hal, Ha.
    + specialize (Hw _ _ eq_refl).
      destruct Hs1. split; simpl; try done; try congruence. unfold watch_of. simpl. by rewrite Hal, Ha.
  - assert (negb (alive s) || negb (active (poll_timer s)) || negb (bool_decide (fsr s = r)) = true) as ->.
    { rewrite <-!negb_andb. by rewrite Hc. }
    assert (wstep (starts s, watch_of s) (TAnswer n (inl cur)) = ((starts s, watch_of s), [])) as E.
    { unfold watch_of. destruct (alive s && active (poll_timer s)) eqn:Haa; [|done].
      apply andb_true_iff in Haa as [Hal Ha]. simpl in Hc. apply bool_decide_eq_false in Hc.
      simpl. rewrite decide_False; [done|]. apply (ok_old s Hs r n); [done|congruence|done]. }
    specialize (Hw _ _ E). rewrite app_nil_r in Hw. destruct Hs1. by split.
Qed.

Lemma pstep_ok i s : poll_ok s → good_input i → poll_ok (pstep quiet_user i s).
Proof.
  intros Hs Hg.
  destruct i as [p n|can|can|b| | |r res]; unfold pstep; try (destruct (alive s) eqn:Hal; [simpl|done]).
  - destruct (start p n s) as [s'|] eqn:E; [|done]. by eapply start_ok.
  - by apply stop_ok.
  - apply (stop_ok can) in Hs. destruct (timer_weak false (poll_timer (stop can s))).
    by apply with_timer_ok.
  - destruct (timer_weak b (poll_timer s)). by apply with_timer_ok.
  - pose proof (stop_timer_ok (Timer.stop (poll_timer s)) s Hs (timer_stopped _)) as Hs1.
    destruct Hs, Hs1. unfold destroy. split; simpl in *; try done.
    + unfold watch_of in *. simpl in *. rewrite timer_stopped, andb_false_r in *. done.
    + intros _. apply timer_stopped.
  - destruct (active (poll_timer s)) eqn:Ha; [|done].
    destruct (timer_expired (poll_timer s) Ha) as [Ht Hr]; [by apply Hs|].
    assert (poll_ok (with_timer (_call (poll_timer s)) s)) as Hs1 by (apply with_timer_ok; congruence).
    unfold on_tick, fsr_active. case_bool_decide as Hb; [done|].
    apply do_stat_ok; [done|by apply eq_None_not_Some|done].
  - destruct res as [cur|e]; [|done]. destruct (in_flight s !! r) as [n|] eqn:Hr.
    + by eapply answer_ok.
    + unfold stat_done. by rewrite Hr.
Qed.

Lemma prun_ok l s : poll_ok s → Forall good_input l → poll_ok (prun quiet_user l s).
Proof.
  revert s. induction l as [|i l IH]; intros s Hs Hl; [done|].
  apply Forall_cons in Hl as [Hi Hl]. by apply IH; [apply pstep_ok|].
Qed.
End Lemmas.

(** ** Properties *)

(** C36: A watch tells its user what the specification says: after each start the first
    status that was asked for since then, and after that every status that differs from
    the one before, with both; nothing while it is stopped or after it is deleted, and
    nothing of the answers to requests made before the last start, however late they
    come and in whatever order ticks, starts, stops and answers follow each other. This
    for a user whose callbacks call nothing, who polls at an interval that is not zero, on
    a path whose status can always be had ([good_input]); of errors it is told otherwise
    ([fspoll_recovery_not_told], [fspoll_error_not_told_again]), and a start in a callback
    and an interval of zero do something else ([fspoll_restart_in_callback],
    [fspoll_zero_interval]). *)
Theorem fspoll_reports_changes {S : Type} `{UvTimerLaws S} (t : S) (l : list pin) :
  uv_is_active t = false → Forall good_input l →
  let s := prun quiet_user l (new_fspoll t) in
  elog s = (wrun (0%nat, Idle) (history s)).2 ∧
  watch_of s = (wrun (0%nat, Idle) (history s)).1.2.
Proof.
  intros Ht Hl s. assert (poll_ok s) as Hs by by apply prun_ok; [apply new_fspoll_ok|].
  by rewrite (ok_wrun s Hs).
Qed.

(** ** Witnesses *)

#[local] Definition ex_lib : Timer.ex_uv := Timer.mkExUv 0 None 0.
#[local] Definition ex_stat (n : Z) : FStat :=
  let t := mkTimeSpec 0 0 in mkFStat 0 0 0 0 0 0 0 n 0 0 0 0 t t t t.

(** The answer to the second request comes after the watch was started again; the tick in
    between finds the request still active. *)
#[local] Definition ex_inputs : list pin :=
  [UserStart [] 10; Done 0 (inl (ex_stat 1)); Tick; Tick; Done 0 (inl (ex_stat 2));
   Tick; UserStop false; UserStart [] 10; Done 0 (inl (ex_stat 3)); Done 1 (inl (ex_stat 2));
   Tick; Done 1 (inl (ex_stat 2))].

Lemma fspoll_reports_changes_witness :
  let s := prun quiet_user ex_inputs (new_fspoll ex_lib) in
  (elog s = [OnStart (Some (ex_stat 1)) None; OnPoll (Some (ex_stat 1)) (Some (ex_stat 2)) None;
             OnStart (Some (ex_stat 2)) None]) ∧
  elog s = (wrun (0%nat, Idle) (history s)).2 ∧ watch_of s = (wrun (0%nat, Idle) (history s)).1.2.
Proof.
  split; [by vm_compute|].
  apply (fspoll_reports_changes ex_lib ex_inputs); [done|]. by repeat constructor.
Defined.

(** ** What the code does not do *)

(** [prev_err] is never cleared: an error that comes again after the path was back is
    not told, and a change is told without the status before. *)
Lemma fspoll_error_not_told_again :
  let e := Std no_such_file_or_directory in
  elog (prun quiet_user [UserStart [] 10; Done 0 (inl (ex_stat 1)); Tick; Done 0 (inr e);
          Tick; Done 0 (inl (ex_stat 2)); Tick; Done 0 (inr e)] (new_fspoll ex_lib)) =
  [OnStart (Some (ex_stat 1)) None; OnPoll (Some (ex_stat 1)) None (Some e);
   OnPoll None (Some (ex_stat 2)) None].
Proof. by vm_compute. Qed.

(** That the path is back with the status it had before the error is not told at all. *)
Lemma fspoll_recovery_not_told :
  let e := Std no_such_file_or_directory in
  elog (prun quiet_user [UserStart [] 10; Done 0 (inl (ex_stat 1)); Tick; Done 0 (inr e);
          Tick; Done 0 (inl (ex_stat 1))] (new_fspoll ex_lib)) =
  [OnStart (Some (ex_stat 1)) None; OnPoll (Some (ex_stat 1)) None (Some e)].
Proof. by vm_compute. Qed.

(** A callback that starts the watch anew is not told the first status of it: the end of
    the callback of the request overwrites what [stop] and [start] have set. *)
Lemma fspoll_restart_in_callback :
  let u (l : list pevent) (_ : pevent) := match l with [] => [PStop true; PStart [] 10] | _ => [] end in
  elog (prun u [UserStart [] 10; Done 0 (inl (ex_stat 1)); Done 0 (inl (ex_stat 1))]
          (new_fspoll ex_lib)) = [OnStart (Some (ex_stat 1)) None].
Proof. by vm_compute. Qed.

(** With an interval of zero the timer fires once and is not active when the answer comes. *)
Lemma fspoll_zero_interval :
  elog (prun quiet_user [UserStart [] 0; Tick; Done 0 (inl (ex_stat 1))] (new_fspoll ex_lib)) = [].
Proof. by vm_compute. Qed.
