(* ===== verification/Udp.v ===== *)
(** UDP: [Udp.h], [Udp.cc], [UdpImpl.h] and [UVUdp.h].

    A UDP handle is a client of the request queue: [send] puts a request into it, the
    queue executes one at a time, and the backend gives the datagram to libuv.  The
    user's code is arbitrary and may call the handle again; libuv is a parameter. *)
From S2P Require Import Prelude Machine Errors Handle Delayer Queue.
#[local] Open Scope Z_scope.

(** ** Data *)

(** [UdpImpl::Flags] *)
Definition PARTIAL : Z := 1.
Definition IPV6ONLY : Z := 2.
Definition REUSEADDR : Z := 4.
Definition MMSG_CHUNK : Z := 8.
Definition MMSG_FREE : Z := 16.
Definition RECVMMSG : Z := 256.

(** [UdpImpl::Membership] *)
Inductive Membership := LEAVE_GROUP | JOIN_GROUP.

(** The functions of libuv that the methods of [UVUdp] are: [A], a socket address. *)
Inductive uv_op (A : Type) :=
| UvOpen (sock : Z)
| UvBind (a : A) (flags : Z)
| UvConnect (a : option A)
| UvRecvStart
| UvRecvStop
| UvSetMembership (multicast interface : string) (m : Z)
| UvSetSourceMembership (multicast interface source : string) (m : Z)
| UvSetMulticastLoop (on : bool)
| UvSetMulticastTtl (ttl : Z)
| UvSetMulticastInterface (interface : string)
| UvSetBroadcast (on : bool)
| UvSetTtl (ttl : Z)
| UvRecvBufferSize (value : Z)
| UvSendBufferSize (value : Z).
Arguments UvOpen {A}.
Arguments UvBind {A}.
Arguments UvConnect {A}.
Arguments UvRecvStart {A}.
Arguments UvRecvStop {A}.
Arguments UvSetMembership {A}.
Arguments UvSetSourceMembership {A}.
Arguments UvSetMulticastLoop {A}.
Arguments UvSetMulticastTtl {A}.
Arguments UvSetMulticastInterface {A}.
Arguments UvSetBroadcast {A}.
Arguments UvSetTtl {A}.
Arguments UvRecvBufferSize {A}.
Arguments UvSendBufferSize {A}.

(** The bits and numbers of the system and of libuv that the code combines. *)
Class UvUdp (S B A : Type) `{UvCore S B} := {
  UV_UDP_IPV6ONLY : Z;
  UV_UDP_REUSEADDR : Z;
  UV_UDP_RECVMMSG : Z;
  UV_LEAVE_GROUP : Z;
  UV_JOIN_GROUP : Z;
  AF_UNSPEC : Z;
  AF_INET6 : Z;
  uv_udp_init_ex : Z → S → S * (B + uv_errno);
  uv_udp_call : uv_op A → B → S → S * option uv_errno;
  uv_udp_send : B → rid → list string → option A → S → S * option uv_errno;
  uv_send_queue_size : B → S → Z;
  sa_unspec : A → bool;                    (* [addr.family() == AF_UNSPEC] *)
  sa_bool : A → bool;
  sa_any4 : Z → A;                         (* [Inet4::addr_any] with a port *)
  sa_any6 : Z → A
}.

(** [SendRequest]; [u_impl]: the backend's request, and its [UVRequest::active]. *)
Record ureq (A : Type) := mkUreq { u_bufs : list string; u_addr : A; u_impl : option bool }.
Arguments mkUreq {A}.
Arguments u_bufs {A}.
Arguments u_addr {A}.
Arguments u_impl {A}.

(** The methods that user code calls. [NewRequest] is the constructor of a request.
    The system's duplicate of a shared socket, or its error, which [sock_dup] throws, is
    given with [Open], and the answer of the resolver with the methods that take a host. *)
Inductive uapi (A : Type) :=
| NewRequest (r : rid) (bufs : list string) (addr : A)
| Send (r : rid)
| Open (sock : Z) (dup : option (Z + error_code))
| Bind (a : A) (flags : Z)
| BindHost (host : string) (port hints_family flags : Z) (resolved : A + error_code)
| Connect (a : A)
| ConnectHost (resolved : A + error_code)
| RecvStart
| RecvStop
| SetMembership (multicast interface : string) (m : Membership)
| SetSourceMembership (multicast interface source : string) (m : Membership)
| SetMulticastLoop (on : bool)
| SetMulticastTtl (ttl : Z)
| SetMulticastInterface (interface : string)
| SetBroadcast (on : bool)
| SetTtl (ttl : Z)
| RecvBufferSize (value : Z)
| SendBufferSize (value : Z)
| SendQueueSize
| UdpWeak (value : bool)
| ResetUdp
| ClearUdp.
Arguments NewRequest {A}.
Arguments Send {A}.
Arguments Open {A}.
Arguments Bind {A}.
Arguments BindHost {A}.
Arguments Connect {A}.
Arguments ConnectHost {A}.
Arguments RecvStart {A}.
Arguments RecvStop {A}.
Arguments SetMembership {A}.
Arguments SetSourceMembership {A}.
Arguments SetMulticastLoop {A}.
Arguments SetMulticastTtl {A}.
Arguments SetMulticastInterface {A}.
Arguments SetBroadcast {A}.
Arguments SetTtl {A}.
Arguments RecvBufferSize {A}.
Arguments SendBufferSize {A}.
Arguments SendQueueSize {A}.
Arguments UdpWeak {A}.
Arguments ResetUdp {A}.
Arguments ClearUdp {A}.

(** The calls of user code: [req->event]; [send_event] and the listener;
    [receive_event] and the listener. *)
Inductive uevent (A EC : Type) :=
| ReqEvent (r : rid) (err : EC)
| OnSend (r : rid) (err : EC)
| OnReceive (buf : string) (addr : option A) (flags : Z) (err : EC).
Arguments ReqEvent {A EC}.
Arguments OnSend {A EC}.
Arguments OnReceive {A EC}.

Inductive ucode (A EC : Type) :=
| Nop
| Api (a : uapi A)
| VExec (r : rid)
| VCancel (r : rid) (err : EC)
| VNotify (r : rid) (err : EC)
| HandleEvent (r : rid) (err : EC)
| User (e : uevent A EC)
| DoReset
| DoClear
| OnComplete (r : rid) (status : option uv_errno)
| UvReceive (buf : string) (nread : nat + uv_errno) (addr : option A) (flags : Z)
| HandleReceive (buf : string) (addr : option A) (flags : Z) (err : EC).
Arguments Nop {A EC}.
Arguments Api {A EC}.
Arguments VExec {A EC}.
Arguments VCancel {A EC}.
Arguments VNotify {A EC}.
Arguments HandleEvent {A EC}.
Arguments User {A EC}.
Arguments DoReset {A EC}.
Arguments DoClear {A EC}.
Arguments OnComplete {A EC}.
Arguments UvReceive {A EC}.
Arguments HandleReceive {A EC}.

(** What a call of [uv_udp_send] was given; a ghost. *)
Record datagram (A : Type) := mkDatagram { d_req : rid; d_bufs : list string; d_addr : option A }.
Arguments mkDatagram {A}.
Arguments d_req {A}.
Arguments d_bufs {A}.
Arguments d_addr {A}.

(** ** The handle *)

Section Udp.
Context {S B A EC W C Exn : Type} `{UvUdp S B A} `{ErrorStack EC}.

(** [callbacks]: those that the user has set, with the listener and
    [buf_alloc_callback]; [ret]: what the last method called by the user returned, an
    error or a size; [sent]: the datagrams given to libuv so far, a ghost. *)
Record udp := mkUdp {
  domain : Z;
  flags : Z;
  _sq_size : Z;
  callbacks : C;
  hdl : bhandle B;
  uvs : S;
  reqs : gmap rid (ureq A);
  ret : EC + Z;
  exns : list Exn;
  user : W;
  elog : list (uevent A EC);
  sent : list (datagram A)
}.

Abbreviation code := (ucode A EC).
Abbreviation call := (qapi code + code)%type.
Abbreviation result := (udp * outcome call Exn)%type.

(** The user's code; what [remove_all] leaves of the callbacks; the exceptions that
    [uvx_strict] and [sock_dup] throw. *)
Context (user_code : C → uevent A EC → udp → W * (list (uapi A) + Exn)).
Context (no_callbacks : C).
Context (error_exn : error_code → Exn).

Definition with_domain (n : Z) (s : udp) : udp :=
  mkUdp n (flags s) (_sq_size s) (callbacks s) (hdl s) (uvs s) (reqs s) (ret s) (exns s) (user s) (elog s) (sent s).
Definition with_sq (n : Z) (s : udp) : udp :=
  mkUdp (domain s) (flags s) n (callbacks s) (hdl s) (uvs s) (reqs s) (ret s) (exns s) (user s) (elog s) (sent s).
Definition with_callbacks (c : C) (s : udp) : udp :=
  mkUdp (domain s) (flags s) (_sq_size s) c (hdl s) (uvs s) (reqs s) (ret s) (exns s) (user s) (elog s) (sent s).
Definition with_impl (h : bhandle B) (u : S) (s : udp) : udp :=
  mkUdp (domain s) (flags s) (_sq_size s) (callbacks s) h u (reqs s) (ret s) (exns s) (user s) (elog s) (sent s).
Definition with_reqs (m : gmap rid (ureq A)) (s : udp) : udp :=
  mkUdp (domain s) (flags s) (_sq_size s) (callbacks s) (hdl s) (uvs s) m (ret s) (exns s) (user s) (elog s) (sent s).
Definition with_ret (e : EC + Z) (s : udp) : udp :=
  mkUdp (domain s) (flags s) (_sq_size s) (callbacks s) (hdl s) (uvs s) (reqs s) e (exns s) (user s) (elog s) (sent s).
Definition keep_exn (e : Exn) (s : udp) : udp :=
  mkUdp (domain s) (flags s) (_sq_size s) (callbacks s) (hdl s) (uvs s) (reqs s) (ret s) (exns s ++ [e]) (user s) (elog s) (sent s).
Definition with_user (w : W) (s : udp) : udp :=
  mkUdp (domain s) (flags s) (_sq_size s) (callbacks s) (hdl s) (uvs s) (reqs s) (ret s) (exns s) w (elog s) (sent s).
Definition note (e : uevent A EC) (s : udp) : udp :=
  mkUdp (domain s) (flags s) (_sq_size s) (callbacks s) (hdl s) (uvs s) (reqs s) (ret s) (exns s) (user s) (elog s ++ [e]) (sent s).
Definition note_sent (d : datagram A) (s : udp) : udp :=
  mkUdp (domain s) (flags s) (_sq_size s) (callbacks s) (hdl s) (uvs s) (reqs s) (ret s) (exns s) (user s) (elog s) (sent s ++ [d]).

Definition set_u_impl (i : option bool) (q : ureq A) : ureq A := mkUreq (u_bufs q) (u_addr q) i.
Definition with_req (f : ureq A → ureq A) (r : rid) (s : udp) : udp := with_reqs (alter f r (reqs s)) s.

Definition has_flag (m f : Z) : bool := negb (Z.land f m =? 0).
Definition ec_opt (e : option error_code) : EC := match e with Some e => ec_of e | None => ec_ok end.

(** *** The backend *)

(** The flags that [UVUdp::UVUdp] gives to [uv_udp_init_ex]; [uv_udp_init] is the same
    with [AF_UNSPEC]. *)
Definition init_flags (domain flags : Z) : Z :=
  if has_flag RECVMMSG flags then Z.lor domain UV_UDP_RECVMMSG else domain.

(** [BackendHandle::impl()] with [Udp::new_impl]; the constructor of the backend throws
    when libuv refuses. *)
Definition udp_impl (s : udp) : udp * (B + Exn) :=
  match _impl (hdl s) with
  | Some b => (s, inl b)
  | None =>
      let (u, r) := uv_udp_init_ex (init_flags (domain s) (flags s)) (uvs s) in
      match r with
      | inr e => (with_impl (hdl s) u s, inr (error_exn (uvx_error e)))
      | inl b =>
          let u := if _weak (hdl s) then impl_set_weak b u else u in
          (with_impl (mkHandle (Some b) (_weak (hdl s))) u s, inl b)
      end
  end.

(** Code that uses [impl()]. *)
Definition on_impl (k : B → udp → result) (s : udp) : result :=
  match udp_impl s with
  | (s, inl b) => k b s
  | (s, inr x) => (s, Throws x)
  end.

(** [return make_excepted(impl()->f(...))], where [f] is one function of libuv. *)
Definition call_uv (op : uv_op A) : udp → result :=
  on_impl (λ b s,
    let (u, err) := uv_udp_call op b (uvs s) in
    (with_ret (inl (ec_opt (uvx_ce err))) (with_impl (hdl s) u s), Calls [])).

(** [UVUdp::bind], [UVUdp::connect] *)
Definition bind_flags (flags : Z) : Z :=
  let f := if has_flag IPV6ONLY flags then Z.lor 0 UV_UDP_IPV6ONLY else 0 in
  if has_flag REUSEADDR flags then Z.lor f UV_UDP_REUSEADDR else f.
Definition bind (a : A) (flags : Z) : udp → result := call_uv (UvBind a (bind_flags flags)).
Definition connect (a : A) : udp → result := call_uv (UvConnect (if sa_bool a then Some a else None)).

(** [Udp::recv_start] without a callback to add, [recv_stop], and the options. *)
Definition recv_start : udp → result := call_uv UvRecvStart.
Definition recv_stop : udp → result := call_uv UvRecvStop.
Definition uv_membership (m : Membership) : Z :=
  match m with LEAVE_GROUP => UV_LEAVE_GROUP | JOIN_GROUP => UV_JOIN_GROUP end.
Definition set_membership (multicast interface : string) (m : Membership) : udp → result :=
  call_uv (UvSetMembership multicast interface (uv_membership m)).
Definition set_source_membership (multicast interface source : string) (m : Membership) : udp → result :=
  call_uv (UvSetSourceMembership multicast interface source (uv_membership m)).
Definition set_multicast_loop (on : bool) : udp → result := call_uv (UvSetMulticastLoop on).
Definition set_multicast_ttl (ttl : Z) : udp → result := call_uv (UvSetMulticastTtl ttl).
Definition set_multicast_interface (interface : string) : udp → result :=
  call_uv (UvSetMulticastInterface interface).
Definition set_broadcast (on : bool) : udp → result := call_uv (UvSetBroadcast on).
Definition set_ttl (ttl : Z) : udp → result := call_uv (UvSetTtl ttl).
Definition recv_buffer_size (value : Z) : udp → result := call_uv (UvRecvBufferSize value).
Definition send_buffer_size (value : Z) : udp → result := call_uv (UvSendBufferSize value).

(** [Udp::open]; [sock_dup] of a shared socket *)
Definition open (sock : Z) (dup : option (Z + error_code)) (s : udp) : result :=
  match dup with
  | None => call_uv (UvOpen sock) s
  | Some (inl sock) => call_uv (UvOpen sock) s
  | Some (inr e) => (s, Throws (error_exn e))
  end.

(** [broadcast_addr] of [util.cc] *)
Definition broadcast_addr (port hints_family : Z) : A :=
  if hints_family =? AF_INET6 then sa_any6 port else sa_any4 port.

Definition on_resolved (resolved : A + error_code) (k : A → udp → result) (s : udp) : result :=
  match resolved with
  | inr e => (with_ret (inl (ec_of e)) s, Calls [])
  | inl a => k a s
  end.

(** [Udp::bind(host, ...)], [Udp::connect(host, ...)] *)
Definition bind_host (host : string) (port hints_family flags : Z) (resolved : A + error_code) (s : udp) : result :=
  if decide (host = "*"%string) then bind (broadcast_addr port hints_family) flags s
  else on_resolved resolved (λ a, bind a flags) s.
Definition connect_host (resolved : A + error_code) (s : udp) : result := on_resolved resolved connect s.

(** [Udp::send_queue_size] *)
Definition send_queue_size : udp → result :=
  on_impl (λ b s, (with_ret (inr (_sq_size s +₆₄ uv_send_queue_size b (uvs s))) s, Calls [])).

(** [Handle::weak(bool)] with [BackendHandle::set_weak] and [unset_weak] *)
Definition udp_weak (value : bool) (s : udp) : result :=
  if decide (_weak (hdl s) = value) then (s, Calls []) else
  on_impl (λ b s,
    let u := if value then impl_set_weak b (uvs s) else impl_unset_weak b (uvs s) in
    (with_impl (mkHandle (_impl (hdl s)) value) u s, Calls [])) s.

(** *** Sending *)

(** [_sq_size += buf.length()] for each buffer, and [-=]. *)
Definition sq_add (l : list string) (s : udp) : udp :=
  with_sq (fold_left (λ n b, n +₆₄ Z.of_nat (String.length b)) l (_sq_size s)) s.
Definition sq_sub (l : list string) (s : udp) : udp :=
  with_sq (fold_left (λ n b, n -₆₄ Z.of_nat (String.length b)) l (_sq_size s)) s.

(** [Udp::send] *)
Definition send (r : rid) (s : udp) : result :=
  match reqs s !! r with
  | Some q => (sq_add (u_bufs q) s, Calls [inl (Push r)])
  | None => (s, Aborts)
  end.

(** [RequestImpl::handle_event] is called in the [ltry] of the loop. *)
Definition impl_event (r : rid) (err : EC) : call := inl (Ltry (HandleEvent r err)).

(** [UVUdp::send] *)
Definition uvudp_send (r : rid) (q : ureq A) (b : B) (s : udp) : udp * option error_code * list call :=
  let addr := if sa_unspec (u_addr q) then None else Some (u_addr q) in
  let s := note_sent (mkDatagram r (u_bufs q) addr) s in
  let (u, err) := uv_udp_send b r (u_bufs q) addr (uvs s) in
  let s := with_impl (hdl s) u s in
  match err with
  | Some e => (s, Some (uvx_error e), [])
  | None =>
      let s := with_req (set_u_impl (Some true)) r s in
      (s, None, if uv_send_queue_size b (uvs s) =? 0 then [impl_event r ec_ok] else [])
  end.

(** [SendRequest::exec], with the getter [SendRequest::impl()] *)
Definition send_exec (r : rid) (s : udp) : result :=
  match reqs s !! r with
  | Some q =>
      on_impl (λ b s,
        let s := with_req (λ q, match u_impl q with Some _ => q | None => set_u_impl (Some false) q end) r s in
        let '(s, err, cs) := uvudp_send r q b s in
        (s, Calls (cs ++ match err with Some e => [inl (Delay r (VCancel r (ec_of e)))] | None => [] end)))
      (sq_sub (u_bufs q) s)
  | None => (s, Aborts)
  end.

(** [Request::cancel], [SendRequest::handle_event] *)
Definition send_cancel (r : rid) (err : EC) : list call := [inr (HandleEvent r err)].
Definition send_handle_event (r : rid) (err : EC) : list call := [inl (Done r (VNotify r err))].

(** [Udp::notify_on_send], the callbacks in their order *)
Definition notify_on_send (r : rid) (err : EC) : list call :=
  [inr (User (ReqEvent r err)); inr (User (OnSend r err))].

(** [UVRequest::destroy] *)
Definition destroy_impl (r : rid) (s : udp) : udp := with_req (set_u_impl None) r s.

(** [UVUdp::on_send], or the stub of a request destroyed while it was active *)
Definition on_complete (r : rid) (status : option uv_errno) (s : udp) : udp * list call :=
  match reqs s !! r ≫= u_impl with
  | Some true => (with_req (set_u_impl (Some false)) r s, [impl_event r (ec_opt (uvx_ce status))])
  | _ => (s, [])
  end.

(** *** Receiving *)

(** [UVUdp::on_receive]; [handle_receive] of the backend is in the [ltry]. *)
Definition on_receive (buf : string) (nread : nat + uv_errno) (addr : option A) (flags : Z) : list call :=
  match nread, addr with
  | inl O, None => []
  | inl n, _ => [inl (Ltry (HandleReceive (String.substring 0 n buf) addr flags ec_ok))]
  | inr e, _ => [inl (Ltry (HandleReceive EmptyString addr flags (ec_of (uvx_error e))))]
  end.

(** [Udp::handle_receive], the callbacks in their order *)
Definition handle_receive (buf : string) (a : option A) (flags : Z) (err : EC) : list call :=
  [inr (User (OnReceive buf a flags err))].

(** *** Reset and clear *)

Definition reset_udp : list call := [inl (Cancel Nop DoReset None)].
Definition clear_udp : list call := [inl (Cancel Nop DoClear None)].
Definition do_reset (s : udp) : udp := let (h, u) := reset (hdl s) (uvs s) in with_impl h u s.
Definition do_clear (s : udp) : udp :=
  let (h, u) := clear (hdl s) (uvs s) in
  with_callbacks no_callbacks (with_domain AF_UNSPEC (with_impl h u s)).

(** *** The handle as a client of its queue *)

Definition udp_api (a : uapi A) (s : udp) : result :=
  match a with
  | NewRequest r l a =>
      match reqs s !! r with
      | Some _ => (s, Calls [])    (* the identity of another object *)
      | None => (with_reqs (<[r := mkUreq l a None]> (reqs s)) s, Calls [])
      end
  | Send r => send r s
  | Open sock dup => open sock dup s
  | Bind a f => bind a f s
  | BindHost h p hf f res => bind_host h p hf f res s
  | Connect a => connect a s
  | ConnectHost res => connect_host res s
  | RecvStart => recv_start s
  | RecvStop => recv_stop s
  | SetMembership m i k => set_membership m i k s
  | SetSourceMembership m i src k => set_source_membership m i src k s
  | SetMulticastLoop on => set_multicast_loop on s
  | SetMulticastTtl ttl => set_multicast_ttl ttl s
  | SetMulticastInterface i => set_multicast_interface i s
  | SetBroadcast on => set_broadcast on s
  | SetTtl ttl => set_ttl ttl s
  | RecvBufferSize n => recv_buffer_size n s
  | SendBufferSize n => send_buffer_size n s
  | SendQueueSize => send_queue_size s
  | UdpWeak v => udp_weak v s
  | ResetUdp => (s, Calls reset_udp)
  | ClearUdp => (s, Calls clear_udp)
  end.

Definition user_call (e : uevent A EC) (s : udp) : result :=
  let s := note e s in
  match user_code (callbacks s) e s with
  | (w, inl l) => (with_user w s, Calls ((λ a, inr (Api a)) <$> l))
  | (w, inr x) => (with_user w s, Throws x)
  end.

Definition udp_code (c : code) (_ : queue) (s : udp) : result :=
  match c with
  | Nop => (s, Calls [])
  | Api a => udp_api a s
  | VExec r => send_exec r s
  | VCancel r err => (s, Calls (send_cancel r err))
  | VNotify r err => (s, Calls (notify_on_send r err))
  | HandleEvent r err => (s, Calls (send_handle_event r err))
  | User e => user_call e s
  | DoReset => (do_reset s, Calls [])
  | DoClear => (do_clear s, Calls [])
  | OnComplete r st => let (s, cs) := on_complete r st s in (s, Calls cs)
  | UvReceive buf n a f => (s, Calls (on_receive buf n a f))
  | HandleReceive buf a f err => (s, Calls (handle_receive buf a f err))
  end.

Definition udp_client : client udp code EC Exn := {|
  v_exec := VExec; v_cancel := VCancel; v_notify := VNotify;
  v_destroy_impl := destroy_impl; v_capture := keep_exn;
  v_code := udp_code; canceled_err := ec_of (Std operation_canceled)
|}.

(** [Udp::Udp]; the backend object exists from the start. *)
Definition new_udp (b : B) (domain flags : Z) (u : S) (c : C) (w : W) : udp :=
  mkUdp domain flags 0 c (mkHandle (Some b) false) u ∅ (inl ec_ok) [] w [] [].
End Udp.
Arguments udp : clear implicits.

(** ** Lemmas *)

Section Lemmas.
#[local] Set Default Proof Using "Type*".
Context {S B A EC W C Exn D : Type} `{UvUdp S B A} `{ErrorStack EC} `{DelayLaws D (closure (ucode A EC))}.
Context (user_code : C → uevent A EC → udp S B A EC W C Exn → W * (list (uapi A) + Exn)).
Context (no_callbacks : C) (error_exn : error_code → Exn).
Abbreviation udp := (udp S B A EC W C Exn).
Abbreviation uclient := (udp_client user_code no_callbacks error_exn).
Implicit Types (s : udp).

(** Only the queue executes a request. *)
Definition not_exec (u : ucode A EC) : Prop := match u with VExec _ => False | _ => True end.

(** The loop starts with a new handle; it calls what was delayed, completes requests,
    receives, and runs the user's code. *)
Definition udp_initial (w : world udp Exn D) : Prop :=
  queue_initial w ∧ ∃ b domain flags u c us, ext w = new_udp b domain flags u c us.
Definition udp_input : world udp Exn D → list (frame (ucode A EC) Exn) → world udp Exn D → Prop :=
  safe_input not_exec.

(** A datagram is what its request was made with. *)
Definition faithful s (d : datagram A) : Prop :=
  ∃ q, reqs s !! d_req d = Some q ∧ d_bufs d = u_bufs q ∧
    d_addr d = if sa_unspec (u_addr q) then None else Some (u_addr q).
Definition all_faithful s : Prop := ∀ d, d ∈ sent s → faithful s d.

(** A change of the handle that sends nothing and leaves the data of the requests. *)
Definition quiet s s' : Prop :=
  sent s' = sent s ∧
  ∀ r q, reqs s !! r = Some q → ∃ q', reqs s' !! r = Some q' ∧ u_bufs q' = u_bufs q ∧ u_addr q' = u_addr q.

Lemma quiet_refl s : quiet s s.
Proof. split; [done|]. intros r q Hq. by exists q. Qed.

Lemma quiet_same s s' : sent s' = sent s → reqs s' = reqs s → quiet s s'.
Proof. intros H1' Hr. split; [done|]. intros r q Hq. exists q. by rewrite Hr. Qed.

Lemma quiet_trans s1 s2 s3 : quiet s1 s2 → quiet s2 s3 → quiet s1 s3.
Proof.
  intros [E1 R1] [E2 R2]. split; [congruence|]. intros r q Hq.
  destruct (R1 r q Hq) as (q1 & Hq1 & ? & ?). destruct (R2 r q1 Hq1) as (q2 & Hq2 & ? & ?).
  exists q2. split_and!; congruence.
Qed.

Lemma quiet_req (f : ureq A → ureq A) r s :
  (∀ q, u_bufs (f q) = u_bufs q ∧ u_addr (f q) = u_addr q) → quiet s (with_req f r s).
Proof.
  intros Hf. split; [done|]. intros i q Hq. simpl. destruct (decide (i = r)) as [->|].
  - rewrite lookup_alter_eq, Hq. simpl. exists (f q). split; [done|apply Hf].
  - rewrite lookup_alter_ne by done. by exists q.
Qed.

Lemma quiet_faithful s s' : quiet s s' → all_faithful s → all_faithful s'.
Proof.
  intros [E R] Hs d. rewrite E. intros (q & Hq & Hb & Ha)%Hs.
  destruct (R _ _ Hq) as (q' & Hq' & Hb' & Ha'). exists q'. rewrite Hb', Ha'. done.
Qed.

Lemma udp_impl_quiet s : quiet s (udp_impl error_exn s).1.
Proof.
  unfold udp_impl. destruct (_impl (hdl s)); [apply quiet_refl|].
  destruct (uv_udp_init_ex _ _) as [u []]; by apply quiet_same.
Qed.

Lemma on_impl_quiet k s :
  (∀ b s', quiet s' (k b s').1) → quiet s (on_impl error_exn k s).1.
Proof.
  intros Hk. unfold on_impl. pose proof (udp_impl_quiet s) as Hq.
  destruct (udp_impl error_exn s) as [s' [b|e]]; [|done]. by eapply quiet_trans; [exact Hq|].
Qed.

Lemma call_uv_quiet op s : quiet s (call_uv error_exn op s).1.
Proof. apply on_impl_quiet. intros b s'. destruct (uv_udp_call _ _ _). by apply quiet_same. Qed.

Lemma on_resolved_quiet res k s :
  (∀ a s', quiet s' (k a s').1) → quiet s (on_resolved (Exn:=Exn) res k s).1.
Proof. intros Hk. destruct res; [apply Hk|by apply quiet_same]. Qed.

Lemma udp_api_quiet a s : quiet s (udp_api error_exn a s).1.
Proof.
  destruct a; simpl; try (by apply quiet_same); try apply call_uv_quiet.
  - destruct (reqs s !! r) eqn:E; [apply quiet_refl|]. split; [done|]. intros i q Hq. simpl.
    rewrite lookup_insert_ne by congruence. by exists q.
  - unfold send. destruct (reqs s !! r); by apply quiet_same.
  - destruct dup as [[|]|]; simpl; [apply call_uv_quiet|apply quiet_refl|apply call_uv_quiet].
  - unfold bind_host. case_decide; [apply call_uv_quiet|]. apply on_resolved_quiet. intros. apply call_uv_quiet.
  - apply on_resolved_quiet. intros. apply call_uv_quiet.
  - apply on_impl_quiet. intros. by apply quiet_same.
  - unfold udp_weak. case_decide; [apply quiet_refl|]. apply on_impl_quiet. intros. by apply quiet_same.
Qed.

(** Everything but the execution of a request is quiet. *)
Lemma udp_code_quiet u qq s : not_exec u → quiet s (udp_code user_code no_callbacks error_exn u qq s).1.
Proof.
  destruct u; simpl; try done; intros _; try apply quiet_refl.
  - apply udp_api_quiet.
  - unfold user_call. destruct (user_code _ _ _) as [w []]; by apply quiet_same.
  - unfold do_reset. destruct (reset _ _). by apply quiet_same.
  - unfold do_clear. destruct (clear _ _). by apply quiet_same.
  - unfold on_complete. destruct (reqs s !! r ≫= u_impl) as [[]|]; try apply quiet_refl. by apply quiet_req.
Qed.

(** An execution sends the datagram of the request, if there is a backend to send it. *)
Lemma send_exec_sends r s :
  quiet s (send_exec error_exn r s).1 ∨
  ∃ q s1, reqs s !! r = Some q ∧
    quiet s s1 ∧ quiet (note_sent (mkDatagram r (u_bufs q) (if sa_unspec (u_addr q) then None else Some (u_addr q))) s1)
      (send_exec error_exn r s).1.
Proof.
  unfold send_exec. destruct (reqs s !! r) as [q|] eqn:E; [|left; apply quiet_refl].
  unfold on_impl. pose proof (udp_impl_quiet (sq_sub (u_bufs q) s)) as Hq.
  destruct (udp_impl error_exn (sq_sub (u_bufs q) s)) as [s1 [b|e]]; [|left; exact Hq]. simpl in Hq.
  right. set (s2 := with_req _ r s1). exists q, s2. split; [done|].
  assert (quiet s s2) as Hs2.
  { eapply quiet_trans; [by apply (quiet_same s (sq_sub (u_bufs q) s))|].
    eapply quiet_trans; [exact Hq|]. apply quiet_req. intros [? ? []]; done. }
  split; [done|]. unfold uvudp_send. destruct (uv_udp_send _ _ _ _ _) as [u [e|]]; simpl; [by apply quiet_same|].
  eapply quiet_trans; [|by apply quiet_req]. by apply quiet_same.
Qed.

Lemma udp_code_faithful u qq s : all_faithful s → all_faithful (udp_code user_code no_callbacks error_exn u qq s).1.
Proof.
  intros Hs. assert ((∃ r, u = VExec r) ∨ not_exec u) as [(r & ->)|Hu] by (destruct u; first [by right|by left; eexists]).
  - simpl. destruct (send_exec_sends r s) as [Hq|(q & s1 & Hr & Hq1 & Hq2)]; [by eapply quiet_faithful|].
    eapply quiet_faithful; [exact Hq2|]. intros d [Hd| ->%list_elem_of_singleton]%elem_of_app.
    + by apply (quiet_faithful s s1).
    + destruct Hq1 as [_ R]. destruct (R r q Hr) as (q' & Hq' & Hb & Ha). exists q'. simpl.
      by rewrite Hb, Ha.
  - eapply quiet_faithful; [|exact Hs]. by apply udp_code_quiet.
Qed.

Lemma code_calls_safe l : Forall (safe_call not_exec) l → ∀ cs, @Calls (qapi (ucode A EC) + ucode A EC) Exn l = Calls cs → Forall (safe_call not_exec) cs.
Proof. by intros Hl cs [= <-]. Qed.

(** No code of the handle calls [exec]. *)
Lemma on_impl_calls k s cs :
  (∀ b s' cs, (k b s').2 = Calls cs → Forall (safe_call not_exec) cs) →
  (on_impl error_exn k s).2 = Calls cs → Forall (safe_call not_exec) cs.
Proof.
  intros Hk. unfold on_impl. destruct (udp_impl error_exn s) as [s' [b|e]]; simpl; [apply Hk|done].
Qed.

Lemma call_uv_calls op s cs : (call_uv error_exn op s).2 = Calls cs → Forall (safe_call not_exec) cs.
Proof. apply on_impl_calls. intros b s' cs'. destruct (uv_udp_call _ _ _). by intros [= <-]. Qed.

Lemma udp_api_calls a s cs : (udp_api error_exn a s).2 = Calls cs → Forall (safe_call not_exec) cs.
Proof.
  destruct a; simpl; try apply call_uv_calls; try (intros [= <-]; by repeat constructor).
  - destruct (reqs s !! r); by intros [= <-].
  - unfold send. destruct (reqs s !! r); intros [= <-]; by repeat constructor.
  - destruct dup as [[|]|]; simpl; [apply call_uv_calls|done|apply call_uv_calls].
  - unfold bind_host, on_resolved. case_decide; [apply call_uv_calls|].
    destruct resolved; [apply call_uv_calls|by intros [= <-]].
  - unfold connect_host, on_resolved. destruct resolved; [apply call_uv_calls|by intros [= <-]].
  - apply on_impl_calls. intros b s' cs'. by intros [= <-].
  - unfold udp_weak. case_decide; [by intros [= <-]|]. apply on_impl_calls. intros b s' cs'. by intros [= <-].
Qed.

Lemma send_exec_calls r s cs : (send_exec error_exn r s).2 = Calls cs → Forall (safe_call not_exec) cs.
Proof.
  unfold send_exec. destruct (reqs s !! r) as [q|]; [|done]. apply on_impl_calls.
  intros b s' cs'. unfold uvudp_send. destruct (uv_udp_send _ _ _ _ _) as [u [e|]]; simpl; intros [= <-].
  - by repeat constructor.
  - rewrite app_nil_r. case_match; by repeat constructor.
Qed.

Lemma udp_code_calls u qq s cs :
  (udp_code user_code no_callbacks error_exn u qq s).2 = Calls cs → Forall (safe_call not_exec) cs.
Proof.
  destruct u; simpl; try (intros [= <-]; by repeat constructor).
  - apply udp_api_calls.
  - apply send_exec_calls.
  - unfold user_call. destruct (user_code _ _ _) as [w [l|]]; simpl; intros [= <-].
    apply Forall_fmap. by apply Forall_true.
  - unfold on_complete. destruct (reqs s !! r ≫= u_impl) as [[]|]; simpl; intros [= <-]; by repeat constructor.
  - intros [= <-]. unfold on_receive. destruct nread as [[|n]|], addr; by repeat constructor.
Qed.

Lemma udp_exec_inv c :
  reachable (queue_program uclient) udp_initial udp_input c →
  d_req <$> sent (ext (mem c)) `sublist_of` executed (qlog (mem c)).
Proof.
  intros Hc. apply (exec_inv_reachable uclient not_exec (λ s, d_req <$> sent s)); try done.
  - intros u qq x cs _. apply udp_code_calls.
  - intros u qq x Hu. simpl. by destruct (udp_code_quiet u qq x Hu) as [-> _].
  - intros r qq x. simpl. destruct (send_exec_sends r x) as [[-> _]|(q & s1 & _ & [E1 _] & [-> _])].
    + by apply sublist_inserts_r.
    + simpl. by rewrite fmap_app, E1.
  - eapply reachable_mono; [| |exact Hc]; [|done].
    intros w [Hq (b & dm & fl & u & cb & us & ->)]. by split.
Qed.

Lemma udp_all_faithful c :
  reachable (queue_program uclient) udp_initial udp_input c → all_faithful (ext (mem c)).
Proof.
  intros Hc. apply (client_invariant uclient all_faithful).
  - intros u qq x. apply udp_code_faithful.
  - intros r x. apply quiet_faithful. by apply quiet_req.
  - done.
  - eapply reachable_mono; [| |exact Hc].
    + intros w [Hq (b & dm & fl & u & cb & us & E)]. split; [done|]. rewrite E. by intros d ?%elem_of_nil.
    + by intros w cs w' [].
Qed.
End Lemmas.

(** ** Properties *)

(** C35: Datagrams are given to libuv in the order in which they were sent with
    [Udp::send], each at most once and with the buffers and the address of its request,
    whatever the user's callbacks do or throw, and however often the handle is reset or
    cleared. This as long as no callback was put off for a too deep recursion
    ([split_free]) and no assertion failed; after a split a request may be executed twice
    ([queue_split_executes_twice]). *)
Theorem udp_sends_in_order {S B A EC W C Exn D : Type} `{UvUdp S B A} `{ErrorStack EC}
    `{DelayLaws D (closure (ucode A EC))}
    (user_code : C → uevent A EC → udp S B A EC W C Exn → W * (list (uapi A) + Exn))
    (no_callbacks : C) (error_exn : error_code → Exn) c
    (Hreach : reachable (queue_program (udp_client user_code no_callbacks error_exn))
       (udp_initial (D:=D)) udp_input c)
    (Hm : cmode c ≠ Aborted) (Hsplit : split_free (qlog (mem c))) :
  d_req <$> sent (ext (mem c)) `sublist_of` pushed (qlog (mem c)) ∧
  ∀ d, d ∈ sent (ext (mem c)) → faithful (ext (mem c)) d.
Proof.
  split; [|by apply (udp_all_faithful user_code no_callbacks error_exn)].
  assert (reachable (queue_program (udp_client user_code no_callbacks error_exn)) queue_initial queue_input c) as Hq.
  { eapply reachable_mono; [| |exact Hreach]; [by intros w []|by intros w cs w' []]. }
  destruct (fifo_inv_reachable _ c Hq Hm Hsplit) as (b & (Hs & _) & _).
  apply serve_executed in Hs. simpl in Hs.
  etrans; [|exact Hs]. by apply (udp_exec_inv user_code no_callbacks error_exn).
Qed.

(** ** Witnesses *)

(** A backend that accepts every call and completes nothing at once. *)
#[local] Instance ex_uv_udp : UvUdp ex_uv nat nat := {|
  UV_UDP_IPV6ONLY := 1;
  UV_UDP_REUSEADDR := 4;
  UV_UDP_RECVMMSG := 256;
  UV_LEAVE_GROUP := 0;
  UV_JOIN_GROUP := 1;
  AF_UNSPEC := 0;
  AF_INET6 := 10;
  uv_udp_init_ex _ s := let (s, b) := uv_init s in (s, inl b);
  uv_udp_call _ _ s := (s, None);
  uv_udp_send _ _ _ _ s := (s, None);
  uv_send_queue_size _ _ := 1;
  sa_unspec a := bool_decide (a = 0%nat);
  sa_bool a := negb (bool_decide (a = 0%nat));
  sa_any4 p := Z.to_nat p;
  sa_any6 p := Z.to_nat p
|}.

#[local] Definition ex_ec := list error_code.
#[local] Definition ex_udp := udp ex_uv nat nat ex_ec unit (uevent nat ex_ec → list (uapi nat)) nat.
#[local] Definition ex_udp_client : client ex_udp (ucode nat ex_ec) ex_ec nat :=
  udp_client (λ c e _, (tt, inl (c e))) (λ _, []) (λ _, 0%nat).
#[local] Definition ex_uworld := world ex_udp nat (Delayer.Delayer (closure (ucode nat ex_ec)) unit).
#[local] Definition ex_uworld0 (c : uevent nat ex_ec → list (uapi nat)) : ex_uworld :=
  mkWorld new_queue ∅ ∅ Delayer.new_delayer [] (new_udp 0%nat 0 0 ex_uv0 c tt) [].

(** The loop runs these pieces of code one after the other, each to its end. *)
#[local] Definition ex_drive (l : list (ucode nat ex_ec)) (c : config ex_uworld (frame (ucode nat ex_ec) nat) nat) :=
  fold_left (λ c u,
    match c with
    | Machine.Config [] w Normal =>
        Machine.run (queue_program ex_udp_client) 100 (Machine.Config [Frame (CCode u)] w Normal)
    | c => c
    end) l c.

Lemma udp_drive_reachable (l : list (ucode nat ex_ec)) : ∀ c,
  Forall not_exec l →
  reachable (queue_program ex_udp_client) udp_initial udp_input c →
  reachable (queue_program ex_udp_client) udp_initial udp_input (ex_drive l c).
Proof.
  induction l as [|u l IH]; intros c Hl Hc; [exact Hc|]. apply Forall_cons in Hl as [Hu Hl].
  apply IH; [done|]. destruct c as [[|] w [| |]]; try exact Hc.
  eapply reachable_steps; [|apply run_steps]. eapply reach_input; [exact Hc|done|].
  split; [right; by exists u|]. intros u' [= <-] _. exact Hu.
Qed.

(** The callback of the first datagram sends a third one. *)
#[local] Definition ex_sends : list (ucode nat ex_ec) :=
  [Api (NewRequest 1 ["ab"]%string 7%nat); Api (Send 1); Api (NewRequest 2 ["c"; "d"]%string 0%nat);
   Api (Send 2); Api (NewRequest 3 ["e"]%string 9%nat); OnComplete 1 None; OnComplete 2 (Some UV_EINVAL)].
#[local] Definition ex_cb (e : uevent nat ex_ec) : list (uapi nat) :=
  match e with ReqEvent 1 _ => [Send 3] | _ => [] end.
#[local] Definition ex_sent := ex_drive ex_sends (Machine.Config [] (ex_uworld0 ex_cb) Normal).

Lemma udp_sends_in_order_witness :
  sent (ext (mem ex_sent)) = [mkDatagram 1 ["ab"] (Some 7); mkDatagram 2 ["c"; "d"] None;
                              mkDatagram 3 ["e"] (Some 9)]%string%nat ∧
  d_req <$> sent (ext (mem ex_sent)) `sublist_of` pushed (qlog (mem ex_sent)) ∧
  ∀ d, d ∈ sent (ext (mem ex_sent)) → faithful (ext (mem ex_sent)) d.
Proof.
  split; [by vm_compute|].
  apply (udp_sends_in_order (λ c e _, (tt, inl (c e))) (λ _, []) (λ _, 0%nat) ex_sent).
  - apply udp_drive_reachable; [by repeat constructor|]. apply reach_init. split.
    + exists Delayer.new_delayer, (ext (ex_uworld0 ex_cb)). split; [by intros p ?%elem_of_nil|done].
    + by do 6 eexists.
  - by vm_compute.
  - apply split_free_dec. by vm_compute.
Defined.

(** ** What the code does not do *)

(** A datagram that is cancelled while it waits in the queue is never executed, and its
    size is never taken off: [reset()] leaves [send_queue_size()] too large for ever. *)
Lemma udp_queue_size_leaks :
  let c := ex_drive [Api (NewRequest 1 ["ab"]%string 7%nat); Api (Send 1);
      Api (NewRequest 2 ["cdefg"]%string 7%nat); Api (Send 2); Api ResetUdp]
    (Machine.Config [] (ex_uworld0 (λ _, [])) Normal) in
  stack c = [] ∧ cmode c = Normal ∧ requests (q (mem c)) = [] ∧ _sq_size (ext (mem c)) = 5.
Proof. by vm_compute. Qed.
