(* ===== verification/SslBio.v ===== *)
(** The memory buffers of the SSL filter: [ssl/SslBio.h], [ssl/SslBio.cc].

    OpenSSL reads the encrypted bytes from one [BIO] and writes those to send into
    another.  Both are of a type of UniEvent's own, which keeps the bytes in a
    [panda::string] whose memory comes from the stream's [buf_alloc].

    A [BIO] points to its [membuf_t] in a heap, since the pointer can be taken out
    and replaced ([BIO_C_GET_BUF_MEM_PTR], [BIO_C_SET_BUF_MEM]). *)
From Stdlib Require Import Ascii.
From S2P Require Import Prelude.
#[local] Open Scope Z_scope.

(** ** Data *)

Abbreviation bytes := (list ascii).
Abbreviation loc := nat.

(** The version of the library: [old], [OPENSSL_VERSION_NUMBER < 0x10100000L];
    [libre], [LIBRESSL_VERSION_NUMBER] is defined. *)
Record version := mkVersion { old : bool; libre : bool }.

(** The condition under which [SslBio.h] defines the accessors of a [BIO] itself. *)
Definition PATCH_BIO (v : version) : bool := old v || libre v.

(** [SslBio::membuf_t]; [cap]: the capacity of [buf]; [H]: [Stream*]. *)
Record membuf (H : Type) := mkMembuf { handle : option H; buf : bytes; cap : Z }.
Arguments mkMembuf {H}.
Arguments handle {H}.
Arguments buf {H}.
Arguments cap {H}.

(** What the code uses of a [BIO]. *)
Record BIO := mkBIO { ptr : option loc; shutdown : Z; init : Z; num : Z; retry_read : bool }.

Record state (H : Type) := mkState { heap : gmap loc (membuf H); bio : BIO }.
Arguments mkState {H}.
Arguments heap {H}.
Arguments bio {H}.

(** The commands of [bio_ctrl], with [num] and [ptr] where they are looked at; the
    flag: [ptr != nullptr]. *)
Inductive cmd :=
| BIO_CTRL_RESET | BIO_CTRL_EOF
| BIO_C_SET_BUF_MEM_EOF_RETURN (n : Z)
| BIO_CTRL_INFO (out : bool)
| BIO_C_SET_BUF_MEM (n : Z) (p : option loc)
| BIO_C_GET_BUF_MEM_PTR (out : bool)
| BIO_CTRL_GET_CLOSE | BIO_CTRL_SET_CLOSE (n : Z)
| BIO_CTRL_WPENDING | BIO_CTRL_PENDING
| BIO_CTRL_DUP | BIO_CTRL_FLUSH | BIO_CTRL_PUSH | BIO_CTRL_POP | BIO_CTRL_OTHER.

(** What [bio_ctrl] stores in [*ptr]. *)
Inductive ctrl_out := OutNone | OutData (b : bytes) | OutPtr (p : option loc).

(** ** Operations *)

Section SslBio.
Context {H : Type} (v : version).

(** [Stream::buf_alloc]: the contents and the capacity of what the user's allocator
    returns; [grown]: the capacity that [panda::string] chooses for a length that
    does not fit. *)
Context (buf_alloc : H → Z → bytes * Z) (grown : Z → Z).

Abbreviation state := (state H).
Abbreviation membuf := (membuf H).

(** [BIO_set_data], [BIO_set_shutdown], [BIO_set_init], and the flags *)
Definition BIO_set_data (p : option loc) (s : state) : state :=
  mkState (heap s) (mkBIO p (shutdown (bio s)) (init (bio s)) (num (bio s)) (retry_read (bio s))).
Definition BIO_set_shutdown (n : Z) (s : state) : state :=
  mkState (heap s)
    (mkBIO (ptr (bio s)) (if PATCH_BIO v then 1 else n) (init (bio s)) (num (bio s)) (retry_read (bio s))).
Definition BIO_set_init (n : Z) (s : state) : state :=
  mkState (heap s) (mkBIO (ptr (bio s)) (shutdown (bio s)) n (num (bio s)) (retry_read (bio s))).
Definition set_num (n : Z) (s : state) : state :=
  mkState (heap s) (mkBIO (ptr (bio s)) (shutdown (bio s)) (init (bio s)) n (retry_read (bio s))).
Definition set_retry (b : bool) (s : state) : state :=
  mkState (heap s) (mkBIO (ptr (bio s)) (shutdown (bio s)) (init (bio s)) (num (bio s)) b).

(** [b->...]: [None] when the pointer is null or dangling. *)
Definition deref (s : state) : option (loc * membuf) :=
  p ← ptr (bio s); b ← heap s !! p; Some (p, b).
Definition store (p : loc) (b : membuf) (s : state) : state := mkState (<[p := b]> (heap s)) (bio s).

Definition bio_free (s : state) : state * Z :=
  if (shutdown (bio s) =? 0) || (init (bio s) =? 0) then (s, 1) else
  match ptr (bio s) with
  | None => (s, 1)
  | Some p => (BIO_set_data None (mkState (delete p (heap s)) (bio s)), 1)
  end.

(** [string::append], [string::offset] *)
Definition append (b : membuf) (l : bytes) : membuf :=
  let n := Z.of_nat (length (buf b ++ l)) in
  mkMembuf (handle b) (buf b ++ l) (if n <=? cap b then cap b else grown n).
Definition offset (b : membuf) (n : nat) : membuf := mkMembuf (handle b) (drop n (buf b)) (cap b - Z.of_nat n).

Definition bio_write (l : bytes) (s : state) : option (state * Z) :=
  let inl := Z.of_nat (length l) in
  '(p, b) ← deref s;
  let s := set_retry false s in
  let buflen := Z.of_nat (length (buf b)) in
  b ← (if cap b <? buflen + inl then
         h ← handle b;
         let (c, n) := buf_alloc h (buflen + inl) in
         let newbuf := mkMembuf (handle b) c n in
         Some (if buflen =? 0 then newbuf else append newbuf (buf b))
       else Some b);
  Some (store p (append b l) s, swrap 32 inl).

(** The bytes are those written to [out]. *)
Definition bio_read (outl : Z) (s : state) : option (state * Z * bytes) :=
  '(p, b) ← deref s;
  let s := set_retry false s in
  let len := swrap 32 (Z.of_nat (length (buf b))) in
  let outl := if len <? outl then len else outl in
  if 0 <? outl then
    Some (store p (offset b (Z.to_nat outl)) s, outl, take (Z.to_nat outl) (buf b))
  else match buf b with
    | [] => let outl := if old v then num (bio s) else -1 in
        Some (if outl =? 0 then s else set_retry true s, outl, [])
    | _ => Some (s, outl, [])
    end.

(** [strlen(str)] bytes of [str] *)
Fixpoint c_str (l : bytes) : bytes :=
  match l with
  | [] => []
  | c :: l => if decide (c = Ascii.zero) then [] else c :: c_str l
  end.
Definition bio_puts (str : bytes) : state → option (state * Z) := bio_write (c_str str).

(** The loop of [bio_gets]: the bytes up to and including the first newline, at
    most [j]. *)
Fixpoint line_length (j : nat) (p : bytes) : nat :=
  match j, p with
  | S j, c :: p => S (if decide (c = Ascii.ascii_of_nat 10) then 0 else line_length j p)
  | _, _ => 0
  end.

(** The bytes are those written to [buf], with the terminating null. *)
Definition bio_gets (size : Z) (s : state) : option (state * Z * bytes) :=
  '(_, b) ← deref s;
  let s := set_retry false s in
  let j := swrap 32 (Z.of_nat (length (buf b))) in
  let j := if size - 1 <? j then size - 1 else j in
  if j <=? 0 then Some (s, 0, if 0 <? size then [Ascii.zero] else []) else
  '(s, i, out) ← bio_read (Z.of_nat (line_length (Z.to_nat j) (buf b))) s;
  Some (s, i, if 0 <? i then out ++ [Ascii.zero] else out).

Definition bio_ctrl (c : cmd) (s : state) : option (state * Z * ctrl_out) :=
  match c with
  | BIO_CTRL_RESET => '(p, b) ← deref s; Some (store p (mkMembuf (handle b) [] (cap b)) s, 1, OutNone)
  | BIO_CTRL_EOF => '(_, b) ← deref s; Some (s, if decide (buf b = []) then 1 else 0, OutNone)
  | BIO_C_SET_BUF_MEM_EOF_RETURN n =>
      if old v then Some (set_num (swrap 32 n) s, 1, OutNone) else Some (s, 0, OutNone)
  | BIO_CTRL_INFO out =>
      '(_, b) ← deref s; Some (s, Z.of_nat (length (buf b)), if out then OutData (buf b) else OutNone)
  | BIO_C_SET_BUF_MEM n p =>
      let (s, _) := bio_free s in
      Some (BIO_set_data p (BIO_set_shutdown (swrap 32 n) s), 1, OutNone)
  | BIO_C_GET_BUF_MEM_PTR out => Some (s, 1, if out then OutPtr (ptr (bio s)) else OutNone)
  | BIO_CTRL_GET_CLOSE => Some (s, shutdown (bio s), OutNone)
  | BIO_CTRL_SET_CLOSE n => Some (BIO_set_shutdown (swrap 32 n) s, 1, OutNone)
  | BIO_CTRL_WPENDING => Some (s, 0, OutNone)
  | BIO_CTRL_PENDING => '(_, b) ← deref s; Some (s, Z.of_nat (length (buf b)), OutNone)
  | BIO_CTRL_DUP | BIO_CTRL_FLUSH => Some (s, 1, OutNone)
  | BIO_CTRL_PUSH | BIO_CTRL_POP | BIO_CTRL_OTHER => Some (s, 0, OutNone)
  end.

Definition bio_new (s : state) : option (state * Z) :=
  let p := fresh (dom (heap s)) in
  let s := store p (mkMembuf None [] 0) s in
  let s := BIO_set_init 1 (BIO_set_shutdown 1 s) in
  '(s, _, _) ← bio_ctrl (BIO_C_SET_BUF_MEM_EOF_RETURN (-1)) s;
  Some (BIO_set_data (Some p) s, 1).

(** [SslBio::set_handle], [set_buf], [steal_buf] *)
Definition set_handle (h : H) (s : state) : option state :=
  '(p, b) ← deref s; Some (store p (mkMembuf (Some h) (buf b) (cap b)) s).
Definition set_buf (l : bytes) (s : state) : option state :=
  '(p, b) ← deref s; Some (store p (append b l) s).
Definition steal_buf (s : state) : option (state * bytes) :=
  '(p, b) ← deref s; Some (store p (mkMembuf (handle b) [] 0) s, buf b).

(** *** Sequences of operations *)

(** The calls that OpenSSL and the filter make on a [BIO] in use. *)
Inductive op :=
| Write (l : bytes) | Puts (str : bytes) | SetBuf (l : bytes)
| Read (n : Z) | Gets (n : Z) | StealBuf | Pending.

(** The returned integer and the bytes given out. *)
Definition do_op (o : op) (s : state) : option (state * (Z * bytes)) :=
  match o with
  | Write l => '(s, n) ← bio_write l s; Some (s, (n, []))
  | Puts l => '(s, n) ← bio_puts l s; Some (s, (n, []))
  | SetBuf l => s ← set_buf l s; Some (s, (0, []))
  | Read n => '(s, n, l) ← bio_read n s; Some (s, (n, l))
  | Gets n => '(s, n, l) ← bio_gets n s; Some (s, (n, l))
  | StealBuf => '(s, l) ← steal_buf s; Some (s, (0, l))
  | Pending => '(s, n, _) ← bio_ctrl BIO_CTRL_PENDING s; Some (s, (n, []))
  end.

Fixpoint do_ops (os : list op) (s : state) : option (state * list (Z * bytes)) :=
  match os with
  | [] => Some (s, [])
  | o :: os => '(s, r) ← do_op o s; '(s, rs) ← do_ops os s; Some (s, r :: rs)
  end.
End SslBio.

(** ** The specification: a queue of bytes *)

(** The bytes that an operation puts in. *)
Definition put (o : op) : bytes :=
  match o with Write l | SetBuf l => l | Puts l => c_str l | _ => [] end.

(** How many bytes an operation takes out of the queue [q], and what it returns. *)
Definition taken (o : op) (q : bytes) : nat :=
  match o with
  | Read n => Z.to_nat n `min` length q
  | Gets n => line_length (Z.to_nat (n - 1)) q
  | StealBuf => length q
  | _ => 0
  end.
Definition returned (o : op) (q : bytes) : Z :=
  match o with
  | Write _ | Puts _ => Z.of_nat (length (put o))
  | Read n => if 0 <? n then match q with [] => -1 | _ => Z.of_nat (taken o q) end
              else match q with [] => -1 | _ => n end
  | Gets _ => Z.of_nat (taken o q)
  | Pending => Z.of_nat (length q)
  | SetBuf _ | StealBuf => 0
  end.
Definition given (o : op) (q : bytes) : bytes :=
  take (taken o q) q ++ match o with Gets n => if 0 <? n then [Ascii.zero] else [] | _ => [] end.

Definition queue_op (o : op) (q : bytes) : bytes * (Z * bytes) :=
  (drop (taken o q) q ++ put o, (returned o q, given o q)).

Fixpoint queue_ops (os : list op) (q : bytes) : bytes * list (Z * bytes) :=
  match os with
  | [] => (q, [])
  | o :: os => let (q, r) := queue_op o q in let (q, rs) := queue_ops os q in (q, r :: rs)
  end.

(** ** Lemmas *)

Section Lemmas.
Context {H : Type} (v : version) (buf_alloc : H → Z → bytes * Z) (grown : Z → Z).
Implicit Types (s : state H) (b : membuf H).
#[local] Arguments Z.ltb : simpl never.
#[local] Arguments Z.leb : simpl never.
#[local] Arguments Z.eqb : simpl never.

(** A [BIO] in use: it has its buffer, which holds [q], and the stream. *)
Definition holds (q : bytes) (s : state H) : Prop :=
  ∃ p h c, ptr (bio s) = Some p ∧ heap s !! p = Some (mkMembuf (Some h) q c) ∧
    (old v = true → num (bio s) = -1).

(** The strings of the allocator are empty: it gives memory, not bytes. *)
Definition allocates : Prop := ∀ h n, (buf_alloc h n).1 = [].

Lemma deref_holds q s :
  holds q s → ∃ p h c, deref s = Some (p, mkMembuf (Some h) q c) ∧ holds q s.
Proof.
  intros (p & h & c & Hp & Hb & Hn). exists p, h, c. split; [|by exists p, h, c].
  unfold deref. by rewrite Hp; simpl; rewrite Hb.
Qed.

Lemma holds_store p h c q q' r s :
  deref s = Some (p, mkMembuf (Some h) q c) → holds q s →
  ∀ c', holds q' (store p (mkMembuf (Some h) q' c') (set_retry r s)).
Proof.
  intros Hd (p' & h' & c0 & Hp & Hb & Hn) c'. unfold deref in Hd. rewrite Hp in Hd. simpl in Hd.
  rewrite Hb in Hd. simplify_eq/=. exists p, h, c'.
  split; [done|]. split; [apply lookup_insert_eq|done].
Qed.

Lemma holds_retry q s r : holds q s → holds q (set_retry r s).
Proof. intros (p & h & c & Hh). by exists p, h, c. Qed.

Lemma length_small {A} (l : list A) n :
  Z.of_nat (length l) < 2 ^ 31 → n = Z.of_nat (length l) → swrap 32 n = n.
Proof. intros Hl ->. apply swrap_small; [done|]. change (2 ^ (32 - 1)) with (2 ^ 31). lia. Qed.

Lemma bio_write_queue q l s :
  allocates → holds q s → Z.of_nat (length l) < 2 ^ 31 →
  ∃ s', bio_write buf_alloc grown l s = Some (s', Z.of_nat (length l)) ∧ holds (q ++ l) s'.
Proof.
  intros Ha Hq Hl. destruct (deref_holds q s Hq) as (p & h & c & Hd & _).
  unfold bio_write. rewrite Hd. simpl. rewrite (length_small l) by done.
  destruct (c <? _); simpl.
  - pose proof (Ha h (Z.of_nat (length q) + Z.of_nat (length l))) as Hc.
    destruct (buf_alloc h _) as [c' n]. simpl in *. subst c'. eexists. split; [done|].
    destruct (Z.eqb_spec (Z.of_nat (length q)) 0); simpl.
    + assert (q = []) as -> by (destruct q; [done|simpl in *; lia]).
      by eapply (holds_store _ _ _ _ _ false).
    + by eapply (holds_store _ _ _ _ _ false).
  - eexists. split; [done|]. by eapply (holds_store _ _ _ _ _ false).
Qed.

Lemma set_retry_id s : set_retry (retry_read (bio s)) s = s.
Proof. by destruct s as [? []]. Qed.

Lemma bio_set_buf_queue q l s :
  holds q s → ∃ s', set_buf grown l s = Some s' ∧ holds (q ++ l) s'.
Proof.
  intros Hq. destruct (deref_holds q s Hq) as (p & h & c & Hd & _).
  unfold set_buf. rewrite Hd. eexists. split; [done|].
  rewrite <-(set_retry_id s). by eapply holds_store.
Qed.

Lemma bio_steal_queue q s :
  holds q s → ∃ s', steal_buf s = Some (s', q) ∧ holds [] s'.
Proof.
  intros Hq. destruct (deref_holds q s Hq) as (p & h & c & Hd & _).
  unfold steal_buf. rewrite Hd. eexists. split; [done|].
  rewrite <-(set_retry_id s). by eapply holds_store.
Qed.

Lemma bio_read_queue q n s :
  holds q s → Z.of_nat (length q) < 2 ^ 31 →
  ∃ s', bio_read v n s = Some (s', returned (Read n) q, take (taken (Read n) q) q) ∧
    holds (drop (taken (Read n) q) q) s'.
Proof.
  intros Hq Hl. destruct (deref_holds q s Hq) as (p & h & c & Hd & _).
  unfold bio_read. rewrite Hd. simpl. rewrite (length_small q) by done.
  destruct q as [|a q].
  - rewrite take_nil, drop_nil. simpl.
    destruct Hq as (p' & h' & c' & Hp & Hb & Hn).
    assert ((if old v then num (bio (set_retry false s)) else -1) = -1) as Hm.
    { destruct (old v); [by apply Hn|done]. }
    change (Z.of_nat 0) with 0.
    assert ((0 <? (if 0 <? n then 0 else n)) = false) as -> by (destruct (Z.ltb_spec 0 n); lia).
    simpl in Hm |- *. rewrite Hm. change (-1 =? 0) with false. simpl. rewrite take_nil. exists (set_retry true (set_retry false s)).
    split; [by destruct (0 <? n)|]. apply holds_retry, holds_retry. by exists p', h', c'.
  - set (k := a :: q) in *.
    assert (0 < Z.of_nat (length k)) as Hk by (unfold k; simpl; lia).
    destruct (Z.ltb_spec (Z.of_nat (length k)) n) as [Hn|Hn].
    + destruct (Z.ltb_spec 0 (Z.of_nat (length k))); [|lia]. destruct (Z.ltb_spec 0 n); [|lia].
      replace (Z.to_nat n `min` length k)%nat with (length k) by lia. rewrite Nat2Z.id.
      eexists. split; [done|]. by eapply (holds_store _ _ _ _ _ false).
    + destruct (Z.ltb_spec 0 n) as [H0|H0].
      * replace (Z.to_nat n `min` length k)%nat with (Z.to_nat n) by lia. rewrite Z2Nat.id by lia.
        eexists. split; [done|]. by eapply (holds_store _ _ _ _ _ false).
      * replace (Z.to_nat n `min` length k)%nat with 0%nat by lia. rewrite take_0, drop_0.
        eexists. split; [done|]. by apply holds_retry.
Qed.

Lemma line_length_le j q : (line_length j q ≤ j)%nat ∧ (line_length j q ≤ length q)%nat.
Proof.
  revert q. induction j as [|j IH]; intros [|c q]; simpl; try lia.
  specialize (IH q). case_decide; lia.
Qed.

Lemma line_length_min j q : line_length (j `min` length q) q = line_length j q.
Proof.
  revert q. induction j as [|j IH]; intros [|c q]; simpl; try done. by rewrite IH.
Qed.

Lemma line_length_pos j q : (0 < j)%nat → q ≠ [] → (0 < line_length j q)%nat.
Proof. destruct j, q; simpl; [lia|lia|done|lia]. Qed.

Lemma bio_gets_queue q n s :
  holds q s → Z.of_nat (length q) < 2 ^ 31 →
  ∃ s', bio_gets v n s = Some (s', returned (Gets n) q, given (Gets n) q) ∧
    holds (drop (taken (Gets n) q) q) s'.
Proof.
  intros Hq Hl. destruct (deref_holds q s Hq) as (p & h & c & Hd & _).
  unfold bio_gets. rewrite Hd. simpl. rewrite (length_small q) by done.
  set (j := if n - 1 <? Z.of_nat (length q) then n - 1 else Z.of_nat (length q)).
  assert (Hj : Z.to_nat j = (Z.to_nat (n - 1) `min` length q)%nat).
  { unfold j. destruct (Z.ltb_spec (n - 1) (Z.of_nat (length q))); lia. }
  destruct (Z.leb_spec j 0) as [H0|H0].
  - assert (line_length (Z.to_nat (n - 1)) q = 0%nat) as Hz.
    { rewrite <-line_length_min, <-Hj. by replace (Z.to_nat j) with 0%nat by lia. }
    unfold given, taken. rewrite Hz, take_0, drop_0. simpl.
    exists (set_retry false s). split; [done|by apply holds_retry].
  - rewrite Hj, line_length_min. set (i := line_length (Z.to_nat (n - 1)) q).
    assert (0 < i)%nat. { apply line_length_pos; [lia|]. intros ->. simpl in *. lia. }
    assert (i ≤ length q)%nat by apply line_length_le.
    destruct (bio_read_queue q (Z.of_nat i) (set_retry false s)) as (s' & Hr & Hs);
      [by apply holds_retry|done|].
    rewrite Hr. simpl. simpl in Hs. rewrite Nat2Z.id in *.
    replace (i `min` length q)%nat with i in * by lia.
    destruct (Z.ltb_spec 0 (Z.of_nat i)); [|lia].
    assert (q ≠ []) as Hne by (intros ->; simpl in *; lia).
    exists s'. split; [|done]. unfold given, taken. fold i. destruct q; [done|].
    destruct (Z.ltb_spec 0 (Z.of_nat i)); [|lia]. destruct (Z.ltb_spec 0 n); [done|lia].
Qed.

(** Each operation does to the [BIO] what it does to the queue. *)
Lemma do_op_queue o q s :
  allocates → holds q s → Z.of_nat (length q) + Z.of_nat (length (put o)) < 2 ^ 31 →
  ∃ s', do_op v buf_alloc grown o s = Some (s', (queue_op o q).2) ∧ holds (queue_op o q).1 s'.
Proof.
  intros Ha Hq Hl. destruct o as [l|l|l|n|n| |]; unfold queue_op, given; simpl in *;
    rewrite ?drop_0, ?take_0, ?app_nil_r.
  - destruct (bio_write_queue q l s) as (s' & -> & Hs); [done..|lia|]. by exists s'.
  - destruct (bio_write_queue q (c_str l) s) as (s' & Hw & Hs); [done..|lia|].
    unfold bio_puts. rewrite Hw. by exists s'.
  - destruct (bio_set_buf_queue q l s) as (s' & -> & Hs); [done|]. by exists s'.
  - destruct (bio_read_queue q n s) as (s' & -> & Hs); [done|lia|]. by exists s'.
  - destruct (bio_gets_queue q n s) as (s' & -> & Hs); [done|lia|]. by exists s'.
  - destruct (bio_steal_queue q s) as (s' & -> & Hs); [done|].
    rewrite drop_all, firstn_all. by exists s'.
  - destruct (deref_holds q s Hq) as (p & h & c & -> & _). by exists s.
Qed.

Lemma queue_op_length o q :
  (length (queue_op o q).1 ≤ length q + length (put o))%nat.
Proof. unfold queue_op. simpl. rewrite length_app, length_drop. lia. Qed.

Lemma do_ops_queue os q s :
  allocates → holds q s → Z.of_nat (length q) + Z.of_nat (length (concat (put <$> os))) < 2 ^ 31 →
  ∃ s', do_ops v buf_alloc grown os s = Some (s', (queue_ops os q).2) ∧ holds (queue_ops os q).1 s'.
Proof.
  intros Ha. revert q s. induction os as [|o os IH]; intros q s Hq Hl; [by exists s|].
  rewrite fmap_cons in Hl. cbn [concat] in Hl. rewrite length_app in Hl.
  destruct (do_op_queue o q s) as (s1 & Ho & Hs1); [done..|lia|].
  pose proof (queue_op_length o q) as Hlen.
  cbn [do_ops queue_ops]. rewrite Ho. destruct (queue_op o q) as [q1 r]. simpl in *.
  destruct (IH q1 s1) as (s2 & Hos & Hs2); [done|lia|].
  rewrite Hos. destruct (queue_ops os q1) as [q2 rs]. by exists s2.
Qed.

Lemma bio_new_holds h s :
  num (bio s) = 0 → ∃ s1 s2, bio_new v s = Some (s1, 1) ∧ set_handle h s1 = Some s2 ∧ holds [] s2.
Proof.
  intros Hn. unfold bio_new, bio_ctrl. set (p := fresh _).
  destruct (old v) eqn:Ho; simpl; do 2 eexists; (split; [done|]);
    unfold set_handle, deref; simpl; rewrite lookup_insert_eq; simpl; (split; [done|]);
    exists p, h, 0; simpl; (split; [done|]); (split; [apply lookup_insert_eq|]);
    intros; [done|congruence].
Qed.
End Lemmas.

(** What goes into a queue comes out of it, in order. *)
Lemma queue_ops_conserve os q :
  (∀ n, Gets n ∉ os) →
  q ++ concat (put <$> os) = concat ((queue_ops os q).2.*2) ++ (queue_ops os q).1.
Proof.
  revert q. induction os as [|o os IH]; intros q Hg; simpl; [by rewrite app_nil_r|].
  assert (given o q = take (taken o q) q) as Hgiven.
  { unfold given. destruct o as [| | | |n| |]; rewrite ?app_nil_r; try done. destruct (Hg n). by left. }
  specialize (IH (drop (taken o q) q ++ put o)). destruct (queue_ops os _) as [q2 rs]. simpl in *.
  transitivity (given o q ++ concat (rs.*2) ++ q2); [|by rewrite app_assoc].
  rewrite <-IH by (intros n Hn; apply (Hg n); by right).
  by rewrite Hgiven, !app_assoc, take_drop.
Qed.

(** ** Properties *)

(** C37: A new memory [BIO] that has been given its stream is a queue of bytes: every
    sequence of writes, reads and transfers that OpenSSL and the filter make of it
    returns what the queue returns, no operation fails, and the bytes come out as
    they were put in, as long as the allocator gives empty strings and there are less
    than 2 GB of them. *)
Theorem bio_is_queue {H : Type} (v : version) (buf_alloc : H → Z → bytes * Z) (grown : Z → Z)
    (s : state H) (h : H) (os : list op) :
  allocates buf_alloc → num (bio s) = 0 →
  Z.of_nat (length (concat (put <$> os))) < 2 ^ 31 →
  ∃ s1 s2 s', bio_new v s = Some (s1, 1) ∧ set_handle h s1 = Some s2 ∧
    do_ops v buf_alloc grown os s2 = Some (s', (queue_ops os []).2) ∧
    holds v (queue_ops os []).1 s' ∧
    ((∀ n, Gets n ∉ os) →
     concat (put <$> os) = concat ((queue_ops os []).2.*2) ++ (queue_ops os []).1).
Proof.
  intros Ha Hn Hl. destruct (bio_new_holds v h s Hn) as (s1 & s2 & H1 & H2 & Hs).
  destruct (do_ops_queue v buf_alloc grown os [] s2) as (s' & Hos & Hs'); [done..|].
  exists s1, s2, s'. split_and!; [done..|]. intros Hg. by apply (queue_ops_conserve os []).
Qed.

(** ** Witnesses *)

#[local] Definition ex_alloc (_ : unit) (n : Z) : bytes * Z := ([], n).
#[local] Definition ex_bio : state unit := mkState ∅ (mkBIO None 0 0 0 false).
#[local] Definition ex_ops : list op :=
  let c n := Ascii.ascii_of_nat n in
  [Write [c 65; c 66]; Read 1; SetBuf [c 67; c 68]; Pending; Read 5; Read 5; Puts [c 69]; StealBuf]%nat.

Lemma bio_is_queue_witness :
  (queue_ops ex_ops []).2.*1 = [2; 1; 0; 3; 3; -1; 1; 0] ∧
  ∃ s1 s2 s', bio_new (mkVersion false false) ex_bio = Some (s1, 1) ∧ set_handle tt s1 = Some s2 ∧
    do_ops (mkVersion false false) ex_alloc id ex_ops s2 = Some (s', (queue_ops ex_ops []).2) ∧
    holds (mkVersion false false) (queue_ops ex_ops []).1 s' ∧
    ((∀ n, Gets n ∉ ex_ops) →
     concat (put <$> ex_ops) = concat ((queue_ops ex_ops []).2.*2) ++ (queue_ops ex_ops []).1).
Proof.
  split; [by vm_compute|].
  apply (bio_is_queue (mkVersion false false) ex_alloc id ex_bio tt ex_ops); [by intros|done|by vm_compute].
Defined.

(** ** What the code does not do *)

(** A buffer of 2 GB or more cannot be read: the length is converted to [int] and
    becomes negative, which OpenSSL takes for an error. *)
Lemma bio_read_too_long {H : Type} v q n (s : state H) :
  holds v q s → 2 ^ 31 ≤ Z.of_nat (length q) < 2 ^ 32 → 0 ≤ n →
  ∃ r, r < 0 ∧ bio_read v n s = Some (set_retry false s, r, []).
Proof.
  intros Hq Hl Hn. destruct (deref_holds v q s Hq) as (p & h & c & Hd & _).
  assert (swrap 32 (Z.of_nat (length q)) = Z.of_nat (length q) - 2 ^ 32) as Hs.
  { unfold swrap, wrap. change (2 ^ (32 - 1)) with (2 ^ 31).
    replace (Z.of_nat (length q) + 2 ^ 31) with (Z.of_nat (length q) - 2 ^ 31 + 1 * 2 ^ 32) by lia.
    rewrite Z.mod_add by done. rewrite Z.mod_small by lia. lia. }
  exists (Z.of_nat (length q) - 2 ^ 32). split; [lia|]. unfold bio_read. rewrite Hd. simpl.
  rewrite Hs. destruct (Z.ltb_spec (Z.of_nat (length q) - 2 ^ 32) n); [|lia].
  destruct (Z.ltb_spec 0 (Z.of_nat (length q) - 2 ^ 32)); [lia|].
  destruct q; [|done]. simpl in *. lia.
Qed.

(** Where [SslBio.h] defines the accessors itself, [BIO_set_shutdown] ignores its
    argument: the close flag cannot be cleared. *)
Lemma set_close_ignored {H : Type} v n (s : state H) :
  PATCH_BIO v = true →
  ∃ s', bio_ctrl v (BIO_CTRL_SET_CLOSE n) s = Some (s', 1, OutNone) ∧
    bio_ctrl v BIO_CTRL_GET_CLOSE s' = Some (s', 1, OutNone).
Proof. intros Hv. eexists. split; [done|]. simpl. by rewrite Hv. Qed.
