(* ===== verification/SslFilter.v ===== *)
(** The SSL filter: [ssl/SslFilter.h], [ssl/SslFilter.cc].

    The filter stands between the connection and the user: it negotiates when the
    connection is made, and reports the connection when the negotiation is over; then it
    encrypts what is written and decrypts what is read.  OpenSSL is a parameter: an object
    that reads its input from one memory [BIO] and writes to another, which are queues of
    bytes ([SslBio.v]).  The stream, the other filters and the user are arbitrary code that
    may call the filter again.  Of an established connection OpenSSL is relied on only for
    input that its peer wrote ([CipherLaws]). *)
From Stdlib Require Import Ascii.
From S2P Require Import Prelude Machine Errors SslBio.
#[local] Open Scope Z_scope.

(** ** Data *)

(** [SslFilter::State], [SslFilter::Profile] *)
Inductive State := initial | negotiating | error | terminal.
Inductive Profile := UNKNOWN | SERVER | CLIENT.

#[global] Instance State_eq_dec : EqDecision State.
Proof. solve_decision. Defined.

(** The requests of the stream, and the filter's own. *)
Abbreviation rid := nat.
Abbreviation wid := nat.

(** The functions of OpenSSL on an object: what they leave of it, of its input, what they
    add to its output, the number returned, and the bytes stored for the caller. *)
Record sslres (L : Type) := mkRes { o_ssl : L; o_in : bytes; o_out : bytes; o_ret : Z; o_data : bytes }.
Arguments mkRes {L}.
Arguments o_ssl {L}.
Arguments o_in {L}.
Arguments o_out {L}.
Arguments o_ret {L}.
Arguments o_data {L}.

Class Openssl (L : Type) := {
  SSL_new : L → option L;                     (* with the context of another object *)
  SSL_set_connect_state : L → L;
  SSL_set_accept_state : L → L;
  SSL_do_handshake : L → bytes → sslres L;
  SSL_read : Z → L → bytes → sslres L;
  SSL_write : bytes → L → bytes → sslres L;
  SSL_get_error : L → Z → Z;
  SSL_is_init_finished : L → bool;
  SSL_renegotiate_pending : L → bool;
  SSL_check_private_key : L → bool;
  ssl_errors : L → list Z                     (* the queue of [ERR_get_error] *)
}.

(** [SSL_ERROR_...] *)
Definition SSL_ERROR_SSL : Z := 1.
Definition SSL_ERROR_WANT_READ : Z := 2.
Definition SSL_ERROR_WANT_WRITE : Z := 3.
Definition SSL_ERROR_ZERO_RETURN : Z := 6.

(** [SslWriteRequest] *)
Record sslreq := mkSslReq { orig : option rid; final : bool; wbufs : list bytes }.

(** The methods of the filter. [Accept] is what [handle_connection] of the listening
    filter does with the filter of the new connection. *)
Inductive sapi (EC : Type) :=
| Listen
| Reset
| HandleConnect (err : EC) (r : rid)
| Accept (r : rid)
| HandleRead (encbuf : bytes) (err : EC)
| Write (r : rid) (bufs : list bytes)
| HandleWrite (err : EC) (w : wid)
| HandleEof.
Arguments Listen {EC}.
Arguments Reset {EC}.
Arguments HandleConnect {EC}.
Arguments Accept {EC}.
Arguments HandleRead {EC}.
Arguments Write {EC}.
Arguments HandleWrite {EC}.
Arguments HandleEof {EC}.

(** The calls that leave the filter: [NextFilter::], the server's filter, the sub-requests,
    the delayed report of a failed write. *)
Inductive scall (EC : Type) :=
| NextListen
| NextReset
| NextHandleConnect (err : EC) (r : option rid)
| NextHandleConnection (err : EC) (r : option rid)
| NextHandleRead (buf : bytes) (err : EC)
| NextHandleWrite (err : EC) (r : rid)
| NextHandleEof
| SubreqWrite (parent : rid) (w : wid)
| DelayHandleWrite (r : rid) (err : EC).
Arguments NextListen {EC}.
Arguments NextReset {EC}.
Arguments NextHandleConnect {EC}.
Arguments NextHandleConnection {EC}.
Arguments NextHandleRead {EC}.
Arguments NextHandleWrite {EC}.
Arguments NextHandleEof {EC}.
Arguments SubreqWrite {EC}.
Arguments DelayHandleWrite {EC}.

(** A method, a call that leaves the filter, or the rest of a method after such a call. *)
Inductive stmt (EC : Type) :=
| Api (a : sapi EC)
| Next (c : scall EC)
| HandleConnectRest (err : EC) (r : rid)
| ReadRest (pending : Z)
| ReadLoop (pending : Z)
| ReadCheck (pending : Z)
| AfterFinal.
Arguments Api {EC}.
Arguments Next {EC}.
Arguments HandleConnectRest {EC}.
Arguments ReadRest {EC}.
Arguments ReadLoop {EC}.
Arguments ReadCheck {EC}.
Arguments AfterFinal {EC}.

Section SslFilter.
Context {L X EC Exn : Type} `{Openssl L} `{ErrorStack EC}.

(** What the filter asks the stream: [handle->connecting()], [connected()], [wantread()],
    [read_start()], [read_stop()], and [subreq_done]. *)
Context (connecting connected wantread : X → bool).
Context (x_read_start : X → X * option error_code) (x_read_stop : X → X) (x_subreq_done : wid → X → X).

(** What the rest of the program does when it is called, and the exceptions: an [Error]
    with a code, and that of a listener without certificate and key. *)
Context (env : scall EC → X → X * (list (sapi EC) + Exn)).
Context (error_exn : error_code → Exn) (key_exn : Exn).

(** [server]: there is a [server_filter], and it is alive; [wreqs]: the write requests the
    filter has made; the last four are ghosts: the plaintext handed up, that of each
    [SSL_write], and the ciphertext received and handed down. *)
Record ssl_filter := mkSsl {
  ssl : L;
  read_bio : bytes;
  write_bio : bytes;
  source_request : option rid;
  state : State;
  profile : Profile;
  server : option bool;
  wreqs : gmap wid sslreq;
  new_wid : wid;
  ext : X;
  delivered : bytes;
  written : list bytes;
  received : bytes;
  sent : bytes
}.

Abbreviation result := (ssl_filter * outcome (stmt EC) Exn)%type.

Definition with_ssl (l : L) (i o : bytes) (s : ssl_filter) : ssl_filter :=
  mkSsl l i o (source_request s) (state s) (profile s) (server s) (wreqs s) (new_wid s) (ext s)
    (delivered s) (written s) (received s) (sent s).
Definition with_source (r : option rid) (s : ssl_filter) : ssl_filter :=
  mkSsl (ssl s) (read_bio s) (write_bio s) r (state s) (profile s) (server s) (wreqs s) (new_wid s) (ext s)
    (delivered s) (written s) (received s) (sent s).
Definition with_state (t : State) (s : ssl_filter) : ssl_filter :=
  mkSsl (ssl s) (read_bio s) (write_bio s) (source_request s) t (profile s) (server s) (wreqs s) (new_wid s) (ext s)
    (delivered s) (written s) (received s) (sent s).
Definition with_profile (p : Profile) (s : ssl_filter) : ssl_filter :=
  mkSsl (ssl s) (read_bio s) (write_bio s) (source_request s) (state s) p (server s) (wreqs s) (new_wid s) (ext s)
    (delivered s) (written s) (received s) (sent s).
Definition with_wreqs (m : gmap wid sslreq) (n : wid) (s : ssl_filter) : ssl_filter :=
  mkSsl (ssl s) (read_bio s) (write_bio s) (source_request s) (state s) (profile s) (server s) m n (ext s)
    (delivered s) (written s) (received s) (sent s).
Definition with_ext (x : X) (s : ssl_filter) : ssl_filter :=
  mkSsl (ssl s) (read_bio s) (write_bio s) (source_request s) (state s) (profile s) (server s) (wreqs s) (new_wid s) x
    (delivered s) (written s) (received s) (sent s).
Definition note_delivered (b : bytes) (s : ssl_filter) : ssl_filter :=
  mkSsl (ssl s) (read_bio s) (write_bio s) (source_request s) (state s) (profile s) (server s) (wreqs s) (new_wid s) (ext s)
    (delivered s ++ b) (written s) (received s) (sent s).
Definition note_written (b : bytes) (s : ssl_filter) : ssl_filter :=
  mkSsl (ssl s) (read_bio s) (write_bio s) (source_request s) (state s) (profile s) (server s) (wreqs s) (new_wid s) (ext s)
    (delivered s) (written s ++ [b]) (received s) (sent s).
Definition note_received (b : bytes) (s : ssl_filter) : ssl_filter :=
  mkSsl (ssl s) (read_bio s) (write_bio s) (source_request s) (state s) (profile s) (server s) (wreqs s) (new_wid s) (ext s)
    (delivered s) (written s) (received s ++ b) (sent s).
Definition note_sent (b : bytes) (s : ssl_filter) : ssl_filter :=
  mkSsl (ssl s) (read_bio s) (write_bio s) (source_request s) (state s) (profile s) (server s) (wreqs s) (new_wid s) (ext s)
    (delivered s) (written s) (received s) (sent s ++ b).

(** What a function of OpenSSL leaves. *)
Definition after_ssl (r : sslres L) (s : ssl_filter) : ssl_filter :=
  with_ssl (o_ssl r) (o_in r) (write_bio s ++ o_out r) s.

(** [SslBio::steal_buf(write_bio)] *)
Definition steal_write (s : ssl_filter) : ssl_filter * bytes := (with_ssl (ssl s) (read_bio s) [] s, write_bio s).

(** [BIO_ctrl(read_bio, BIO_CTRL_PENDING)] *)
Definition bio_pending (s : ssl_filter) : Z := Z.of_nat (length (read_bio s)).

Definition ec_opt (e : option error_code) : EC := match e with Some e => ec_of e | None => ec_ok end.
Definition nest_ssl_error (err : EC) : EC := if ec_bool err then nest_error (Unievent ssl_error) err else err.
Definition ssl_error_of (code : Z) (s : ssl_filter) : error_code := (make_ssl_error_code code (ssl_errors (ssl s))).1.

(** [new SslWriteRequest(...)] and [subreq_write(parent, req)], which is not given a null
    parent. *)
Definition new_wreq (q : sslreq) (s : ssl_filter) : ssl_filter * wid :=
  (with_wreqs (<[new_wid s := q]> (wreqs s)) (S (new_wid s)) s, new_wid s).
Definition subreq_write (parent : option rid) (q : sslreq) (s : ssl_filter) : result :=
  let (s, w) := new_wreq q s in
  match parent with
  | Some r => (note_sent (concat (wbufs q)) s, Calls [Next (SubreqWrite r w)])
  | None => (s, Aborts)
  end.

(** [SslFilter::init]; the memory for the two [BIO]s is there. *)
Definition init (s : ssl_filter) : ssl_filter + error_code :=
  match SSL_new (ssl s) with
  | Some l => inl (with_ssl l [] [] s)
  | None => inr (ssl_error_of SSL_ERROR_SSL s)
  end.

(** [SslFilter::listen] *)
Definition listen (s : ssl_filter) : result :=
  if SSL_check_private_key (ssl s) then (s, Calls [Next NextListen])
  else (s, Throws key_exn).

(** [SslFilter::reset] *)
Definition reset (s : ssl_filter) : result :=
  if decide (state s = initial) then (s, Calls []) else
  let s := with_state initial (with_source None s) in
  match init s with
  | inl s => (s, Calls [Next NextReset])
  | inr e => (s, Throws (error_exn e))
  end.

(** [SslFilter::negotiation_finished] *)
Definition negotiation_finished (err : EC) (s : ssl_filter) : ssl_filter * list (stmt EC) :=
  match state s with
  | terminal | error => (s, [])
  | _ =>
      if connected (ext s) then (with_state terminal s, []) else
      let s := with_ext (x_read_stop (ext s)) s in
      let s := with_state (if ec_bool err then error else terminal) s in
      let tmp := source_request s in
      let s := with_source None s in
      (s, match profile s with
          | CLIENT => [Next (NextHandleConnect (nest_ssl_error err) tmp)]
          | _ =>
              match server s with
              | Some true => [Next (NextHandleConnection (nest_ssl_error err) tmp)]
              | _ => []
              end
          end)
  end.

(** [SslFilter::negotiate]: the state, the calls, and what it returns. *)
Definition negotiate (s : ssl_filter) : ssl_filter * outcome (stmt EC) Exn * Z :=
  if negb ((negb (SSL_is_init_finished (ssl s)) && connecting (ext s)) || SSL_renegotiate_pending (ssl s))
  then (s, Aborts, 0) else
  let s := with_state negotiating s in
  let (x, read_start_err) := x_read_start (ext s) in
  let s := with_ext x s in
  match read_start_err with
  | Some e => let (s, cs) := negotiation_finished (ec_of e) s in (s, Calls cs, 0)
  | None =>
      let r := SSL_do_handshake (ssl s) (read_bio s) in
      let s := after_ssl r s in
      let code := SSL_get_error (ssl s) (o_ret r) in
      if (o_ret r <=? 0) && negb (code =? SSL_ERROR_WANT_READ) && negb (code =? SSL_ERROR_WANT_WRITE) then
        let (s, cs) := negotiation_finished (ec_of (ssl_error_of code s)) s in (s, Calls cs, 0)
      else
        let (s, write_buf) := steal_write s in
        match write_buf, SSL_is_init_finished (ssl s) with
        | [], true =>
            let pending := bio_pending s in
            let (s, cs) := negotiation_finished ec_ok s in (s, Calls cs, pending)
        | [], false => (s, Calls [], 0)
        | _, fin =>
            let (s, o) := subreq_write (source_request s) (mkSslReq None fin [write_buf]) s in (s, o, 0)
        end
  end.

(** [SslFilter::start_ssl_connection] *)
Definition start_ssl_connection (p : Profile) (s : ssl_filter) : result :=
  let s := with_profile p s in
  let s := with_ssl (match p with CLIENT => SSL_set_connect_state (ssl s) | _ => SSL_set_accept_state (ssl s) end)
             (read_bio s) (write_bio s) s in
  (negotiate s).1.

(** [SslFilter::handle_connect], after [reset()] *)
Definition handle_connect_rest (err : EC) (r : rid) (s : ssl_filter) : result :=
  if ec_bool err then (s, Calls [Next (NextHandleConnect err (Some r))])
  else start_ssl_connection CLIENT (with_source (Some r) s).

(** [SslFilter::handle_read], up to [negotiate()] *)
Definition handle_read (encbuf : bytes) (err : EC) (s : ssl_filter) : result :=
  if decide (state s = error) then (s, Calls [Next (NextHandleRead encbuf err)]) else
  if negb (connecting (ext s) || connected (ext s)) then (s, Aborts) else
  let in_handshake := negb (SSL_is_init_finished (ssl s)) in
  if ec_bool err then
    if negb (connecting (ext s)) then (s, Calls [])
    else if in_handshake then let (s, cs) := negotiation_finished err s in (s, Calls cs)
    else (s, Calls [Next (NextHandleRead encbuf err)])
  else
    let s := note_received encbuf (with_ssl (ssl s) (read_bio s ++ encbuf) (write_bio s) s) in
    if in_handshake then
      let '(s, o, pending) := negotiate s in
      (s, match o with Calls cs => Calls (cs ++ [ReadRest pending]) | o => o end)
    else (s, Calls [ReadRest (bio_pending s + Z.of_nat (length encbuf))]).

Definition read_rest (pending : Z) (s : ssl_filter) : result :=
  if pending =? 0 then (s, Calls [])
  else if decide (state s = negotiating) then (s, Calls [])
  else (s, Calls [ReadLoop pending]).

(** One turn of the loop of [handle_read], and what follows the loop. *)
Definition read_loop (pending : Z) (s : ssl_filter) : result :=
  if decide (state s = initial) then (s, Calls []) else
  let r := SSL_read pending (ssl s) (read_bio s) in
  let s := after_ssl r s in
  if 0 <? o_ret r then
    (note_delivered (o_data r) s, Calls [Next (NextHandleRead (o_data r) ec_ok); ReadCheck pending])
  else
    let ssl_code := SSL_get_error (ssl s) (o_ret r) in
    if ssl_code =? SSL_ERROR_WANT_READ then (s, Calls [])
    else if ssl_code =? SSL_ERROR_ZERO_RETURN then (s, Calls [Next NextHandleEof])
    else if ssl_code =? SSL_ERROR_WANT_WRITE then
      let (s, wbuf) := steal_write s in
      subreq_write (source_request s) (mkSslReq None false [wbuf]) s
    else (s, Calls [Next (NextHandleRead [] (nest_ssl_error (ec_of (ssl_error_of ssl_code s))))]).
Definition read_check (pending : Z) (s : ssl_filter) : result :=
  (s, Calls (if wantread (ext s) then [ReadLoop pending] else [])).

(** The loop of [SslFilter::write]: the buffers of the new request, [None] when [SSL_write]
    fails. *)
Fixpoint write_loop (bufs : list bytes) (s : ssl_filter) : ssl_filter * option (list bytes) :=
  match bufs with
  | [] => (s, Some [])
  | [] :: bufs => write_loop bufs s
  | b :: bufs =>
      let r := SSL_write b (ssl s) (read_bio s) in
      let s := after_ssl r s in
      if o_ret r <=? 0 then (s, None) else
      let s := note_written b s in
      let (s, buf) := steal_write s in
      let (s, l) := write_loop bufs s in (s, cons buf <$> l)
  end.

(** [SslFilter::write] *)
Definition write (r : rid) (bufs : list bytes) (s : ssl_filter) : result :=
  if negb (bool_decide (state s = terminal)) then (s, Aborts) else
  let (s, l) := write_loop bufs s in
  match l with
  | Some l => subreq_write (Some r) (mkSslReq (Some r) false l) s
  | None =>
      (s, Calls [Next (DelayHandleWrite r (nest_ssl_error (ec_of (ssl_error_of SSL_ERROR_SSL s))))])
  end.

(** [SslFilter::handle_write] *)
Definition handle_write (err : EC) (w : wid) (s : ssl_filter) : result :=
  match wreqs s !! w with
  | None => (s, Aborts)      (* not a request of this filter *)
  | Some q =>
      let s := with_wreqs (delete w (wreqs s)) (new_wid s) (with_ext (x_subreq_done w (ext s)) s) in
      match orig q with
      | Some r => (s, Calls [Next (NextHandleWrite err r)])
      | None =>
          if ec_bool err then let (s, cs) := negotiation_finished err s in (s, Calls cs)
          else if final q then let (s, cs) := negotiation_finished ec_ok s in (s, Calls (cs ++ [AfterFinal]))
          else (s, Calls [])
      end
  end.
Definition after_final (s : ssl_filter) : result :=
  (s, Calls (if negb (bio_pending s =? 0) && bool_decide (server s = Some true)
             then [Api (HandleRead [] ec_ok)] else [])).

(** [SslFilter::handle_eof] *)
Definition handle_eof (s : ssl_filter) : result :=
  match state s with
  | terminal => (s, Calls [Next NextHandleEof])
  | negotiating =>
      let (s, cs) := negotiation_finished (ec_of (Std connection_aborted)) s in (s, Calls cs)
  | _ => (s, Calls [])
  end.

(** [SslFilter::handle_connection] of a listening filter: an error goes on, otherwise a
    filter is made for the client, with an object of the same context, and started. *)
Definition handle_connection (err : EC) (r : rid) (x : X) (s : ssl_filter) :
    stmt EC + (ssl_filter + error_code) :=
  if ec_bool err then inl (Next (NextHandleConnection err (Some r))) else
  inr (init (mkSsl (ssl s) [] [] (Some r) initial UNKNOWN (Some true) ∅ 0 x [] [] [] [])).

Definition api (a : sapi EC) (s : ssl_filter) : result :=
  match a with
  | Listen => listen s
  | Reset => reset s
  | HandleConnect err r => (s, Calls [Api Reset; HandleConnectRest err r])
  | Accept r => start_ssl_connection SERVER (with_source (Some r) s)
  | HandleRead buf err => handle_read buf err s
  | Write r bufs => write r bufs s
  | HandleWrite err w => handle_write err w s
  | HandleEof => handle_eof s
  end.

Definition sbody (c : stmt EC) (s : ssl_filter) : result :=
  match c with
  | Api a => api a s
  | Next c =>
      match env c (ext s) with
      | (x, inl l) => (with_ext x s, Calls (Api <$> l))
      | (x, inr e) => (with_ext x s, Throws e)
      end
  | HandleConnectRest err r => handle_connect_rest err r s
  | ReadRest pending => read_rest pending s
  | ReadLoop pending => read_loop pending s
  | ReadCheck pending => read_check pending s
  | AfterFinal => after_final s
  end.

Definition ssl_program : program ssl_filter (stmt EC) Exn := Program sbody (λ _ e s, (s, Throws e)).
End SslFilter.
Arguments ssl_filter : clear implicits.

(** ** An established connection *)

(** What OpenSSL promises of an object whose handshake is over ([open_ssl]).  The bytes of
    one direction are encrypted and decrypted with a key that advances, [K]; a write gives
    the ciphertext of its bytes; the plaintext that can be read ([view]) is what the input
    decrypts to, besides what was decrypted before.  As long as the input has been a part
    of what the peer wrote ([sound]), a read gives the first bytes of that plaintext, or
    asks for more input.  Of any other input, such as a forged record, an alert or the end
    of the connection, nothing is promised: a read may fail, or see the end. *)
Class Cipher (L K : Type) := {
  open_ssl : L → Prop;
  wkey : L → K;
  view : L → bytes → K * bytes;
  enc : K → bytes → K * bytes;
  dec : K → bytes → K * bytes;
  sound : K → Prop
}.

Class CipherLaws (L K : Type) `{Openssl L, Cipher L K} := {
  open_finished l : open_ssl l → SSL_is_init_finished l = true;
  dec_nil k : dec k [] = (k, []);
  dec_app k x y : dec k (x ++ y) = ((dec (dec k x).1 y).1, (dec k x).2 ++ (dec (dec k x).1 y).2);
  dec_enc k p : dec k (enc k p).2 = ((enc k p).1, p);
  sound_enc k p : sound k → sound (enc k p).1;
  sound_dec k x : sound (dec k x).1 → sound k;
  view_app l b x : view l (b ++ x) = ((dec (view l b).1 x).1, (view l b).2 ++ (dec (view l b).1 x).2);
  write_open p l b : open_ssl l → p ≠ [] →
    let r := SSL_write p l b in
    0 < o_ret r ∧ open_ssl (o_ssl r) ∧ o_out r = (enc (wkey l) p).2 ∧ wkey (o_ssl r) = (enc (wkey l) p).1 ∧
    view (o_ssl r) (o_in r) = view l b;
  read_some n l b : open_ssl l → sound (view l b).1 → 0 < n → (view l b).2 ≠ [] →
    let r := SSL_read n l b in
    o_ret r = Z.of_nat (length (o_data r)) ∧ o_data r ≠ [] ∧ open_ssl (o_ssl r) ∧ o_out r = [] ∧
    wkey (o_ssl r) = wkey l ∧ (view (o_ssl r) (o_in r)).1 = (view l b).1 ∧
    (view l b).2 = o_data r ++ (view (o_ssl r) (o_in r)).2;
  read_none n l b : open_ssl l → sound (view l b).1 → 0 < n → (view l b).2 = [] →
    let r := SSL_read n l b in
    o_ret r ≤ 0 ∧ SSL_get_error (o_ssl r) (o_ret r) = SSL_ERROR_WANT_READ ∧ open_ssl (o_ssl r) ∧
    o_out r = [] ∧ wkey (o_ssl r) = wkey l ∧ view (o_ssl r) (o_in r) = view l b
}.

(** The ciphertext of a sequence of writes. *)
Fixpoint enc_list {L K} `{Cipher L K} (k : K) (ps : list bytes) : K * bytes :=
  match ps with
  | [] => (k, [])
  | p :: ps => let (k', c) := enc k p in let (k'', cs) := enc_list k' ps in (k'', c ++ cs)
  end.

(** The buffers that a write encrypts. *)
Definition nonempty (l : list bytes) : list bytes := filter (λ b, b ≠ []) l.

Section Established.
#[local] Set Default Proof Using "Type*".
Context {L X EC Exn K : Type} `{CipherLaws L K} `{ErrorStack EC}.
Context (connecting connected wantread : X → bool).
Context (x_read_start : X → X * option error_code) (x_read_stop : X → X) (x_subreq_done : wid → X → X).
Context (env : scall EC → X → X * (list (sapi EC) + Exn)).
Context (error_exn : error_code → Exn) (key_exn : Exn).
Abbreviation filter := (ssl_filter L X).
Abbreviation prog := (ssl_program connecting connected wantread x_read_start x_read_stop x_subreq_done env error_exn key_exn).
Implicit Types (s : filter).

(** The methods that are called while a connection is established: it is neither made
    again nor reset, and it does not listen. *)
Definition established_api (a : sapi EC) : Prop :=
  match a with Listen | Reset | HandleConnect _ _ | Accept _ => False | _ => True end.
Definition established_stmt (c : stmt EC) : Prop :=
  match c with
  | Api a => established_api a
  | HandleConnectRest _ _ => False
  | ReadRest n => 0 ≤ n
  | ReadLoop n | ReadCheck n => 0 < n
  | _ => True
  end.

(** The loop, or the stream, calls such a method; the rest of the program changes. *)
Definition established_input s (cs : list (stmt EC)) s' : Prop :=
  ∃ a x, established_api a ∧ cs = [Api a] ∧ s' = with_ext x s.

(** The code called by the filter calls only such methods. *)
Definition keeps_established : Prop :=
  ∀ c x x' l, env c x = (x', inl l) → Forall established_api l.

(** Nothing that the filter calls throws. *)
Definition calm : Prop := ∀ c x, ∃ x' l, env c x = (x', inl l).

(** A filter that has just established its connection, with its keys. *)
Definition established_initial (kw kr : K) s : Prop :=
  state s = terminal ∧ open_ssl (ssl s) ∧ wkey (ssl s) = kw ∧ view (ssl s) (read_bio s) = (kr, []) ∧
  write_bio s = [] ∧ delivered s = [] ∧ written s = [] ∧ received s = [] ∧ sent s = [].

Record est (kw kr : K) s : Prop := {
  est_state : state s = terminal;
  est_open : open_ssl (ssl s);
  est_bio : write_bio s = [];
  est_sent : enc_list kw (written s) = (wkey (ssl s), sent s);
  est_key : (view (ssl s) (read_bio s)).1 = (dec kr (received s)).1;
  est_read : delivered s ++ (view (ssl s) (read_bio s)).2 = (dec kr (received s)).2
}.

(** What came to the filter is a part of what the peer wrote. *)
Definition genuine (kr : K) s : Prop := sound (dec kr (received s)).1.

(** A statement that will read what can be read. *)
Definition reads (c : stmt EC) : Prop :=
  match c with ReadLoop _ | ReadCheck _ => True | ReadRest n => n ≠ 0 | _ => False end.

(** Nothing can be read, or somebody is going to read it. *)
Definition drained (k : list (stmt EC)) s : Prop := (view (ssl s) (read_bio s)).2 = [] ∨ Exists reads k.

Lemma enc_list_snoc kw ps p :
  enc_list kw (ps ++ [p]) = ((enc (enc_list kw ps).1 p).1, (enc_list kw ps).2 ++ (enc (enc_list kw ps).1 p).2).
Proof.
  revert kw. induction ps as [|q ps IH]; intros kw; simpl.
  - destruct (enc kw p). simpl. by rewrite app_nil_r.
  - destruct (enc kw q) as [k' c]. rewrite IH. destruct (enc_list k' ps) as [k'' cs]. simpl.
    by rewrite app_assoc.
Qed.

(** What the other side decrypts. *)
Lemma dec_enc_list k ps : dec k (enc_list k ps).2 = ((enc_list k ps).1, concat ps).
Proof.
  revert k. induction ps as [|p ps IH]; intros k; simpl; [apply dec_nil|].
  pose proof (dec_enc k p) as Hp. destruct (enc k p) as [k' c]. simpl in *.
  specialize (IH k'). destruct (enc_list k' ps) as [k'' cs]. simpl in *. rewrite dec_app, Hp. simpl. by rewrite IH.
Qed.

(** What is written is sound, and so are its beginnings. *)
Lemma enc_list_sound k ps : sound k → sound (enc_list k ps).1.
Proof.
  revert k. induction ps as [|p ps IH]; intros k Hk; simpl; [done|].
  pose proof (sound_enc k p Hk) as Hp. destruct (enc k p) as [k' c]. specialize (IH k' Hp).
  by destruct (enc_list k' ps).
Qed.
Lemma prefix_sound k ps x : sound k → x `prefix_of` (enc_list k ps).2 → sound (dec k x).1.
Proof.
  intros Hk [y E]. pose proof (dec_enc_list k ps) as Hd. rewrite E, dec_app in Hd. apply (sound_dec _ y).
  injection Hd as -> _. by apply enc_list_sound.
Qed.

Lemma write_loop_est kw kr bufs : ∀ s,
  state s = terminal → open_ssl (ssl s) → write_bio s = [] →
  (view (ssl s) (read_bio s)).1 = (dec kr (received s)).1 →
  delivered s ++ (view (ssl s) (read_bio s)).2 = (dec kr (received s)).2 →
  ∀ out, enc_list kw (written s) = (wkey (ssl s), out) →
  ∃ s' l, write_loop bufs s = (s', Some l) ∧ state s' = terminal ∧ open_ssl (ssl s') ∧ write_bio s' = [] ∧
    (view (ssl s') (read_bio s')).1 = (dec kr (received s')).1 ∧
    delivered s' ++ (view (ssl s') (read_bio s')).2 = (dec kr (received s')).2 ∧
    (view (ssl s') (read_bio s')).2 = (view (ssl s) (read_bio s)).2 ∧
    sent s' = sent s ∧ enc_list kw (written s') = (wkey (ssl s'), out ++ concat l).
Proof.
  induction bufs as [|[|c b] bufs IH]; intros s Hst Ho Hb Hk Hd out Hw; cbn [write_loop].
  - exists s, []. by rewrite app_nil_r.
  - by apply IH.
  - destruct (write_open (c :: b) (ssl s) (read_bio s) Ho) as (Hr & Ho' & Hout & Hk' & Hv); [done|].
    destruct (Z.leb_spec (o_ret (SSL_write (c :: b) (ssl s) (read_bio s))) 0); [lia|].
    cbn [steal_write]. set (r := SSL_write (c :: b) (ssl s) (read_bio s)) in *.
    set (s1 := with_ssl _ _ [] (note_written (c :: b) (after_ssl r s))).
    destruct (IH s1) with (out := out ++ o_out r) as (s' & l & -> & Hst' & Ho1 & Hb' & Hk1 & Hd1 & Hv1 & Hs1 & Hw1);
      simpl; rewrite ?Hv; try done.
    { rewrite enc_list_snoc, Hw, Hk', Hout. done. }
    exists s', (o_out r :: l). simpl in *. rewrite Hb. simpl. split_and!; try done; [by rewrite Hv1, Hv|].
    by rewrite Hw1, <-app_assoc.
Qed.

(** What a statement does while the connection is established. *)
Definition body_est (kw kr : K) (c : stmt EC) s (r : filter * outcome (stmt EC) Exn) : Prop :=
  est kw kr r.1 ∧ (calm → ∀ e, r.2 ≠ Throws e) ∧
  ∀ cs, r.2 = Calls cs → Forall established_stmt cs ∧
    (wantread (ext s) = true →
     (view (ssl r.1) (read_bio r.1)).2 = [] ∨
     ((view (ssl r.1) (read_bio r.1)).2 = (view (ssl s) (read_bio s)).2 ∧ ¬ reads c) ∨ Exists reads cs).

Lemma body_same kw kr c s o :
  est kw kr s → ¬ reads c → (∀ e, o ≠ Throws e) →
  (∀ cs, o = Calls cs → Forall established_stmt cs) → body_est kw kr c s (s, o).
Proof.
  intros Hs Hc Ht Ho. split; [done|]. split; [done|]. intros cs E. split; [by apply Ho|]. intros _. by right; left.
Qed.

Lemma with_ext_est kw kr x s : est kw kr s → est kw kr (with_ext x s).
Proof using Type. by intros []. Qed.

Lemma handle_read_est kw kr buf err s :
  est kw kr s → body_est kw kr (Api (HandleRead buf err)) s (handle_read (Exn:=Exn) connecting connected x_read_start x_read_stop buf err s).
Proof.
  intros Hs. unfold handle_read. rewrite decide_False by (rewrite (est_state _ _ _ Hs); done).
  destruct (connecting (ext s) || connected (ext s)); [|by apply body_same; [|intros []|..]]. simpl.
  rewrite open_finished by apply Hs. simpl.
  destruct (ec_bool err).
  { destruct (connecting (ext s)); simpl; apply body_same; try done; try (by intros []); intros cs [= <-]; by repeat constructor. }
  set (s1 := note_received _ _). split; [|split; [done|intros cs [= <-]; split]].
  - destruct Hs. split; simpl; try done; rewrite view_app; simpl; rewrite dec_app, est_key0; [done|].
    by rewrite app_assoc, est_read0.
  - repeat constructor. simpl. unfold bio_pending. lia.
  - intros _. right. destruct (decide (buf = [] ∧ read_bio s = [])) as [[-> E]|Hne].
    + left. split; [|by intros []]. simpl. rewrite view_app, dec_nil. simpl. by rewrite app_nil_r.
    + right. constructor. simpl. unfold bio_pending. simpl. rewrite length_app.
      destruct buf, (read_bio s); simpl; try lia. naive_solver.
Qed.

Lemma write_est kw kr r bufs s :
  est kw kr s → body_est kw kr (Api (Write r bufs)) s (write (Exn:=Exn) r bufs s).
Proof.
  intros Hs. unfold write. rewrite bool_decide_true by apply Hs. simpl. destruct Hs as [Hs1 Hs2 Hs3 Hs4 Hs5 Hs6].
  destruct (write_loop_est kw kr bufs s) with (out := sent s)
    as (s' & l & -> & E1 & E2 & E3 & E4 & E5 & E6 & E7 & E8); [done..|].
  cbn [subreq_write new_wreq]. split; simpl.
  - split; simpl; try done. by rewrite E8, E7.
  - split; [done|]. intros cs [= <-]. split; [by repeat constructor|]. intros _. right. left. split; [done|by intros []].
Qed.

Lemma read_loop_est kw kr n s :
  est kw kr s → genuine kr s → 0 < n → body_est kw kr (ReadLoop n) s (read_loop (EC:=EC) (Exn:=Exn) n s).
Proof.
  intros Hs Hg Hn. unfold read_loop. rewrite decide_False by (rewrite (est_state _ _ _ Hs); done).
  pose proof (est_open _ _ _ Hs) as Ho. unfold genuine in Hg. rewrite <-(est_key _ _ _ Hs) in Hg. destruct (decide ((view (ssl s) (read_bio s)).2 = [])) as [E|E].
  - destruct (read_none n (ssl s) (read_bio s) Ho Hg Hn E) as (Hr & He & Ho' & Hout & Hk & Hv).
    destruct (Z.ltb_spec 0 (o_ret (SSL_read n (ssl s) (read_bio s)))); [lia|].
    simpl. rewrite He. simpl. split; simpl.
    + destruct Hs. split; simpl; rewrite ?Hout, ?app_nil_r, ?Hv, ?Hk; done.
    + split; [done|]. intros cs [= <-]. split; [done|]. intros _. left. by rewrite Hv.
  - destruct (read_some n (ssl s) (read_bio s) Ho Hg Hn E) as (Hr & Hd & Ho' & Hout & Hk & Hv1 & Hv2).
    rewrite Hr. destruct (Z.ltb_spec 0 (Z.of_nat (length (o_data (SSL_read n (ssl s) (read_bio s)))))) as [_|Hl];
      [|destruct (o_data _); simpl in *; [done|lia]].
    split; simpl.
    + destruct Hs. split; simpl; rewrite ?Hout, ?app_nil_r, ?Hk, ?Hv1; try done.
      by rewrite <-app_assoc, <-Hv2.
    + split; [done|]. intros cs [= <-]. split; [by repeat constructor|]. intros _. right. right. apply Exists_cons.
      right. by constructor.
Qed.

Lemma sbody_est kw kr c s :
  keeps_established → est kw kr s → genuine kr s → established_stmt c →
  body_est kw kr c s (sbody connecting connected wantread x_read_start x_read_stop x_subreq_done env error_exn key_exn c s).
Proof.
  intros Henv Hs Hg Hc. destruct c as [[| |e r|r|buf e|r bufs|e w|]|c|e r|n|n|n|]; simpl in *; try done.
  - by apply handle_read_est.
  - by apply write_est.
  - unfold handle_write. destruct (wreqs s !! w) as [q|]; [|by apply body_same; [|intros []|..]].
    set (s1 := with_wreqs _ _ _). assert (est kw kr s1) as Hs1 by by destruct Hs.
    assert (∀ err, negotiation_finished connected x_read_stop err s1 = (s1, [])) as Hn.
    { intros err. unfold negotiation_finished. by rewrite (est_state _ _ _ Hs1). }
    assert (∀ cs, Forall established_stmt cs → body_est kw kr (Api (HandleWrite e w)) s (s1, Calls cs)) as Hb.
    { intros cs Hcs. split; [done|]. split; [done|]. intros cs' [= <-]. split; [done|]. intros _. right. left. split; [done|by intros []]. }
    destruct (orig q); [apply Hb; by repeat constructor|]. rewrite !Hn.
    destruct (ec_bool e); [by apply Hb|]. destruct (final q); apply Hb; by repeat constructor.
  - unfold handle_eof. rewrite (est_state _ _ _ Hs). apply body_same; try done; [by intros []|].
    intros cs [= <-]. by repeat constructor.
  - pose proof (λ x' l, Henv c (ext s) x' l) as Hc'. destruct (env c (ext s)) as [x [l|e]] eqn:Eenv.
    + split; [by apply with_ext_est|]. split; [done|]. intros cs [= <-]. split; [|intros _; right; left; split; [done|by intros []]].
      apply Forall_fmap. by apply (Hc' x l).
    + split; [by apply with_ext_est|]. split; [|done]. intros Hcalm. simpl.
      destruct (Hcalm c (ext s)) as (x' & l & E). congruence.
  - unfold read_rest. destruct (Z.eqb_spec n 0) as [->|Hn].
    + apply body_same; try done; [intros Hr; by apply Hr|]. by intros cs [= <-].
    + rewrite decide_False by (rewrite (est_state _ _ _ Hs); done). split; [done|]. split; [done|].
      intros cs [= <-]. split; [|by intros _; right; right; constructor]. repeat constructor. simpl. lia.
  - by apply read_loop_est.
  - split; [done|]. split; [done|]. intros cs [= <-]. split; [by destruct (wantread (ext s)); repeat constructor|].
    intros Hw. rewrite Hw. right. right. by constructor.
  - apply body_same; try done; [by intros []|]. intros cs [= <-]. case_match; by repeat constructor.
Qed.

(** What the statements of the filter do to what it has handed up, encrypted and handed
    down: only a read hands something up, and only a write encrypts and hands down. *)
Record ledger s s' (d : bytes) (w : list bytes) (o : bytes) : Prop := {
  l_ext : ext s' = ext s;
  l_delivered : delivered s' = delivered s ++ d;
  l_written : written s' = written s ++ w;
  l_sent : sent s' = sent s ++ o
}.
Definition ledger_same s s' : Prop := ledger s s' [] [] [].
Lemma ledger_refl s s' : ext s' = ext s → delivered s' = delivered s → written s' = written s → sent s' = sent s → ledger_same s s'.
Proof using Type. by intros E1 E2 E3 E4; split; rewrite ?app_nil_r. Qed.

Lemma write_loop_ledger bufs : ∀ s s' l, write_loop bufs s = (s', Some l) → ledger s s' [] (nonempty bufs) [].
Proof using Type.
  induction bufs as [|[|c b] bufs IH]; intros s s' l; cbn [write_loop].
  - intros [= <- <-]. by apply ledger_refl.
  - intros Hl. unfold nonempty. rewrite filter_cons_False by naive_solver. by eapply IH.
  - destruct (o_ret _ <=? 0); [done|]. cbn [steal_write]. destruct (write_loop _ _) as [s1 [l1|]] eqn:E; [|done].
    intros [= <- <-]. apply IH in E as [E1 E2 E3 E4]. split; [done|done| |done].
    unfold nonempty. rewrite filter_cons_True by done. simpl in E3. by rewrite E3, <-app_assoc.
Qed.

(** The statements of an established connection that carry no bytes on their way. *)
Definition quiet_stmt (c : stmt EC) : Prop :=
  match c with
  | Next (NextHandleWrite _ _) | Next NextHandleEof | Next (DelayHandleWrite _ _) => True
  | Next _ | Api (Write _ _) => False
  | _ => True
  end.
Definition is_next (c : stmt EC) : Prop := match c with Next _ => True | _ => False end.

Definition body_ledger s (r : filter * outcome (stmt EC) Exn) : Prop :=
  (ledger_same s r.1 ∧ ∀ cs, r.2 = Calls cs → Forall quiet_stmt cs) ∨
  (∃ d cs, ledger s r.1 d [] [] ∧ r.2 = Calls (Next (NextHandleRead d ec_ok) :: cs) ∧ Forall quiet_stmt cs).

Lemma body_ledger_same s s' cs : ledger_same s s' → Forall quiet_stmt cs → body_ledger s (s', Calls cs).
Proof using Type. intros Hl Hc. left. split; [done|]. by intros ? [= <-]. Qed.

Lemma body_ledger_abort s s' : ledger_same s s' → body_ledger s (s', Aborts).
Proof using Type. intros Hl. by left. Qed.
Ltac no_bytes := repeat (apply Forall_cons; split; [done|]); by apply Forall_nil.

Lemma sbody_ledger kw kr c s :
  est kw kr s → genuine kr s → established_stmt c → quiet_stmt c → ¬ is_next c → connecting (ext s) = false →
  let r := sbody connecting connected wantread x_read_start x_read_stop x_subreq_done env error_exn key_exn c s in
  (∀ w x, x_subreq_done w x = x) → body_ledger s r.
Proof.
  intros Hs Hg Hc Hq Hn Hconn r Hsub. subst r. pose proof (est_state _ _ _ Hs) as Hst. pose proof (est_open _ _ _ Hs) as Ho.
  unfold genuine in Hg. rewrite <-(est_key _ _ _ Hs) in Hg.
  destruct c as [[| |e r|r|buf e|r bufs|e w|]|c|e r|n|n|n|]; simpl in *; try done.
  - unfold handle_read. rewrite Hst, Hconn. simpl. rewrite open_finished by done. simpl.
    destruct (connected (ext s)); simpl; [|by apply body_ledger_abort, ledger_refl].
    destruct (ec_bool e); apply body_ledger_same; try done; try no_bytes; by apply ledger_refl.
  - unfold handle_write. destruct (wreqs s !! w) as [q|]; [|by apply body_ledger_abort, ledger_refl].
    rewrite Hsub. set (s1 := with_wreqs _ _ _).
    assert (ledger_same s s1) as Hl by by apply ledger_refl.
    assert (∀ err, negotiation_finished connected x_read_stop err s1 = (s1, [])) as Hnf.
    { intros err. unfold negotiation_finished, s1. simpl. by rewrite Hst. }
    rewrite !Hnf. destruct (orig q), (ec_bool e), (final q); simpl; apply body_ledger_same; try done; no_bytes.
  - unfold handle_eof. rewrite Hst. apply body_ledger_same; [by apply ledger_refl|]. no_bytes.
  - unfold read_rest. rewrite Hst. destruct (n =? 0); apply body_ledger_same; try (by apply ledger_refl); no_bytes.
  - unfold read_loop. rewrite Hst. simpl. destruct (decide ((view (ssl s) (read_bio s)).2 = [])) as [E|E].
    + destruct (read_none n (ssl s) (read_bio s) Ho Hg Hc E) as (Hr & He & _).
      destruct (Z.ltb_spec 0 (o_ret (SSL_read n (ssl s) (read_bio s)))); [lia|]. rewrite He. simpl.
      apply body_ledger_same; [by apply ledger_refl|done].
    + destruct (read_some n (ssl s) (read_bio s) Ho Hg Hc E) as (Hr & Hd & _).
      destruct (Z.ltb_spec 0 (o_ret (SSL_read n (ssl s) (read_bio s)))) as [_|Hl].
      2:{ rewrite Hr in Hl. destruct (o_data _); simpl in *; [done|lia]. }
      right. eexists _, _. split_and!; [|done|no_bytes]. by split; simpl; rewrite ?app_nil_r.
  - apply body_ledger_same; [by apply ledger_refl|]. destruct (wantread (ext s)); no_bytes.
  - apply body_ledger_same; [by apply ledger_refl|]. case_match; no_bytes.
Qed.

Lemma write_ledger kw kr i bufs s :
  est kw kr s →
  let r := write (EC:=EC) (Exn:=Exn) i bufs s in
  ∃ w l, ledger s r.1 [] (nonempty bufs) (concat l) ∧ wreqs r.1 !! w = Some (mkSslReq (Some i) false l) ∧
    r.2 = Calls [Next (SubreqWrite i w)].
Proof.
  intros Hs. unfold write. rewrite bool_decide_true by apply Hs. simpl. destruct Hs as [Hst Ho Hb Hsn Hk Hd].
  destruct (write_loop_est kw kr bufs s Hst Ho Hb Hk Hd (sent s) Hsn) as (s' & l & E & _).
  rewrite E. apply write_loop_ledger in E as [E1 E2 E3 E4]. cbn [subreq_write new_wreq].
  exists (new_wid s'), l. split_and!; [|by simpl; rewrite lookup_insert_eq|done].
  rewrite app_nil_r in E4. by split; simpl; rewrite ?E4.
Qed.

(** What has come to the filter only grows. *)
Lemma write_loop_received bufs : ∀ s, received (write_loop bufs s).1 = received s.
Proof using Type.
  induction bufs as [|[|c b] bufs IH]; intros s; cbn [write_loop]; [done|apply IH|].
  destruct (_ <=? _); [done|]. cbn [steal_write]. set (s1 := with_ssl _ _ _ _). specialize (IH s1).
  by destruct (write_loop bufs s1).
Qed.
Lemma finished_received err s : received (negotiation_finished connected x_read_stop err s).1 = received s.
Proof using Type. unfold negotiation_finished. destruct (state s), (connected (ext s)); done. Qed.
Lemma subreq_received p q s : received (subreq_write (EC:=EC) (Exn:=Exn) p q s).1 = received s.
Proof using Type. unfold subreq_write. simpl. by destruct p. Qed.
Lemma negotiate_received s :
  received (negotiate (Exn:=Exn) connecting connected x_read_start x_read_stop s).1.1 = received s.
Proof using Type.
  assert (∀ err s', received s' = received s →
    received (let (s, cs) := negotiation_finished connected x_read_stop err s' in (s, Calls (Exn:=Exn) cs, 0)).1.1 = received s) as Hf.
  { intros err s' <-. pose proof (finished_received err s') as E. by destruct (negotiation_finished _ _ _ _). }
  unfold negotiate. destruct (negb _); [done|]. simpl. destruct (x_read_start _) as [x [e|]]; [by apply Hf|].
  simpl. destruct (_ && _); [by apply Hf|]. destruct (write_bio s ++ _); [destruct (SSL_is_init_finished _)|]; simpl.
  - match goal with |- context [negotiation_finished ?c ?x ?e ?s'] => pose proof (finished_received e s') as E;
      by destruct (negotiation_finished c x e s') end.
  - done.
  - match goal with |- context [subreq_write ?p ?q ?s'] => pose proof (subreq_received p q s') as E;
      by destruct (subreq_write (EC:=EC) (Exn:=Exn) p q s') end.
Qed.

Lemma sbody_received c s : received s `prefix_of` received
  (sbody connecting connected wantread x_read_start x_read_stop x_subreq_done env error_exn key_exn c s).1.
Proof using Type.
  assert (∀ f : filter, received f = received s → received s `prefix_of` received f) as Heq by by intros f ->.
  pose proof (negotiate_received) as Hneg.
  destruct c as [[| |e r|r|buf e|r bufs|e w|]|c|e r|n|n|n|]; simpl; try done.
  - unfold listen. by destruct (SSL_check_private_key _).
  - unfold reset, init. case_decide; [done|]. simpl. by destruct (SSL_new (ssl s)).
  - apply Heq. unfold start_ssl_connection. by rewrite Hneg.
  - unfold handle_read. case_decide; [done|]. destruct (negb _); [done|]. destruct (ec_bool e).
    + destruct (negb _); [done|]. destruct (negb _); [|done]. apply Heq.
      pose proof (finished_received e s) as E. by destruct (negotiation_finished _ _ _ _).
    + set (s1 := note_received _ _). assert (received s `prefix_of` received s1) as Hp by by apply prefix_app_r.
      destruct (negb _); [|done]. pose proof (Hneg s1) as E. destruct (negotiate _ _ _ _ s1) as [[f o] n]. simpl in *. by rewrite E.
  - apply Heq. unfold write. destruct (negb _); [done|]. pose proof (write_loop_received bufs s) as E.
    destruct (write_loop bufs s) as [f [l|]]; [|done]. by rewrite subreq_received.
  - apply Heq. unfold handle_write. destruct (wreqs s !! w) as [q|]; [|done]. set (s1 := with_wreqs _ _ _).
    pose proof (λ err, finished_received err s1) as E. destruct (orig q); [done|]. destruct (ec_bool e); [|destruct (final q); [|done]];
      match goal with |- context [negotiation_finished ?c ?x ?e s1] => specialize (E e); by destruct (negotiation_finished c x e s1) end.
  - apply Heq. unfold handle_eof. pose proof (λ err, finished_received err s) as E. destruct (state s); try done.
    specialize (E (ec_of (Std connection_aborted))). by destruct (negotiation_finished _ _ _ _).
  - by destruct (env c (ext s)) as [x [l|e]].
  - apply Heq. unfold handle_connect_rest. destruct (ec_bool e); [done|]. unfold start_ssl_connection. by rewrite Hneg.
  - unfold read_rest. destruct (n =? 0); [done|]. by case_decide.
  - apply Heq. unfold read_loop. case_decide; [done|]. simpl. destruct (0 <? _); [done|].
    repeat (destruct (_ =? _); [try done|]); [|done]. simpl. by rewrite subreq_received.
Qed.

Lemma genuine_prefix kr s s' : received s `prefix_of` received s' → genuine kr s' → genuine kr s.
Proof using H1. intros [x E]. unfold genuine. rewrite E, dec_app. apply sound_dec. Qed.

(** The invariant of an established connection. *)
Definition est_inv (kw kr : K) (c : config filter (stmt EC) Exn) : Prop :=
  genuine kr (mem c) →
  est kw kr (mem c) ∧ Forall established_stmt (stack c) ∧
  ((∀ x, wantread x = true) → calm → (∀ e, cmode c ≠ Unwinding e) ∧ (cmode c = Normal → drained (stack c) (mem c))).


Lemma est_inv_step kw kr c c' :
  keeps_established → est_inv kw kr c → step prog c = Some c' → est_inv kw kr c'.
Proof.
  intros Henv Hi Hstep Hg'. assert (genuine kr (mem c)) as Hg.
  { eapply genuine_prefix; [|exact Hg']. destruct c as [[|f k] s [|e|]]; try done; unfold step in Hstep; simpl in Hstep;
      injection Hstep as <-; [|done]. pose proof (sbody_received f s) as Hr. by destruct (sbody _ _ _ _ _ _ _ _ _ f s) as [f' []]. }
  destruct (Hi Hg) as (Hs & Hk & Hd). clear Hi Hg'. revert Hstep. destruct c as [[|f k] s m]; [done|]. simpl in *.
  apply Forall_cons in Hk as [Hf Hk]. destruct m as [|e|]; unfold step; simpl; [| |done].
  - intros [= <-]. destruct (sbody_est kw kr f s Henv Hs Hg Hf) as (Hs' & Ht & Hcs).
    destruct (sbody _ _ _ _ _ _ _ _ _ f s) as [s' o]. simpl in *.
    destruct o as [cs|e|]; simpl; (split; [done|]).
    + destruct (Hcs cs eq_refl) as [Hf' Hdr]. split; [by apply Forall_app|]. intros Hw Hc. split; [done|]. intros _.
      destruct (Hd Hw Hc) as [_ Hd']. specialize (Hd' eq_refl). specialize (Hdr (Hw _)). unfold drained in *.
      simpl. rewrite Exists_app. destruct Hdr as [?|[[E Hr]|?]]; [by left| |by right; left].
      rewrite E. rewrite Exists_cons in Hd'. naive_solver.
    + split; [done|]. intros Hw Hc. by destruct (Ht Hc e).
    + split; [done|]. intros Hw Hc. by split.
  - intros [= <-]. split; [done|]. split; [done|]. intros Hw Hc. destruct (Hd Hw Hc) as [Hu _]. by destruct (Hu e).
Qed.

Lemma est_inv_reachable kw kr c :
  keeps_established → reachable prog (established_initial kw kr) established_input c → est_inv kw kr c.
Proof.
  intros Henv. apply reachable_inv; [|intros c1 c2; by apply est_inv_step|].
  - intros s (H1' & H2' & H3' & H4' & H5' & H6' & H7' & H8' & H9') _.
    split; [|split; [done|intros _ _; split; [done|intros _; left; simpl; by rewrite H4']]].
    split; simpl; rewrite ?H4', ?H6', ?H7', ?H8', ?H9', ?dec_nil; simpl; by rewrite ?H3'.
  - intros s m cs s' Hi Hm (a & x & Ha & -> & ->) Hg. simpl in *. destruct (Hi Hg) as (Hs & _ & Hd). simpl in *.
    split; [by apply with_ext_est|]. split; [by repeat constructor|]. intros Hw Hc. split; [done|]. intros _.
    destruct (Hd Hw Hc) as [Hu Hn]. destruct m as [|e|]; [|by destruct (Hu e)|done].
    specialize (Hn eq_refl). unfold drained in *. simpl in *. destruct Hn as [?|Hn]; [by left|by inversion Hn].
Qed.
End Established.

(** ** Properties *)

(** Over an established SSL connection the other side reads what this side writes.
    Take two filters whose connection is established, with OpenSSL objects whose keys match;
    let one of them make any sequence of writes and the other receive any part of what the
    first one hands to the network, cut into pieces anyhow and mixed with its own writes and
    completions, with users who call the filters again from their callbacks, without a
    reset; what the first one receives is to be [genuine] as well.  Then what the second one has handed to its user is a prefix of what the first
    one was given to write, in order; and it is all of it as soon as everything has arrived,
    if the user goes on reading and his callbacks do not throw. *)
Theorem ssl_end_to_end {L X EC Exn K : Type} `{CipherLaws L K} `{ErrorStack EC}
    (connecting connected wantread : X → bool)
    (x_read_start : X → X * option error_code) (x_read_stop : X → X) (x_subreq_done : wid → X → X)
    (env : scall EC → X → X * (list (sapi EC) + Exn))
    (error_exn : error_code → Exn) (key_exn : Exn) (k k1 k2 : K)
    (a b : config (ssl_filter L X) (stmt EC) Exn) :
  let prog := ssl_program connecting connected wantread x_read_start x_read_stop x_subreq_done env error_exn key_exn in
  keeps_established env → sound k → genuine k1 (mem a) →
  reachable prog (established_initial k k1) established_input a →
  reachable prog (established_initial k2 k) established_input b →
  received (mem b) `prefix_of` sent (mem a) →
  delivered (mem b) `prefix_of` concat (written (mem a)) ∧
  (received (mem b) = sent (mem a) → (∀ x, wantread x = true) → calm env →
   stack b = [] → cmode b = Normal → delivered (mem b) = concat (written (mem a))).
Proof.
  intros prog Henv Hk Hga Ha Hb Hpre.
  destruct (est_inv_reachable connecting connected wantread x_read_start x_read_stop x_subreq_done env
    error_exn key_exn k k1 a Henv Ha Hga) as (Hsa & _ & _).
  pose proof (est_sent _ _ _ Hsa) as Hsent.
  assert (genuine k (mem b)) as Hgb by (apply (prefix_sound k (written (mem a))); [done|by rewrite Hsent]).
  destruct (est_inv_reachable connecting connected wantread x_read_start x_read_stop x_subreq_done env
    error_exn key_exn k2 k b Henv Hb Hgb) as (Hsb & _ & Hd). destruct Hpre as [rest Hrest]. pose proof (est_read _ _ _ Hsb) as Hread.
  pose proof (dec_enc_list k (written (mem a))) as Hdec. rewrite Hsent in Hdec. simpl in Hdec.
  split.
  - rewrite Hrest, dec_app in Hdec. injection Hdec as _ Hdec. rewrite <-Hdec, <-Hread, <-app_assoc.
    apply prefix_app_r. done.
  - intros Hall Hw Hc Hst Hm. destruct (Hd Hw Hc) as [_ Hdr]. specialize (Hdr Hm). rewrite Hst in Hdr.
    destruct Hdr as [E|E]; [|by inversion E]. rewrite E, app_nil_r, Hall, Hdec in Hread. done.
Qed.

(** ** Witnesses *)

(** An OpenSSL of toys: every second byte is sent with its lowest bit flipped; the client
    says one byte and is ready when it has got one and said another. *)
Record ex_ssl := mkExSsl { ex_hs : nat; ex_w : nat; ex_r : nat }.
#[local] Definition flip (k : nat) (c : ascii) : ascii :=
  match c with Ascii.Ascii b0 b1 b2 b3 b4 b5 b6 b7 => Ascii.Ascii (xorb b0 (Nat.odd k)) b1 b2 b3 b4 b5 b6 b7 end.
#[local] Fixpoint ex_code (k : nat) (p : bytes) : nat * bytes :=
  match p with
  | [] => (k, [])
  | c :: p => let (k', q) := ex_code (S k) p in (k', flip k c :: q)
  end.
#[local] Definition ex_byte (n : nat) : ascii := Ascii.ascii_of_nat n.

#[local] Instance ex_openssl : Openssl ex_ssl := {|
  SSL_new _ := Some (mkExSsl 0 0 0);
  SSL_set_connect_state l := l;
  SSL_set_accept_state l := l;
  SSL_do_handshake l b :=
    match ex_hs l, b with
    | O, _ => mkRes (mkExSsl 1 (ex_w l) (ex_r l)) b [ex_byte 72] (-1) []
    | 1%nat, _ :: b => mkRes (mkExSsl 2 (ex_w l) (ex_r l)) b [ex_byte 70] 1 []
    | _, _ => mkRes l b [] (-1) []
    end;
  SSL_read n l b :=
    match b with
    | [] => mkRes l [] [] (-1) []
    | _ => let (k, p) := ex_code (ex_r l) (take (Z.to_nat n) b) in
           mkRes (mkExSsl (ex_hs l) (ex_w l) k) (drop (Z.to_nat n) b) [] (Z.of_nat (length p)) p
    end;
  SSL_write p l b :=
    let (k, c) := ex_code (ex_w l) p in
    mkRes (mkExSsl (ex_hs l) k (ex_r l)) b c (Z.of_nat (length p)) [];
  SSL_get_error _ _ := SSL_ERROR_WANT_READ;
  SSL_is_init_finished l := bool_decide (ex_hs l = 2%nat);
  SSL_renegotiate_pending _ := false;
  SSL_check_private_key _ := true;
  ssl_errors _ := []
|}.
#[local] Instance ex_cipher : Cipher ex_ssl nat := {|
  open_ssl l := ex_hs l = 2%nat;
  wkey := ex_w;
  view l b := ex_code (ex_r l) b;
  enc := ex_code;
  dec := ex_code;
  sound _ := True
|}.

Lemma ex_code_app k x y :
  ex_code k (x ++ y) = ((ex_code (ex_code k x).1 y).1, (ex_code k x).2 ++ (ex_code (ex_code k x).1 y).2).
Proof.
  revert k. induction x as [|c x IH]; intros k; cbn [ex_code app fst snd]; [by destruct (ex_code k y)|].
  rewrite IH. by destruct (ex_code (S k) x).
Qed.

Lemma ex_code_code k p : ex_code k (ex_code k p).2 = ((ex_code k p).1, p).
Proof.
  revert k. induction p as [|c p IH]; intros k; cbn [ex_code]; [done|].
  specialize (IH (S k)). destruct (ex_code (S k) p) as [k' q]. cbn [ex_code fst snd] in *. rewrite IH.
  f_equal. f_equal. destruct c as [b0 b1 b2 b3 b4 b5 b6 b7]. by destruct b0, (Nat.odd k) eqn:E; unfold flip; rewrite E.
Qed.

Lemma ex_code_length k p : length (ex_code k p).2 = length p.
Proof.
  revert k. induction p as [|c p IH]; intros k; cbn [ex_code]; [done|].
  specialize (IH (S k)). destruct (ex_code (S k) p). simpl in *. by rewrite IH.
Qed.

#[local] Instance ex_cipher_laws : CipherLaws ex_ssl nat.
Proof.
  split; simpl.
  - intros l Hl. by rewrite bool_decide_true.
  - done.
  - apply ex_code_app.
  - apply ex_code_code.
  - done.
  - done.
  - intros l b x. apply ex_code_app.
  - intros p l b Hl Hp. destruct (ex_code (ex_w l) p) as [k c]. simpl. split_and!; try done.
    destruct p; [done|simpl; lia].
  - intros n l b Hl _ Hn Hv. destruct b as [|c b]; [done|]. set (x := c :: b) in *.
    pose proof (ex_code_app (ex_r l) (take (Z.to_nat n) x) (drop (Z.to_nat n) x)) as Happ.
    rewrite take_drop in Happ. pose proof (ex_code_length (ex_r l) (take (Z.to_nat n) x)) as Hlen.
    destruct (ex_code (ex_r l) (take (Z.to_nat n) x)) as [k p]. simpl in *. rewrite Happ. simpl.
    split_and!; try done. intros ->. simpl in Hlen. rewrite length_take in Hlen. unfold x in Hlen. simpl in Hlen. lia.
  - intros n l b Hl _ Hn Hv. assert (b = []) as ->; [|done].
    destruct b as [|c b]; [done|]. simpl in Hv. by destruct (ex_code (S (ex_r l)) b).
Qed.

(** A stream that is connecting, then connected when the connection is reported. *)
#[local] Definition ex_ext : Type := bool * bool.
#[local] Definition ex_env (c : scall (list error_code)) (x : ex_ext) : ex_ext * (list (sapi (list error_code)) + nat) :=
  match c with NextHandleConnect _ _ => ((false, true), inl []) | _ => (x, inl []) end.
#[local] Definition ex_prog := ssl_program (L := ex_ssl) (EC := list error_code) fst snd (λ _ : ex_ext, true) (λ x, (x, None)) id (λ _ x, x)
  ex_env (λ _, 0%nat) 0%nat.
#[local] Definition ex_open_filter : ssl_filter ex_ssl ex_ext :=
  mkSsl (mkExSsl 2 0 0) [] [] None terminal CLIENT None ∅ 0 (false, true) [] [] [] [].
#[local] Definition ex_drive (l : list (sapi (list error_code))) (s : ssl_filter ex_ssl ex_ext) :=
  fold_left (λ c a,
    match c with
    | Config [] s Normal => Machine.run ex_prog 50 (Config [Api a] s Normal)
    | c => c
    end) l (Config [] s Normal).

Lemma ssl_drive_reachable l s :
  established_initial 0%nat 0%nat s → Forall established_api l →
  reachable ex_prog (established_initial 0%nat 0%nat) established_input (ex_drive l s).
Proof.
  intros Hs Hl. unfold ex_drive.
  assert (reachable ex_prog (established_initial 0%nat 0%nat) established_input (Config [] s Normal)) as Hc
    by by apply reach_init.
  revert Hc. generalize (Config (Exn := nat) (@nil (stmt (list error_code))) s Normal).
  induction Hl as [|a l Ha Hl IH]; intros c Hc; [exact Hc|]. apply IH.
  destruct c as [[|] s' [| |]]; try exact Hc. eapply reachable_steps; [|apply run_steps].
  eapply reach_input; [exact Hc|done|]. exists a, (ext s'). split_and!; [done..|by destruct s'].
Qed.

#[local] Definition ex_writer := ex_drive
  [Write 1 [[ex_byte 65; ex_byte 66]; []; [ex_byte 67]]; HandleWrite [] 0; Write 2 [[ex_byte 68]]] ex_open_filter.
#[local] Definition ex_reader := ex_drive
  [HandleRead [ex_byte 65; ex_byte 67; ex_byte 67] []; Write 1 [[ex_byte 90]]; HandleRead [ex_byte 69] []] ex_open_filter.

Lemma ssl_end_to_end_witness :
  received (mem ex_reader) = sent (mem ex_writer) ∧
  delivered (mem ex_reader) = [ex_byte 65; ex_byte 66; ex_byte 67; ex_byte 68] ∧
  delivered (mem ex_reader) `prefix_of` concat (written (mem ex_writer)) ∧
  (received (mem ex_reader) = sent (mem ex_writer) → (∀ x : ex_ext, true = true) → calm ex_env →
   stack ex_reader = [] → cmode ex_reader = Normal → delivered (mem ex_reader) = concat (written (mem ex_writer))).
Proof.
  split; [by vm_compute|]. split; [by vm_compute|].
  apply (ssl_end_to_end fst snd (λ _, true) (λ x, (x, None)) id (λ _ x, x) ex_env (λ _, 0%nat) 0%nat 0%nat 0%nat 0%nat
    ex_writer ex_reader).
  - intros c x x' l. unfold ex_env. case_match; by intros [= <- <-].
  - done.
  - done.
  - apply ssl_drive_reachable; [done|]. by repeat constructor.
  - apply ssl_drive_reachable; [done|]. by repeat constructor.
  - exists []. by vm_compute.
Defined.

(** ** What the code does not do *)

(** A client does not look at the bytes that came with the last message of the handshake:
    only a filter with a server does so when its last message is written.  They wait until
    more bytes come. *)
Lemma ssl_client_data_waits :
  let c := ex_drive [HandleConnect [] 7; HandleWrite [] 0; HandleRead [ex_byte 83; ex_byte 65] []; HandleWrite [] 1]
    (mkSsl (mkExSsl 0 0 0) [] [] None initial UNKNOWN None ∅ 0 (true, false) [] [] [] []) in
  stack c = [] ∧ cmode c = Normal ∧ state (mem c) = terminal ∧ snd (ext (mem c)) = true ∧
  read_bio (mem c) = [ex_byte 65] ∧ delivered (mem c) = [].
Proof. by vm_compute. Qed.

(** When a read wants to write after the negotiation, there is no request that the
    sub-request could belong to: the null request is followed. *)
Lemma ssl_read_want_write_null {L X EC Exn : Type} `{Openssl L} `{ErrorStack EC} n (s : ssl_filter L X) :
  let r := SSL_read n (ssl s) (read_bio s) in
  state s = terminal → source_request s = None → o_ret r ≤ 0 →
  SSL_get_error (o_ssl r) (o_ret r) = SSL_ERROR_WANT_WRITE →
  (read_loop (EC := EC) (Exn := Exn) n s).2 = Aborts.
Proof.
  intros r Hs Hsrc Hr He. unfold read_loop. rewrite decide_False by (rewrite Hs; done). fold r.
  destruct (Z.ltb_spec 0 (o_ret r)); [lia|]. cbn [ssl after_ssl with_ssl]. rewrite He. simpl. by rewrite Hsrc.
Qed.
