(* ===== verification/SecureStream.v ===== *)
(** A stream with an SSL filter: [Stream::use_ssl], [no_ssl], [get_ssl] of [Stream.cc],
    the constructors of [ssl/SslFilter.cc], and how the two work together.

    The stream is that of [Stream] and the filter that of [SslFilter]; the stream that the
    filter asks is the stream itself. A method of the filter that the stream calls is run
    by the machine of the filter, a call that leaves the filter is a call of the stream:
    the base method of the filter, or one of its sub-requests. The queue of the stream
    drives both, so what is known of queues holds here too. Other filters of the stream
    are arbitrary, as in [Stream]. *)
From Stdlib Require Import Ascii.
From S2P Require Import Prelude Machine Errors Handle Delayer SslBio SslFilter Queue Stream.
#[local] Open Scope Z_scope.

(** The code of the stream and of the filter. *)
Inductive secode (A EC : Type) :=
| Strm (c : scode A EC)
| Ssl (c : SslFilter.stmt EC).
Arguments Strm {A EC}.
Arguments Ssl {A EC}.

(** Strings are bytes. *)
Abbreviation bytes_of := String.list_ascii_of_string.
Abbreviation string_of := String.string_of_list_ascii.

(** The calls that leave the filter are made by the stream. *)
Definition no_env {X EC Exn : Type} (c : SslFilter.scall EC) (x : X) : X * (list (SslFilter.sapi EC) + Exn) := (x, inl []).

Section Secure.
Context {L S B A EC W C Exn : Type} `{Openssl L} `{UvStream S B A} `{ErrorStack EC}.
Context (user_code : C → uevent EC → stream S B A EC W C Exn → W * (list (sapi A) + Exn)).
Context (no_callbacks : C).
Context (virt : fid → fcall EC → stream S B A EC W C Exn → option (W * list (fapi EC))).
Context (f_type : fid → nat) (f_priority : fid → Z).
Context (filters_error : Exn).
(** The exceptions of the filter, and its identity. *)
Context (error_exn : error_code → Exn) (key_exn : Exn).
Context (ssl_fid : fid).

Abbreviation sstream := (stream S B A EC W C Exn).
Abbreviation code := (secode A EC).
Abbreviation call := (qapi code + code)%type.

(** [filt]: the filter, with the stream inside; [subs]: the write requests of the filter
    among the requests of the stream; [handed]: the requests that were given to the
    filter to write, with their buffers then, [wire]: the bytes that libuv took, and [refused]:
    it refused some; ghosts. *)
Record secure := mkSecure {
  filt : ssl_filter L sstream;
  subs : gmap rid SslFilter.wid;
  handed : list (rid * list bytes);
  wire : bytes;
  refused : bool
}.
Abbreviation result := (secure * outcome call Exn)%type.

Definition strm (s : secure) : sstream := SslFilter.ext (filt s).
Definition with_filt (f : ssl_filter L sstream) (s : secure) : secure := mkSecure f (subs s) (handed s) (wire s) (refused s).
Definition with_strm (st : sstream) (s : secure) : secure := with_filt (SslFilter.with_ext st (filt s)) s.
Definition with_subs (m : gmap rid SslFilter.wid) (s : secure) : secure := mkSecure (filt s) m (handed s) (wire s) (refused s).
Definition note_handed (r : rid) (l : list bytes) (s : secure) : secure :=
  mkSecure (filt s) (subs s) (handed s ++ [(r, l)]) (wire s) (refused s).
Definition note_wire (b : option bytes) (s : secure) : secure :=
  mkSecure (filt s) (subs s) (handed s) (wire s ++ default [] b) (refused s || bool_decide (b = None)).

(** The calls of the stream, and those of the filter. *)
Definition strm_api (a : qapi (scode A EC)) : qapi code :=
  match a with
  | Push r => Push r
  | Done r f => Done r (Strm f)
  | Cancel pre post till => Cancel (Strm pre) (Strm post) till
  | Delay r u => Delay r (Strm u)
  | DelayCancel r => DelayCancel r
  | Ltry u => Ltry (Strm u)
  end.
Definition strm_call (c : qapi (scode A EC) + scode A EC) : call :=
  match c with inl a => inl (strm_api a) | inr u => inr (Strm u) end.
Definition map_outcome {T} (f : T → call) (o : outcome T Exn) : outcome call Exn :=
  match o with Calls cs => Calls (f <$> cs) | Throws e => Throws e | Aborts => Aborts end.

(** What the filter asks the stream. [subreq_done] is a call that the stream makes first. *)
Abbreviation ssl_body := (SslFilter.sbody connecting connected wantread _read_start filter_read_stop (λ _ st, st)
  no_env error_exn key_exn).

(** The methods of the filter: those that it overrides, and those it does not. *)
Definition ssl_api (a : SslFilter.sapi EC) : list call := [inr (Ssl (SslFilter.Api a))].
Definition ssl_method (c : fcall EC) (s : secure) : result :=
  match c with
  | FListen => (s, Calls (ssl_api SslFilter.Listen))
  | FReset => (s, Calls (ssl_api SslFilter.Reset))
  | FHandleConnect err r => (s, Calls (ssl_api (SslFilter.HandleConnect err r)))
  | FHandleRead buf err => (s, Calls (ssl_api (SslFilter.HandleRead (bytes_of buf) err)))
  | FWrite r =>
      match reqs (strm s) !! r with
      | Some q => (s, Calls (ssl_api (SslFilter.Write r (bytes_of <$> bufs q))))
      | None => (s, Aborts)
      end
  | FHandleWrite err r =>
      match subs s !! r with
      | Some w => (s, Calls (inr (Strm (FilterApi ssl_fid (FSubDone r))) :: ssl_api (SslFilter.HandleWrite err w)))
      | None => (s, Aborts)      (* not a request of the filter *)
      end
  | FHandleEof => (s, Calls (ssl_api SslFilter.HandleEof))
  | FTcpConnect _ | FPipeConnect _ | FShutdown _ | FHandleShutdown _ _ =>
      let (st, cs) := base_method ssl_fid c (strm s) in (with_strm st s, Calls (strm_call <$> cs))
  end.

(** The stream gives a request to the filter, with the buffers that it has. *)
Definition note_call (c : fcall EC) (s : secure) : secure :=
  match c with
  | FWrite r => match reqs (strm s) !! r with Some q => note_handed r (bytes_of <$> bufs q) s | None => s end
  | _ => s
  end.

(** The calls that leave the filter. That of the server's filter goes to the stream if it
    is the only filter of the server. *)
Definition next_call (a : fapi EC) : list call := [inr (Strm (FilterApi ssl_fid a))].
Definition ssl_next (c : SslFilter.scall EC) (s : secure) : result :=
  match c with
  | NextListen => (s, Calls (next_call (FBase FListen)))
  | NextReset => (s, Calls (next_call (FBase FReset)))
  | NextHandleConnect err (Some r) => (s, Calls (next_call (FBase (FHandleConnect err r))))
  | NextHandleConnect _ None => (s, Aborts)      (* a null request *)
  | NextHandleConnection err r => (s, Calls [inr (Strm (FinalizeConnection r err))])
  | NextHandleRead buf err => (s, Calls (next_call (FBase (FHandleRead (string_of buf) err))))
  | NextHandleWrite err r => (s, Calls (next_call (FBase (FHandleWrite err r))))
  | NextHandleEof => (s, Calls (next_call (FBase FHandleEof)))
  | SubreqWrite p w =>
      match wreqs (filt s) !! w with
      | Some q =>
          let r := fresh (dom (reqs (strm s))) in
          (with_subs (<[r := w]> (subs s)) s, Calls (next_call (FSubWrite p r (string_of <$> wbufs q))))
      | None => (s, Aborts)
      end
  | DelayHandleWrite r err => (s, Calls [inl (Delay r (Strm (FilterApi ssl_fid (FBase (FHandleWrite err r)))))])
  end.

(** What libuv took of a request. *)
Definition taken (r : rid) (st : sstream) : option bytes :=
  match reqs st !! r with
  | Some q => match r_impl q with Some true => Some (concat (bytes_of <$> bufs q)) | _ => None end
  | None => None
  end.

(** A function of the stream. *)
Definition strm_code (c : scode A EC) (qq : queue) (s : secure) : result :=
  let (st, o) := stream_code user_code no_callbacks virt f_type f_priority filters_error c qq (strm s) in
  let s := with_strm st s in
  (match c with Finalize (FWrite r) => note_wire (taken r st) s | _ => s end, map_outcome strm_call o).

(** A function of the filter. *)
Definition filter_code (c : SslFilter.stmt EC) (s : secure) : result :=
  let (f, o) := ssl_body c (filt s) in (with_filt f s, map_outcome (λ c, inr (Ssl c)) o).

Definition secure_code (u : code) (qq : queue) (s : secure) : result :=
  match u with
  | Strm (FilterCall f c) => if decide (f = ssl_fid) then ssl_method c (note_call c s) else strm_code (FilterCall f c) qq s
  | Strm c => strm_code c qq s
  | Ssl (Next c) => ssl_next c s
  | Ssl c => filter_code c s
  end.

(** A stream with its filter as a client of its queue. *)
Definition secure_client : client secure code EC Exn := {|
  v_exec r := Strm (VExec r); v_cancel r e := Strm (VCancel r e); v_notify r e := Strm (VNotify r e);
  v_destroy_impl r s := with_strm (destroy_impl r (strm s)) s;
  v_capture e s := with_strm (keep_exn e (strm s)) s;
  v_code := secure_code; canceled_err := ec_of (Std operation_canceled)
|}.

(** *** Making and removing the filter *)

(** An SSL context, and what OpenSSL makes of it; a method gives a context. *)
Context {Ctx Method : Type}.
Context (ctx_new : Ctx → option L) (ctx_errors : list Z) (SSL_CTX_check_private_key : Ctx → bool).
Context (SSL_CTX_new : Method → option Ctx) (SSLv23_client_method : Method).

Definition ssl_exn : Exn := error_exn (make_ssl_error_code SSL_ERROR_SSL ctx_errors).1.

(** [ssl_ctx_from_method] *)
Definition ssl_ctx_from_method (m : option Method) : Ctx + Exn :=
  match SSL_CTX_new (default SSLv23_client_method m) with Some c => inl c | None => inr ssl_exn end.

(** [SslFilter::SslFilter] of a context *)
Definition new_ssl_filter (ctx : Ctx) (server : option bool) (st : sstream) : ssl_filter L sstream + Exn :=
  if listening st && negb (SSL_CTX_check_private_key ctx) then inr key_exn else
  match ctx_new ctx with
  | Some l => inl (mkSsl l [] [] None initial UNKNOWN server ∅ 0 st [] [] [] [])
  | None => inr ssl_exn
  end.

(** [Stream::use_ssl] of a stream that has no SSL filter; [Stream::no_ssl]; [Stream::get_ssl] *)
Definition use_ssl (ctx : Ctx) (s : secure) : secure * option Exn :=
  match new_ssl_filter ctx None (strm s) with
  | inl f =>
      match change_filters (Exn:=Exn) filters_error false (add_filter f_type f_priority ssl_fid) (strm s) with
      | (st, Throws e) => (s, Some e)
      | (st, _) => (with_strm st (mkSecure f ∅ [] [] false), None)
      end
  | inr e => (s, Some e)
  end.
Definition use_ssl_method (m : option Method) (s : secure) : secure * option Exn :=
  match ssl_ctx_from_method m with inl ctx => use_ssl ctx s | inr e => (s, Some e) end.
Definition no_ssl (s : secure) : secure * option Exn :=
  match get_filter f_type (f_type ssl_fid) (_filters (strm s)) with
  | Some f =>
      match change_filters (Exn:=Exn) filters_error false (remove_filter f) (strm s) with
      | (st, Throws e) => (s, Some e)
      | (st, _) => (with_strm st s, None)
      end
  | None => (s, None)
  end.
Definition get_ssl (s : secure) : option L :=
  match get_filter f_type (f_type ssl_fid) (_filters (strm s)) with Some _ => Some (ssl (filt s)) | None => None end.
End Secure.
Arguments secure : clear implicits.

(** ** The stream of an established connection *)

(** What the user was given to read. *)
Definition user_reads {EC} (l : list (uevent EC)) : bytes :=
  concat (omap (λ e, match e with OnRead b _ => Some (bytes_of b) | _ => None end) l).
Lemma user_reads_app {EC} (l l' : list (uevent EC)) : user_reads (l ++ l') = user_reads l ++ user_reads l'.
Proof. unfold user_reads. by rewrite omap_app, concat_app. Qed.

Section Plain.
#[local] Set Default Proof Using "Type".
Context {S B A EC W C Exn : Type} `{UvStream S B A} `{ErrorStack EC}.
Context (user_code : C → uevent EC → stream S B A EC W C Exn → W * (list (sapi A) + Exn)).
Context (no_callbacks : C).
Context (virt : fid → fcall EC → stream S B A EC W C Exn → option (W * list (fapi EC))).
Context (f_type : fid → nat) (f_priority : fid → Z).
Context (filters_error : Exn).
Context (ssl_fid : fid).
(** [reading]: the user goes on reading, and his callbacks do not throw. *)
Context (reading : bool).
Implicit Types s : stream S B A EC W C Exn.

(** The methods that are called while the connection is established: the stream is neither
    connected again, nor reset or disconnected, nor are its filters changed. *)
Definition ok_use (a : sapi A) : Prop :=
  match a with
  | Write _ _ | Shutdown _ _ | RunInOrder _ | ReadStart | ReadIgnore => True
  | ReadStop => reading = false
  | _ => False
  end.
Definition user_keeps : Prop := ∀ c e s,
  match (user_code c e s).2 with inl l => Forall ok_use l | inr _ => reading = false end.

(** The calls that pass the filter of such a stream. *)
Definition ok_fcall (c : fcall EC) : Prop :=
  match c with
  | FHandleRead _ _ | FWrite _ | FHandleWrite _ _ | FHandleEof | FShutdown _ | FHandleShutdown _ _ => True
  | _ => False
  end.

(** The code of such a stream that carries no bytes and executes no request. *)
Definition light_strm (u : scode A EC) : Prop :=
  match u with
  | Nop | VCancel _ _ | VNotify _ _ | HandleEvent _ _ | HandleRead _ _ | HandleEof | UvRead _ _
  | OnComplete _ _ | OnTimer _ | OnResolve _ _ => True
  | Api a => ok_use a
  | FilterCall f (FWrite _) => False
  | FilterCall f c => f = ssl_fid ∧ ok_fcall c
  | FilterApi f (FBase (FHandleEof | FHandleWrite _ _ | FShutdown _ | FHandleShutdown _ _)) => f = ssl_fid
  | FilterApi f (FSubDone _) => f = ssl_fid
  | Finalize (FHandleEof | FHandleWrite _ _ | FShutdown _ | FHandleShutdown _ _) => True
  | User (OnRead _ _) => False
  | User _ => True
  | _ => False
  end.
Abbreviation light_call := (safe_call light_strm).

(** The requests and the flags of such a stream. *)
Definition plain_req (q : sreq A) : Prop :=
  match kind q with KWrite | KShutdown | KRunInOrder => True | _ => False end ∧
  (last_filter q = None ∨ last_filter q = Some ssl_fid).
Definition plain_reqs (m : gmap rid (sreq A)) : Prop := ∀ r q, m !! r = Some q → plain_req q.
Definition plain_flags (f : Z) : Prop := Z.testbit f 1 = false ∧ (reading = true → Z.testbit f 5 = false).

Record plain s : Prop := {
  pl_filters : _filters s = [ssl_fid];
  pl_flags : plain_flags (flags s);
  pl_reqs : plain_reqs (reqs s)
}.

(** What its code keeps. *)
Record keeps s s' : Prop := {
  k_filters : _filters s' = _filters s;
  k_elog : user_reads (elog s') = user_reads (elog s);
  k_flags : plain_flags (flags s) → plain_flags (flags s');
  k_reqs : plain_reqs (reqs s) → plain_reqs (reqs s')
}.

#[global] Instance keeps_preorder : PreOrder keeps.
Proof.
  split; [by split|]. intros s1 s2 s3 [E1 E2 E3 E4] [F1 F2 F3 F4]. split; [congruence|congruence|auto|auto].
Qed.

Lemma keeps_plain s s' : keeps s s' → plain s → plain s'.
Proof. intros [E1 E2 E3 E4] [F1 F2 F3]. split; [congruence|auto|auto]. Qed.

Lemma keeps_fields s s' : _filters s' = _filters s → elog s' = elog s → flags s' = flags s → reqs s' = reqs s → keeps s s'.
Proof. intros E1 E2 E3 E4. split; rewrite ?E1, ?E2, ?E3, ?E4; done. Qed.

Lemma plain_flags_set m f : Z.testbit m 1 = false → Z.testbit m 5 = false → plain_flags f → plain_flags (set_flag m f).
Proof.
  intros M1 M5 [F1 F5]. unfold plain_flags. rewrite !set_flag_bit, M1, M5, F1. split; [done|]. intros Hr. by rewrite F5.
Qed.
Lemma plain_flags_clear m f : plain_flags f → plain_flags (clear_flag m f).
Proof. intros [F1 F5]. unfold plain_flags. rewrite !clear_flag_bit, F1. split; [done|]. intros Hr. by rewrite F5. Qed.

Lemma keeps_set_flag m s : Z.testbit m 1 = false → Z.testbit m 5 = false → keeps s (with_flags (set_flag m) s).
Proof. intros. split; try done. by apply plain_flags_set. Qed.
Lemma keeps_clear_flag m s : keeps s (with_flags (clear_flag m) s).
Proof. intros. split; try done. by apply plain_flags_clear. Qed.

Lemma keeps_with_req f r s : (∀ q, plain_req q → plain_req (f q)) → keeps s (with_req f r s).
Proof.
  intros Hf. split; try done. intros Hr i q Hq. unfold with_req in Hq. simpl in Hq.
  destruct (decide (r = i)) as [->|N].
  - rewrite lookup_alter_eq in Hq. destruct (reqs s !! i) as [q0|] eqn:E; simplify_eq/=. eauto.
  - rewrite lookup_alter_ne in Hq by done. eauto.
Qed.
Lemma keeps_insert r q s : plain_req q → keeps s (with_reqs (<[r := q]> (reqs s)) s).
Proof.
  intros Hp. split; try done. intros Hr i q' Hq. simpl in Hq. apply lookup_insert_Some in Hq as [[_ <-]|[_ Hq]]; eauto.
Qed.

Lemma keeps_on_impl {T} (f : B → S → S * T) s : keeps s (on_impl f s).1.
Proof. unfold on_impl, stream_impl. destruct (impl _ _) as [[h u] b], (f b _). by apply keeps_fields. Qed.
Lemma keeps_request_impl r s : keeps s (request_impl r s).
Proof.
  unfold request_impl, stream_impl. destruct (impl _ _) as [[h u] b].
  transitivity (with_impl h u s); [by apply keeps_fields|]. apply keeps_with_req. intros q Hq. by destruct (r_impl q).
Qed.

Lemma keeps_read_start s : keeps s (_read_start s).1.
Proof.
  unfold _read_start. destruct (_ || _); [done|]. pose proof (keeps_on_impl uv_read_start s) as Hk.
  destruct (on_impl uv_read_start s) as [s1 err]. simpl in *. destruct (uvx_ce err); [done|].
  etrans; [exact Hk|]. by apply keeps_set_flag.
Qed.
Lemma keeps_api_read_start s : keeps s (read_start s).
Proof.
  unfold read_start. set (s1 := with_flags (clear_flag IGNORE_READ) (set_wantread true s)).
  assert (keeps s s1) as Hs1. { etrans; [|apply keeps_clear_flag]. apply (keeps_clear_flag DONTREAD). }
  pose proof (keeps_read_start s1) as Hk. destruct (_read_start s1) as [s2 err]. simpl in *.
  etrans; [exact Hs1|]. etrans; [exact Hk|]. by apply keeps_fields.
Qed.
Lemma keeps_read_stop s : reading = false → keeps s (read_stop s).
Proof.
  intros Hr. unfold read_stop. set (s1 := set_wantread false s).
  assert (keeps s s1) as Hs1.
  { split; try done. intros [F1 _]. split; [|by rewrite Hr].
    change (Z.testbit (set_flag DONTREAD (flags s)) 1 = false). by rewrite set_flag_bit, F1. }
  destruct (negb _); [done|]. pose proof (keeps_on_impl (λ b u, (uv_read_stop b u, tt)) s1) as Hk.
  destruct (on_impl _ s1) as [s2 []]. simpl in *. etrans; [exact Hs1|]. etrans; [exact Hk|]. apply keeps_clear_flag.
Qed.
Lemma keeps_clear_out s : keeps s (clear_out_connected s).
Proof.
  unfold clear_out_connected. etrans; [apply (keeps_clear_flag OUT_CONNECTED)|].
  destruct (in_connected _); [done|]. apply keeps_clear_flag.
Qed.
Lemma keeps_clear_in s : keeps s (clear_in_connected s).
Proof.
  unfold clear_in_connected. etrans; [apply (keeps_clear_flag IN_CONNECTED)|].
  destruct (out_connected _); [done|]. apply keeps_clear_flag.
Qed.
Lemma keeps_set_shutdown ok s : keeps s (set_shutdown ok s).
Proof.
  unfold set_shutdown. set (s1 := with_flags _ _). assert (keeps s s1) as Hs1.
  { etrans; [apply (keeps_clear_flag SHUTTING)|]. by apply keeps_set_flag. }
  destruct ok; [|done]. etrans; [exact Hs1|]. apply keeps_clear_out.
Qed.
Lemma keeps_subreq_done r s : keeps s (subreq_done (Exn:=Exn) r s).1.
Proof.
  unfold subreq_done. destruct (reqs s !! r) as [q|]; [|done]. destruct (subreq q); [done|]. simpl.
  set (s1 := destroy_impl r s). assert (keeps s s1) as Hs1 by (by apply keeps_with_req; intros ? []).
  etrans; [exact Hs1|]. etrans; [|apply keeps_with_req; intros ? []; split; [done|by left]].
  destruct (parent q); [|done]. by apply keeps_with_req; intros ? [].
Qed.
Lemma keeps_uvstream_shutdown r s : keeps s (uvstream_shutdown r s).1.
Proof.
  unfold uvstream_shutdown. pose proof (keeps_on_impl (λ b, uv_shutdown b r) s) as Hk.
  destruct (on_impl _ s) as [s1 [e|]]; simpl in *; [done|]. etrans; [exact Hk|]. by apply keeps_with_req; intros ? [].
Qed.
Lemma keeps_uvtcp_connect r a s : keeps s (uvtcp_connect r a s).1.
Proof.
  unfold uvtcp_connect. pose proof (keeps_on_impl (λ b, uv_tcp_connect b r a) s) as Hk.
  destruct (on_impl _ s) as [s1 [e|]]; simpl in *; [done|]. etrans; [exact Hk|]. by apply keeps_with_req; intros ? [].
Qed.

(** What a function of the stream leaves. *)
Definition strm_result s (r : stream S B A EC W C Exn * outcome (qapi (scode A EC) + scode A EC) Exn) : Prop :=
  keeps s r.1 ∧ match r.2 with Calls cs => Forall light_call cs | Throws _ => reading = false | Aborts => True end.

Lemma result_calls s s' cs : keeps s s' → Forall light_call cs → strm_result s (s', Calls cs).
Proof. by split. Qed.
Lemma result_aborts s : strm_result s (s, Aborts).
Proof. by split. Qed.
(** Close a goal about a list of calls that are all light. *)
Ltac light := repeat (apply Forall_cons; split; [done|]); by apply Forall_nil.

Lemma last_filter_light s r q c : plain s → reqs s !! r = Some q →
  ok_fcall c → light_strm (Finalize c) → Forall light_call (invoke (last_filter q) c).
Proof.
  intros [_ _ Hp] Hq Hc Hf. destruct (Hp r q Hq) as [_ [->| ->]]; simpl; [by constructor|].
  constructor; [|done]. by destruct c.
Qed.

Lemma api_light a qq s : ok_use a → strm_result s (stream_api f_type f_priority filters_error a qq s).
Proof.
  intros Ha. assert (∀ k l n r, match k with KWrite | KShutdown | KRunInOrder => True | _ => False end →
    keeps s (with_reqs (<[r := new_request k l n]> (reqs s)) s)) as Hins.
  { intros k l n r Hk. apply keeps_insert. split; [by destruct k|by left]. }
  destruct a as [n|r a h c t|r nm t|r l|r t|r| | | |r| | |f b|f b|f b|f b]; try done; cbn [stream_api fst snd].
  - apply result_calls; [|light]. etrans; [by apply (Hins KWrite l 0 r)|]. by apply keeps_fields.
  - apply result_calls; [|light]. etrans; [by apply (Hins KShutdown [] t r)|]. by apply keeps_with_req; intros ? [].
  - unfold run_in_order. case_decide; (apply result_calls; [|light]); [done|].
    by apply Hins.
  - apply result_calls; [apply keeps_api_read_start|light].
  - apply result_calls; [by apply keeps_read_stop|light].
  - apply result_calls; [by apply keeps_set_flag|light].
Qed.

Lemma cancel_light r err s : strm_result s (request_cancel (Exn:=Exn) r err s).
Proof.
  unfold request_cancel. destruct (reqs s !! r) as [q|]; [|apply result_aborts].
  assert (∀ e, Forall light_call (base_cancel r q e)) as Hb by (intros e; unfold base_cancel; destruct (subreq q); light).
  destruct (kind q); simpl; try (by apply result_calls); try (apply result_calls; [done|light]).
  unfold shutdown_cancel. destruct (_ && _); simpl; apply result_calls; try done. by apply keeps_with_req; intros ? [].
Qed.

Lemma run_in_order_light s err : strm_result s (s, run_in_order_event (A:=A) err).
Proof. unfold run_in_order_event. destruct (ec_bool err); [apply result_calls; [done|light]|apply result_aborts]. Qed.

Lemma notify_light r err s : strm_result s (request_notify (Exn:=Exn) r err s).
Proof.
  unfold request_notify. destruct (reqs s !! r) as [q|]; [|apply result_aborts].
  destruct (kind q); try (apply result_calls; [done|light]). apply run_in_order_light.
Qed.

Lemma event_light r err s : plain s → strm_result s (handle_event (Exn:=Exn) r err s).
Proof.
  intros Hs. unfold handle_event. destruct (reqs s !! r) as [q|] eqn:Hq; [|apply result_aborts].
  destruct (pl_reqs _ Hs r q Hq) as [Hk _]. destruct (kind q); try done; cbn [fst snd].
  - apply result_calls; unfold write_handle_event; simpl; [destruct (ec_has _ _); [apply keeps_clear_out|done]|].
    unfold last_filter_of. rewrite Hq. simpl. by apply (last_filter_light s r).
  - apply result_calls; [done|]. by apply (last_filter_light s r).
  - apply run_in_order_light.
Qed.

Lemma up_call_light c s : plain s → match c with FHandleEof | FHandleWrite _ _ | FHandleShutdown _ _ | FHandleRead _ _ => True | _ => False end →
  base_method ssl_fid c s = (s, [inr (Finalize c)]).
Proof. intros [Hf _ _] Hc. destruct c; try done; unfold base_method, filter_handle_write, filter_handle_eof, filter_handle_shutdown, filter_handle_read, filter_up; by rewrite Hf. Qed.
Lemma down_call_light c r s : plain s → c = FShutdown r ∨ c = FWrite r → base_method ssl_fid c s = (s, [inr (Finalize c)]).
Proof. intros [Hf _ _] [->| ->]; unfold base_method, filter_shutdown, filter_write, filter_down; rewrite Hf; simpl; by rewrite decide_True. Qed.

Lemma filter_api_light a s : plain s → light_strm (FilterApi ssl_fid a) → strm_result s (filter_api (Exn:=Exn) ssl_fid a s).
Proof.
  intros Hs Ha. destruct a as [c| | |p r|p r|p r l|r]; try done; cbn [filter_api].
  - assert (base_method ssl_fid c s = (s, [inr (Finalize c)])) as E.
    { destruct c; try done; [by apply up_call_light..| |by apply up_call_light]. eapply down_call_light; [done|]. by left. }
    rewrite E. apply result_calls; [done|]. destruct c; try done; light.
  - split; [apply keeps_subreq_done|]. unfold subreq_done. destruct (reqs s !! r) as [q|]; [|done].
    destruct (subreq q); [done|]. light.
Qed.

Lemma finalize_light c qq s : plain s → light_strm (Finalize c) → strm_result s (finalize (Exn:=Exn) c qq s).
Proof.
  intros Hs Hc. destruct c; try done; cbn [finalize fst snd]; try (apply result_calls; [done|light]).
  - unfold finalize_shutdown. split.
    + cbn [fst]. etrans; [|apply keeps_uvstream_shutdown]. etrans; [|apply keeps_request_impl]. by apply keeps_set_flag.
    + simpl. unfold uvstream_shutdown. destruct (on_impl _ _) as [s1 [e|]]; light.
  - apply result_calls; [|light]. simpl. etrans; [apply keeps_set_shutdown|]. by apply keeps_with_req; intros ? [].
Qed.

Lemma user_light e s : user_keeps → (∀ b err, e ≠ OnRead b err) → strm_result s (user_call user_code e s).
Proof.
  intros Hu He. assert (keeps s (note e s)) as Hn.
  { split; try done. simpl. rewrite user_reads_app. destruct e; try by rewrite app_nil_r. by destruct (He buf err). }
  unfold user_call. pose proof (Hu (callbacks (note e s)) e (note e s)) as Hc.
  destruct (user_code _ e (note e s)) as [w [l|x]]; simpl in Hc.
  - apply result_calls; [etrans; [exact Hn|by apply keeps_fields]|]. apply Forall_fmap. exact Hc.
  - split; [etrans; [exact Hn|by apply keeps_fields]|done].
Qed.

Lemma timer_light r qq s : strm_result s ((on_timer r qq s).1, Calls (on_timer r qq s).2).
Proof.
  unfold on_timer. destruct (reqs s !! r) as [q|]; [|apply result_calls; [done|light]].
  destruct (negb (timer q)); [apply result_calls; [done|light]|].
  assert (keeps s (with_req (set_timer false) r s)) as Hk by (by apply keeps_with_req; intros ? []).
  destruct (kind q); try (apply result_calls; [done|light]).
  destruct (prev_filter r (requests qq)); (apply result_calls; [|light]); [|done]. etrans; [exact Hk|]. by apply keeps_with_req; intros ? [].
Qed.

Lemma resolve_light r res s : strm_result s ((on_resolve r res s).1, Calls (on_resolve r res s).2).
Proof.
  unfold on_resolve. destruct (reqs s !! r) as [q|]; [|apply result_calls; [done|light]].
  destruct (negb (resolving q)); [apply result_calls; [done|light]|].
  assert (keeps s (with_req (set_resolving false) r s)) as Hk by (by apply keeps_with_req; intros ? []).
  destruct res as [a|e]; [|by apply result_calls; [|light]].
  set (s1 := with_req (set_addr a) r (with_req (set_resolving false) r s)).
  assert (keeps s s1) as Hs1.
  { etrans; [exact Hk|]. apply keeps_with_req. intros q' [Hq' Hl]. split; [|done]. simpl. by destruct (kind q'). }
  pose proof (keeps_uvtcp_connect r a (request_impl r s1)) as Hc.
  destruct (uvtcp_connect r a (request_impl r s1)) as [s2 err]. simpl in *. apply result_calls.
  - etrans; [exact Hs1|]. etrans; [apply keeps_request_impl|exact Hc].
  - destruct err; light.
Qed.

(** The code of the stream of an established connection. *)
Lemma strm_light c qq s :
  user_keeps → plain s → light_strm c → (∀ f d, c ≠ FilterCall f d) →
  strm_result s (stream_code user_code no_callbacks virt f_type f_priority filters_error c qq s).
Proof.
  intros Hu Hs Hc Hnf.
  destruct c as [|a|r|r err|r err|r err|r err|f c|f a|c|r err|e|n| | | | |buf err| |buf n|r st|r|r res|areq err|areq err];
    try done; cbn [stream_code].
  - by apply result_calls; [|light].
  - by apply api_light.
  - apply cancel_light.
  - apply notify_light.
  - by apply event_light.
  - by destruct (Hnf f c).
  - assert (f = ssl_fid) as ->; [|by apply filter_api_light].
    destruct a as [d| | | | | |]; [destruct d| | | | | |]; done.
  - by apply finalize_light.
  - apply user_light; [done|]. by intros b err ->.
  - assert (∀ c, ok_fcall c → (∀ i, c ≠ FWrite i) → Forall light_call (invoke (last (_filters s)) c)) as Hl.
    { intros c Hok Hn. rewrite (pl_filters _ Hs). simpl. constructor; [|done]. destruct c; try done. by destruct (Hn r). }
    unfold handle_read. destruct (bool_decide _); cbn [fst snd].
    + unfold handle_eof. destruct (negb _); [by apply result_calls; [|light]|]. apply result_calls; [apply keeps_clear_in|].
      simpl. unfold clear_in_connected. destruct (out_connected _); by apply Hl.
    + destruct (has_flag _ _); [by apply result_calls; [|light]|]. by apply result_calls; [|apply Hl].
  - unfold handle_eof. destruct (negb _); [by apply result_calls; [|light]|]. apply result_calls; [apply keeps_clear_in|].
    simpl. unfold clear_in_connected. destruct (out_connected _); simpl; rewrite (pl_filters _ Hs); light.
  - apply result_calls; [done|]. unfold on_read. destruct n as [[|n]|[e|]]; light.
  - unfold on_complete. destruct (reqs s !! r ≫= r_impl) as [[]|]; apply result_calls; try light; try done.
    by apply keeps_with_req; intros ? [].
  - apply timer_light.
  - apply resolve_light.
Qed.
(** *** The code that carries something *)

(** The execution of a request. *)
Lemma exec_heavy r s : plain s →
  keeps s (request_exec (Exn:=Exn) r s).1 ∧
  match (request_exec (Exn:=Exn) r s).2 with
  | Calls cs => Forall light_call cs ∨ cs = [inr (FilterCall ssl_fid (FWrite r))]
  | Throws _ => False
  | Aborts => True
  end.
Proof.
  intros Hs. unfold request_exec. destruct (reqs s !! r) as [q|] eqn:Hq; [|done].
  assert (∀ f, f = head (_filters s) → keeps s (with_req (set_last_filter f) r s)) as Hl.
  { intros f ->. rewrite (pl_filters _ Hs). apply keeps_with_req. intros q' [? _]. split; [done|by right]. }
  destruct (pl_reqs _ Hs r q Hq) as [Hk _]. destruct (kind q); try done; cbn [fst snd].
  - unfold write_exec. destruct (negb (out_connected s)); [split; [done|left; light]|]. split.
    + cbn [fst]. etrans; [by apply (Hl _ eq_refl)|]. by apply keeps_fields.
    + right. simpl. by rewrite (pl_filters _ Hs).
  - unfold shutdown_exec. destruct (negb (out_connected s)); [split; [done|left; light]|]. split; [by apply Hl|].
    left. simpl. rewrite (pl_filters _ Hs). light.
  - split; [done|]. left. light.
Qed.

(** The user is given bytes to read. *)
Lemma read_heavy b err s :
  user_keeps →
  let r := user_call user_code (OnRead b err) s in
  user_reads (elog r.1) = user_reads (elog s) ++ bytes_of b ∧ (plain s → plain r.1) ∧
  match r.2 with Calls cs => Forall light_call cs | Throws _ => reading = false | Aborts => False end.
Proof.
  intros Hu. unfold user_call. set (s1 := note _ s).
  assert (user_reads (elog s1) = user_reads (elog s) ++ bytes_of b) as Hr.
  { simpl. rewrite user_reads_app. f_equal. unfold user_reads. simpl. by rewrite app_nil_r. }
  pose proof (Hu (callbacks s1) (OnRead b err) s1) as Hc.
  destruct (user_code _ _ s1) as [w [l|x]]; simpl in *; (split; [done|]; split; [by intros []|]); [|done].
  by apply Forall_fmap.
Qed.

(** A sub-request is made. *)
Lemma sub_write_heavy p r l s :
  plain s →
  let o := subreq_write ssl_fid p r l s in
  keeps s o.1 ∧ o.2 = [inr (Finalize (FWrite r))] ∧ ∃ q, reqs o.1 !! r = Some q ∧ bufs q = l ∧ r_impl q = None.
Proof.
  intros Hs. unfold subreq_write, subreq_start. set (s1 := with_reqs _ s). set (s2 := with_req (set_subreq (Some r)) p s1).
  set (s3 := with_req _ r s2). assert (keeps s s3) as Hk.
  { etrans; [apply (keeps_insert r (new_request KWrite l 0)); split; [done|by left]|].
    etrans; [apply (keeps_with_req (set_subreq (Some r)) p); by intros ? []|].
    apply keeps_with_req. intros q [? _]. split; [done|by right]. }
  assert (∃ q, reqs s3 !! r = Some q ∧ bufs q = l ∧ r_impl q = None) as Hq.
  { unfold s3, s2, s1, with_req. simpl. rewrite lookup_alter_eq. destruct (decide (p = r)) as [->|N].
    - rewrite lookup_alter_eq, lookup_insert_eq. simpl. by eexists.
    - rewrite lookup_alter_ne, lookup_insert_eq by done. simpl. by eexists. }
  pose proof (down_call_light (FWrite r) r s3 (keeps_plain _ _ Hk Hs) (or_intror eq_refl)) as E.
  unfold base_method in E. rewrite E. done.
Qed.

(** libuv takes the bytes of a request, or refuses them. *)
Lemma write_heavy r q s :
  reqs s !! r = Some q → r_impl q = None →
  let o := finalize_write (Exn:=Exn) r s in
  keeps s o.1 ∧ (taken r o.1 = Some (concat (bytes_of <$> bufs q)) ∨ taken r o.1 = None) ∧
  ∃ cs, o.2 = Calls cs ∧ Forall light_call cs.
Proof.
  intros Hq Hi. unfold finalize_write. rewrite Hq. unfold uvstream_write.
  set (s1 := request_impl r s). assert (keeps s s1) as Hs1 by apply keeps_request_impl.
  assert (∃ q1, reqs s1 !! r = Some q1 ∧ bufs q1 = bufs q ∧ r_impl q1 = Some false) as (q1 & Hq1 & Eq1 & Ei1).
  { unfold s1, request_impl, stream_impl. destruct (impl _ _) as [[h u] b]. unfold with_req. simpl.
    rewrite lookup_alter_eq, Hq. simpl. rewrite Hi. by eexists. }
  pose proof (keeps_on_impl (λ b, uv_write b r (bufs q)) s1) as Hs2.
  assert (reqs (on_impl (λ b, uv_write b r (bufs q)) s1).1 = reqs s1) as E2.
  { unfold on_impl, stream_impl. destruct (impl _ _) as [[h u] b]. by destruct (uv_write _ _ _ _). }
  destruct (on_impl _ s1) as [s2 [e|]]; simpl in *.
  - split_and!; [by etrans|right; unfold taken; by rewrite E2, Hq1, Ei1|]. eexists. split; [done|]. light.
  - unfold stream_impl. destruct (impl (hdl (set_active r s2)) (uvs (set_active r s2))) as [[h u] b]. cbn [fst snd].
    set (s3 := with_impl h u (set_active r s2)). split_and!.
    + etrans; [exact Hs1|]. etrans; [exact Hs2|].
      transitivity (set_active r s2); [by apply keeps_with_req; intros ? []|by apply keeps_fields].
    + left. unfold taken, s3, set_active, with_req. simpl. rewrite E2, lookup_alter_eq, Hq1. simpl. by rewrite Eq1.
    + eexists. split; [done|]. rewrite app_nil_r. destruct (_ =? 0); light.
Qed.
End Plain.

(** ** An established connection *)

#[local] Instance is_next_dec {EC} (c : SslFilter.stmt EC) : Decision (is_next c).
Proof. destruct c; (by left) || (by right; intros []). Defined.

Section Established.
#[local] Set Default Proof Using "Type*".
Context {L S B A EC W C Exn K D : Type} `{CipherLaws L K} `{UvStream S B A} `{ErrorStack EC}
  `{DelayLaws D (closure (secode A EC))}.
Context (user_code : C → uevent EC → stream S B A EC W C Exn → W * (list (sapi A) + Exn)).
Context (no_callbacks : C).
Context (virt : fid → fcall EC → stream S B A EC W C Exn → option (W * list (fapi EC))).
Context (f_type : fid → nat) (f_priority : fid → Z).
Context (filters_error : Exn) (error_exn : error_code → Exn) (key_exn : Exn).
Context (ssl_fid : fid) (reading : bool).
(** The keys of the two directions. *)
Context (kw kr : K).

Abbreviation sec := (secure L S B A EC W C Exn).
Abbreviation sclient := (secure_client user_code no_callbacks virt f_type f_priority filters_error error_exn key_exn ssl_fid).
Abbreviation scode_of := (secure_code user_code no_callbacks virt f_type f_priority filters_error error_exn key_exn ssl_fid).
Implicit Types (s : sec) (st : stream S B A EC W C Exn) (l : list rid).

(** The plaintext of the requests that were given to the filter to write. *)
Definition plaintext s : list bytes := nonempty (concat (handed s).*2).

(** The books of the connection: what the filter handed up is what the user was given and
    [rd] that is on its way; what it was given to write is what it encrypted and [pt] that
    is on its way; the requests it was given, and [ex] on its way to it, were executed by
    the queue in this order; what it handed down is what libuv took and [wr] that is on its
    way. *)
Record books (rd : bytes) (pt : list bytes) (ex : list rid) (wr : bytes) s l : Prop := {
  b_est : est kw kr (filt s);
  b_plain : plain ssl_fid reading (strm s);
  b_reads : delivered (filt s) = user_reads (elog (strm s)) ++ rd;
  b_written : plaintext s = written (filt s) ++ nonempty pt;
  b_handed : (handed s).*1 ++ ex `sublist_of` l;
  b_wire : refused s = false → sent (filt s) = wire s ++ wr
}.

(** The code that carries nothing, and that which carries something. *)
Definition light (u : secode A EC) : Prop :=
  match u with
  | Strm c => light_strm ssl_fid reading c
  | Ssl c => established_stmt c ∧ quiet_stmt c
  end.
Definition heavy (u : secode A EC) s l : Prop :=
  match u with
  | Strm (VExec r) => books [] [] [r] [] s l
  | Strm (FilterCall f (FWrite r)) => f = ssl_fid ∧ books [] [] [r] [] s l
  | Ssl (SslFilter.Api (SslFilter.Write r bs)) => books [] bs [] [] s l
  | Ssl (Next (NextHandleRead b _)) => books b [] [] [] s l
  | Strm (FilterApi f (FBase (FHandleRead b _))) => f = ssl_fid ∧ books (bytes_of b) [] [] [] s l
  | Strm (Finalize (FHandleRead b _)) => books (bytes_of b) [] [] [] s l
  | Strm (User (OnRead b _)) => books (bytes_of b) [] [] [] s l
  | Ssl (Next (SubreqWrite p w)) => ∃ q, wreqs (filt s) !! w = Some q ∧ books [] [] [] (concat (wbufs q)) s l
  | Strm (FilterApi f (FSubWrite p r bs)) => f = ssl_fid ∧ books [] [] [] (concat (bytes_of <$> bs)) s l
  | Strm (Finalize (FWrite r)) => ∃ q, reqs (strm s) !! r = Some q ∧ r_impl q = None ∧ books [] [] [] (concat (bytes_of <$> bufs q)) s l
  | _ => False
  end.
Definition sec_holds (o : option (secode A EC)) s l : Prop :=
  match o with None => books [] [] [] [] s l | Some u => heavy u s l end.

(** What can be read, and who reads it. *)
Definition unread s : Prop := (view (ssl (filt s)) (read_bio (filt s))).2 ≠ [].
Definition reader (u : secode A EC) : Prop := match u with Ssl c => reads c | _ => False end.

Context (Huser : user_keeps user_code reading).

Lemma books_strm st rd pt ex wr s l : keeps ssl_fid reading (strm s) st → books rd pt ex wr s l → books rd pt ex wr (with_strm st s) l.
Proof.
  intros Hk [B1 B2 B3 B4 B5 B6]. split; try done; simpl.
  - by apply with_ext_est.
  - by eapply keeps_plain.
  - change (delivered (filt s) = user_reads (elog st) ++ rd). by rewrite B3, (k_elog _ _ _ _ Hk).
Qed.

Lemma strm_calls_safe cs : Forall (safe_call (light_strm ssl_fid reading)) cs → Forall (safe_call light) (strm_call <$> cs).
Proof. intros Hcs. apply Forall_fmap. eapply Forall_impl; [exact Hcs|]. by intros [[]|u]. Qed.

(** A light function of the stream. *)
Lemma strm_code_light c qq s l :
  light_strm ssl_fid reading c → (∀ f d, c ≠ FilterCall f d) → books [] [] [] [] s l →
  code_result light sec_holds (reading = true) l (strm_code user_code no_callbacks virt f_type f_priority filters_error c qq s).
Proof.
  intros Hc Hnf Hb. unfold strm_code.
  pose proof (strm_light user_code no_callbacks virt f_type f_priority filters_error ssl_fid reading c qq (strm s) Huser
    (b_plain _ _ _ _ _ _ Hb) Hc Hnf) as [Hk Ho].
  destruct (stream_code _ _ _ _ _ _ _ _ _) as [st o]. cbn [fst snd] in *.
  pose proof (books_strm st _ _ _ _ _ _ Hk Hb) as Hb'.
  assert ((match c with Finalize (FWrite r) => note_wire (taken r st) (with_strm st s) | _ => with_strm st s end) = with_strm st s) as ->.
  { by destruct c as [| | | | | | | | |[]| | | | | | | | | | | | | | |]. }
  unfold code_result. destruct o as [cs|e|]; cbn [fst snd map_outcome]; [|split; [by rewrite Ho|done]|done].
  left. split; [by apply strm_calls_safe|done].
Qed.

(** The filter, with the stream inside, as [SslFilter] knows it. *)
Abbreviation ssl_step c s := (SslFilter.sbody connecting connected wantread _read_start filter_read_stop (λ _ st, st)
  no_env error_exn key_exn c (filt s)).

Lemma plain_connecting st : plain ssl_fid reading st → connecting st = false.
Proof using Type. intros [_ [Hf _] _]. unfold connecting. change CONNECTING with (2 ^ 1). by rewrite has_flag_bit. Qed.
Lemma plain_wantread st : plain ssl_fid reading st → reading = true → wantread st = true.
Proof using Type.
  intros [_ [_ Hf] _] Hr. unfold wantread. change DONTREAD with (2 ^ 5). rewrite has_flag_bit by done. by rewrite Hf.
Qed.

Lemma ssl_step_est c s :
  est kw kr (filt s) → genuine kr (filt s) → established_stmt c → body_est wantread (no_env (Exn:=Exn)) kw kr c (filt s) (ssl_step c s).
Proof.
  intros He Hg Hc. apply sbody_est; [|done..]. by intros c' x x' l [= <- <-].
Qed.
Lemma ssl_step_calm c s :
  est kw kr (filt s) → genuine kr (filt s) → established_stmt c → ∀ e, (ssl_step c s).2 ≠ Throws e.
Proof.
  intros He Hg Hc. destruct (ssl_step_est c s He Hg Hc) as (_ & Ht & _). apply Ht. intros c' x. by exists x, [].
Qed.

(** The books after a step of the filter. *)
Lemma books_filt f d pt ex wr s l :
  est kw kr f → ledger (filt s) f d [] [] → books [] pt ex wr s l → books d pt ex wr (with_filt f s) l.
Proof.
  intros He [E1 E2 E3 E4] [B1 B2 B3 B4 B5 B6]. rewrite app_nil_r in *. split; try done; unfold strm; simpl.
  - rewrite E1. exact B2.
  - by rewrite E1, E2, B3.
  - rewrite E3. exact B4.
  - intros Hr. by rewrite E4, (B6 Hr).
Qed.

Lemma light_stmts cs : Forall established_stmt cs → Forall quiet_stmt cs →
  Forall (safe_call light) ((λ c, inr (Ssl c)) <$> cs : list (qapi (secode A EC) + secode A EC)).
Proof using Type. intros H1' H2'. apply Forall_fmap. apply Forall_and. by split. Qed.

Lemma filter_code_light c s l :
  genuine kr (filt s) → established_stmt c → quiet_stmt c → ¬ is_next c → books [] [] [] [] s l →
  code_result light sec_holds (reading = true) l (filter_code error_exn key_exn c s).
Proof.
  intros Hg Hc Hq Hn Hb. pose proof (b_est _ _ _ _ _ _ Hb) as He.
  destruct (ssl_step_est c s He Hg Hc) as (He' & _ & Hcs). pose proof (ssl_step_calm c s He Hg Hc) as Ht.
  pose proof (sbody_ledger connecting connected wantread _read_start filter_read_stop (λ _ st, st) no_env
    error_exn key_exn kw kr c (filt s) He Hg Hc Hq Hn (plain_connecting _ (b_plain _ _ _ _ _ _ Hb)) ltac:(done)) as Hl.
  unfold filter_code. destruct (ssl_step c s) as [f o]. cbn [fst snd] in *.
  destruct Hl as [[Hl Hqs]|(d & cs & Hl & Eo & Hqs)]; [|simpl in Eo; subst o].
  - pose proof (books_filt f _ _ _ _ _ _ He' Hl Hb) as Hb'. unfold code_result.
    destruct o as [cs|e|]; cbn [fst snd map_outcome]; [|by destruct (Ht e)|done].
    left. split; [|done]. destruct (Hcs cs eq_refl) as [Hest _]. by apply light_stmts; [|apply Hqs].
  - right. destruct (Hcs _ eq_refl) as [Hest _]. apply Forall_cons in Hest as [_ Hest].
    eexists _, _. split; [done|]. split; [by apply light_stmts|]. simpl. by apply books_filt.
Qed.

Lemma code_result_one l s u : heavy u s l → code_result (Exn:=Exn) light sec_holds (reading = true) l (s, Calls [inr u]).
Proof using Type. intros Hu. right. by exists u, []. Qed.

(** A write: the plaintext is handed to the filter, which hands the ciphertext down. *)
Lemma write_code_heavy r bs s l :
  genuine kr (filt s) → books [] bs [] [] s l →
  code_result light sec_holds (reading = true) l (filter_code error_exn key_exn (SslFilter.Api (SslFilter.Write r bs)) s).
Proof.
  intros Hg Hb. pose proof (b_est _ _ _ _ _ _ Hb) as He.
  destruct (ssl_step_est (SslFilter.Api (SslFilter.Write r bs)) s He Hg I) as (He' & _).
  destruct (write_ledger (Exn:=Exn) (EC:=EC) connecting connected wantread _read_start filter_read_stop (λ _ st, st) no_env
      error_exn key_exn kw kr r bs (filt s) He) as (w & ws & [E1 E2 E3 E4] & Hw & Eo).
  unfold filter_code. change (ssl_step (SslFilter.Api (SslFilter.Write r bs)) s) with (SslFilter.write (EC:=EC) (Exn:=Exn) r bs (filt s)) in *.
  destruct (SslFilter.write r bs (filt s)) as [f o]. cbn [fst snd] in *. subst o.
  apply code_result_one. simpl. exists (mkSslReq (Some r) false ws). split; [done|].
  destruct Hb as [B1 B2 B3 B4 B5 B6]. rewrite app_nil_r in *. split; unfold strm; simpl; try done.
  all: rewrite ?app_nil_r, ?E1, ?E2, ?E3; try done.
  intros Hr. by rewrite E4, (B6 Hr).
Qed.

Lemma bytes_of_string b : bytes_of (string_of b) = b.
Proof using Type. apply String.list_ascii_of_string_of_list_ascii. Qed.

(** What carried something has arrived. *)
Lemma books_executed r s l : books [] [] [r] [] s l → books [] [] [] [] s l.
Proof using Type.
  intros [B1 B2 B3 B4 B5 B6]. split; try done. rewrite app_nil_r. etrans; [|exact B5]. by apply sublist_inserts_r.
Qed.

(** The filter is given a request. *)
Lemma books_handed r bs s l : books [] [] [r] [] s l → books [] bs [] [] (note_handed r bs s) l.
Proof using Type.
  intros [B1 B2 B3 B4 B5 B6]. change (nonempty []) with (@nil bytes) in B4. rewrite app_nil_r in B4. split; try done; simpl.
  - unfold plaintext, nonempty in *. simpl. rewrite fmap_app, concat_app, filter_app, B4. simpl. by rewrite app_nil_r.
  - by rewrite fmap_app, app_nil_r.
Qed.

Lemma exec_code_heavy r qq s l :
  books [] [] [r] [] s l → code_result light sec_holds (reading = true) l (scode_of (Strm (VExec r)) qq s).
Proof.
  intros Hb. cbn [secure_code]. unfold strm_code. cbn [stream_code].
  destruct (exec_heavy (Exn:=Exn) ssl_fid reading r (strm s) (b_plain _ _ _ _ _ _ Hb)) as [Hk Ho].
  destruct (request_exec r (strm s)) as [st o]. cbn [fst snd] in *.
  pose proof (books_strm st _ _ _ _ _ _ Hk Hb) as Hb'. unfold code_result. destruct o as [cs|e|]; cbn [fst snd map_outcome]; [|done|].
  - destruct Ho as [Ho| ->].
    + left. split; [by apply strm_calls_safe|]. simpl. by eapply books_executed.
    + right. by eexists _, [].
  - simpl. by eapply books_executed.
Qed.

Lemma read_code_heavy b err qq s l :
  books (bytes_of b) [] [] [] s l → code_result light sec_holds (reading = true) l (scode_of (Strm (User (OnRead b err))) qq s).
Proof.
  intros Hb. cbn [secure_code]. unfold strm_code. cbn [stream_code].
  destruct (read_heavy user_code ssl_fid reading b err (strm s) Huser) as (Hr & Hp & Ho).
  destruct (user_call user_code (OnRead b err) (strm s)) as [st o]. cbn [fst snd] in *.
  assert (books [] [] [] [] (with_strm st s) l) as Hb'.
  { destruct Hb as [B1 B2 B3 B4 B5 B6]. split; try done; simpl; [by apply with_ext_est|by apply Hp|].
    change (delivered (filt s) = user_reads (elog st) ++ []). by rewrite app_nil_r, Hr. }
  unfold code_result. destruct o as [cs|e|]; cbn [fst snd map_outcome]; [|by split; [rewrite Ho|]|done].
  left. split; [by apply strm_calls_safe|done].
Qed.

Lemma sub_code_heavy p r bs qq s l :
  books [] [] [] (concat (bytes_of <$> bs)) s l →
  code_result light sec_holds (reading = true) l (scode_of (Strm (FilterApi ssl_fid (FSubWrite p r bs))) qq s).
Proof.
  intros Hb. cbn [secure_code]. unfold strm_code. cbn [stream_code filter_api].
  destruct (sub_write_heavy (Exn:=Exn) ssl_fid reading p r bs (strm s) (b_plain _ _ _ _ _ _ Hb)) as (Hk & Eo & q & Hq & Eq & Ei).
  destruct (subreq_write ssl_fid p r bs (strm s)) as [st cs]. cbn [fst snd] in *. subst cs bs.
  apply code_result_one. simpl. exists q. split_and!; [done..|]. by apply books_strm.
Qed.

Lemma wire_code_heavy r q qq s l :
  reqs (strm s) !! r = Some q → r_impl q = None → books [] [] [] (concat (bytes_of <$> bufs q)) s l →
  code_result light sec_holds (reading = true) l (scode_of (Strm (Finalize (FWrite r))) qq s).
Proof.
  intros Hq Hi Hb. cbn [secure_code]. unfold strm_code. cbn [stream_code finalize].
  destruct (write_heavy (Exn:=Exn) ssl_fid reading r q (strm s) Hq Hi) as (Hk & Ht & cs & Eo & Hcs).
  destruct (finalize_write r (strm s)) as [st o]. cbn [fst snd] in *. subst o.
  left. split; [by apply strm_calls_safe|]. apply (books_strm st) in Hb; [|done].
  destruct Hb as [B1 B2 B3 B4 B5 B6]. cbn [fst]. split; try done. simpl.
  destruct Ht as [->| ->]; simpl; [|by rewrite orb_true_r]. rewrite orb_false_r. intros Hr.
  rewrite app_nil_r. by apply B6.
Qed.

(** The code that carries something passes it on. *)
Lemma heavy_code u qq s l : genuine kr (filt s) → heavy u s l → code_result light sec_holds (reading = true) l (scode_of u qq s).
Proof.
  intros Hg Hu. destruct u as [[|a|r|r err|r err|r err|r err|f c|f a|c|r err|e|n| | | | |buf err| |buf n|r st|r|r res|areq err|areq err]|c]; try done.
  - by apply exec_code_heavy.
  - destruct c; try done. destruct Hu as [-> Hb]. cbn [secure_code]. rewrite decide_True by done. simpl.
    destruct (reqs (strm s) !! r) as [q|] eqn:Hq; simpl; [|rewrite Hq; by eapply books_executed].
    unfold strm in Hq |- *. simpl. rewrite Hq. apply code_result_one. simpl. by apply books_handed.
  - destruct a as [c| | |p r|p r|p r bs|r]; try done.
    + destruct c; try done. destruct Hu as [-> Hb]. cbn [secure_code]. unfold strm_code. cbn [stream_code filter_api].
      rewrite (up_call_light ssl_fid reading (FHandleRead buf err) (strm s) (b_plain _ _ _ _ _ _ Hb) I).
      apply code_result_one. simpl. by apply books_strm.
    + destruct Hu as [-> Hb]. by apply sub_code_heavy.
  - destruct c; try done; [|by destruct Hu as (q & Hq & Hi & Hb); eapply wire_code_heavy].
    apply code_result_one. simpl. by apply books_strm.
  - destruct e; try done. by apply read_code_heavy.
  - destruct c as [[]|[]| | | | |]; try done.
    + by apply write_code_heavy.
    + apply code_result_one. simpl. split; [done|]. by rewrite bytes_of_string.
    + destruct Hu as (q & Hq & Hb). simpl. rewrite Hq. apply code_result_one. simpl. split; [done|].
      rewrite <-list_fmap_compose. assert (bytes_of ∘ string_of <$> wbufs q = wbufs q) as ->.
      { rewrite <-(list_fmap_id (wbufs q)) at 2. apply list_fmap_ext. intros i b _. apply bytes_of_string. }
      by destruct Hb.
Qed.

(** The code that carries nothing. *)
Lemma light_code u qq s l : genuine kr (filt s) → light u → books [] [] [] [] s l → code_result light sec_holds (reading = true) l (scode_of u qq s).
Proof.
  intros Hg Hu Hb. destruct u as [c|c].
  - assert ((∀ f d, c ≠ FilterCall f d) → code_result light sec_holds (reading = true) l
      (strm_code user_code no_callbacks virt f_type f_priority filters_error c qq s)) as Hs by by intros Hn; apply strm_code_light.
    destruct c as [| | | | | | |f c| | | | | | | | | | | | | | | | | ]; try by apply Hs.
    assert (f = ssl_fid ∧ ok_fcall c ∧ ∀ r, c ≠ FWrite r) as (-> & Hc & Hw) by by destruct c; destruct Hu.
    cbn [secure_code]. rewrite decide_True by done.
    assert (∀ cs, Forall (safe_call light) cs → code_result light sec_holds (reading = true) l (s, Calls (Exn:=Exn) cs)) as Hl.
    { intros cs Hcs. by left. }
    destruct c; try done; try (by apply Hl; repeat constructor); try by destruct (Hw r).
    + simpl. destruct (subs s !! r); [|done]. apply Hl. by repeat constructor.
    + cbn [note_call]. unfold ssl_method. rewrite (down_call_light ssl_fid reading (FShutdown r) r (strm s)); [|apply Hb|by left].
      left. split; [by repeat constructor|]. simpl. by apply books_strm.
    + cbn [note_call]. unfold ssl_method. rewrite (up_call_light ssl_fid reading (FHandleShutdown err r) (strm s)); [|apply Hb|done].
      left. split; [by repeat constructor|]. simpl. by apply books_strm.
  - destruct Hu as [Hc Hq]. destruct (decide (is_next c)) as [Hn|Hn].
    + destruct c as [|[]| | | | |]; try done; left; (split; [by repeat constructor|done]).
    + assert (scode_of (Ssl c) qq s = filter_code error_exn key_exn c s) as -> by by destruct c.
      by apply filter_code_light.
Qed.

(** What can be read is read. *)
Lemma code_owes_unread u qq s l : genuine kr (filt s) →
  (light u ∧ books [] [] [] [] s l) ∨ heavy u s l → reading = true → code_owes unread reader u s (scode_of u qq s).
Proof.
  intros Hg Hu Hr.
  assert (∀ c, code_owes unread reader (Strm c) s (strm_code user_code no_callbacks virt f_type f_priority filters_error c qq s)) as Hs.
  { intros c. unfold strm_code. destruct (stream_code _ _ _ _ _ _ _ _ _) as [st o]. intros cs _ Hx. left. split; [|by intros []].
    destruct c as [| | | | | | | | |[]| | | | | | | | | | | | | | |]; exact Hx. }
  destruct u as [c|c].
  - destruct c as [| | | | | | |f c| | | | | | | | | | | | | | | | | ]; try by apply Hs.
    cbn [secure_code]. case_decide; [|by apply Hs]. intros cs _ Hx. left. split; [|by intros []].
    destruct c; try exact Hx; simpl in Hx.
    + unfold strm in Hx. destruct (reqs (SslFilter.ext (filt s)) !! r) eqn:E; simpl in Hx; unfold strm in Hx; simpl in Hx; by rewrite E in Hx.
    + by destruct (subs s !! r).
  - destruct (decide (is_next c)) as [Hn|Hn].
    + destruct c as [|[]| | | | |]; try done; simpl; intros cs _ Hx; left; (split; [|by intros []]); simpl in Hx; try done.
      * by destruct r.
      * by destruct (wreqs (filt s) !! w).
    + assert (scode_of (Ssl c) qq s = filter_code error_exn key_exn c s) as -> by by destruct c.
      assert (established_stmt c ∧ ∃ rd pt ex wr, books rd pt ex wr s l) as [Hc (rd & pt & ex & wr & Hb)].
      { destruct Hu as [[[Hc _] Hb]|Hu]; [split; [done|by eexists _, _, _, _]|].
        destruct c as [[]|[]| | | | |]; try done. split; [done|]. by eexists _, _, _, _. }
      destruct (ssl_step_est c s (b_est _ _ _ _ _ _ Hb) Hg Hc) as (_ & _ & Hcs).
      pose proof (ssl_step_calm c s (b_est _ _ _ _ _ _ Hb) Hg Hc) as Ht.
      unfold filter_code. destruct (ssl_step c s) as [f o]. cbn [fst snd] in *. intros cs Eo Hx.
      assert ((view (ssl f) (read_bio f)).2 ≠ []) as Hx' by by destruct c as [[]| | | | | |].
      destruct o as [cs'|e|]; simplify_eq/=. destruct (Hcs cs' eq_refl) as [_ Hv].
      destruct (Hv (plain_wantread _ (b_plain _ _ _ _ _ _ Hb) Hr)) as [E|[[E Hn']|Hex]]; [done| |].
      * left. split; [|done]. unfold unread. by rewrite <-E.
      * right. apply Exists_exists in Hex as (d & Hd & Hrd). exists (Ssl d). split; [|done].
        by apply (list_elem_of_fmap_2 (λ c, inr (Ssl c))).
Qed.

(** What has come to the filter only grows. *)
Lemma scode_received u qq s : received (filt s) `prefix_of` received (filt (scode_of u qq s).1).
Proof using Type.
  assert (∀ c, received (filt s) `prefix_of` received (filt
    (strm_code user_code no_callbacks virt f_type f_priority filters_error c qq s).1)) as Hs.
  { intros c. unfold strm_code. destruct (stream_code _ _ _ _ _ _ _ _ _) as [st o].
    by destruct c as [| | | | | | | | |[]| | | | | | | | | | | | | | |]. }
  destruct u as [c|c].
  - destruct c as [| | | | | | |f c| | | | | | | | | | | | | | | | | ]; try by apply Hs.
    cbn [secure_code]. case_decide; [|by apply Hs].
    assert (filt (note_call c s) = filt s) as <- by (destruct c; try done; simpl; by destruct (reqs (strm s) !! r)).
    generalize (note_call c s). intros s1. unfold ssl_method. destruct c; try done; try (by destruct (base_method _ _ _)).
    + by destruct (reqs (strm s1) !! r).
    + by destruct (subs s1 !! r).
  - assert (received (filt s) `prefix_of` received (filt (filter_code error_exn key_exn c s).1)) as Hf.
    { unfold filter_code. pose proof (sbody_received connecting connected wantread _read_start filter_read_stop (λ _ st, st)
        no_env error_exn key_exn c (filt s)) as Hr. by destruct (SslFilter.sbody _ _ _ _ _ _ _ _ _ c (filt s)). }
    destruct c as [|c| | | | |]; try exact Hf. destruct c; simpl; try done; [by destruct r|].
    by destruct (wreqs (filt s) !! w).
Qed.

(** The stream is a carrier of its books, as long as what comes to it is genuine. *)
Lemma secure_carrier : carrier sclient light sec_holds (reading = true) unread reader (λ s, genuine kr (filt s)).
Proof.
  split; try done.
  - intros r s l [B1 B2 B3 B4 B5 B6]. split; try done. rewrite app_nil_r in B5. by apply sublist_app.
  - intros u qq s l Hg [[Hu Hb]|Hu]; [by apply light_code|by apply heavy_code].
  - intros r s l Hb. apply books_strm; [|exact Hb]. by apply keeps_with_req; intros ? [].
  - intros e s l Hb. apply books_strm; [|exact Hb]. by apply keeps_fields.
  - intros u qq s l Hg Hu Hr. by apply (code_owes_unread u qq s l).
  - intros u qq s. apply genuine_prefix, scode_received.
Qed.

(** The stream has just been connected, its filter has negotiated; the requests of the past
    are gone. *)
Definition secure_initial (w : world sec Exn D) : Prop :=
  queue_initial w ∧ established_initial kw kr (filt (ext w)) ∧ plain ssl_fid reading (strm (ext w)) ∧
  user_reads (elog (strm (ext w))) = [] ∧ handed (ext w) = [] ∧ wire (ext w) = [].

(** The user calls a method of the stream, or something happens in libuv: bytes come, a
    request completes, a timer fires; or the loop calls what waits. *)
Definition event_code (u : secode A EC) : Prop :=
  match u with
  | Strm (Api a) => ok_use reading a
  | Strm (UvRead _ _) | Strm (OnComplete _ _) | Strm (OnTimer _) => True
  | _ => False
  end.
Definition secure_input (w : world sec Exn D) (cs : list (frame (secode A EC) Exn)) (w' : world sec Exn D) : Prop :=
  queue_input w cs w' ∧ ∀ u, cs = [Frame (CCode u)] → w' = w → event_code u.

Lemma secure_inv c :
  reachable (queue_program sclient) secure_initial secure_input c →
  carry_inv light sec_holds (reading = true) unread reader (λ s, genuine kr (filt s)) c.
Proof.
  intros Hc. apply (carry_inv_reachable sclient light sec_holds (reading = true) unread reader _ secure_carrier).
  eapply reachable_mono; [| |exact Hc].
  - intros w (Hq & (H1' & H2' & H3' & H4' & H5' & H6' & H7' & H8' & H9') & Hp & Hr & Hh & Hw).
    assert (est kw kr (filt (ext w))) as He.
    { split; rewrite ?H4', ?H6', ?H7', ?H8', ?H9', ?dec_nil; simpl; by rewrite ?H3'. }
    split; [done|]. split; [|by unfold unread; rewrite H4'; intros []].
    split; try done; [by rewrite H6', Hr|unfold plaintext; by rewrite H7', Hh|by rewrite Hh|by rewrite H9', Hw].
  - intros w cs w' [Hq Hu]. split; [done|]. intros u E1 E2. specialize (Hu u E1 E2).
    destruct u as [c'|c']; [|done]. by destruct c'.
Qed.

(** The books of a stream that is running, and of one that has returned to the loop. *)
Lemma secure_books c :
  reachable (queue_program sclient) secure_initial secure_input c → genuine kr (filt (ext (mem c))) →
  (∃ rd pt ex wr, books rd pt ex wr (ext (mem c)) (executed (qlog (mem c)))) ∧
  (stack c = [] → books [] [] [] [] (ext (mem c)) (executed (qlog (mem c)))) ∧
  (reading = true → stack c = [] → cmode c = Normal → ¬ unread (ext (mem c))).
Proof.
  intros Hc Hg. destruct (secure_inv c Hc Hg) as (_ & Hh & Hcalm). split_and!.
  - destruct Hh as [[_ Hb]|(u & k & _ & _ & _ & Hu)]; [by eexists _, _, _, _|].
    destruct u as [[|a|r|r err|r err|r err|r err|f d|f a|d|r err|e|n| | | | |buf err| |buf n|r st|r|r res|areq err|areq err]|d]; try done.
    + by eexists _, _, _, _.
    + destruct d; try done. destruct Hu as [_ Hu]. by eexists _, _, _, _.
    + destruct a as [d| | |p r|p r|p r bs|r]; try done; [destruct d; try done|]; destruct Hu as [_ Hu]; by eexists _, _, _, _.
    + destruct d; try done; [by eexists _, _, _, _|]. destruct Hu as (q & _ & _ & Hu). by eexists _, _, _, _.
    + destruct e; try done. by eexists _, _, _, _.
    + destruct d as [[]|[]| | | | |]; try done; try (by eexists _, _, _, _). destruct Hu as (q & _ & Hu). by eexists _, _, _, _.
  - intros Hst. destruct Hh as [[_ Hb]|(u & k & E & _)]; [done|congruence].
  - intros Hr Hst Hm Hun. destruct (Hcalm Hr) as (_ & _ & _ & Ho). specialize (Ho Hm Hun). rewrite Hst in Ho. by inversion Ho.
Qed.
End Established.

Lemma concat_nonempty l : concat (nonempty l) = concat l.
Proof.
  induction l as [|[|c b] l IH]; [done| |]; unfold nonempty in *.
  - rewrite filter_cons_False by naive_solver. done.
  - rewrite filter_cons_True by done. simpl. by rewrite IH.
Qed.

(** ** Properties *)

(** C15: Two users who talk over SSL streams understand each other.  Take two streams whose
    connection is established, with their SSL filter as the only filter, and whose filters
    have matching keys.  The user of the first one calls its methods and is called back,
    writes complete in any order, callbacks throw; the second stream reads any part of the
    bytes that libuv took from the first one, cut into pieces anyhow.  Then what the user
    of the second stream has been given to read is a prefix of the buffers of the write
    requests that the first stream executed, in their order, which, without a callback put
    off by the recursion limit and without a failed assertion, is that in which its user
    made them.  This as long as neither user connects again, resets, disconnects or changes
    filters ([user_keeps]), libuv has refused no write of the first stream, and what came
    to the first stream is [genuine] too: of input that its peer did not write OpenSSL
    promises nothing.  It is all of the buffers when everything has arrived and both
    streams have returned to the loop; this only for a second user who never stops reading
    and whose callbacks never throw ([reading]): otherwise [SslFilter::handle_read] may
    leave data unread. *)
Theorem secure_streams_end_to_end {L S B A EC W C Exn K D : Type} `{CipherLaws L K} `{UvStream S B A} `{ErrorStack EC}
    `{DelayLaws D (closure (secode A EC))}
    (user_a user_b : C → uevent EC → stream S B A EC W C Exn → W * (list (sapi A) + Exn)) (no_callbacks : C)
    (virt : fid → fcall EC → stream S B A EC W C Exn → option (W * list (fapi EC)))
    (f_type : fid → nat) (f_priority : fid → Z) (filters_error : Exn) (error_exn : error_code → Exn) (key_exn : Exn)
    (ssl_fid : fid) (reading : bool) (k k1 k2 : K)
    (a b : config (world (secure L S B A EC W C Exn) Exn D) (frame (secode A EC) Exn) Exn) :
  let client u := secure_client u no_callbacks virt f_type f_priority filters_error error_exn key_exn ssl_fid in
  let wa := ext (mem a) in let wb := ext (mem b) in
  user_keeps user_a false → user_keeps user_b reading → sound k → genuine k1 (filt wa) →
  reachable (queue_program (client user_a)) (secure_initial ssl_fid false k k1) (secure_input false) a →
  reachable (queue_program (client user_b)) (secure_initial ssl_fid reading k2 k) (secure_input reading) b →
  refused wa = false → received (filt wb) `prefix_of` wire wa →
  user_reads (elog (strm wb)) `prefix_of` concat (concat (handed wa).*2) ∧
  (cmode a ≠ Aborted → split_free (qlog (mem a)) → (handed wa).*1 `sublist_of` pushed (qlog (mem a))) ∧
  (reading = true → stack a = [] → stack b = [] → cmode b = Normal → received (filt wb) = wire wa →
   user_reads (elog (strm wb)) = concat (concat (handed wa).*2)).
Proof.
  intros client wa wb Hua Hub Hk Hga Ha Hb Href Hpre.
  destruct (secure_books user_a no_callbacks virt f_type f_priority filters_error error_exn key_exn ssl_fid false k k1
    Hua a Ha Hga) as ((rda & pta & exa & wra & Ba) & Bas & _). fold wa in Ba, Bas.
  pose proof (est_sent _ _ _ (b_est _ _ _ _ _ _ _ _ _ _ Ba)) as Hsent.
  assert (genuine k (filt wb)) as Hgb.
  { apply (prefix_sound k (written (filt wa))); [done|]. rewrite Hsent. etrans; [exact Hpre|].
    rewrite (b_wire _ _ _ _ _ _ _ _ _ _ Ba Href). by apply prefix_app_r. }
  destruct Hpre as [rest Hrest].
  destruct (secure_books user_b no_callbacks virt f_type f_priority filters_error error_exn key_exn ssl_fid reading k2 k
    Hub b Hb Hgb) as ((rdb & ptb & exb & wrb & Bb) & Bbs & Hun).
  fold wb in Bb, Bbs, Hun.
  pose proof (dec_enc_list k (written (filt wa))) as Hdec. rewrite Hsent in Hdec.
  simpl in Hdec. pose proof (est_read _ _ _ (b_est _ _ _ _ _ _ _ _ _ _ Bb)) as Hread.
  assert (concat (plaintext wa) = concat (concat (handed wa).*2)) as Hp by apply concat_nonempty. rewrite <-Hp. split_and!.
  - rewrite (b_wire _ _ _ _ _ _ _ _ _ _ Ba Href), Hrest, !dec_app in Hdec. simpl in Hdec. injection Hdec as _ Hdec.
    rewrite (b_written _ _ _ _ _ _ _ _ _ _ Ba), concat_app, <-Hdec, <-Hread, (b_reads _ _ _ _ _ _ _ _ _ _ Bb), <-!app_assoc.
    by apply prefix_app_r.
  - intros Hm Hsplit.
    assert (reachable (queue_program (client user_a)) queue_initial queue_input a) as Hq.
    { eapply reachable_mono; [| |exact Ha]; [by intros w []|by intros w cs w' []]. }
    destruct (fifo_inv_reachable _ a Hq Hm Hsplit) as (bb & (Hs & _) & _). apply serve_executed in Hs. simpl in Hs.
    etrans; [|exact Hs]. etrans; [|exact (b_handed _ _ _ _ _ _ _ _ _ _ Ba)]. by apply sublist_inserts_r.
  - intros Hr Hsa Hsb Hm Hall. specialize (Bas Hsa). specialize (Bbs Hsb). specialize (Hun Hr Hsb Hm).
    rewrite (b_wire _ _ _ _ _ _ _ _ _ _ Bas Href), app_nil_r, <-Hall in Hdec.
    rewrite (b_reads _ _ _ _ _ _ _ _ _ _ Bbs), app_nil_r in Hread.
    assert ((view (ssl (filt wb)) (read_bio (filt wb))).2 = []) as E.
    { destruct (view (ssl (filt wb)) (read_bio (filt wb))).2 eqn:E; [done|]. destruct Hun. unfold unread. by rewrite E. }
    rewrite (b_written _ _ _ _ _ _ _ _ _ _ Bas). change (nonempty []) with (@nil bytes).
    rewrite E, app_nil_r, Hdec in Hread. by rewrite app_nil_r.
Qed.

(** ** Witnesses *)

(** The toy OpenSSL of [SslFilter], the toy libuv of [Stream]. *)
#[local] Existing Instance SslFilter.ex_openssl.
#[local] Existing Instance SslFilter.ex_cipher.
#[local] Existing Instance SslFilter.ex_cipher_laws.

(** Users who write in their callbacks: a table of what they write. *)
Abbreviation ex_table := (uevent ex_ec → list (rid * list string)).
Abbreviation ex_inner := (stream ex_uv nat nat ex_ec unit ex_table nat).
Definition ex_user (c : ex_table) (e : uevent ex_ec) (s : ex_inner) : unit * (list (sapi nat) + nat) :=
  (tt, inl ((λ x, Write x.1 x.2) <$> c e)).
Definition ex_secure : Type := secure ex_ssl ex_uv nat nat ex_ec unit ex_table nat.
Definition ex_client : client ex_secure (secode nat ex_ec) ex_ec nat :=
  secure_client ex_user (λ _, []) (λ _ _ _, None) (λ f, f) Z.of_nat 0%nat (λ _, 1%nat) 2%nat 9%nat.
Abbreviation ex_world := (world ex_secure nat (Delayer.Delayer (closure (secode nat ex_ec)) unit)).

(** A stream that is connected through its filter. *)
Definition ex_stream0 (c : ex_table) : ex_inner :=
  with_filters [9%nat] (with_flags (λ _, 92) (new_stream ex_uv0 c tt)).
Definition ex_world0 (c : ex_table) : ex_world :=
  mkWorld new_queue ∅ ∅ Delayer.new_delayer []
    (mkSecure (mkSsl (mkExSsl 2 0 0) [] [] None terminal CLIENT None ∅ 0 (ex_stream0 c) [] [] [] []) ∅ [] [] false) [].

(** The loop runs these pieces of code one after the other, each to its end. *)
Fixpoint ex_drive (l : list (scode nat ex_ec)) (c : config ex_world (frame (secode nat ex_ec) nat) nat) :=
  match l with
  | [] => c
  | u :: l =>
      match c with
      | Config [] w Normal => ex_drive l (Machine.run (queue_program ex_client) 300 (Config [Frame (CCode (Strm u))] w Normal))
      | c => c
      end
  end.

Lemma secure_drive_reachable reading l : ∀ c,
  Forall (λ u, event_code reading (Strm (EC:=ex_ec) u)) l →
  reachable (queue_program ex_client) (secure_initial 9%nat reading 0%nat 0%nat) (secure_input reading) c →
  reachable (queue_program ex_client) (secure_initial 9%nat reading 0%nat 0%nat) (secure_input reading) (ex_drive l c).
Proof.
  induction l as [|u l IH]; intros c Hl Hc; cbn [ex_drive]; [exact Hc|]. apply Forall_cons in Hl as [Hu Hl].
  destruct c as [[|] w [| |]]; try exact Hc. apply IH; [exact Hl|].
  eapply reachable_steps; [|apply run_steps]. eapply reach_input; [exact Hc|done|]. split; [right; by exists (Strm u)|].
  by intros v [= <-] _.
Qed.

Lemma ex_world0_initial reading c : secure_initial 9%nat reading 0%nat 0%nat (ex_world0 c).
Proof.
  split; [eexists _, _; split; [|done]; intros p; apply not_elem_of_nil|].
  by split_and!.
Qed.

Lemma ex_user_keeps reading : user_keeps ex_user reading.
Proof. intros c e s. simpl. by apply Forall_fmap, Forall_true. Qed.

(** One user writes, and again when his first write is over; the other reads, and writes
    as soon as something has come. *)
Definition ex_writes (e : uevent ex_ec) : list (rid * list string) :=
  match e with OnWrite _ 10%nat => [(20%nat, ["d"]%string)] | _ => [] end.
Definition ex_replies (e : uevent ex_ec) : list (rid * list string) :=
  match e with OnRead "ab"%string _ => [(30%nat, ["ok"]%string)] | _ => [] end.
Definition ex_a := ex_drive [Api (Write 10 ["ab"; ""; "c"]%string); OnComplete 11 None] (Config [] (ex_world0 ex_writes) Normal).
Definition ex_b := ex_drive [UvRead "ac"%string (inl 2%nat); UvRead "ce"%string (inl 2%nat)] (Config [] (ex_world0 ex_replies) Normal).

Lemma secure_streams_end_to_end_witness :
  user_reads (elog (strm (ext (mem ex_b)))) = bytes_of "abcd"%string ∧
  user_reads (elog (strm (ext (mem ex_b)))) `prefix_of` concat (concat (handed (ext (mem ex_a))).*2) ∧
  (cmode ex_a ≠ Aborted → split_free (qlog (mem ex_a)) → (handed (ext (mem ex_a))).*1 `sublist_of` pushed (qlog (mem ex_a))) ∧
  (true = true → stack ex_a = [] → stack ex_b = [] → cmode ex_b = Normal →
   received (filt (ext (mem ex_b))) = wire (ext (mem ex_a)) →
   user_reads (elog (strm (ext (mem ex_b)))) = concat (concat (handed (ext (mem ex_a))).*2)).
Proof.
  split; [by vm_compute|].
  apply (secure_streams_end_to_end ex_user ex_user (λ _, []) (λ _ _ _, None) (λ f, f) Z.of_nat 0%nat (λ _, 1%nat) 2%nat 9%nat
    true 0%nat 0%nat 0%nat ex_a ex_b).
  - apply ex_user_keeps.
  - apply ex_user_keeps.
  - done.
  - done.
  - apply secure_drive_reachable; [by repeat constructor|]. apply reach_init, ex_world0_initial.
  - apply secure_drive_reachable; [by repeat constructor|]. apply reach_init, ex_world0_initial.
  - by vm_compute.
  - exists []. by vm_compute.
Defined.

(** A client connects: when its TCP connection is made the filter negotiates, and the user
    hears of it when the last message of the negotiation is written; what he writes then is
    encrypted. *)
Example secure_client_connects :
  let w := mkWorld new_queue ∅ ∅ Delayer.new_delayer []
    (mkSecure (mkSsl (mkExSsl 0 0 0) [] [] None initial UNKNOWN None ∅ 0 (with_filters [9%nat] (new_stream ex_uv0 (λ _, []) tt))
      [] [] [] []) ∅ [] [] false) [] in
  let c1 := ex_drive [Api (TcpConnect 1 (Some 7%nat) nowhere true 0); OnComplete 1 None] (Config [] w Normal) in
  let c2 := ex_drive [OnComplete 2 None; UvRead "S"%string (inl 1%nat)] c1 in
  let c3 := ex_drive [OnComplete 3 None; Api (Write 10 ["ab"]%string)] c2 in
  (stack c3 = [] ∧ cmode c3 = Normal ∧ wire (ext (mem c1)) = bytes_of "H"%string) ∧
  (elog (strm (ext (mem c2))) = [OnEstablish [] 1%nat] ∧ wire (ext (mem c2)) = bytes_of "HF"%string) ∧
  elog (strm (ext (mem c3))) = [OnEstablish [] 1%nat; ReqEvent 1%nat []; OnConnect [] 1%nat] ∧
  wire (ext (mem c3)) = bytes_of "HFac"%string.
Proof. by vm_compute. Qed.

(** ** Making and removing the filter *)

Section UseSsl.
Context {L S B A EC W C Exn Ctx : Type} `{UvStream S B A}.
Context (f_type : fid → nat) (f_priority : fid → Z) (filters_error : Exn) (error_exn : error_code → Exn) (key_exn : Exn).
Context (ssl_fid : fid) (ctx_new : Ctx → option L) (ctx_errors : list Z) (check_key : Ctx → bool).
Implicit Types s : secure L S B A EC W C Exn.
Abbreviation use ctx s := (use_ssl f_type f_priority filters_error error_exn key_exn ssl_fid ctx_new ctx_errors check_key ctx s).
Abbreviation unuse s := (no_ssl f_type filters_error ssl_fid s).

Lemma remove_insert_filter l : ssl_fid ∉ l → remove_filter ssl_fid (insert_filter f_priority ssl_fid l) = l.
Proof.
  clear f_type. unfold remove_filter. intros Hn. assert (∀ l' : list fid, ssl_fid ∉ l' → (filter (λ g, g ≠ ssl_fid) l' : list fid) = l') as Hl.
  { induction l' as [|g l' IH]; [done|]. intros [Hg Hl']%not_elem_of_cons. rewrite filter_cons_True by done. by rewrite IH. }
  induction l as [|g l IH]; cbn [insert_filter]; [by rewrite filter_cons_False by naive_solver|].
  pose proof Hn as [Hg Hn']%not_elem_of_cons. case_decide.
  - rewrite filter_cons_False by naive_solver. by apply Hl.
  - rewrite filter_cons_True by done. by rewrite IH.
Qed.

(** [use_ssl] gives a stream without an SSL filter one with a new object, unless it is
    connecting or connected, or it listens without a key; [no_ssl] takes it away again. *)
Theorem use_ssl_then_no_ssl ctx s :
  is_secure f_type (f_type ssl_fid) (_filters (strm s)) = false →
  match use ctx s with
  | (s1, None) =>
      is_secure f_type (f_type ssl_fid) (_filters (strm s1)) = true ∧ get_ssl f_type ssl_fid s1 = ctx_new ctx ∧
      match unuse s1 with
      | (s2, None) => _filters (strm s2) = _filters (strm s) ∧ get_ssl f_type ssl_fid s2 = None
      | (_, Some _) => False
      end
  | (s1, Some e) =>
      s1 = s ∧ (e = key_exn ∨ e = ssl_exn error_exn ctx_errors ∨
                e = filters_error ∧ (connecting (strm s) || established (strm s)) = true)
  end.
Proof.
  intros Hsec. unfold is_secure in Hsec. apply bool_decide_eq_false in Hsec.
  assert (get_filter f_type (f_type ssl_fid) (_filters (strm s)) = None) as Hg.
  { destruct (get_filter _ _ _) eqn:E; [|done]. by destruct Hsec. }
  pose proof (proj1 (get_filter_None f_type (f_type ssl_fid) (_filters (strm s))) Hg) as Hn.
  unfold use_ssl, new_ssl_filter. destruct (listening (strm s) && negb (check_key ctx)); [split; [done|by left]|].
  destruct (ctx_new ctx) as [o|]; [|split; [done|by right; left]].
  unfold change_filters, check_change_filters. simpl orb. destruct (connecting (strm s) || established (strm s)) eqn:E.
  { simpl. split; [done|]. right. by right. }
  cbn [negb]. unfold add_filter. rewrite (proj2 (replace_filter_None f_type ssl_fid _) Hn).
  set (st := with_filters _ (strm s)). set (s1 := with_strm st _).
  assert (_filters (strm s1) = insert_filter f_priority ssl_fid (_filters (strm s))) as Hf by done.
  assert (get_filter f_type (f_type ssl_fid) (_filters (strm s1)) = Some ssl_fid) as Hg1.
  { rewrite Hf, (insert_filter_get f_type f_priority) by done. by rewrite decide_True. }
  split_and!; [by unfold is_secure; rewrite Hg1|unfold get_ssl; by rewrite Hg1|].
  unfold no_ssl. rewrite Hg1. unfold change_filters, check_change_filters.
  change (connecting (strm s1)) with (connecting (strm s)). change (established (strm s1)) with (established (strm s)).
  rewrite E. cbn [orb negb]. set (s2 := with_strm _ s1).
  assert (_filters (strm s2) = _filters (strm s)) as Hf2.
  { change (_filters (strm s2)) with (remove_filter ssl_fid (_filters (strm s1))). rewrite Hf. apply remove_insert_filter.
    intros Hin. by apply (Hn ssl_fid Hin). }
  split; [done|]. unfold get_ssl. by rewrite Hf2, Hg.
Qed.
End UseSsl.

(** ** What the code does not do *)

(** An OpenSSL that writes nothing, as after a fatal alert. *)
#[local] Definition ex_broken : Openssl ex_ssl := {|
  SSL_new := SSL_new; SSL_set_connect_state := SSL_set_connect_state; SSL_set_accept_state := SSL_set_accept_state;
  SSL_do_handshake := SSL_do_handshake; SSL_read := SSL_read; SSL_get_error := SSL_get_error;
  SSL_is_init_finished := SSL_is_init_finished; SSL_renegotiate_pending := SSL_renegotiate_pending;
  SSL_check_private_key := SSL_check_private_key; ssl_errors := ssl_errors;
  SSL_write _ l b := mkRes l b [] (-1) []
|}.
#[local] Definition ex_broken_client : client ex_secure (secode nat ex_ec) ex_ec nat :=
  secure_client (H := ex_broken) ex_user (λ _, []) (λ _ _ _, None) (λ f, f) Z.of_nat 0%nat (λ _, 1%nat) 2%nat 9%nat.

(** When OpenSSL refuses to write, the request waits for the loop to be told; the filter
    has made no sub-request for it.  If the stream is reset before that, the request is
    cancelled and comes back to the filter, which takes it for one of its own. *)
Theorem failed_write_then_reset_aborts :
  let run u w := Machine.run (queue_program ex_broken_client) 100 (Config [Frame (CCode (Strm u))] w Normal) in
  let c1 := run (Api (Write 10 ["ab"]%string)) (ex_world0 (λ _, [])) in
  let c2 := run (Api ResetStream) (mem c1) in
  stack c1 = [] ∧ cmode c1 = Normal ∧ requests (q (mem c1)) = [10%nat] ∧ cmode c2 = Aborted.
Proof. by vm_compute. Qed.
