(* ===== verification/StreamerStream.v ===== *)
(** Streams as the input and the output of a streamer: [streamer/Stream.h],
    [streamer/Stream.cc], run by the machine of [Streamer].

    Of the streams only what the two classes use is here, the events, the listener,
    the wish to read and the requests to write.  That these are told of in the order
    they were made, and never from within [write()], is what [Queue] shows of the
    request queue of a stream. The user may write to the streams at any time. *)
From S2P Require Import Prelude Machine Errors Streamer.
From Stdlib Require Import Ascii.
#[local] Open Scope Z_scope.

(** ** Data *)

(** The objects that are listeners of streams: the streamer's, or the user's. *)
Inductive listener := LInput | LOutput | LUser (n : nat).

(** A stream. [read_result]: what [_read_start()] returns now; [pending]: the
    requests to write, with their data; [untold]: those done whose callbacks were
    not called yet; [sent]: those that succeeded, a ghost. *)
Record strm (EC : Type) := mkStrm {
  event_listener : option listener;
  wantread : bool;
  read_result : EC;
  pending : list (nat * bytes);
  untold : list (nat * bytes * EC);
  sent : list (nat * bytes)
}.
Arguments mkStrm {EC}.
Arguments event_listener {EC}. Arguments wantread {EC}. Arguments read_result {EC}.
Arguments pending {EC}. Arguments untold {EC}. Arguments sent {EC}.

(** [StreamInput], [StreamOutput]; objects are named by numbers. *)
Record stream_input := mkInput { si_stream : nat; si_prev_lst : option listener; prev_wantread : bool }.
Record stream_output := mkOutput {
  so_stream : nat; so_prev_lst : option listener; first_wreq : option nat; handle_write_started : bool
}.

(** The two objects and the streams; [next_rid]: the name of the next request of a
    stream; [given]: the data that the streamer was told of, and [eof_told]: that it was
    told of the end, ghosts; [finishes]: the calls of [finish_event]; [foreign]: whether
    the user wrote to the output, a ghost. *)
Record ends (EC : Type) := mkEnds {
  sin : stream_input;
  sout : stream_output;
  strms : nat → strm EC;
  next_rid : nat → nat;
  given : list bytes;
  eof_told : bool;
  finishes : list EC;
  foreign : bool
}.
Arguments mkEnds {EC}.
Arguments sin {EC}. Arguments sout {EC}. Arguments strms {EC}. Arguments next_rid {EC}.
Arguments given {EC}. Arguments eof_told {EC}. Arguments finishes {EC}. Arguments foreign {EC}.

(** The methods of the two classes; the calls of [l->on_xxx] for a listener [l]. *)
Inductive ecode (EC : Type) :=
| SiStart | SiStop | SiStartReading | SiStopReading
| SoStart | SoStop | SoWrite (data : bytes)
| OnRead (l : listener) (data : bytes) (err : EC)
| OnEof (l : listener)
| OnWrite (l : listener) (err : EC) (wreq : nat)
| Finished (err : EC).
Arguments SiStart {EC}. Arguments SiStop {EC}. Arguments SiStartReading {EC}. Arguments SiStopReading {EC}.
Arguments SoStart {EC}. Arguments SoStop {EC}. Arguments SoWrite {EC}. Arguments OnRead {EC}.
Arguments OnEof {EC}. Arguments OnWrite {EC}. Arguments Finished {EC}.

(** ** The code *)

Section Ends.
Context {EC : Type} `{ErrorStack EC}.
(** [Stream::write_queue_size()] *)
Context (write_queue_size : strm EC → Z).
Implicit Types (s : strm EC) (x : ends EC).

Definition on_strm (i : nat) (f : strm EC → strm EC) x : ends EC :=
  mkEnds (sin x) (sout x) (λ j, if decide (j = i) then f (strms x i) else strms x j) (next_rid x)
    (given x) (eof_told x) (finishes x) (foreign x).
Definition with_sin (i : stream_input) x : ends EC :=
  mkEnds i (sout x) (strms x) (next_rid x) (given x) (eof_told x) (finishes x) (foreign x).
Definition with_sout (o : stream_output) x : ends EC :=
  mkEnds (sin x) o (strms x) (next_rid x) (given x) (eof_told x) (finishes x) (foreign x).
Definition give (l : list bytes) (e : bool) x : ends EC :=
  mkEnds (sin x) (sout x) (strms x) (next_rid x) (given x ++ l) (eof_told x || e) (finishes x) (foreign x).
Definition note_finish (e : EC) x : ends EC :=
  mkEnds (sin x) (sout x) (strms x) (next_rid x) (given x) (eof_told x) (finishes x ++ [e]) (foreign x).

Definition set_listener (l : option listener) s : strm EC :=
  mkStrm l (wantread s) (read_result s) (pending s) (untold s) (sent s).
Definition set_wantread (b : bool) s : strm EC :=
  mkStrm (event_listener s) b (read_result s) (pending s) (untold s) (sent s).
Definition set_result (e : EC) s : strm EC :=
  mkStrm (event_listener s) (wantread s) e (pending s) (untold s) (sent s).
Definition add_pending (r : nat) (data : bytes) s : strm EC :=
  mkStrm (event_listener s) (wantread s) (read_result s) (pending s ++ [(r, data)]) (untold s) (sent s).

(** [Stream::read_start], [read_stop], [write(data)] *)
Definition read_start (i : nat) x : ends EC * EC := (on_strm i (set_wantread true) x, read_result (strms x i)).
Definition read_stop (i : nat) x : ends EC := on_strm i (set_wantread false) x.
Definition stream_write (i : nat) (data : bytes) x : ends EC * nat :=
  let r := next_rid x i in
  let x := on_strm i (add_pending r data) x in
  (mkEnds (sin x) (sout x) (strms x) (λ j, if decide (j = i) then S r else next_rid x j)
     (given x) (eof_told x) (finishes x) (foreign x), r).

(** [StreamInput] *)
Definition si_start x : ends EC * EC :=
  let i := si_stream (sin x) in
  let x := with_sin (mkInput i (event_listener (strms x i)) (wantread (strms x i))) x in
  let (x, res) := read_start i x in
  if ec_bool res then (x, res) else (on_strm i (set_listener (Some LInput)) x, ec_ok).
Definition si_stop x : ends EC :=
  let i := si_stream (sin x) in
  let x := if prev_wantread (sin x) then (read_start i x).1 else read_stop i x in
  on_strm i (set_listener (si_prev_lst (sin x))) x.
Definition si_start_reading x : ends EC * EC :=
  let (x, res) := read_start (si_stream (sin x)) x in (x, if ec_bool res then res else ec_ok).
Definition si_stop_reading x : ends EC := read_stop (si_stream (sin x)) x.

(** [StreamOutput] *)
Definition so_start x : ends EC * EC :=
  let o := sout x in let i := so_stream o in
  let x := with_sout (mkOutput i (event_listener (strms x i)) (first_wreq o) (handle_write_started o)) x in
  (on_strm i (set_listener (Some LOutput)) x, ec_ok).
Definition so_write (data : bytes) x : ends EC * EC :=
  let o := sout x in
  let (x, wreq) := stream_write (so_stream o) data x in
  (match first_wreq o with
   | Some _ => x
   | None => with_sout (mkOutput (so_stream o) (so_prev_lst o) (Some wreq) (handle_write_started o)) x
   end, ec_ok).
Definition so_on_write (err : EC) (wreq : nat) x : ends EC * list (sapi EC + ecode EC) :=
  let o := sout x in
  if handle_write_started o then (x, [inl (HandleWrite err)]) else
  if decide (Some wreq = first_wreq o) then
    (with_sout (mkOutput (so_stream o) (so_prev_lst o) (first_wreq o) true) x, [inl (HandleWrite err)])
  else (x, []).
Definition so_stop x : ends EC :=
  let o := sout x in
  let x := on_strm (so_stream o) (set_listener (so_prev_lst o)) x in
  with_sout (mkOutput (so_stream o) (so_prev_lst o) None false) x.

(** The methods that a listener does not override do nothing; the user's do
    nothing with the streamer. *)
Definition ends_code (c : ecode EC) x : ends EC * outcome (sapi EC + ecode EC) EC :=
  let ret (p : ends EC * EC) := (p.1, Calls [inl (Return p.2)]) in
  match c with
  | SiStart => ret (si_start x)
  | SiStop => (si_stop x, Calls [])
  | SiStartReading => ret (si_start_reading x)
  | SiStopReading => (si_stop_reading x, Calls [])
  | SoStart => ret (so_start x)
  | SoStop => (so_stop x, Calls [])
  | SoWrite data => ret (so_write data x)
  | OnRead LInput data err => (give (if ec_bool err then [] else [data]) false x, Calls [inl (HandleRead data err)])
  | OnEof LInput => (give [] true x, Calls [inl HandleEof])
  | OnWrite LOutput err r => let (x, cs) := so_on_write err r x in (x, Calls cs)
  | OnRead _ _ _ | OnEof _ | OnWrite _ _ _ => (x, Calls [])
  | Finished e => (note_finish e x, Calls [])
  end.

Definition ends_endpoints : endpoints (ends EC) (ecode EC) EC := {|
  in_start := SiStart; in_stop := SiStop; in_start_reading := SiStartReading;
  in_stop_reading := SiStopReading; out_start := SoStart; out_stop := SoStop;
  out_write := SoWrite;
  out_write_queue_size x := write_queue_size (strms x (so_stream (sout x)));
  on_finish := Finished; e_code := ends_code
|}.

(** *** What the streams do *)

(** The first request to write is done; its callbacks are called. *)
Definition write_done (e : EC) s : strm EC :=
  match pending s with
  | p :: l => mkStrm (event_listener s) (wantread s) (read_result s) l (untold s ++ [(p, e)])
                (if ec_bool e then sent s else sent s ++ [p])
  | [] => s
  end.
Definition write_told s : strm EC :=
  mkStrm (event_listener s) (wantread s) (read_result s) (pending s) (tail (untold s)) (sent s).

(** The user writes to a stream. *)
Definition user_write (i : nat) (data : bytes) x : ends EC :=
  let x := (stream_write i data x).1 in
  mkEnds (sin x) (sout x) (strms x) (next_rid x) (given x) (eof_told x) (finishes x)
    (foreign x || bool_decide (i = so_stream (sout x))).

Abbreviation sworld := (world (ends EC) EC).
Abbreviation call := (scall (ecode EC) EC).

Definition with_ends (x : ends EC) (w : sworld) : sworld := mkWorld (st w) (retv w) x.
Definition to_listener (f : listener → ecode EC) s : list call :=
  match event_listener s with Some l => [CCode (f l)] | None => [] end.

(** Data, the end or an error comes in; a request is done, and told of; [read_start()]
    would answer otherwise; the user stops the streamer, or writes to a stream, also to
    the two of the streamer. The streamer is told of data
    less than [2^64] times. *)
Inductive ends_input : sworld → list call → sworld → Prop :=
| in_read w i data e : Z.of_nat (length (given (ext w))) < 2 ^ 64 - 1 →
    ends_input w (to_listener (λ l, OnRead l data e) (strms (ext w) i)) w
| in_eof w i : ends_input w (to_listener OnEof (strms (ext w) i)) w
| in_done w i e : ends_input w [] (with_ends (on_strm i (write_done e) (ext w)) w)
| in_told w i r d e l : untold (strms (ext w) i) = (r, d, e) :: l →
    ends_input w (to_listener (λ l, OnWrite l e r) (strms (ext w) i)) (with_ends (on_strm i write_told (ext w)) w)
| in_result w i e : ends_input w [] (with_ends (on_strm i (set_result e) (ext w)) w)
| in_stop w : ends_input w [CApi Stop] w
| in_user w i data : ends_input w [] (with_ends (user_write i data (ext w)) w).
End Ends.

(** ** A streamer between two streams *)

Section Copy.
#[local] Set Default Proof Using "Type*".
Context {EC : Type} `{ErrorStack EC}.
(** The size of a queue without requests is zero. *)
Context (write_queue_size : strm EC → Z) (wqs_empty : ∀ s, pending s = [] → write_queue_size s = 0).
Abbreviation prog := (streamer_program (ends_endpoints write_queue_size)).
Abbreviation sworld := (world (ends EC) EC).
Abbreviation conf cs w := (Config (cs : list (scall (ecode EC) EC)) (w : sworld) Normal).
(** The streams, and their listeners and wish before the streamer was started. *)
Context (x0 : ends EC).
Abbreviation i := (si_stream (sin x0)).
Abbreviation o := (so_stream (sout x0)).
Abbreviation n0 := (next_rid x0 o).
Context (distinct : i ≠ o).
Implicit Types (w : sworld) (x : ends EC) (N : list bytes) (U W : list (nat * bytes)).

(** The streamer's own requests are those made since it was started. *)
Definition own (p : nat * bytes) : option bytes := if decide (n0 ≤ p.1)%nat then Some p.2 else None.
Definition own_ok (q : nat * bytes * EC) : option bytes := if ec_bool q.2 then None else own q.1.

(** The requests of the output that it was not told of. *)
Definition waiting x : list (nat * bytes) := (untold (strms x o)).*1 ++ pending (strms x o).

(** The state of the two objects between [start()] and [stop()]. *)
Record attached x : Prop := {
  a_in : sin x = mkInput i (event_listener (strms x0 i)) (wantread (strms x0 i));
  a_out : so_stream (sout x) = o ∧ so_prev_lst (sout x) = event_listener (strms x0 o);
  a_lin : event_listener (strms x i) = Some LInput;
  a_lout : event_listener (strms x o) = Some LOutput;
  a_others j : j ≠ i → j ≠ o → event_listener (strms x j) = event_listener (strms x0 j)
}.

(** The requests: the output was told of the own ones with the data [N], [U] are the
    user's and [W] the own that it was not told of. *)
Record requests N U W x : Prop := {
  q_waiting : waiting x = U ++ W;
  q_user : Forall (λ p, p.1 < n0)%nat U;
  q_ids : W.*1 = seq (n0 + length N) (length W);
  q_next : next_rid x o = (n0 + length N + length W)%nat;
  q_data : given x = N ++ W.*2;
  q_sent : omap own (sent (strms x o)) = N ++ omap own_ok (untold (strms x o));
  q_first : first_wreq (sout x) = match given x with [] => None | _ => Some n0 end;
  q_counting : if handle_write_started (sout x) then U = [] else N = []
}.

Record counts N (w : sworld) : Prop := {
  c_started : started (st w) = true;
  c_thr : 0 ≤ thr_buf (st w);
  c_small : Z.of_nat (length (given (ext w))) < 2 ^ 64;
  c_nread : nread (st w) = Z.of_nat (length (given (ext w)));
  c_nwrite : nwrite (st w) = Z.of_nat (length N);
  c_eof : eof (st w) = true → eof_told (ext w) = true;
  c_fin : finishes (ext w) = [];
  c_want : wantread (strms (ext w) i) = inread (st w)
}.

(** Between two turns of the loop the streamer waits for data, or for a request of
    its own. *)
Record working (w : sworld) : Prop := {
  k_attached : attached (ext w);
  k_rest : ∃ N U W, requests N U W (ext w) ∧ counts N w ∧
    (W = [] → inread (st w) = true ∧ eof (st w) = false)
}.

(** The work has ended with one report, and the streams are as they were; a success
    means that the end was seen and everything was sent, in order, unless the user
    wrote to the output meanwhile. *)
Record ended (w : sworld) : Prop := {
  e_started : started (st w) = false;
  e_lin : event_listener (strms (ext w) i) = event_listener (strms x0 i);
  e_lout : event_listener (strms (ext w) o) = event_listener (strms x0 o);
  e_want : wantread (strms (ext w) i) = wantread (strms x0 i);
  e_one : ∃ e, finishes (ext w) = [e] ∧
    (foreign (ext w) = false → ec_bool e = false →
       eof_told (ext w) = true ∧ omap own (sent (strms (ext w) o)) = given (ext w))
}.

Lemma ec_ok_false : ec_bool (EC:=EC) ec_ok = false.
Proof using Type. unfold ec_bool. by rewrite ec_codes_ok. Qed.

Lemma nest_bool e c : ec_bool (EC:=EC) (nest_error c e) = ec_bool e.
Proof using Type. apply ec_bool_nest. Qed.

(** [finish]: the seven steps of it. *)
Lemma finish_runs e w k : started (st w) = true →
  steps prog (conf (Finish e :: k) w)
    (conf k (mkWorld (reset (st w)) (retv w) (note_finish e (so_stop (si_stop (ext w)))))).
Proof using Type.
  intros Hs. eapply steps_cons; [unfold step; simpl; rewrite Hs; reflexivity|]. simpl.
  do 5 (eapply steps_cons; [reflexivity|]; simpl). apply steps_refl.
Qed.

Lemma finish_ended e w : attached (ext w) → finishes (ext w) = [] →
  (foreign (ext w) = false → ec_bool e = false → eof_told (ext w) = true ∧ omap own (sent (strms (ext w) o)) = given (ext w)) →
  ended (mkWorld (reset (st w)) (retv w) (note_finish e (so_stop (si_stop (ext w))))).
Proof.
  intros [Hin [Hso Hsp] Hl1 Hl2 _] Hf He. unfold so_stop, si_stop. rewrite Hin. simpl.
  split; simpl; [done|..].
  all: destruct (wantread (strms x0 i)) eqn:Hw; simpl; rewrite ?Hso, ?Hsp, ?Hin.
  all: repeat (rewrite ?(decide_True (P:=i = i)), ?(decide_True (P:=o = o)) by done;
         rewrite ?(decide_False (P:=i = o)), ?(decide_False (P:=o = i)) by done; simpl); try done.
  all: exists e; rewrite Hf; split; [done|]; intros Hg Hb; by apply He.
Qed.

Definition turned w : Prop := working w ∨ ended w.

(** The ways a turn ends. *)
Lemma finish_turned e w k : attached (ext w) → finishes (ext w) = [] →
  started (st w) = true →
  (foreign (ext w) = false → ec_bool e = false → eof_told (ext w) = true ∧ omap own (sent (strms (ext w) o)) = given (ext w)) →
  ∃ w', steps prog (conf (Finish e :: k) w) (conf k w') ∧ ended w'.
Proof. intros. eexists. split; [by apply finish_runs|]. by eapply finish_ended. Qed.

Lemma finish_error e w k : attached (ext w) → finishes (ext w) = [] →
  started (st w) = true → ec_bool e = true →
  ∃ w', steps prog (conf (Finish e :: k) w) (conf k w') ∧ ended w'.
Proof. intros. eapply finish_turned; try done. congruence. Qed.

(** *** Reading *)

Lemma requests_give N U W x e : requests N U W x → requests N U W (give [] e x).
Proof using Type. intros []. split; try done. simpl. by rewrite app_nil_r. all: simpl; by rewrite ?app_nil_r. Qed.
Lemma attached_give l e x : attached x → attached (give l e x).
Proof using Type. by intros []. Qed.

(** The chunk is given to the output. *)
Lemma attached_write data x : attached x → attached (so_write data x).1.
Proof.
  intros [A1 [Ao Ap] L1 L2 L3]. unfold so_write, stream_write. simpl.
  assert (∀ x', sin x' = sin x → so_stream (sout x') = o → so_prev_lst (sout x') = event_listener (strms x0 o) →
    strms x' = strms (on_strm o (add_pending (next_rid x o) data) x) → attached x') as Hx.
  { intros x' E1 E2 E3 E4. split; rewrite ?E1, ?E2, ?E3, ?E4; simpl; try done.
    - by rewrite decide_False.
    - by rewrite decide_True.
    - intros j Hi Ho. rewrite decide_False by done. by apply L3. }
  destruct (first_wreq (sout x)); apply Hx; simpl; by rewrite ?Ao.
Qed.
Lemma so_write_others data x :
  finishes (so_write data x).1 = finishes x ∧ foreign (so_write data x).1 = foreign x.
Proof using Type. unfold so_write, stream_write. simpl. by destruct (first_wreq (sout x)). Qed.

Lemma requests_write N U W data x : attached x → requests N U W x →
  let x' := (so_write data (give [data] false x)).1 in
  requests N U (W ++ [(next_rid x o, data)]) x' ∧ attached x' ∧ given x' = given x ++ [data] ∧
  eof_told x' = eof_told x ∧ finishes x' = finishes x ∧ wantread (strms x' i) = wantread (strms x i).
Proof.
  intros A Q. pose proof (attached_write data _ (attached_give [data] false x A)) as A'.
  destruct A as [_ [Ao _] _ _ _]. revert A'. unfold so_write, stream_write. simpl.
  set (x' := match first_wreq (sout x) with Some _ => _ | None => _ end).
  intros A'. assert (strms x' = λ j, if decide (j = o) then add_pending (next_rid x o) data (strms x o) else strms x j) as Es.
  { unfold x'. destruct (first_wreq (sout x)); simpl; by rewrite Ao. }
  assert (sin x' = sin x ∧ given x' = given x ++ [data] ∧ next_rid x' o = S (next_rid x o) ∧
    eof_told x' = eof_told x ∧ finishes x' = finishes x ∧ so_stream (sout x') = so_stream (sout x) ∧
    so_prev_lst (sout x') = so_prev_lst (sout x) ∧ handle_write_started (sout x') = handle_write_started (sout x))
    as (E1 & E2 & E3 & E4 & E5 & E6 & E7 & E8).
  { unfold x'. destruct (first_wreq (sout x)); simpl; rewrite ?orb_false_r, ?Ao, ?(decide_True (P:=o = o)) by done; by split_and!. }
  assert (first_wreq (sout x') = Some n0) as E9.
  { pose proof (q_first _ _ _ _ Q) as Hf. pose proof (q_data _ _ _ _ Q) as Hg. pose proof (q_next _ _ _ _ Q) as Hn.
    unfold x'. destruct (first_wreq (sout x)) eqn:F, (given x) eqn:G; try done; simpl; [congruence|].
    f_equal. rewrite Ao. symmetry in Hg. apply app_nil in Hg as [-> HW]. apply map_eq_nil in HW as ->. simpl in Hn. lia. }
  clearbody x'. split_and!; try done.
  - destruct Q as [Q1 Q2 Q3 Q4 Q5 Q6 Q7 Q8]. unfold waiting in *. split; rewrite ?Es, ?E1, ?E2, ?E3, ?E8, ?E9;
      unfold waiting; rewrite ?Es, ?(decide_True (P:=o = o)) by done; simpl; try done.
    + rewrite app_assoc, Q1. by rewrite app_assoc.
    + rewrite fmap_app, Q3, length_app, seq_app. simpl. rewrite Q4. done.
    + rewrite length_app. simpl. lia.
    + rewrite Q5, fmap_app. simpl. by rewrite app_assoc.
    + destruct (given x); done.
  - rewrite Es. by rewrite decide_False.
Qed.

Lemma code_return u k w x e : ends_code u (ext w) = (x, Calls [inl (Return e)]) →
  steps prog (conf (CCode u :: k) w) (conf k (mkWorld (st w) e x)).
Proof using Type.
  intros Hc. eapply steps_cons; [unfold step; simpl; rewrite Hc; reflexivity|]. by apply steps_once.
Qed.

(** The calls that are made after [on_read] until the chunk is with the output. *)
Lemma read_steps data e w k : ec_bool e = false →
  steps prog (conf (CCode (OnRead LInput data e) :: k) w)
    (conf (ReadWritten :: k) (mkWorld (inc_read (st w)) ec_ok (so_write data (give [data] false (ext w))).1)).
Proof using Type.
  intros He. eapply steps_cons; [reflexivity|]. simpl. rewrite He.
  eapply steps_cons; [unfold step; simpl; rewrite He; reflexivity|]. simpl.
  by apply (code_return (SoWrite data)).
Qed.

Lemma attached_wantread b x : attached x → attached (on_strm i (set_wantread b) x).
Proof.
  intros [A1 A2 L1 L2 L3]. split; simpl; try done.
  - by rewrite decide_True.
  - by rewrite decide_False.
  - intros j Hi Ho. rewrite decide_False by done. by apply L3.
Qed.
Lemma requests_wantread N U W b x : requests N U W x → requests N U W (on_strm i (set_wantread b) x).
Proof.
  intros []. split; unfold waiting in *; simpl; rewrite ?(decide_False (P:=o = i)) by done; done.
Qed.

Lemma read_runs data e w : working w → Z.of_nat (length (given (ext w))) < 2 ^ 64 - 1 →
  ∃ w', steps prog (conf [CCode (OnRead LInput data e)] w) (conf [] w') ∧ turned w'.
Proof.
  intros [A (N & U & W & Q & C & K)] Hs. destruct (ec_bool e) eqn:He.
  - destruct (finish_error (nest_error (StreamerErr read_error) e)
      (mkWorld (st w) (retv w) (give [] false (ext w))) []) as (w' & S & E); try apply C; simpl.
    + by apply attached_give.
    + by rewrite nest_bool.
    + exists w'. split; [|by right]. eapply steps_cons; [reflexivity|]. simpl. rewrite He.
      eapply steps_cons; [unfold step; simpl; rewrite He; reflexivity|]. exact S.
  - destruct (requests_write N U W data (ext w) A Q) as (Q' & A' & G' & T' & F' & V').
    set (x' := (so_write data (give [data] false (ext w))).1) in *.
    set (w1 := mkWorld (inc_read (st w)) ec_ok x').
    destruct C as [C1 C2 C3 C4 C5 C6 C7 C8].
    assert (∀ b : bool, steps prog (conf [ReadWritten] w1)
       (conf [] (if b then mkWorld (set_inread false (inc_read (st w))) ec_ok (si_stop_reading x') else w1)) →
      ∃ w', steps prog (conf [CCode (OnRead LInput data e)] w) (conf [] w') ∧ turned w') as Hend.
    { intros b Hst. eexists. split; [eapply steps_trans; [by apply read_steps|exact Hst]|]. left.
      assert (nread (inc_read (st w)) = Z.of_nat (length (given x'))) as Hn.
      { simpl. rewrite C4, G', length_app. simpl. rewrite wrap_small; lia. }
      destruct b; (split; [|exists N, U, (W ++ [(next_rid (ext w) o, data)]); split; [|split]]); simpl.
      - unfold si_stop_reading, read_stop. rewrite (a_in _ A'). by apply attached_wantread.
      - unfold si_stop_reading, read_stop. rewrite (a_in _ A'). by apply requests_wantread.
      - unfold si_stop_reading, read_stop. rewrite (a_in _ A').
        split; simpl; try done; try congruence.
        + rewrite G', length_app. simpl. lia.
        + by rewrite T'.
        + by rewrite decide_True.
      - by destruct W.
      - done.
      - done.
      - split; simpl; try done; try congruence.
        + rewrite G', length_app. simpl. lia.
        + by rewrite T'.
      - by destruct W. }
    destruct (negb (max_buf (inc_read (st w)) =? 0) &&
      (max_buf (inc_read (st w)) <=? write_queue_size (strms x' (so_stream (sout x'))))) eqn:Hb.
    + apply (Hend true). eapply steps_cons; [unfold step; simpl; rewrite ec_ok_false; simpl in Hb; unfold queue_size; simpl; rewrite Hb; reflexivity|].
      simpl. eapply steps_cons; [reflexivity|]. simpl. by apply steps_once.
    + apply (Hend false). apply steps_once. unfold step. simpl. rewrite ec_ok_false. unfold queue_size. simpl.
      simpl in Hb. by rewrite Hb.
Qed.

(** *** The end of the data *)

(** When it was told of all its requests, everything was sent. *)
Lemma all_sent N U x : requests N U [] x → omap own (sent (strms x o)) = given x.
Proof.
  intros [Q1 Q2 _ _ Q5 Q6 _ _]. rewrite Q6, Q5. f_equal. unfold waiting in Q1. rewrite app_nil_r in Q1.
  rewrite <-Q1 in Q2. apply Forall_app in Q2 as [Q2 _]. clear -Q2.
  induction (untold (strms x o)) as [|q l IH]; [done|]. rewrite fmap_cons in Q2.
  apply Forall_cons in Q2 as [Hq Q2]. csimpl. rewrite (IH Q2). unfold own_ok, own.
  rewrite decide_False by lia. by destruct (ec_bool _).
Qed.

Lemma counts_eq N U W w : requests N U W (ext w) → counts N w → nwrite (st w) = nread (st w) ↔ W = [].
Proof.
  intros Q C. rewrite (c_nread _ _ C), (c_nwrite _ _ C), (q_data _ _ _ _ Q), length_app, length_fmap.
  destruct W; simpl; split; try done; lia.
Qed.

Lemma eof_runs w : working w →
  ∃ w', steps prog (conf [CCode (OnEof LInput)] w) (conf [] w') ∧ turned w'.
Proof.
  intros [A (N & U & W & Q & C & K)]. set (w1 := mkWorld (st w) (retv w) (give [] true (ext w))).
  assert (requests N U W (ext w1)) as Q1 by by apply requests_give.
  assert (attached (ext w1)) as A1 by by apply attached_give.
  pose proof (counts_eq N U W w Q C) as E. destruct (Z.eqb_spec (nwrite (st w)) (nread (st w))) as [Hn|Hn].
  - apply E in Hn as ->. destruct (finish_turned ec_ok w1 []) as (w' & S & F); try apply C; try done.
    { intros _ _. split; [apply orb_true_r|]. by eapply all_sent. }
    exists w'. split; [|by right]. eapply steps_cons; [reflexivity|].
    eapply steps_cons; [|exact S]. unfold step. simpl. by rewrite (proj2 E eq_refl), Z.eqb_refl.
  - exists (with_st (set_eof true) w1). split.
    + eapply steps_cons; [reflexivity|]. apply steps_once. unfold step. simpl.
      by destruct (Z.eqb_spec (nwrite (st w)) (nread (st w))).
    + left. split; [done|]. exists N, U, W. split; [done|]. split.
      * destruct C. split; simpl; try done; rewrite ?app_nil_r; try done. intros _. apply orb_true_r.
      * intros ->. by destruct Hn; apply E.
Qed.

(** *** Requests done and told of *)

Lemma attached_done e j x : attached x → attached (on_strm j (write_done e) x).
Proof.
  intros [A1 A2 L1 L2 L3].
  assert (∀ s, event_listener (write_done (EC:=EC) e s) = event_listener s) as El by by intros [? ? ? [] ? ?].
  split; simpl; try done; intros; destruct (decide _) as [<-|]; rewrite ?El; auto.
Qed.

Lemma requests_done N U W e j x : requests N U W x → requests N U W (on_strm j (write_done e) x).
Proof.
  intros Q. destruct (decide (j = o)) as [->|Hj].
  2:{ destruct Q. split; unfold waiting in *; simpl; rewrite ?(decide_False (P:=o = j)) by congruence; done. }
  destruct Q as [Q1 Q2 Q3 Q4 Q5 Q6 Q7 Q8]. unfold waiting in *.
  split; unfold waiting; simpl; rewrite ?(decide_True (P:=o = o)) by done; try done.
  - rewrite <-Q1. unfold write_done. destruct (pending (strms x o)) eqn:E; simpl; [by rewrite E|].
    by rewrite fmap_app, <-app_assoc.
  - unfold write_done. destruct (pending (strms x o)) as [|p l]; [done|]. simpl.
    rewrite omap_app, app_assoc, <-Q6. csimpl. unfold own_ok. simpl.
    destruct (ec_bool e); [by rewrite app_nil_r|]. rewrite omap_app. f_equal. 
Qed.

Lemma wantread_done e j x : wantread (strms (on_strm j (write_done (EC:=EC) e) x) i) = wantread (strms x i).
Proof.
  assert (∀ s, wantread (write_done (EC:=EC) e s) = wantread s) as El by by intros [? ? ? [] ? ?].
  simpl. destruct (decide _) as [<-|]; by rewrite ?El.
Qed.

Lemma done_runs e j w : working w → working (with_ends (on_strm j (write_done e) (ext w)) w).
Proof.
  intros [A (N & U & W & Q & C & K)]. split; [by apply attached_done|]. exists N, U, W.
  split; [by apply requests_done|]. split; [|done]. destruct C. split; try done.
  etrans; [apply wantread_done|done].
Qed.

Lemma result_runs e j w : working w → working (with_ends (on_strm j (set_result e) (ext w)) w).
Proof.
  intros [[A1 A2 L1 L2 L3] (N & U & W & [] & [] & K)]. split.
  - split; simpl; try done; intros; destruct (decide _) as [<-|]; simpl; auto.
  - exists N, U, W. split; [|split; [|done]].
    + split; unfold waiting in *; simpl; try done; by destruct (decide _) as [<-|].
    + split; simpl; try done. by destruct (decide _) as [<-|].
Qed.

Lemma attached_told j x : attached x → attached (on_strm j write_told x).
Proof. intros [A1 A2 L1 L2 L3]. split; simpl; try done; intros; destruct (decide _) as [<-|]; simpl; auto. Qed.

Lemma other_told_runs j w : j ≠ o → working w → working (with_ends (on_strm j write_told (ext w)) w).
Proof.
  intros Hj [A (N & U & W & [] & [] & K)]. split; [by apply attached_told|].
  exists N, U, W. split; [|split; [|done]].
  - split; unfold waiting in *; simpl; rewrite ?(decide_False (P:=o = j)) by congruence; done.
  - split; simpl; try done. by destruct (decide _) as [<-|].
Qed.

Lemma waiting_told q l x : untold (strms x o) = q :: l →
  waiting x = q.1 :: waiting (on_strm o write_told x) ∧
  untold (strms (on_strm o write_told x) o) = l ∧ sent (strms (on_strm o write_told x) o) = sent (strms x o).
Proof. intros Hq. unfold waiting. simpl. rewrite decide_True by done. simpl. by rewrite Hq. Qed.

(** A request that was there before the streamer. *)
Lemma requests_told_user N U W r d e l x : untold (strms x o) = (r, d, e) :: l → requests N U W x → (r < n0)%nat →
  handle_write_started (sout x) = false ∧ first_wreq (sout x) ≠ Some r ∧
  ∃ U', requests N U' W (on_strm o write_told x).
Proof.
  intros Hu [Q1 Q2 Q3 Q4 Q5 Q6 Q7 Q8] Hr. destruct (waiting_told _ _ _ Hu) as (E1 & E2 & E3).
  rewrite E1 in Q1. rewrite Hu in Q6. csimpl in Q6.
  destruct U as [|u U].
  { destruct W as [|v W]; [done|]. simplify_eq/=. lia. }
  injection Q1 as <- Q1. split; [by destruct (handle_write_started _)|]. split.
  { rewrite Q7. destruct (given x); [done|]. intros [= <-]. lia. }
  exists U. apply Forall_cons in Q2 as [_ Q2]. split; try done.
  - rewrite E2, E3, Q6. unfold own_ok, own. simpl. rewrite decide_False by lia. by destruct (ec_bool e).
  - simpl. by destruct (handle_write_started (sout x)).
Qed.

(** A request of the streamer. *)
Lemma requests_told_own N U W r d e l x :
  untold (strms x o) = (r, d, e) :: l → requests N U W x → ¬ (r < n0)%nat →
  let x1 := on_strm o write_told x in
  U = [] ∧ (handle_write_started (sout x) = true ∨ first_wreq (sout x) = Some r) ∧
  ∃ W', W = (r, d) :: W' ∧
    (ec_bool e = false → ∀ x2, handle_write_started (sout x2) = true → first_wreq (sout x2) = first_wreq (sout x1) →
       strms x2 = strms x1 → next_rid x2 = next_rid x1 → given x2 = given x1 → requests (N ++ [d]) [] W' x2).
Proof.
  intros Hu [Q1 Q2 Q3 Q4 Q5 Q6 Q7 Q8] Hr x1. destruct (waiting_told _ _ _ Hu) as (E1 & E2 & E3).
  rewrite E1 in Q1. rewrite Hu in Q6. csimpl in Q6.
  destruct U as [|u U]; [|simplify_eq/=; apply Forall_cons in Q2 as [? _]; simpl in *; lia].
  destruct W as [|v W]; [done|]. simpl in Q1. injection Q1 as <- Q1. injection Q3 as Q3 Q3'. split; [done|]. split.
  { destruct (handle_write_started _); [by left|right]. subst N. simpl in *. rewrite Q7, Q5. f_equal. lia. }
  exists W. split; [done|]. intros He x2 H1 H2 H3 H4 H5. split; unfold waiting; rewrite ?H1, ?H2, ?H3, ?H4, ?H5; try done.
  - rewrite length_app. simpl. etrans; [exact Q3'|]. f_equal. lia.
  - rewrite length_app. simpl in *. lia.
  - simpl. rewrite Q5. by rewrite <-app_assoc.
  - unfold x1. rewrite E2, E3, Q6. unfold own_ok, own. simpl. rewrite He, decide_True by lia. by rewrite <-app_assoc.
Qed.

Lemma working_rest N W w : attached (ext w) → requests N [] W (ext w) → counts N w →
  (W = [] → inread (st w) = true ∧ eof (st w) = false) → working w.
Proof. intros A Q C K. split; [done|]. by exists N, [], W. Qed.

(** [handle_write] of a request of the streamer, after it was counted in [N]. *)
Lemma handle_write_runs N d W e w : attached (ext w) → requests (N ++ [d]) [] W (ext w) → ec_bool e = false →
  counts N w →
  ∃ w', steps prog (conf [CApi (HandleWrite e)] w) (conf [] w') ∧ turned w'.
Proof.
  intros A Q He C. set (w1 := with_st inc_write w).
  assert (length (given (ext w)) = length N + 1 + length W)%nat as Hl.
  { rewrite (q_data _ _ _ _ Q), !length_app, length_fmap. simpl. lia. }
  assert (counts (N ++ [d]) w1) as C1.
  { destruct C. split; simpl; try done. rewrite c_nwrite0, length_app, wrap_small; simpl; lia. }
  pose proof (counts_eq _ _ _ w1 Q C1) as E.
  assert (∀ k w2, steps prog (conf k w1) (conf [] w2) → step prog (conf [CApi (HandleWrite e)] w) = Some (conf k w1) →
    turned w2 → ∃ w', steps prog (conf [CApi (HandleWrite e)] w) (conf [] w') ∧ turned w') as Hend.
  { intros k w2 S1 S2 T. exists w2. split; [|done]. by eapply steps_cons. }
  destruct (eof (st w1) && (nwrite (st w1) =? nread (st w1))) eqn:B1; [|destruct
    (negb (inread (st w1)) && (write_queue_size (strms (ext w) (so_stream (sout (ext w)))) <=? thr_buf (st w1))) eqn:B2].
  - apply andb_true_iff in B1 as [Be Bn]. apply Z.eqb_eq, E in Bn as ->.
    destruct (finish_turned ec_ok w1 []) as (w2 & S & F); try apply C1; try done.
    { intros _ _. split; [by apply C1|]. by eapply all_sent. }
    eapply Hend; [exact S| |by right]. unfold step. simpl in *. rewrite He. simpl.
    by rewrite Be, (proj2 E eq_refl), Z.eqb_refl.
  - set (x2 := on_strm i (set_wantread true) (ext w)). set (res := read_result (strms (ext w) i)).
    assert (si_start_reading (ext w) = (x2, if ec_bool res then res else ec_ok)) as Es.
    { unfold si_start_reading. by rewrite (a_in _ A). }
    assert (attached x2 ∧ requests (N ++ [d]) [] W x2) as [A2 Q2].
    { split; [by apply attached_wantread|by apply requests_wantread]. }
    assert (steps prog (conf [CCode SiStartReading; WriteResumed] w1)
      (conf [WriteResumed] (mkWorld (st w1) (if ec_bool res then res else ec_ok) x2))) as S1.
    { apply code_return. unfold ends_code. change (ext w1) with (ext w). by rewrite Es. }
    assert (step prog (conf [CApi (HandleWrite e)] w) = Some (conf [CCode SiStartReading; WriteResumed] w1)) as S0.
    { unfold step. simpl in *. rewrite He. simpl. unfold queue_size. simpl. by rewrite B1, B2. }
    destruct (ec_bool res) eqn:Hr.
    + destruct (finish_error (nest_error (StreamerErr read_error) res) (mkWorld (st w1) res x2) [])
        as (w2 & S & F); try apply C1; try done; [by rewrite nest_bool|].
      eapply Hend; [|exact S0|by right]. eapply steps_trans; [exact S1|].
      eapply steps_cons; [unfold step; simpl; rewrite Hr; reflexivity|]. exact S.
    + eapply Hend; [|exact S0|left].
      { eapply steps_trans; [exact S1|]. apply steps_once. unfold step. simpl. by rewrite ec_ok_false. }
      apply (working_rest (N ++ [d]) W); try done.
      * destruct C1. split; simpl; try done. by rewrite decide_True.
      * intros ->. split; [done|]. simpl in *. rewrite (proj2 E eq_refl), Z.eqb_refl in B1. by destruct (eof (st w)).
  - eapply Hend; [apply steps_refl| |left].
    { unfold step. simpl in *. rewrite He. simpl. unfold queue_size. simpl. by rewrite B1, B2. }
    apply (working_rest (N ++ [d]) W); try done. intros ->. rewrite (proj2 E eq_refl), Z.eqb_refl, andb_true_r in B1.
    split; [|done]. destruct (inread (st w1)) eqn:Hi; [done|]. simpl in B2. apply Z.leb_gt in B2.
    rewrite (proj1 (a_out _ A)), wqs_empty in B2; [pose proof (c_thr _ _ C1); simpl in *; lia|].
    pose proof (q_waiting _ _ _ _ Q) as Hw. unfold waiting in Hw. by apply app_eq_nil in Hw as [_ ->].
Qed.

Lemma told_runs r d e l w : working w → untold (strms (ext w) o) = (r, d, e) :: l →
  ∃ w', steps prog (conf [CCode (OnWrite LOutput e r)] (with_ends (on_strm o write_told (ext w)) w)) (conf [] w') ∧ turned w'.
Proof.
  intros [A (N & U & W & Q & C & K)] Hu. set (x1 := on_strm o write_told (ext w)).
  assert (attached x1) as A1 by by apply attached_told.
  assert (∀ x2, given x2 = given (ext w) → eof_told x2 = eof_told (ext w) → finishes x2 = finishes (ext w) →
    strms x2 = strms x1 → counts N (with_ends x2 w)) as C1.
  { intros x2 E1 E2 E3 E4. destruct C. split; simpl; rewrite ?E1, ?E2, ?E3, ?E4; try done.
    simpl. by destruct (decide _) as [<-|]. }
  destruct (decide (r < n0)%nat) as [Hr|Hr].
  - destruct (requests_told_user N U W r d e l (ext w) Hu Q Hr) as (Hs & Hf & U' & Q').
    exists (with_ends x1 w). split.
    + apply steps_once. unfold step. simpl. unfold so_on_write. simpl. rewrite Hs.
      by rewrite decide_False by congruence.
    + left. split; [done|]. exists N, U', W. split; [done|]. split; [by apply C1|done].
  - destruct (requests_told_own N U W r d e l (ext w) Hu Q Hr) as (-> & Hf & W' & -> & Hq).
    assert (∃ x2, so_on_write e r x1 = (x2, [inl (HandleWrite e)]) ∧ handle_write_started (sout x2) = true ∧
      first_wreq (sout x2) = first_wreq (sout x1) ∧ strms x2 = strms x1 ∧ next_rid x2 = next_rid x1 ∧
      given x2 = given x1 ∧ eof_told x2 = eof_told x1 ∧ finishes x2 = finishes x1 ∧ attached x2)
      as (x2 & E & E1 & E2 & E3 & E4 & E5 & E6 & E7 & A2).
    { unfold so_on_write. change (sout x1) with (sout (ext w)). destruct (handle_write_started (sout (ext w))) eqn:Hs.
      - by exists x1.
      - destruct Hf as [?|Hf]; [done|]. rewrite decide_True by done. eexists. split; [done|].
        split_and!; try done. by destruct A1. }
    assert (step prog (conf [CCode (OnWrite LOutput e r)] (with_ends x1 w)) =
      Some (conf [CApi (HandleWrite e)] (with_ends x2 w))) as S0.
    { unfold step. cbn [stack cmode mem body streamer_program sbody e_code ends_endpoints ends_code ext with_ends].
      by rewrite E. }
    destruct (ec_bool e) eqn:He.
    + destruct (finish_error (nest_error (StreamerErr write_error) e) (with_ends x2 w) []) as (w' & S & F);
        try apply C; try done; [simpl; rewrite E7; apply C|by rewrite nest_bool|].
      exists w'. split; [|by right]. eapply steps_cons; [exact S0|].
      eapply steps_cons; [unfold step; simpl; rewrite He; reflexivity|]. exact S.
    + destruct (handle_write_runs N d W' e (with_ends x2 w)) as (w' & S & T); try done.
      { by apply Hq. }
      { by apply C1. }
      exists w'. split; [|done]. by eapply steps_cons.
Qed.

(** *** Starting, and turns of the loop *)

Definition turn (w w' : sworld) : Prop :=
  ∃ cs w1, ends_input w cs w1 ∧ steps prog (conf cs w1) (conf [] w').

Definition works (max : Z) (w : sworld) : Prop :=
  ∃ w0, steps prog (conf [CApi Start] (mkWorld (new_streamer max) ec_ok x0)) (conf [] w0) ∧
    rtc (λ w w', started (st w) = true ∧ turn w w') w0 w.

(** *** A user who writes to the output *)

(** What is left when the user wrote to the output: the streamer works, and the
    streams can be given back. *)
Record disturbed (w : sworld) : Prop := {
  d_attached : attached (ext w);
  d_started : started (st w) = true;
  d_fin : finishes (ext w) = [];
  d_foreign : foreign (ext w) = true
}.
Definition left_over w : Prop := turned w ∨ disturbed w.

Lemma disturbed_ends w k : disturbed w → ∀ e,
  ∃ w', steps prog (conf (Finish e :: k) w) (conf k w') ∧ left_over w'.
Proof.
  intros [A S F G] e. destruct (finish_turned e w k A F S) as (w' & St & E); [congruence|].
  exists w'. split; [done|]. by left; right.
Qed.

Lemma disturbed_stays (f : streamer → streamer) v x w : disturbed w → started (f (st w)) = true → attached x →
  finishes x = finishes (ext w) → foreign x = foreign (ext w) → disturbed (mkWorld (f (st w)) v x).
Proof using Type. intros [] Hs Ha Hf Hg. split; simpl; congruence. Qed.

(** The rests of [handle_read] and [handle_write]. *)
Lemma disturbed_paused w : disturbed w → ∃ w', steps prog (conf [ReadWritten] w) (conf [] w') ∧ left_over w'.
Proof.
  intros D. pose proof D as [A S F G]. destruct (ec_bool (retv w)) eqn:Hr.
  { destruct (disturbed_ends w [] D (nest_error (StreamerErr write_error) (retv w))) as (w' & St & L).
    exists w'. split; [|done]. eapply steps_cons; [unfold step; simpl; rewrite Hr; reflexivity|]. exact St. }
  destruct (negb (max_buf (st w) =? 0) && (max_buf (st w) <=? write_queue_size (strms (ext w) (so_stream (sout (ext w)))))) eqn:Hb.
  - exists (mkWorld (set_inread false (st w)) (retv w) (si_stop_reading (ext w))). split.
    + eapply steps_cons; [unfold step; simpl; rewrite Hr; unfold queue_size; simpl; rewrite Hb; reflexivity|]. simpl.
      eapply steps_cons; [reflexivity|]. simpl. by apply steps_once.
    + right. apply (disturbed_stays (set_inread false)); try done.
      unfold si_stop_reading, read_stop. rewrite (a_in _ A). by apply attached_wantread.
  - exists w. split; [|by right]. apply steps_once. unfold step. simpl. rewrite Hr. unfold queue_size. simpl. by rewrite Hb.
Qed.

Lemma disturbed_wrote w e : disturbed w → ∃ w', steps prog (conf [CApi (HandleWrite e)] w) (conf [] w') ∧ left_over w'.
Proof.
  intros D. pose proof D as [A S F G]. destruct (ec_bool e) eqn:He.
  { destruct (disturbed_ends w [] D (nest_error (StreamerErr write_error) e)) as (w' & St & L).
    exists w'. split; [|done]. eapply steps_cons; [unfold step; simpl; rewrite He; reflexivity|]. exact St. }
  set (w1 := with_st inc_write w). assert (disturbed w1) as D1 by by apply (disturbed_stays inc_write).
  destruct (eof (st w1) && (nwrite (st w1) =? nread (st w1))) eqn:B1.
  { destruct (disturbed_ends w1 [] D1 ec_ok) as (w' & St & L). exists w'. split; [|done].
    eapply steps_cons; [|exact St]. unfold step. simpl in *. rewrite He. simpl. by rewrite B1. }
  destruct (negb (inread (st w1)) && (write_queue_size (strms (ext w) (so_stream (sout (ext w)))) <=? thr_buf (st w1))) eqn:B2.
  2:{ exists w1. split; [|by right]. apply steps_once. unfold step. simpl in *. rewrite He. simpl. unfold queue_size. simpl. by rewrite B1, B2. }
  assert (step prog (conf [CApi (HandleWrite e)] w) = Some (conf [CCode SiStartReading; WriteResumed] w1)) as S0.
  { unfold step. simpl in *. rewrite He. simpl. unfold queue_size. simpl. by rewrite B1, B2. }
  set (x2 := on_strm i (set_wantread true) (ext w)). set (res := read_result (strms (ext w) i)).
  set (w2 := mkWorld (st w1) (if ec_bool res then res else ec_ok) x2).
  assert (steps prog (conf [CCode SiStartReading; WriteResumed] w1) (conf [WriteResumed] w2)) as S1.
  { apply code_return. unfold ends_code, si_start_reading. change (ext w1) with (ext w). by rewrite (a_in _ A). }
  assert (disturbed w2) as D2 by (apply (disturbed_stays inc_write); try done; by apply attached_wantread).
  destruct (ec_bool (retv w2)) eqn:Hr.
  - destruct (disturbed_ends w2 [] D2 (nest_error (StreamerErr read_error) (retv w2))) as (w' & St & L).
    exists w'. split; [|done]. eapply steps_cons; [exact S0|]. eapply steps_trans; [exact S1|].
    eapply steps_cons; [|exact St]. unfold step. simpl in *. by rewrite Hr.
  - exists (with_st (set_inread true) w2). split; [|right; by apply (disturbed_stays (set_inread true)); try apply D2].
    eapply steps_cons; [exact S0|]. eapply steps_trans; [exact S1|]. apply steps_once. unfold step. simpl in *. by rewrite Hr.
Qed.

Lemma disturbed_told e r w : disturbed w →
  ∃ w', steps prog (conf [CCode (OnWrite LOutput e r)] w) (conf [] w') ∧ left_over w'.
Proof.
  intros D. pose proof D as [A S F G]. destruct (so_on_write e r (ext w)) as [x cs] eqn:E.
  assert (attached x ∧ finishes x = finishes (ext w) ∧ foreign x = foreign (ext w) ∧
    (cs = [] ∨ cs = [inl (HandleWrite e)])) as (Ax & Fx & Gx & Hcs).
  { unfold so_on_write in E. destruct (handle_write_started _); [|destruct (decide _)]; injection E as <- <-;
      (split_and!; [|done|done|by auto]); by destruct A. }
  assert (disturbed (with_ends x w)) as D1 by by apply (disturbed_stays (λ s, s)).
  assert (step prog (conf [CCode (OnWrite LOutput e r)] w) =
    Some (conf ((λ c, match c with inl a => CApi a | inr u => CCode u end) <$> cs) (with_ends x w))) as S0.
  { unfold step. cbn [stack cmode mem body streamer_program sbody e_code ends_endpoints ends_code ext].
    rewrite E. simpl. by rewrite app_nil_r. }
  destruct Hcs as [-> | ->].
  - exists (with_ends x w). split; [by apply steps_once|by right].
  - destruct (disturbed_wrote (with_ends x w) e D1) as (w' & St & L). exists w'. split; [|done]. by eapply steps_cons.
Qed.

Lemma disturbed_read data e w : disturbed w →
  ∃ w', steps prog (conf [CCode (OnRead LInput data e)] w) (conf [] w') ∧ left_over w'.
Proof.
  intros D. pose proof D as [A S F G]. destruct (ec_bool e) eqn:He.
  - set (w1 := mkWorld (st w) (retv w) (give [] false (ext w))).
    assert (disturbed w1) as D1 by (apply (disturbed_stays (λ s, s)); try done; by apply attached_give).
    destruct (disturbed_ends w1 [] D1 (nest_error (StreamerErr read_error) e)) as (w' & St & L).
    exists w'. split; [|done]. eapply steps_cons; [reflexivity|]. simpl. rewrite He.
    eapply steps_cons; [unfold step; simpl; rewrite He; reflexivity|]. exact St.
  - set (x' := (so_write data (give [data] false (ext w))).1).
    destruct (so_write_others data (give [data] false (ext w))) as [E1 E2].
    assert (disturbed (mkWorld (inc_read (st w)) ec_ok x')) as D1.
    { apply (disturbed_stays inc_read); try done. by apply attached_write, attached_give. }
    destruct (disturbed_paused _ D1) as (w' & St & L). exists w'. split; [|done].
    eapply steps_trans; [by apply read_steps|exact St].
Qed.

Lemma disturbed_eof w : disturbed w →
  ∃ w', steps prog (conf [CCode (OnEof LInput)] w) (conf [] w') ∧ left_over w'.
Proof.
  intros D. set (w1 := mkWorld (st w) (retv w) (give [] true (ext w))).
  assert (disturbed w1) as D1 by (pose proof D as []; apply (disturbed_stays (λ s, s)); try done; by apply attached_give).
  destruct (Z.eqb_spec (nwrite (st w)) (nread (st w))) as [Hn|Hn].
  - destruct (disturbed_ends w1 [] D1 ec_ok) as (w' & St & L). exists w'. split; [|done].
    eapply steps_cons; [reflexivity|]. eapply steps_cons; [|exact St]. unfold step. simpl. by rewrite Hn, Z.eqb_refl.
  - exists (with_st (set_eof true) w1). split; [|right; by apply (disturbed_stays (set_eof true)); try apply D1].
    eapply steps_cons; [reflexivity|]. apply steps_once. unfold step. simpl.
    by destruct (Z.eqb_spec (nwrite (st w)) (nread (st w))).
Qed.

(** The write of the user itself. *)
Lemma attached_user j data x : attached x → attached (user_write j data x).
Proof.
  intros [A1 A2 L1 L2 L3]. split; simpl; try done; intros; destruct (decide _) as [<-|]; simpl; auto.
Qed.

Lemma user_write_runs j data w : working w → left_over (with_ends (user_write j data (ext w)) w).
Proof.
  intros [A (N & U & W & Q & C & K)]. destruct (decide (j = o)) as [->|Hj].
  - right. apply (disturbed_stays (λ s, s)) with (w := with_ends (user_write o data (ext w)) w); simpl; try done.
    + split; simpl; [by apply attached_user|apply C|apply C|]. rewrite (proj1 (a_out _ A)).
      rewrite bool_decide_eq_true_2 by done. apply orb_true_r.
    + apply C.
    + by apply attached_user.
  - left. left. split; [by apply attached_user|]. exists N, U, W. split; [|split; [|done]].
    + destruct Q. split; unfold waiting in *; simpl; rewrite ?(decide_False (P:=o = j)) by congruence; done.
    + destruct C. split; simpl; try done. by destruct (decide _) as [<-|].
Qed.

(** *** All turns *)

(** New objects on two streams that no other streamer is attached to; the input can
    be read. *)
Record unattached : Prop := {
  u_lst j : ∀ l, event_listener (strms x0 j) = Some l → ∃ n, l = LUser n;
  u_readable : ec_bool (read_result (strms x0 i)) = false;
  u_rids : Forall (λ p, p.1 < n0)%nat (waiting x0 ++ sent (strms x0 o));
  u_new : first_wreq (sout x0) = None ∧ handle_write_started (sout x0) = false ∧
          given x0 = [] ∧ eof_told x0 = false ∧ finishes x0 = []
}.

Lemma noop_runs (c : ecode EC) w : ends_code c (ext w) = (ext w, Calls []) →
  steps prog (conf [CCode c] w) (conf [] w).
Proof. intros Hc. apply steps_once. unfold step. simpl. rewrite Hc. by destruct w. Qed.

(** An event of a stream reaches the object that listens to it, or nobody. *)
Lemma to_listener_runs (P : sworld → Prop) (f : listener → ecode EC) j w w1 :
  unattached → attached (ext w) → event_listener (strms (ext w) j) = event_listener (strms (ext w1) j) →
  (∀ n, ends_code (f (LUser n)) (ext w1) = (ext w1, Calls [])) →
  (j = i → ∃ w', steps prog (conf [CCode (f LInput)] w1) (conf [] w') ∧ P w') →
  (j = o → ∃ w', steps prog (conf [CCode (f LOutput)] w1) (conf [] w') ∧ P w') →
  (j ≠ i → j ≠ o → P w1) →
  ∃ w', steps prog (conf (to_listener f (strms (ext w) j)) w1) (conf [] w') ∧ P w'.
Proof.
  intros Hu [A1 A2 L1 L2 L3] He Hn Hi Ho Hj. unfold to_listener.
  destruct (decide (j = i)) as [->|Ni]; [rewrite L1; by apply Hi|].
  destruct (decide (j = o)) as [->|No]; [rewrite L2; by apply Ho|].
  rewrite L3 by done. destruct (event_listener (strms x0 j)) as [l|] eqn:El.
  - destruct (u_lst Hu j l El) as [n ->]. exists w1. split; [by apply noop_runs|by apply Hj].
  - exists w1. split; [apply steps_refl|by apply Hj].
Qed.

Lemma ends_turn_runs w cs w1 : unattached → working w → ends_input w cs w1 →
  ∃ w', steps prog (conf cs w1) (conf [] w') ∧ left_over w'.
Proof.
  intros Hu G Hin. pose proof (k_attached _ G) as A.
  assert (∀ c, ends_code c (ext w) = (ext w, Calls []) →
    ∃ w', steps prog (conf [CCode c] w) (conf [] w') ∧ left_over w') as Hno.
  { intros c Hc. exists w. split; [by apply noop_runs|by left; left]. }
  assert (∀ cs0 w0, (∃ w', steps prog (conf cs0 w0) (conf [] w') ∧ turned w') →
    ∃ w', steps prog (conf cs0 w0) (conf [] w') ∧ left_over w') as Hlo.
  { intros cs0 w0 (w' & S & T). exists w'. split; [done|by left]. }
  destruct Hin as [w j data e Hs|w j|w j e|w j r d e l Hl|w j e|w|w j data].
  - eapply to_listener_runs; try done; [by intros; apply Hlo, read_runs|by intros; apply Hno|by left; left].
  - eapply to_listener_runs; try done; [by intros; apply Hlo, eof_runs|by intros; apply Hno|by left; left].
  - eexists. split; [apply steps_refl|left; left]. by apply done_runs.
  - eapply to_listener_runs; try done.
    + simpl. by rewrite decide_True.
    + intros ->. eexists. split; [by apply noop_runs|left; left]. by apply other_told_runs.
    + intros ->. apply Hlo. by eapply told_runs.
    + intros _ No. left; left. by apply other_told_runs.
  - eexists. split; [apply steps_refl|left; left]. by apply result_runs.
  - destruct G as [_ (N & U & W & Q & C & K)].
    destruct (finish_error (ec_of (Std operation_canceled)) w []) as (w' & S & F); try apply C; try done.
    { apply ec_bool_of. }
    exists w'. split; [|by left; right]. by eapply steps_cons.
  - eexists. split; [apply steps_refl|by apply user_write_runs].
Qed.

Lemma disturbed_turn_runs w cs w1 : unattached → disturbed w → ends_input w cs w1 →
  ∃ w', steps prog (conf cs w1) (conf [] w') ∧ left_over w'.
Proof.
  intros Hu G Hin. pose proof (d_attached _ G) as A.
  assert (∀ x, attached x → finishes x = finishes (ext w) → foreign x = foreign (ext w) → disturbed (with_ends x w)) as Hx.
  { intros x Ax Fx Gx. destruct G. by apply (disturbed_stays (λ s, s)). }
  assert (∀ c w0, disturbed w0 → ends_code c (ext w0) = (ext w0, Calls []) →
    ∃ w', steps prog (conf [CCode c] w0) (conf [] w') ∧ left_over w') as Hno.
  { intros c w0 G0 Hc. exists w0. split; [by apply noop_runs|by right]. }
  destruct Hin as [w j data e Hs|w j|w j e|w j r d e l Hl|w j e|w|w j data].
  - eapply to_listener_runs; try done; [by intros; apply disturbed_read|by intros; apply Hno|by right].
  - eapply to_listener_runs; try done; [by intros; apply disturbed_eof|by intros; apply Hno|by right].
  - eexists. split; [apply steps_refl|right]. apply Hx; [by apply attached_done|done|done].
  - assert (disturbed (with_ends (on_strm j write_told (ext w)) w)) as G1.
    { apply Hx; [by apply attached_told|done|done]. }
    eapply to_listener_runs; try done.
    + simpl. by rewrite decide_True.
    + intros _. by apply Hno.
    + intros _. by apply disturbed_told.
    + intros _ _. by right.
  - eexists. split; [apply steps_refl|right]. apply Hx; [|done|done].
    destruct A as [A1 A2 L1 L2 L3]. split; simpl; try done; intros; destruct (decide _) as [<-|]; simpl; auto.
  - destruct (disturbed_ends w [] G (ec_of (Std operation_canceled))) as (w' & S & L).
    exists w'. split; [|done]. by eapply steps_cons.
  - eexists. split; [apply steps_refl|right]. apply Hx; [by apply attached_user|done|]. simpl.
    by rewrite (d_foreign _ G).
Qed.

(** [start()] *)
Lemma start_runs max : unattached →
  ∃ w, steps prog (conf [CApi Start] (mkWorld (new_streamer max) ec_ok x0)) (conf [] w) ∧ working w.
Proof.
  intros [Hl Hr Hids (F1 & F2 & F3 & F4 & F5)]. apply Forall_app in Hids as [Hw Hsent].
  set (x1 := (si_start x0).1).
  assert (si_start x0 = (x1, ec_ok)) as E1.
  { unfold x1, si_start. simpl. by rewrite Hr. }
  set (x2 := (so_start x1).1).
  eexists. split.
  - eapply steps_cons; [reflexivity|]. simpl. eapply steps_trans.
    { apply (code_return SiStart _ _ x1 ec_ok). unfold ends_code. simpl. by rewrite E1. }
    eapply steps_cons; [unfold step; simpl; rewrite ec_ok_false; reflexivity|]. simpl.
    eapply steps_trans; [by apply (code_return SoStart _ _ x2 ec_ok)|].
    apply steps_once. unfold step. simpl. rewrite ec_ok_false. reflexivity.
  - assert (x1 = on_strm i (set_listener (Some LInput)) (on_strm i (set_wantread true)
      (with_sin (mkInput i (event_listener (strms x0 i)) (wantread (strms x0 i))) x0))) as Ex1.
    { unfold x1, si_start. simpl. by rewrite Hr. }
    assert (strms x2 o = set_listener (Some LOutput) (strms x0 o)) as Eo.
    { unfold x2. rewrite Ex1. simpl. rewrite decide_True by done. by rewrite !decide_False by done. }
    assert (strms x2 i = set_listener (Some LInput) (set_wantread true (strms x0 i))) as Ei.
    { unfold x2. rewrite Ex1. simpl. rewrite decide_False by done. by rewrite !decide_True by done. }
    assert (∀ j, j ≠ i → j ≠ o → strms x2 j = strms x0 j) as Ej.
    { intros j Ni No. unfold x2. rewrite Ex1. simpl. by rewrite !decide_False by done. }
    assert (sin x2 = mkInput i (event_listener (strms x0 i)) (wantread (strms x0 i)) ∧
      sout x2 = mkOutput o (event_listener (strms x0 o)) (first_wreq (sout x0)) (handle_write_started (sout x0)) ∧
      next_rid x2 = next_rid x0 ∧ given x2 = given x0 ∧ eof_told x2 = eof_told x0 ∧ finishes x2 = finishes x0)
      as (S1 & S2 & S3 & S4 & S5 & S6).
    { unfold x2. rewrite Ex1. simpl. split_and!; try done. by rewrite !decide_False by done. }
    clearbody x2. split; simpl.
    + split; rewrite ?S1, ?S2, ?Ei, ?Eo; try done. intros j Ni No. by rewrite Ej.
    + exists [], (waiting x0), []. split; [|split; [|done]].
      * split; simpl; rewrite ?S2, ?S3, ?S4, ?F1, ?F2, ?F3; try done.
        -- unfold waiting. rewrite Eo. simpl. by rewrite app_nil_r.
        -- lia.
        -- rewrite Eo. simpl. apply Forall_app in Hw as [Hw _].
           assert (omap own (sent (strms x0 o)) = []) as ->.
           { clear -Hsent. induction Hsent as [|p l Hp _ IH]; [done|]. csimpl. unfold own at 1.
             by rewrite decide_False by lia. }
           clear -Hw. induction (untold (strms x0 o)) as [|q l IH]; [done|]. rewrite fmap_cons in Hw.
           apply Forall_cons in Hw as [Hq Hw]. csimpl. rewrite <-(IH Hw). unfold own_ok, own.
           rewrite decide_False by lia. by destruct (ec_bool _).
      * split; simpl; rewrite ?S4, ?S5, ?S6, ?F3, ?F4, ?F5, ?Ei; try done.
        apply Z.div_pos; [|lia]. apply Z.mod_pos_bound. lia.
Qed.

Lemma ends_works_inv max w : unattached → works max w → left_over w.
Proof.
  intros Hu (w0 & S & R). destruct (start_runs max Hu) as (w1 & S1 & G).
  apply (steps_det _ _ _ _ S1) in S; [|by left]. apply steps_end in S as [-> _].
  assert (left_over w1) as T by by left; left. clear G S1. revert T.
  induction R as [w|w w1' w2 [St (cs & w3 & Hin & S)] R IH]; [done|]. intros T. apply IH.
  assert (∃ w4, steps prog (conf cs w3) (conf [] w4) ∧ left_over w4) as (w4 & S4 & T4).
  { destruct T as [[G|[]]|G]; [by eapply ends_turn_runs|congruence|by eapply disturbed_turn_runs]. }
  apply (steps_det _ _ _ _ S4) in S; [|by left]. by apply steps_end in S as [-> _].
Qed.
End Copy.

Arguments own {EC} x0 p : simpl never.

(** ** Properties *)

(** C10: a streamer from one stream to another stream ends once, with one report, and
    leaves the listeners of both and the wish to read of the input as it found them,
    also when the user writes to the streams meanwhile. It reports success only when the
    input has ended and every chunk that it was told of was sent, in order, even if the
    output was busy with requests of others when it was started; provided that the user
    has not written to the output while the streamer worked: such a write is counted as
    one of the streamer's ([streamer_counts_foreign_writes]). This for new objects on two
    streams that have no other streamer, an input that can be read, less than 2^64
    chunks, and users whose callbacks do nothing else with the two streams. *)
Theorem stream_to_stream_copies {EC : Type} `{ErrorStack EC} (wqs : strm EC → Z) (x0 : ends EC) (max : Z)
    (w : world (ends EC) EC) (i := si_stream (sin x0)) (o := so_stream (sout x0))
    (Hwqs : ∀ s, pending s = [] → wqs s = 0) (Hio : i ≠ o) (Hx0 : unattached x0)
    (Hw : works wqs x0 max w) (Hend : started (st w) = false) :
  event_listener (strms (ext w) i) = event_listener (strms x0 i) ∧
  event_listener (strms (ext w) o) = event_listener (strms x0 o) ∧
  wantread (strms (ext w) i) = wantread (strms x0 i) ∧
  ∃ e, finishes (ext w) = [e] ∧
    (foreign (ext w) = false → ec_bool e = false →
       eof_told (ext w) = true ∧ omap (own x0) (sent (strms (ext w) o)) = given (ext w)).
Proof.
  destruct (ends_works_inv wqs Hwqs x0 Hio max w Hx0 Hw) as [[[_ (N & U & W & _ & C & _)]|[]]|[]]; [|done|congruence].
  pose proof (c_started _ _ _ C). congruence.
Qed.

(** A streamer between two streams to whose output the user does not write never
    stalls: while it works it is the listener of both, every event is handled by finitely many calls, and it either
    wants to read or has a request of its own that it will be told of. *)
Theorem stream_to_stream_never_stalls {EC : Type} `{ErrorStack EC} (wqs : strm EC → Z) (x0 : ends EC) (max : Z)
    (w : world (ends EC) EC) (i := si_stream (sin x0)) (o := so_stream (sout x0))
    (Hwqs : ∀ s, pending s = [] → wqs s = 0) (Hio : i ≠ o) (Hx0 : unattached x0)
    (Hw : works wqs x0 max w) (Hst : started (st w) = true) (Hal : foreign (ext w) = false) :
  event_listener (strms (ext w) i) = Some LInput ∧ event_listener (strms (ext w) o) = Some LOutput ∧
  (wantread (strms (ext w) i) = true ∨ omap (own x0) (waiting x0 (ext w)) ≠ []) ∧
  ∀ cs w1, ends_input w cs w1 →
    ∃ w', steps (streamer_program (ends_endpoints wqs)) (Config cs w1 Normal) (Config [] w' Normal).
Proof.
  destruct (ends_works_inv wqs Hwqs x0 Hio max w Hx0 Hw) as [[G|[]]|[]]; [|congruence..].
  split; [apply G|]. split; [apply G|]. split.
  - destruct G as [_ (N & U & W & Q & C & K)]. destruct W as [|p W].
    { left. unfold i. rewrite (c_want _ _ _ C). by apply K. }
    right. rewrite (q_waiting _ _ _ _ _ Q), omap_app. pose proof (q_ids _ _ _ _ _ Q) as Hp. csimpl in *.
    injection Hp as Hp _. unfold own at 2. rewrite decide_True by lia. by destruct (omap (own x0) U).
  - intros cs w1 Hin. destruct (ends_turn_runs wqs Hwqs x0 Hio w cs w1 Hx0 G Hin) as (w' & S & _). by exists w'.
Qed.

(** *** Runs *)

Abbreviation EL := (list error_code).

Inductive event :=
| Data (j : nat) (data : bytes) | End (j : nat) | Done (j : nat) (e : EL) | Told (j : nat) | Stopped
| UserWrite (j : nat) (data : bytes).

Definition wqs (s : strm EL) : Z := Z.of_nat (length (concat (pending s).*2)).

Definition ex_event (a : event) (w : world (ends EL) EL) : list (scall (ecode EL) EL) * world (ends EL) EL :=
  match a with
  | Data j data => (to_listener (λ l, OnRead l data []) (strms (ext w) j), w)
  | End j => (to_listener OnEof (strms (ext w) j), w)
  | Done j e => ([], with_ends (on_strm j (write_done e) (ext w)) w)
  | Told j =>
      match untold (strms (ext w) j) with
      | (r, d, e) :: _ => (to_listener (λ l, OnWrite l e r) (strms (ext w) j), with_ends (on_strm j write_told (ext w)) w)
      | [] => ([], with_ends (on_strm j (set_result (read_result (strms (ext w) j))) (ext w)) w)
      end
  | Stopped => ([CApi Stop], w)
  | UserWrite j data => ([], with_ends (user_write j data (ext w)) w)
  end.

Definition ex_turn (a : event) (w : world (ends EL) EL) : option (world (ends EL) EL) :=
  let (cs, w1) := ex_event a w in
  match run (streamer_program (ends_endpoints wqs)) 40 (Config cs w1 Normal) with
  | Config [] w' Normal => Some w'
  | _ => None
  end.

Fixpoint ex_turns (l : list event) (w : world (ends EL) EL) : option (world (ends EL) EL) :=
  match l with
  | [] => Some w
  | a :: l => if started (st w) then w' ← ex_turn a w; ex_turns l w' else None
  end.

Definition ex_start (x0 : ends EL) : world (ends EL) EL :=
  mem (run (streamer_program (ends_endpoints wqs)) 40 (Config [CApi Start] (mkWorld (new_streamer 4) [] x0) Normal)).

Definition few (a : event) (w : world (ends EL) EL) : Prop :=
  match a with
  | Data _ _ => Z.of_nat (length (given (ext w))) < 2 ^ 64 - 1
  | _ => True
  end.

Lemma ex_event_input a w : few a w → ends_input w (ex_event a w).1 (ex_event a w).2.
Proof.
  destruct a as [j data|j|j e|j| |j data]; simpl; intros Ha; try constructor; try done.
  destruct (untold (strms (ext w) j)) as [|[[r d] e] l] eqn:E; [apply in_result|]. simpl. by eapply in_told.
Qed.

(** Not too many data. *)
Fixpoint ex_few (l : list event) (w : world (ends EL) EL) : bool :=
  match l with
  | [] => true
  | a :: l =>
      (Z.of_nat (length (given (ext w))) <? 2 ^ 64 - 1) &&
      match ex_turn a w with Some w' => ex_few l w' | None => false end
  end.

Lemma ex_turns_works x0 l w w0 :
  halted (run (streamer_program (ends_endpoints wqs)) 40 (Config [CApi Start] (mkWorld (new_streamer 4) [] x0) Normal)) →
  cmode (run (streamer_program (ends_endpoints wqs)) 40 (Config [CApi Start] (mkWorld (new_streamer 4) [] x0) Normal)) = Normal →
  ex_start x0 = w0 → ex_turns l w0 = Some w → ex_few l w0 = true → works wqs x0 4 w.
Proof.
  intros Hh Hm Hs Hl Ha. exists w0. split.
  - pose proof (run_steps (streamer_program (ends_endpoints wqs)) 40
      (Config [CApi Start] (mkWorld (new_streamer 4) [] x0) Normal)) as S. unfold ex_start in Hs.
    destruct (run _ 40 _) as [k w1 m]. simpl in *. destruct Hh as [Hk|Hk]; simpl in Hk; [|congruence].
    by subst k w1 m.
  - clear Hh Hm Hs. revert w0 Hl Ha. induction l as [|a l IH]; intros w0 Hl Ha; simpl in Hl, Ha.
    { by injection Hl as ->. }
    destruct (started (st w0)) eqn:S; [|done]. apply andb_true_iff in Ha as [Ha Hr].
    unfold ex_turn in Hl, Hr. pose proof (ex_event_input a w0) as Hin. destruct (ex_event a w0) as [cs w1].
    pose proof (run_steps (streamer_program (ends_endpoints wqs)) 40 (Config cs w1 Normal)) as Hst.
    destruct (run _ 40 _) as [[|] w2 []]; try done. simpl in Hl.
    eapply rtc_l; [split; [done|exists cs, w1; split; [|exact Hst]]|by apply IH].
    apply Hin. destruct a; simpl; try done. by apply Z.ltb_lt.
Qed.

(** The streams 0 and 1, with a limit of four bytes; the user has a listener on the
    first one, and a request with the second one. *)
Definition ex_ends (si so : nat) : ends EL :=
  mkEnds (mkInput si None false) (mkOutput so None None false)
    (λ j, mkStrm (if decide (j = 0)%nat then Some (LUser 5) else None) true []
            (if decide (j = 1)%nat then [(0%nat, ["z"%char])] else []) [] [])
    (λ _, 1%nat) [] false [] false.

Definition ex_state (si so : nat) (l : list event) : world (ends EL) EL :=
  default (ex_start (ex_ends si so)) (ex_turns l (ex_start (ex_ends si so))).

Lemma ex_ends_unattached : unattached (ex_ends 0 1).
Proof.
  split; [| |by repeat constructor|done].
  - intros j l. simpl. destruct (decide _); [|done]. intros [= <-]. by exists 5%nat.
  - done.
Qed.

Lemma wqs_empty s : pending s = [] → wqs s = 0.
Proof. unfold wqs. by intros ->. Qed.

Lemma ex_state_works l :
  (if ex_turns l (ex_start (ex_ends 0 1)) is Some _ then true else false) && ex_few l (ex_start (ex_ends 0 1)) = true →
  works wqs (ex_ends 0 1) 4 (ex_state 0 1 l).
Proof.
  intros [Ht Ha]%andb_true_iff. unfold ex_state. destruct (ex_turns l _) as [w|] eqn:E; [|done].
  eapply ex_turns_works; [| |done|exact E|done]; [left|]; vm_compute; reflexivity.
Qed.

Definition ex_busy : list event :=
  [Data 0 ["a"; "b"]%char; Done 1 []; Told 1; Data 0 ["c"; "d"; "e"; "f"]%char].
Definition ex_copied : list event := ex_busy ++ [End 0; Done 1 []; Told 1; Done 1 []; Told 1].

Lemma stream_to_stream_copies_witness :
  (given (ext (ex_state 0 1 ex_copied)) = [["a"; "b"]; ["c"; "d"; "e"; "f"]]%char ∧
   finishes (ext (ex_state 0 1 ex_copied)) = [[]]) ∧
  event_listener (strms (ext (ex_state 0 1 ex_copied)) 0) = Some (LUser 5).
Proof.
  split; [vm_compute; by split|].
  apply (stream_to_stream_copies wqs (ex_ends 0 1) 4 (ex_state 0 1 ex_copied)).
  - apply wqs_empty.
  - discriminate.
  - apply ex_ends_unattached.
  - apply ex_state_works. vm_compute. reflexivity.
  - vm_compute. reflexivity.
Defined.

Lemma stream_to_stream_never_stalls_witness :
  event_listener (strms (ext (ex_state 0 1 ex_busy)) 1) = Some LOutput ∧
  wantread (strms (ext (ex_state 0 1 ex_busy)) 0) = false.
Proof.
  split; [|vm_compute; reflexivity].
  apply (stream_to_stream_never_stalls wqs (ex_ends 0 1) 4 (ex_state 0 1 ex_busy)).
  - apply wqs_empty.
  - discriminate.
  - apply ex_ends_unattached.
  - apply ex_state_works. vm_compute. reflexivity.
  - vm_compute. reflexivity.
  - vm_compute. reflexivity.
Defined.

(** ** What the code does not do *)

(** Once the output counts, it counts every request to write of the stream, also
    those that the user makes: a copy is reported as successful while the last chunk
    was not sent. *)
Definition ex_foreign : list event :=
  ex_busy ++ [UserWrite 1 ["y"]%char; Data 0 ["g"]%char; End 0; Done 1 []; Told 1; Done 1 []; Told 1; Done 1 []; Told 1].
Theorem streamer_counts_foreign_writes :
  let x := ext (ex_state 0 1 ex_foreign) in
  works wqs (ex_ends 0 1) 4 (ex_state 0 1 ex_foreign) ∧ finishes x = [[]] ∧ given x = [["a"; "b"]; ["c"; "d"; "e"; "f"]; ["g"]]%char ∧
  pending (strms x 1) = [(4%nat, ["g"]%char)].
Proof. cbv zeta. split; [apply ex_state_works; vm_compute; reflexivity|]. vm_compute. by split_and!. Qed.

(** A streamer from a stream to itself does not echo: the output takes the place of
    the input as the listener; when it is stopped the input, which is not its
    listener before, stays on the stream. *)
Theorem streamer_no_echo :
  let x := ext (ex_state 0 0 [Data 0 ["a"; "b"]%char; Stopped]) in
  given x = [] ∧ finishes x = [[Std operation_canceled]] ∧
  event_listener (strms (ext (ex_start (ex_ends 0 0))) 0) = Some LOutput ∧
  event_listener (strms x 0) = Some LInput.
Proof. vm_compute. by split_and!. Qed.
