(* ===== verification/Watchers.v ===== *)
(** Watchers: [Signal.h], [Signal.cc], [Async.cc], [Idle.cc], [Check.cc], [Prepare.cc],
    [Poll.cc], [FsEvent.cc], their interfaces in [backend/] and their classes in
    [backend-uv/src/].

    A watcher covers one libuv handle, which calls back when something happens.  The
    seven classes have the same state and are one record here; what differs is what
    they start and what their callbacks are told.  The user's callbacks are any code,
    which may call the watcher again; libuv is a parameter. *)
From S2P Require Import Prelude Machine Errors Util.
#[local] Open Scope Z_scope.

(** ** Data *)

Inductive wkind := KSignal | KAsync | KIdle | KCheck | KPrepare | KPoll | KFsEvent.

(** The functions of libuv that start a handle, and what its callbacks are told. *)
Inductive uv_start_call :=
| uv_signal_start (signum : Z) | uv_signal_start_oneshot (signum : Z)
| uv_idle_start | uv_check_start | uv_prepare_start
| uv_poll_start (events : Z)
| uv_fs_event_start (path : string) (flags : Z).
Inductive uv_event :=
| uv_told                                        (* async, idle, check, prepare *)
| uv_signal_told (signum : Z)
| uv_poll_told (status : option uv_errno) (events : Z)
| uv_fs_event_told (filename : option string) (events : Z) (status : option uv_errno).

(** What the user's callbacks are told. *)
Inductive payload :=
| Nothing
| OfSignal (signum : Z)
| OfPoll (events : Z) (err : option error_code)
| OfFsEvent (file : string) (events : Z) (err : option error_code).

(** [FsEventImpl::Event], [Flags]; the constants of [uv.h]. *)
Definition RENAME : Z := 1.
Definition CHANGE : Z := 2.
Definition RECURSIVE : Z := 1.
Definition UV_RENAME : Z := 1.
Definition UV_CHANGE : Z := 2.
Definition UV_FS_EVENT_RECURSIVE : Z := 4.

(** [uv_send]: [uv_async_send]; [uv_ref_ S b]: [uv_ref], [uv_unref]. *)
Class UvWatch (S : Type) := {
  uv_start : uv_start_call → S → S * option uv_errno;
  uv_stop : wkind → S → S * option uv_errno;
  uv_send : S → S * option uv_errno;
  uv_referenced : bool → S → S;
  uv_is_active : S → bool;
  uv_has_ref : S → bool
}.

(** A handle that is stopped is not active; the reference is what it was set to. *)
Class UvWatchLaws (S : Type) `{UvWatch S} := {
  stop_active k s : uv_is_active (uv_stop k s).1 = false;
  stop_ref k s : uv_has_ref (uv_stop k s).1 = uv_has_ref s;
  start_ref c s : uv_has_ref (uv_start c s).1 = uv_has_ref s;
  send_ref s : uv_has_ref (uv_send s).1 = uv_has_ref s;
  ref_ref b s : uv_has_ref (uv_referenced b s) = b;
  ref_active b s : uv_is_active (uv_referenced b s) = uv_is_active s
}.

(** ** Names of signals *)

(** The names in the order they are stored; a platform defines the numbers of some. *)
Definition signal_names : list string :=
  ["SIGINT"; "SIGILL"; "SIGABRT"; "SIGFPE"; "SIGSEGV"; "SIGTERM"; "SIGHUP"; "SIGQUIT"; "SIGTRAP"; "SIGBUS";
   "SIGKILL"; "SIGUSR1"; "SIGUSR2"; "SIGPIPE"; "SIGALRM"; "SIGSTKFLT"; "SIGCHLD"; "SIGCONT"; "SIGSTOP";
   "SIGTSTP"; "SIGTTIN"; "SIGTTOU"; "SIGURG"; "SIGXCPU"; "SIGXFSZ"; "SIGVTALRM"; "SIGPROF"; "SIGWINCH";
   "SIGIO"; "SIGPOLL"; "SIGPWR"; "SIGSYS"]%string.

Section Names.
Context (NSIG : Z) (signo : string → option Z).

(** [init] *)
Definition signames : gmap Z string :=
  fold_left (λ m s, match signo s with Some n => <[n := s]> m | None => m end) signal_names ∅.

(** [Signal::signame]: [None] is the exception. *)
Definition signame (signum : Z) : option string :=
  if (signum <? 0) || (NSIG <=? signum) then None else Some (default ""%string (signames !! signum)).
End Names.

(** ** The watcher *)

Section Watcher.
Context {S C W Exn : Type} `{UvWatch S}.

(** What the user's code is called with: the callbacks of [event], or the listener. *)
Inductive uevent := OnEvent (p : payload) | OnListener (l : C) (p : payload).

(** [event]: the callbacks; [ret]: what the last method returned; [exns]: the exceptions
    that reached the loop; [ulog]: the user code called so far, a ghost. *)
Record watcher := mkWatcher {
  kind : wkind; lib : S; event : list C; _listener : option C; _weak : bool; _path : string;
  ret : option error_code; exns : list Exn; user : W; ulog : list uevent
}.

Definition new_watcher (k : wkind) (s : S) (u : W) : watcher := mkWatcher k s [] None false "" None [] u [].

(** The calls of a user; [call_now] is of the classes that have it. *)
Inductive wapi :=
| SignalStart (signum : Z) (cb : option C) | SignalOnce (signum : Z) (cb : option C)
| IdleStart (cb : option C) | CheckStart (cb : option C) | PrepareStart (cb : option C)
| PollStart (events : Z) (cb : option C)
| FsEventStart (path : string) (flags : Z) (cb : option C)
| AsyncSend
| StopWatcher | ResetWatcher | ClearWatcher
| WeakWatcher (value : bool) | ListenerWatcher (l : option C)
| CallNow (p : payload).

Inductive wcall := Api (a : wapi) | Handle (p : payload) | HandleListener (p : payload) | User (e : uevent)
| Ltry (p : payload) | LtryEnd.

Context (user_code : uevent → watcher → W * (list wapi + Exn)).
(** The exception of [send()]. *)
Context (error_exn : error_code → Exn).

Definition with_lib (f : S → S) (w : watcher) : watcher :=
  mkWatcher (kind w) (f (lib w)) (event w) (_listener w) (_weak w) (_path w) (ret w) (exns w) (user w) (ulog w).
Definition with_path (p : string) (w : watcher) : watcher :=
  mkWatcher (kind w) (lib w) (event w) (_listener w) (_weak w) p (ret w) (exns w) (user w) (ulog w).
Definition with_ret (e : option error_code) (w : watcher) : watcher :=
  mkWatcher (kind w) (lib w) (event w) (_listener w) (_weak w) (_path w) e (exns w) (user w) (ulog w).
Definition add_event (cb : option C) (w : watcher) : watcher :=
  mkWatcher (kind w) (lib w) (match cb with Some c => event w ++ [c] | None => event w end) (_listener w)
    (_weak w) (_path w) (ret w) (exns w) (user w) (ulog w).
Definition event_listener (l : option C) (w : watcher) : watcher :=
  mkWatcher (kind w) (lib w) (event w) l (_weak w) (_path w) (ret w) (exns w) (user w) (ulog w).
Definition keep_exn (e : Exn) (w : watcher) : watcher :=
  mkWatcher (kind w) (lib w) (event w) (_listener w) (_weak w) (_path w) (ret w) (exns w ++ [e]) (user w) (ulog w).
Definition note (e : uevent) (u : W) (w : watcher) : watcher :=
  mkWatcher (kind w) (lib w) (event w) (_listener w) (_weak w) (_path w) (ret w) (exns w) u (ulog w ++ [e]).

(** *** The backend *)

Abbreviation fallible := (S → S * option uv_errno).

Definition uvsignal_start (signum : Z) : fallible := uv_start (uv_signal_start signum).
Definition uvsignal_once (signum : Z) : fallible := uv_start (uv_signal_start_oneshot signum).
Definition uvsignal_stop : fallible := uv_stop KSignal.
Definition uvpoll_start (events : Z) : fallible := uv_start (uv_poll_start events).
Definition uvpoll_stop : fallible := uv_stop KPoll.
(** The next six do not look at the error of libuv. *)
Definition uvidle_start (s : S) : S := (uv_start uv_idle_start s).1.
Definition uvidle_stop (s : S) : S := (uv_stop KIdle s).1.
Definition uvcheck_start (s : S) : S := (uv_start uv_check_start s).1.
Definition uvcheck_stop (s : S) : S := (uv_stop KCheck s).1.
Definition uvprepare_start (s : S) : S := (uv_start uv_prepare_start s).1.
Definition uvprepare_stop (s : S) : S := (uv_stop KPrepare s).1.
(** The flags of libuv are computed, but it is given the others. *)
Definition uv_flags (flags : Z) : Z :=
  if negb (Z.land flags RECURSIVE =? 0) then Z.lor 0 UV_FS_EVENT_RECURSIVE else 0.
Definition uvfsevent_start (path : string) (flags : Z) : fallible :=
  let _ := uv_flags flags in uv_start (uv_fs_event_start path flags).
Definition uvfsevent_stop : fallible := uv_stop KFsEvent.
Definition uvasync_send : fallible := uv_send.

(** What the callbacks given to libuv tell the watcher. *)
Definition uvsignal_call (signum : Z) : payload := OfSignal signum.
Definition uvpoll_call (status : option uv_errno) (events : Z) : payload := OfPoll events (uvx_ce status).
Definition fs_events (uv_events : Z) : Z :=
  let events := 0 in
  let events := if negb (Z.land uv_events UV_RENAME =? 0) then Z.lor events RENAME else events in
  if negb (Z.land uv_events UV_CHANGE =? 0) then Z.lor events CHANGE else events.
Definition on_fs_event (filename : option string) (uv_events : Z) (status : option uv_errno) : payload :=
  let sv := match status, filename with None, Some f => f | _, _ => ""%string end in
  OfFsEvent sv (fs_events uv_events) (uvx_ce status).
Definition told (e : uv_event) : payload :=
  match e with
  | uv_told => Nothing
  | uv_signal_told n => uvsignal_call n
  | uv_poll_told status events => uvpoll_call status events
  | uv_fs_event_told filename events status => on_fs_event filename events status
  end.

(** *** Starting and stopping *)

(** A call of the backend that returns an error code. *)
Definition impl_call (f : fallible) (w : watcher) : watcher :=
  let (s, err) := f (lib w) in with_ret (uvx_ce err) (with_lib (λ _, s) w).

Definition signal_start (signum : Z) (cb : option C) (w : watcher) : watcher :=
  impl_call (uvsignal_start signum) (add_event cb w).
Definition signal_once (signum : Z) (cb : option C) (w : watcher) : watcher :=
  impl_call (uvsignal_once signum) (add_event cb w).
Definition signal_stop : watcher → watcher := impl_call uvsignal_stop.
Definition poll_start (events : Z) (cb : option C) (w : watcher) : watcher :=
  impl_call (uvpoll_start events) (add_event cb w).
Definition poll_stop : watcher → watcher := impl_call uvpoll_stop.
Definition idle_start (cb : option C) (w : watcher) : watcher := with_lib uvidle_start (add_event cb w).
Definition idle_stop : watcher → watcher := with_lib uvidle_stop.
Definition check_start (cb : option C) (w : watcher) : watcher := with_lib uvcheck_start (add_event cb w).
Definition check_stop : watcher → watcher := with_lib uvcheck_stop.
Definition prepare_start (cb : option C) (w : watcher) : watcher := with_lib uvprepare_start (add_event cb w).
Definition prepare_stop : watcher → watcher := with_lib uvprepare_stop.
Definition fs_event_start (path : string) (flags : Z) (cb : option C) (w : watcher) : watcher :=
  impl_call (uvfsevent_start path flags) (with_path path (add_event cb w)).
Definition fs_event_stop : watcher → watcher := impl_call uvfsevent_stop.

(** [create()] of the classes: a new watcher that is started.  What [start()] has returned,
    which is kept in the watcher here, is left to the destructor of [excepted] by the code. *)
Definition signal_create (signum : Z) (cb : C) (s : S) (u : W) : watcher :=
  signal_start signum (Some cb) (new_watcher KSignal s u).
Definition signal_create_once (signum : Z) (cb : C) (s : S) (u : W) : watcher :=
  signal_once signum (Some cb) (new_watcher KSignal s u).
Definition idle_create (cb : C) (s : S) (u : W) : watcher := idle_start (Some cb) (new_watcher KIdle s u).
Definition check_create (cb : C) (s : S) (u : W) : watcher := check_start (Some cb) (new_watcher KCheck s u).
Definition prepare_create (cb : C) (s : S) (u : W) : watcher := prepare_start (Some cb) (new_watcher KPrepare s u).
Definition fs_event_create (path : string) (flags : Z) (cb : C) (s : S) (u : W) : watcher :=
  fs_event_start path flags (Some cb) (new_watcher KFsEvent s u).

(** [stop()] of the classes that have it *)
Definition stop (w : watcher) : watcher :=
  match kind w with
  | KSignal => signal_stop w | KIdle => idle_stop w | KCheck => check_stop w | KPrepare => prepare_stop w
  | KPoll => poll_stop w | KFsEvent => fs_event_stop w | KAsync => w
  end.

(** [Handle::weak] *)
Definition weak (value : bool) (w : watcher) : watcher :=
  if decide (_weak w = value) then w else
  mkWatcher (kind w) (uv_referenced (negb value) (lib w)) (event w) (_listener w) value (_path w)
    (ret w) (exns w) (user w) (ulog w).

(** [reset()]: what [stop()] returns is dropped. *)
Definition signal_reset (w : watcher) : watcher := with_ret (ret w) (signal_stop w).
Definition poll_reset (w : watcher) : watcher := with_ret (ret w) (poll_stop w).
Definition fs_event_reset (w : watcher) : watcher := with_ret (ret w) (impl_call uvfsevent_stop w).
Definition idle_reset : watcher → watcher := with_lib uvidle_stop.
Definition check_reset : watcher → watcher := with_lib uvcheck_stop.
Definition prepare_reset : watcher → watcher := with_lib uvprepare_stop.
Definition reset (w : watcher) : watcher :=
  match kind w with
  | KSignal => signal_reset w | KIdle => idle_reset w | KCheck => check_reset w | KPrepare => prepare_reset w
  | KPoll => poll_reset w | KFsEvent => fs_event_reset w | KAsync => w
  end.

(** [clear()]: all but the first end with [clear_rest]. *)
Definition clear_rest (w : watcher) : watcher :=
  let w := weak false w in
  mkWatcher (kind w) (lib w) [] None (_weak w) (_path w) (ret w) (exns w) (user w) (ulog w).
Definition async_clear : watcher → watcher := clear_rest.
Definition signal_clear (w : watcher) : watcher := clear_rest (signal_reset w).
Definition poll_clear (w : watcher) : watcher := clear_rest (poll_reset w).
Definition fs_event_clear (w : watcher) : watcher := clear_rest (fs_event_reset w).
Definition idle_clear (w : watcher) : watcher := clear_rest (idle_reset w).
Definition check_clear (w : watcher) : watcher := clear_rest (check_reset w).
Definition prepare_clear (w : watcher) : watcher := clear_rest (prepare_reset w).
Definition clear (w : watcher) : watcher :=
  match kind w with
  | KSignal => signal_clear w | KIdle => idle_clear w | KCheck => check_clear w | KPrepare => prepare_clear w
  | KPoll => poll_clear w | KFsEvent => fs_event_clear w | KAsync => async_clear w
  end.

(** [Async::send] with [UVAsync::send] *)
Definition async_send (w : watcher) : watcher * outcome wcall Exn :=
  let (s, err) := uvasync_send (lib w) in
  (with_lib (λ _, s) w, match err with Some e => Throws (error_exn (uvx_error e)) | None => Calls [] end).

(** *** Events *)

(** The callbacks, then the listener that there is afterwards. *)
Definition tell (p : payload) : list wcall := [User (OnEvent p); HandleListener p].
Definition handle_signal (signum : Z) : list wcall := tell (OfSignal signum).
Definition handle_poll (events : Z) (err : option error_code) : list wcall := tell (OfPoll events err).
Definition handle_fs_event (file : string) (events : Z) (err : option error_code) : list wcall :=
  tell (OfFsEvent file events err).
Definition handle_async : list wcall := tell Nothing.
Definition handle_idle : list wcall := tell Nothing.
Definition handle_check : list wcall := tell Nothing.
Definition handle_prepare : list wcall := tell Nothing.
Definition handle (p : payload) (k : wkind) : list wcall :=
  match p, k with
  | OfSignal n, _ => handle_signal n
  | OfPoll events err, _ => handle_poll events err
  | OfFsEvent file events err, _ => handle_fs_event file events err
  | Nothing, KIdle => handle_idle
  | Nothing, KCheck => handle_check
  | Nothing, KPrepare => handle_prepare
  | Nothing, _ => handle_async
  end.

Definition api (a : wapi) (w : watcher) : watcher * outcome wcall Exn :=
  match a with
  | SignalStart n cb => (signal_start n cb w, Calls [])
  | SignalOnce n cb => (signal_once n cb w, Calls [])
  | IdleStart cb => (idle_start cb w, Calls [])
  | CheckStart cb => (check_start cb w, Calls [])
  | PrepareStart cb => (prepare_start cb w, Calls [])
  | PollStart n cb => (poll_start n cb w, Calls [])
  | FsEventStart p n cb => (fs_event_start p n cb w, Calls [])
  | AsyncSend => async_send w
  | StopWatcher => (stop w, Calls [])
  | ResetWatcher => (reset w, Calls [])
  | ClearWatcher => (clear w, Calls [])
  | WeakWatcher b => (weak b w, Calls [])
  | ListenerWatcher l => (event_listener l w, Calls [])
  | CallNow p => (w, Calls [Handle p])
  end.

Definition wbody (c : wcall) (w : watcher) : watcher * outcome wcall Exn :=
  match c with
  | Api a => api a w
  | Handle p => (w, Calls (handle p (kind w)))
  | HandleListener p => (w, Calls match _listener w with Some l => [User (OnListener l p)] | None => [] end)
  | User e =>
      let (u, r) := user_code e w in
      (note e u w, match r with inl l => Calls (Api <$> l) | inr x => Throws x end)
  | Ltry p => (w, Calls [Handle p; LtryEnd])
  | LtryEnd => (w, Calls [])
  end.

(** [ltry] captures what is thrown. *)
Definition wunwind (c : wcall) (e : Exn) (w : watcher) : watcher * outcome wcall Exn :=
  match c with LtryEnd => (keep_exn e w, Calls []) | _ => (w, Throws e) end.

Definition watcher_program : program watcher wcall Exn := Program wbody wunwind.

(** The loop calls back a handle that is active, and what the user does outside of
    callbacks; a one-shot handle is stopped by libuv. *)
Inductive winput : watcher → list wcall → watcher → Prop :=
| in_event w e s : uv_is_active (lib w) = true → uv_has_ref s = uv_has_ref (lib w) →
    winput w [Ltry (told e)] (with_lib (λ _, s) w)
| in_api w a : winput w [Api a] w.

Definition wreachable (k : wkind) (s : S) (u : W) : config watcher wcall Exn → Prop :=
  reachable watcher_program (λ w, w = new_watcher k s u) winput.
End Watcher.

(** ** Polling a descriptor *)

(** [Poll::Poll], which duplicates a descriptor that it only shares, and the end of the
    handle: libuv does not close what it polled. *)
Class UvPoll (Σ : Type) := {
  uv_poll_init : Z → Σ → Σ * option uv_errno;
  uv_poll_close : Z → Σ → Σ
}.
Inductive Ownership := TRANSFER | SHARE.

Section Poll.
Context {Σ SA : Type} `{Sys Σ SA} `{UvPoll Σ}.

(** The descriptor that the new handle polls. *)
Definition new_poll (fd : Z) (ownership : Ownership) : sysm Z :=
  bind (match ownership with SHARE => file_dup fd | TRANSFER => Util.ret fd end) (λ fd σ,
  match uv_poll_init fd σ with
  | (σ, None) => (σ, inl fd)
  | (σ, Some e) => (σ, inr (Code (uvx_error e)))
  end).
Definition destroy_poll (fd : Z) (σ : Σ) : Σ := uv_poll_close fd σ.
End Poll.

(** ** Lemmas *)

Section Lemmas.
#[local] Set Default Proof Using "Type*".
Context {S C W Exn : Type} `{UvWatchLaws S}.
Context (user_code : uevent (C:=C) → watcher (S:=S) (C:=C) (W:=W) (Exn:=Exn) → W * (list (wapi (C:=C)) + Exn)).
Context (error_exn : error_code → Exn).
Abbreviation watcher := (watcher (S:=S) (C:=C) (W:=W) (Exn:=Exn)).
Abbreviation prog := (watcher_program user_code error_exn).
Implicit Types (w : watcher).

(** The libuv handle is referenced unless the watcher is weak. *)
Definition faithful w : Prop := uv_has_ref (lib w) = negb (_weak w).

Lemma impl_call_faithful f w : (∀ s, uv_has_ref (f s).1 = uv_has_ref s) → faithful w → faithful (impl_call f w).
Proof using Type.
  unfold faithful, impl_call. intros Hf Hw. specialize (Hf (lib w)). destruct (f (lib w)). simpl in *. congruence.
Qed.

(** Stopping, as [stop()], [reset()] and [clear()] do it. *)
Definition stops (f : watcher → watcher) : Prop := ∀ w,
  kind (f w) = kind w ∧ _weak (f w) = _weak w ∧ uv_has_ref (lib (f w)) = uv_has_ref (lib w) ∧
  (kind w ≠ KAsync → uv_is_active (lib (f w)) = false).

Lemma impl_stops k w : let w' := impl_call (uv_stop k) w in
  kind w' = kind w ∧ _weak w' = _weak w ∧ uv_has_ref (lib w') = uv_has_ref (lib w) ∧ uv_is_active (lib w') = false.
Proof using H0.
  unfold impl_call. pose proof (stop_ref k (lib w)). pose proof (stop_active k (lib w)).
  by destruct (uv_stop k (lib w)).
Qed.

Lemma stop_stops : stops stop.
Proof using H0.
  intros w. assert (∀ k, let w' := with_lib (λ s, (uv_stop k s).1) w in
    kind w' = kind w ∧ _weak w' = _weak w ∧ uv_has_ref (lib w') = uv_has_ref (lib w) ∧ uv_is_active (lib w') = false) as Hl.
  { intros k. simpl. split_and!; [done|done|apply stop_ref|apply stop_active]. }
  pose proof (λ k, impl_stops k w) as Hi. unfold stop.
  destruct (kind w) eqn:K; [specialize (Hi KSignal)|by split_and!|specialize (Hl KIdle)|specialize (Hl KCheck)|
    specialize (Hl KPrepare)|specialize (Hi KPoll)|specialize (Hi KFsEvent)]; simpl in Hi, Hl.
  all: first [destruct Hi as (E1 & E2 & E3 & E4); by split_and!|destruct Hl as (E1 & E2 & E3 & E4); by split_and!].
Qed.

Lemma reset_stops : stops reset.
Proof using H0.
  intros w. destruct (stop_stops w) as (E1 & E2 & E3 & E4). unfold stop, reset in *. by destruct (kind w).
Qed.

Lemma clear_reset w : clear w = clear_rest (reset w).
Proof using Type. unfold clear, reset. by destruct (kind w). Qed.

Lemma stops_faithful f w : stops f → faithful w → faithful (f w).
Proof using Type. intros Hf Hw. destruct (Hf w) as (_ & E2 & E3 & _). unfold faithful in *. congruence. Qed.

Lemma weak_faithful b w : faithful w → faithful (weak b w).
Proof using H0. intros Hw. unfold weak. case_decide; [done|]. unfold faithful. simpl. apply ref_ref. Qed.

Lemma api_faithful a w : faithful w → faithful (api error_exn a w).1.
Proof.
  intros Hw.
  destruct a as [n cb|n cb|cb|cb|cb|n cb|p n cb| | | | |b|l|p]; simpl; try done;
    try (apply impl_call_faithful; [intros; apply start_ref|done]).
  1-3: unfold faithful in *; etrans; [apply start_ref|done].
  - unfold async_send, uvasync_send. pose proof (send_ref (lib w)) as Hs. destruct (uv_send (lib w)) as [s err]. unfold faithful in *.
    simpl in *. congruence.
  - by apply stops_faithful, Hw; apply stop_stops.
  - by apply stops_faithful, Hw; apply reset_stops.
  - rewrite clear_reset. apply (weak_faithful false (reset w)). apply stops_faithful, Hw. apply reset_stops.
  - by apply weak_faithful.
Qed.

Lemma reachable_faithful k s u c : uv_has_ref s = true → wreachable user_code error_exn k s u c → faithful (mem c).
Proof.
  intros Hs. revert c. apply reachable_inv.
  - by intros ? ->.
  - intros [[|f st] w m] c' Hf Hstep; [done|]. simpl in *.
    destruct m as [|e|]; simpl in Hstep; [| |done].
    + assert (faithful (wbody user_code error_exn f w).1) as Hb.
      { destruct f as [a|p|p|e|p|]; simpl; try done; [by apply api_faithful|]. by destruct (user_code e w). }
      injection Hstep as <-. by destruct (wbody user_code error_exn f w) as [w' []].
    + injection Hstep as <-. by destruct f.
  - intros w m cs w' Hf _ Hin. destruct Hin; [|done]. unfold faithful in *. simpl in *. congruence.
Qed.
End Lemmas.


(** ** What the watchers do *)

(** [clear()] leaves the watcher "as if the handle has been created anew" ([doc/handle.md]),
    whatever was done before, and the reference of the libuv handle always says whether
    the watcher is weak. *)
Theorem watcher_clear_as_new {S C W Exn : Type} `{UvWatchLaws S}
    (user_code : uevent (C:=C) → watcher (S:=S) (C:=C) (W:=W) (Exn:=Exn) → W * (list (wapi (C:=C)) + Exn))
    (error_exn : error_code → Exn) (k : wkind) (s : S) (u : W) c
    (Hs : uv_has_ref s = true) (Hc : wreachable user_code error_exn k s u c) :
  uv_has_ref (lib (mem c)) = negb (_weak (mem c)) ∧
  let w := clear (mem c) in
  event w = [] ∧ _listener w = None ∧ _weak w = false ∧ uv_has_ref (lib w) = true ∧
  (kind w ≠ KAsync → uv_is_active (lib w) = false).
Proof.
  pose proof (reachable_faithful user_code error_exn k s u c Hs Hc) as Hf. split; [exact Hf|].
  intros w. unfold w. rewrite clear_reset. clear w. destruct (reset_stops (mem c)) as (E1 & E2 & E3 & E4).
  assert (faithful (weak false (reset (mem c)))) as Hw by by apply weak_faithful, stops_faithful, Hf; apply reset_stops.
  assert (_weak (weak false (reset (mem c))) = false) as Hv by (unfold weak; by case_decide).
  unfold faithful in Hw. rewrite Hv in Hw. split_and!; try done. simpl. unfold weak.
  case_decide; simpl; rewrite ?ref_active, ?E1; done.
Qed.

(** No exception of the user's callbacks gets through to libuv: a call of the loop that
    ends has returned, and what was thrown was kept. *)
Section Captures.
Context {S C W Exn : Type} `{UvWatch S}.
Context (user_code : uevent (C:=C) → watcher (S:=S) (C:=C) (W:=W) (Exn:=Exn) → W * (list (wapi (C:=C)) + Exn)).
Context (error_exn : error_code → Exn) (p : payload).
Abbreviation prog := (watcher_program user_code error_exn).

(** The handler of [ltry] is below all that is pending. *)
Definition guarded (c : config (watcher (S:=S) (C:=C) (W:=W) (Exn:=Exn)) (wcall (C:=C)) Exn) : Prop :=
  cmode c ≠ Aborted ∧
  ((∃ st, stack c = st ++ [LtryEnd]) ∨ (stack c = [Ltry p] ∨ stack c = []) ∧ cmode c = Normal).

Lemma guarded_settle st (r : watcher * outcome wcall Exn) : r.2 ≠ Aborts → guarded (settle (st ++ [LtryEnd]) r).
Proof.
  destruct r as [w [cs|e|]]; intros Hr; [| |done]; (split; [done|left]); [|by exists st].
  exists (cs ++ st). simpl. by rewrite app_assoc.
Qed.

Lemma guarded_step c c' : guarded c → step prog c = Some c' → guarded c'.
Proof.
  destruct c as [k w m]. intros [Hm Hk] Hst. simpl in *. destruct Hk as [[st ->]|[[-> | ->] ->]]; [| |done].
  - destruct st as [|f st]; simpl in Hst.
    + destruct m; [| |done]; injection Hst as <-; (split; [done|right]; split; [by right|done]).
    + destruct m as [|e|]; [| |done]; injection Hst as <-; apply guarded_settle.
      * destruct f as [a|q|q|e|q|]; simpl; try done; [|by destruct (user_code e w) as [u []]].
        destruct a; try done. simpl. unfold async_send. by destruct (uvasync_send (lib w)) as [s []].
      * by destruct f.
  - injection Hst as <-. split; [done|left]. by exists [Handle p].
Qed.

Lemma watcher_captures w c :
  steps prog (Config [Ltry p] w Normal) c → halted c → stack c = [] ∧ cmode c = Normal.
Proof.
  intros Hs Hh. assert (guarded c) as [Hm Hk].
  { apply (steps_inv prog guarded guarded_step _ _ Hs). split; [done|right]. split; [by left|done]. }
  destruct Hh as [Hh|]; [|done]. destruct Hk as [[st E]|[_ ->]]; [|done]. rewrite E in Hh. by destruct st.
Qed.
End Captures.

(** *** Events of a path *)

Lemma land_pow2 n k : 0 ≤ k → Z.land n (2 ^ k) = if Z.testbit n k then 2 ^ k else 0.
Proof.
  intros Hk. apply Z.bits_inj'. intros i Hi. rewrite Z.land_spec, Z.pow2_bits_eqb by done.
  destruct (Z.eqb_spec k i) as [->|Hn].
  - destruct (Z.testbit n i); simpl; [by rewrite Z.pow2_bits_true|by rewrite Z.bits_0].
  - rewrite andb_false_r. destruct (Z.testbit n k); [|by rewrite Z.bits_0]. by rewrite Z.pow2_bits_false.
Qed.

(** The user is told of exactly the events of libuv that have a translation. *)
Lemma fs_events_exact n : fs_events n = Z.land n (Z.lor RENAME CHANGE).
Proof.
  unfold fs_events, UV_RENAME, UV_CHANGE, RENAME, CHANGE. rewrite Z.land_lor_distr_r.
  rewrite (land_pow2 n 0 ltac:(done) : Z.land n 1 = _), (land_pow2 n 1 ltac:(done) : Z.land n 2 = _).
  by destruct (Z.testbit n 0), (Z.testbit n 1).
Qed.

(** *** Names of signals *)

Lemma signames_lookup signo n :
  match signames signo !! n with
  | Some s => s ∈ signal_names ∧ signo s = Some n
  | None => ∀ s, s ∈ signal_names → signo s ≠ Some n
  end.
Proof.
  unfold signames. generalize signal_names. intros l. induction l as [|s l IH] using rev_ind.
  - simpl. rewrite lookup_empty. by intros s ?%elem_of_nil.
  - rewrite fold_left_app. simpl. set (m := fold_left _ l ∅) in *.
    assert (∀ s', s' ∈ l ++ [s] ↔ s' ∈ l ∨ s' = s) as Hel.
    { intros s'. by rewrite elem_of_app, list_elem_of_singleton. }
    destruct (signo s) as [k|] eqn:E; [destruct (decide (k = n)) as [->|Hk]|].
    + rewrite lookup_insert_eq. split; [|done]. apply Hel. by right.
    + rewrite lookup_insert_ne by done. destruct (m !! n) as [s'|].
      * destruct IH. split; [|done]. apply Hel. by left.
      * intros s' [Hs | ->]%Hel; [by apply IH|congruence].
    + destruct (m !! n) as [s'|].
      * destruct IH. split; [|done]. apply Hel. by left.
      * intros s' [Hs | ->]%Hel; [by apply IH|congruence].
Qed.

(** A number in range has the name of a signal with this number, or the empty name when
    there is none; any other number is refused. *)
Lemma signame_exact NSIG signo n :
  match signame NSIG signo n with
  | Some s => 0 ≤ n < NSIG ∧ (signo s = Some n ∨ s = ""%string ∧ ∀ s', s' ∈ signal_names → signo s' ≠ Some n)
  | None => ¬ (0 ≤ n < NSIG)
  end.
Proof.
  unfold signame. destruct ((n <? 0) || (NSIG <=? n)) eqn:E.
  - apply orb_true_iff in E as [E%Z.ltb_lt|E%Z.leb_le]; lia.
  - apply orb_false_iff in E as [E1%Z.ltb_ge E2%Z.leb_gt]. split; [lia|].
    pose proof (signames_lookup signo n) as Hl. destruct (signames signo !! n); simpl; [left; by apply Hl|by right].
Qed.

(** ** What the code does not do *)

(** The flag for watching directories recursively never reaches libuv. *)
Lemma fs_event_never_recursive {S : Type} `{UvWatch S} (s : S) :
  uv_flags RECURSIVE = UV_FS_EVENT_RECURSIVE ∧
  uvfsevent_start "/d" RECURSIVE s = uv_start (uv_fs_event_start "/d" 1) s ∧
  Z.land 1 UV_FS_EVENT_RECURSIVE = 0.
Proof. done. Qed.

(** A watcher of a shared descriptor polls a duplicate, which nothing closes. *)
#[local] Existing Instance Util.ex_sys_calls.
#[local] Instance ex_poll : UvPoll Util.ex_sys := {| uv_poll_init _ σ := (σ, None); uv_poll_close _ σ := σ |}.

Theorem poll_shared_leaks :
  match new_poll 3 SHARE (Util.ex_fails_in false) with
  | (σ, inl fd) => (bool_decide (fd ∈ sys_open (Util.ex_fails_in false)) = false) ∧
                   (bool_decide (fd ∈ sys_open (destroy_poll fd σ)) = true)
  | _ => False
  end.
Proof. by vm_compute. Qed.

(** ** Witnesses *)

(** A libuv handle that is active or not, and referenced or not. *)
#[export] Instance ex_watch : UvWatch (bool * bool) := {|
  uv_start _ s := ((true, s.2), None); uv_stop _ s := ((false, s.2), None); uv_send s := (s, None);
  uv_referenced b s := (s.1, b); uv_is_active := fst; uv_has_ref := snd
|}.
#[export] Instance ex_watch_laws : UvWatchLaws (bool * bool).
Proof. by split. Qed.

(** A signal whose callback makes it weak and throws. *)
Definition ex_code (e : uevent (C:=nat)) (w : watcher (S:=bool * bool) (C:=nat) (W:=nat) (Exn:=nat)) :
    nat * (list (wapi (C:=nat)) + nat) :=
  (S (user w), if decide (user w = 0)%nat then inl [WeakWatcher true; CallNow (OfSignal 9)] else inr 7%nat).
Definition ex_config : config (watcher (S:=bool * bool) (C:=nat) (W:=nat) (Exn:=nat)) (wcall (C:=nat)) nat :=
  run (watcher_program ex_code (λ _, 0%nat)) 20
    (Config [Ltry (told (uv_signal_told 15))]
       (with_lib (λ _, (true, true)) (signal_start 15 (Some 1%nat) (new_watcher KSignal (false, true) 0%nat))) Normal).

Lemma watcher_clear_as_new_witness :
  (exns (mem ex_config) = [7%nat] ∧ _weak (mem ex_config) = true ∧
   ulog (mem ex_config) = [OnEvent (OfSignal 15); OnEvent (OfSignal 9)]) ∧
  event (clear (mem ex_config)) = [].
Proof.
  split; [by vm_compute|].
  apply (watcher_clear_as_new ex_code (λ _, 0%nat) KSignal (false, true) 0%nat ex_config); [reflexivity|].
  eapply reachable_steps; [|apply run_steps]. eapply (reach_input _ _ _ _ Normal); [|discriminate|by apply in_event].
  apply (reach_step _ _ _ (Config [Api (SignalStart 15 (Some 1%nat))] (new_watcher KSignal (false, true) 0%nat) Normal));
    [|reflexivity].
  eapply (reach_input _ _ _ _ Normal); [|discriminate|apply in_api]. by apply reach_init.
Defined.
