(* ===== verification/LoadAverage.v ===== *)
(** The load average of a loop: [backend/LAMetrics.h] and its use in [UVLoop.h].

    The loop can say how long it was idle; a timer takes a sample of this and of the
    clock ten times per interval, into a ring of ten slots, and [get()] compares the
    oldest slot with the present.  The average, a [double], is a rational here. *)
From S2P Require Import Prelude.
From Stdlib Require Import QArith.
#[local] Open Scope Z_scope.

Definition LA_INTERVALS : nat := 10.

(** [TimeRow] *)
Record time_row := mkRow { idle : Z; time : Z }.

(** [times], [ti]; the timer's interval. *)
Record metrics := mkMetrics { times : list time_row; ti : nat; interval : Z }.

(** [repeat]: [uint32_t] arithmetic. *)
Definition la_repeat (nsec : Z) : Z := wrap 32 (nsec * 1000) / Z.of_nat LA_INTERVALS.

(** [LAMetrics::LAMetrics]; [now]: what the provider and the clock say. *)
Definition new_metrics (nsec : Z) (now : time_row) : metrics :=
  mkMetrics (replicate LA_INTERVALS now) 0 (la_repeat nsec).

Definition next_idx (m : metrics) : nat := if decide (ti m = LA_INTERVALS - 1)%nat then 0%nat else (ti m + 1)%nat.

(** [handle_timer] *)
Definition handle_timer (now : time_row) (m : metrics) : metrics :=
  mkMetrics (<[next_idx m := now]> (times m)) (next_idx m) (interval m).

(** [get]: [None] is an index out of range. *)
Definition get (now : time_row) (m : metrics) : option Q :=
  first ← times m !! next_idx m;
  let idle := idle now -₆₄ idle first in
  let total := time now -₆₄ time first in
  Some (if total =? 0 then 0%Q else (inject_Z (wrap 64 (total - idle)) / inject_Z total)%Q).

(** [UVLoop::track_load_average], [get_load_average]: the loop's metrics, if any, with
    the wish of idle times in the configuration of libuv. *)
Definition track_load_average (nsec : Z) (now : time_row) : option metrics :=
  if nsec =? 0 then None else Some (new_metrics nsec now).
Definition get_load_average (now : time_row) (la : option metrics) : option Q :=
  match la with Some m => get now m | None => Some 0%Q end.

(** ** The ring *)

(** The sample [j] ticks ago, of the ticks [l]; before the first tick it is that of the
    constructor. *)
Definition ago (init : time_row) (l : list time_row) (j : nat) : time_row := default init (reverse l !! j).

Definition ticks (l : list time_row) (m : metrics) : metrics := fold_left (λ m t, handle_timer t m) l m.

Record ring (init : time_row) (l : list time_row) (m : metrics) : Prop := {
  r_length : length (times m) = LA_INTERVALS;
  r_ti : (ti m < LA_INTERVALS)%nat;
  r_slots j : (j < LA_INTERVALS)%nat →
    times m !! ((ti m + LA_INTERVALS - j) `mod` LA_INTERVALS)%nat = Some (ago init l j)
}.

Lemma ring_new nsec init : ring init [] (new_metrics nsec init).
Proof.
  split; [apply length_replicate|simpl; unfold LA_INTERVALS; lia|].
  intros j Hj. apply lookup_replicate. split; [done|]. by apply Nat.mod_upper_bound.
Qed.

Lemma next_idx_mod m : (ti m < LA_INTERVALS)%nat → next_idx m = ((ti m + 1) `mod` LA_INTERVALS)%nat.
Proof.
  unfold next_idx, LA_INTERVALS in *. intros Hi. case_decide as Hd.
  - by rewrite Hd.
  - rewrite Nat.mod_small; lia.
Qed.

Lemma ago_snoc init l t j : ago init (l ++ [t]) j = match j with O => t | S j => ago init l j end.
Proof. unfold ago. rewrite reverse_snoc. by destruct j. Qed.

Lemma slot_zero i j : (i < LA_INTERVALS)%nat → (j < LA_INTERVALS)%nat →
  ((i + LA_INTERVALS - j) `mod` LA_INTERVALS = if decide (j <= i) then i - j else i + LA_INTERVALS - j)%nat.
Proof.
  intros Hi Hj. case_decide.
  - replace (i + LA_INTERVALS - j)%nat with (i - j + 1 * LA_INTERVALS)%nat by lia.
    rewrite Nat.Div0.mod_add. apply Nat.mod_small. lia.
  - apply Nat.mod_small. lia.
Qed.

Lemma ring_tick init l t m : ring init l m → ring init (l ++ [t]) (handle_timer t m).
Proof.
  intros [Hl Hi Hs]. pose proof (next_idx_mod m Hi) as Hn.
  assert (next_idx m < LA_INTERVALS)%nat as Hn' by (rewrite Hn; by apply Nat.mod_upper_bound).
  split; cbn [times ti handle_timer]; [by rewrite length_insert|done|]. intros j Hj. rewrite ago_snoc. destruct j as [|j].
  - rewrite slot_zero, decide_True, Nat.sub_0_r by lia. apply list_lookup_insert_eq. lia.
  - rewrite <-Hs by lia. rewrite !slot_zero by lia.
    assert (next_idx m = if decide (ti m = 9)%nat then 0%nat else ti m + 1)%nat as Hx by done.
    unfold LA_INTERVALS in *. rewrite list_lookup_insert_ne.
    + f_equal. rewrite Hx. repeat case_decide; lia.
    + rewrite Hx. repeat case_decide; lia.
Qed.

Lemma ring_ticks init l nsec : ring init l (ticks l (new_metrics nsec init)).
Proof.
  induction l as [|t l IH] using rev_ind; [apply ring_new|].
  unfold ticks. rewrite fold_left_app. simpl. by apply ring_tick.
Qed.

Lemma ring_first init l m : ring init l m → times m !! next_idx m = Some (ago init l 9).
Proof.
  intros [Hl Hi Hs]. rewrite <-Hs by (unfold LA_INTERVALS; lia). f_equal. rewrite slot_zero by (unfold LA_INTERVALS in *; lia).
  unfold next_idx, LA_INTERVALS in *. repeat case_decide; lia.
Qed.

(** ** Properties *)

(** The busy share of the time between two samples. *)
Definition busy (first now : time_row) : Q :=
  if time now =? time first then 0%Q
  else (inject_Z (time now - time first - (idle now - idle first)) / inject_Z (time now - time first))%Q.

Lemma busy_range first now :
  time first ≤ time now → 0 ≤ idle now - idle first ≤ time now - time first →
  (0 <= busy first now)%Q ∧ (busy first now <= 1)%Q.
Proof.
  intros Ht Hi. unfold busy. destruct (Z.eqb_spec (time now) (time first)) as [He|He]; [by split|].
  assert (0 < inject_Z (time now - time first))%Q as Hp.
  { unfold Qlt. simpl. lia. }
  split.
  - apply Qle_shift_div_l; [done|]. rewrite Qmult_0_l. unfold Qle. simpl. lia.
  - apply Qle_shift_div_r; [done|]. rewrite Qmult_1_l. unfold Qle. simpl. lia.
Qed.

(** The load average is the share of busy time since the tenth last sample, or since
    the tracking began, however often the ring went round; it is between 0 and 1 when
    the loop is never idle longer than time passes. *)
Theorem load_average_is_recent (nsec : Z) (init now : time_row) (l : list time_row)
    (first := ago init l 9)
    (Ht : 0 ≤ time first ≤ time now) (Hi : 0 ≤ idle first ≤ idle now)
    (Hw : time now < 2 ^ 64) (Hb : idle now - idle first ≤ time now - time first) :
  get now (ticks l (new_metrics nsec init)) = Some (busy first now) ∧
  (0 <= busy first now)%Q ∧ (busy first now <= 1)%Q.
Proof.
  assert (0 ≤ idle now - idle first ≤ time now - time first) as Hr by lia.
  split; [|apply busy_range; lia].
  unfold get. rewrite (ring_first init l) by apply ring_ticks. cbn [mbind option_bind]. fold first.
  rewrite (wrap_small 64 (idle now - _)), (wrap_small 64 (time now - _)) by lia. unfold busy.
  destruct (Z.eqb_spec (time now - time first) 0), (Z.eqb_spec (time now) (time first)); try lia; [done|].
  by rewrite wrap_small by lia.
Qed.

(** ** Witnesses *)

(** Twelve ticks: the sample of the third one is the oldest that is left. *)
Definition ex_samples : list time_row := (λ n, mkRow (10 * Z.of_nat n) (40 * Z.of_nat n)) <$> seq 1 12.

Lemma load_average_is_recent_witness :
  ago (mkRow 0 0) ex_samples 9 = mkRow 30 120 ∧
  get (mkRow 130 520) (ticks ex_samples (new_metrics 1 (mkRow 0 0))) = Some (inject_Z 300 / inject_Z 400)%Q.
Proof.
  split; [vm_compute; reflexivity|].
  apply (load_average_is_recent 1 (mkRow 0 0) (mkRow 130 520) ex_samples); vm_compute; repeat split; discriminate.
Defined.

(** ** What the code does not do *)

(** The number of seconds is taken in milliseconds in 32 bits: asked for fifty days,
    the timer ticks every 70 milliseconds. *)
Lemma la_repeat_wraps : la_repeat 4294968 = 70 ∧ la_repeat 4294967 = 429496700.
Proof. by vm_compute. Qed.
