(* ===== verification/SslContext.v ===== *)
(** SSL contexts: [SslContext.h], [SslContext.cc], smart pointers to the contexts of
    OpenSSL, which count their references.

    OpenSSL is a parameter: [SslCtxLib] has the functions used, [SslCtxLaws] what its
    documentation says of the counts.  A count of zero is a context that does not
    exist; to touch it is an error of the program, which the model reports. *)
From S2P Require Import Prelude Errors.
#[local] Open Scope nat_scope.

(** ** OpenSSL *)

Class SslCtxLib (S P M : Type) `{Countable P} := {
  ctx_count : S → P → nat;                       (* references *)
  SSL_CTX_new : M → S → S * option P;
  SSL_CTX_up_ref : P → S → S;
  SSL_CTX_free : P → S → S;
  use_certificate_file : P → string → S → S * bool;
  use_PrivateKey_file : P → string → S → S * bool;
  check_private_key : P → S → S * bool;
  SSLv23_server_method : M
}.

Class SslCtxLaws (S P M : Type) `{SslCtxLib S P M} := {
  new_count m s p q : (SSL_CTX_new m s).2 = Some p →
    ctx_count s p = 0 ∧ ctx_count (SSL_CTX_new m s).1 q = if decide (q = p) then 1 else ctx_count s q;
  new_fails m s q : (SSL_CTX_new m s).2 = None → ctx_count (SSL_CTX_new m s).1 q = ctx_count s q;
  up_ref_count p s q : 0 < ctx_count s p →
    ctx_count (SSL_CTX_up_ref p s) q = if decide (q = p) then ctx_count s q + 1 else ctx_count s q;
  free_count p s q : 0 < ctx_count s p →
    ctx_count (SSL_CTX_free p s) q = if decide (q = p) then ctx_count s q - 1 else ctx_count s q;
  certificate_count p f s q : ctx_count (use_certificate_file p f s).1 q = ctx_count s q;
  key_count p f s q : ctx_count (use_PrivateKey_file p f s).1 q = ctx_count s q;
  check_count p s q : ctx_count (check_private_key p s).1 q = ctx_count s q
}.

(** ** The objects *)

(** The objects of the program by name, with their [ctx]. *)
Record world (S P : Type) := mkWorld { ossl : S; objs : gmap nat (option P) }.
Arguments mkWorld {S P}.
Arguments ossl {S P}.
Arguments objs {S P}.

Section SslContext.
Context {S P M : Type} `{SslCtxLib S P M}.
Implicit Types (w : world S P) (v : option P) (x y : nat).

Definition with_ossl (s : S) w : world S P := mkWorld s (objs w).
Definition set_ctx x v w : world S P := mkWorld (ossl w) (<[x := v]> (objs w)).

(** A call of OpenSSL with a context: it must exist. *)
Definition touch (p : P) (f : S → S) w : option (world S P) :=
  if decide (0 < ctx_count (ossl w) p) then Some (with_ossl (f (ossl w)) w) else None.

Definition retain v w : option (world S P) :=
  match v with Some p => touch p (SSL_CTX_up_ref p) w | None => Some w end.
Definition release v w : option (world S P) :=
  match v with Some p => touch p (SSL_CTX_free p) w | None => Some w end.

(** The constructors: of nothing, of a context, the copy and the move of [y]. *)
Definition ctor x w : option (world S P) := Some (set_ctx x None w).
Definition ctor_value x v w : option (world S P) := retain v (set_ctx x v w).
Definition ctor_copy x y w : option (world S P) :=
  v ← objs w !! y; ctor_value x v w.
Definition ctor_move x y w : option (world S P) :=
  v ← objs w !! y; Some (set_ctx y None (set_ctx x v w)).

Definition dtor x w : option (world S P) :=
  v ← objs w !! x; w ← release v w; Some (mkWorld (ossl w) (delete x (objs w))).

(** [operator=]: the copy releases before it retains; the move swaps. *)
Definition assign_copy x y w : option (world S P) :=
  v ← objs w !! x; w ← release v w;
  v' ← objs w !! y; w ← Some (set_ctx x v' w); retain v' w.
Definition assign_move x y w : option (world S P) :=
  v ← objs w !! x; v' ← objs w !! y; Some (set_ctx y v (set_ctx x v' w)).

(** [attach]: the new object takes over a reference. *)
Definition attach x v w : option (world S P) := w ← ctor_value x v w; release v w.

Definition reset x w : option (world S P) :=
  v ← objs w !! x; w ← release v w; Some (set_ctx x None w).

(** A call of OpenSSL with the context of [create], which nothing checks to be one. *)
Definition with_ctx (ctx : option P) (f : P → S → S * bool) w : option (world S P * bool) :=
  p ← ctx;
  if decide (0 < ctx_count (ossl w) p) then
    let (s, ok) := f p (ossl w) in Some (with_ossl s w, ok)
  else None.

(** [create]: the result is the object [x], or an error and no object. *)
Definition create x (cert_file key_file : string) (method : option M) w : option (world S P * bool) :=
  let (s, ctx) := SSL_CTX_new (default SSLv23_server_method method) (ossl w) in
  w ← attach x ctx (with_ossl s w);
  let fail w := w ← dtor x w; Some (w, false) in
  '(w, ok) ← with_ctx ctx (λ p, use_certificate_file p cert_file) w;
  if negb ok then fail w else
  '(w, ok) ← with_ctx ctx (λ p, use_PrivateKey_file p key_file) w;
  if negb ok then fail w else
  '(w, ok) ← with_ctx ctx check_private_key w;
  if negb ok then fail w else Some (w, true).

(** *** Programs that use contexts *)

(** What a program does with the objects; [RawNew]: it gets a context of its own from
    OpenSSL, whose reference it holds itself. *)
Inductive cop :=
| RawNew (method : M)
| Ctor x
| CtorValue x (p : P)
| CtorCopy x y
| CtorMove x y
| Dtor x
| AssignCopy x y
| AssignMove x y
| Attach x (p : P)
| Reset x
| Create x (cert_file key_file : string) (method : option M).

(** The state, with the references that the program holds itself. *)
Definition state : Type := world S P * (P → nat).

Definition cstep (a : cop) (σ : state) : option state :=
  let '(w, e) := σ in
  let keep (o : option (world S P)) := w ← o; Some (w, e) in
  match a with
  | RawNew m =>
      let (s, ctx) := SSL_CTX_new m (ossl w) in
      Some (with_ossl s w, match ctx with Some p => λ q, if decide (q = p) then e q + 1 else e q | None => e end)
  | Ctor x => keep (ctor x w)
  | CtorValue x p => keep (ctor_value x (Some p) w)
  | CtorCopy x y => keep (ctor_copy x y w)
  | CtorMove x y => keep (ctor_move x y w)
  | Dtor x => keep (dtor x w)
  | AssignCopy x y => keep (assign_copy x y w)
  | AssignMove x y => keep (assign_move x y w)
  | Attach x p => w ← attach x (Some p) w; Some (w, λ q, if decide (q = p) then e q - 1 else e q)
  | Reset x => keep (reset x w)
  | Create x c k m => '(w, _) ← create x c k m w; Some (w, e)
  end.

(** New objects have new names, the others exist; a context that is given to a
    constructor exists, and [attach] is given a reference that the program holds;
    no object is assigned to itself by copy; [SSL_CTX_new] succeeds for [create]. *)
Definition allowed (a : cop) (σ : state) : Prop :=
  let '(w, e) := σ in
  match a with
  | RawNew _ => True
  | Ctor x => objs w !! x = None
  | CtorValue x p => objs w !! x = None ∧ 0 < ctx_count (ossl w) p
  | CtorCopy x y | CtorMove x y => objs w !! x = None ∧ is_Some (objs w !! y)
  | Dtor x | Reset x => is_Some (objs w !! x)
  | AssignCopy x y => is_Some (objs w !! x) ∧ is_Some (objs w !! y) ∧ x ≠ y
  | AssignMove x y => is_Some (objs w !! x) ∧ is_Some (objs w !! y)
  | Attach x p => objs w !! x = None ∧ 0 < e p
  | Create x _ _ m => objs w !! x = None ∧
      is_Some (SSL_CTX_new (default SSLv23_server_method m) (ossl w)).2
  end.

(** The objects that hold a context. *)
Definition holds v (q : P) : nat := if decide (v = Some q) then 1 else 0.
Definition holders (m : gmap nat (option P)) (q : P) : nat := map_fold (λ _ v n, holds v q + n) 0 m.

Definition counted (σ : state) : Prop :=
  ∀ q, ctx_count (ossl σ.1) q = σ.2 q + holders (objs σ.1) q.
End SslContext.

Arguments cop : clear implicits.

(** ** Lemmas *)

Section Counts.
#[local] Set Default Proof Using "Type*".
Context {S P M : Type} `{SslCtxLaws S P M}.
Implicit Types (w : world S P) (v : option P) (x y : nat) (m : gmap nat (option P)) (e : P → nat) (p q : P).

Lemma holders_lookup m x v q : m !! x = Some v → holders m q = holds v q + holders (delete x m) q.
Proof using Type.
  intros Hx. unfold holders. rewrite (map_fold_delete_L _ _ x v m); [done| |done]. intros. lia.
Qed.
Lemma holders_insert m x v q : holders (<[x:=v]> m) q = holds v q + holders (delete x m) q.
Proof using Type.
  rewrite (holders_lookup (<[x:=v]> m) x v) by apply lookup_insert_eq. by rewrite delete_insert_eq.
Qed.
Lemma holders_fresh m x v q : m !! x = None → holders (<[x:=v]> m) q = holds v q + holders m q.
Proof using Type. intros Hx. rewrite holders_insert. by rewrite delete_id. Qed.

Lemma holds_Some p q : holds (Some p) q = if decide (q = p) then 1 else 0.
Proof using Type. unfold holds. repeat case_decide; congruence. Qed.
Lemma holds_None q : holds None q = 0.
Proof using Type. done. Qed.

(** [retain] and [release] of what exists. *)
Lemma retain_spec v w : (∀ p, v = Some p → 0 < ctx_count (ossl w) p) →
  ∃ s, retain v w = Some (with_ossl s w) ∧ ∀ q, ctx_count s q = ctx_count (ossl w) q + holds v q.
Proof.
  intros Hv. destruct v as [p|]; simpl.
  - unfold touch. rewrite decide_True by auto. eexists. split; [done|]. intros q.
    rewrite up_ref_count, holds_Some by auto. case_decide; lia.
  - exists (ossl w). split; [by destruct w|]. intros q. rewrite holds_None. lia.
Qed.
Lemma release_spec v w : (∀ p, v = Some p → 0 < ctx_count (ossl w) p) →
  ∃ s, release v w = Some (with_ossl s w) ∧ ∀ q, ctx_count (ossl w) q = ctx_count s q + holds v q.
Proof.
  intros Hv. destruct v as [p|]; simpl.
  - unfold touch. rewrite decide_True by auto. eexists. split; [done|]. intros q.
    rewrite free_count, holds_Some by auto. case_decide; subst; [|lia]. specialize (Hv p eq_refl). lia.
  - exists (ossl w). split; [by destruct w|]. intros q. rewrite holds_None. lia.
Qed.

(** What an object holds exists. *)
Lemma counted_alive w e x v p : counted (w, e) → objs w !! x = Some v → v = Some p → 0 < ctx_count (ossl w) p.
Proof using Type.
  intros Hc Hx ->. specialize (Hc p). simpl in Hc. rewrite Hc, (holders_lookup _ x _ p Hx), holds_Some, decide_True by done. lia.
Qed.

Lemma ctor_value_spec x v w : (∀ p, v = Some p → 0 < ctx_count (ossl w) p) →
  ∃ s, ctor_value x v w = Some (mkWorld s (<[x:=v]> (objs w))) ∧ ∀ q, ctx_count s q = ctx_count (ossl w) q + holds v q.
Proof. intros Hv. by destruct (retain_spec v (set_ctx x v w) Hv) as (s & E & Hs); exists s. Qed.

Lemma attach_spec x v w : (∀ p, v = Some p → 0 < ctx_count (ossl w) p) →
  ∃ s, attach x v w = Some (mkWorld s (<[x:=v]> (objs w))) ∧ ∀ q, ctx_count s q = ctx_count (ossl w) q.
Proof.
  intros Hv. unfold attach. destruct (ctor_value_spec x v w Hv) as (s1 & -> & H1'). simpl.
  destruct (release_spec v (mkWorld s1 (<[x:=v]> (objs w)))) as (s2 & -> & H2').
  { intros p Hp. simpl. rewrite H1'. specialize (Hv p Hp). lia. }
  exists s2. split; [done|]. intros q. specialize (H1' q). specialize (H2' q). simpl in *. lia.
Qed.

Lemma dtor_spec x w e : counted (w, e) → is_Some (objs w !! x) →
  ∃ s, dtor x w = Some (mkWorld s (delete x (objs w))) ∧ counted (mkWorld s (delete x (objs w)), e).
Proof.
  intros Hc [v Hx]. unfold dtor. rewrite Hx. simpl.
  destruct (release_spec v w) as (s & -> & Hs); [intros p; by eapply counted_alive|]. exists s.
  split; [done|]. intros q. specialize (Hs q). specialize (Hc q). simpl in *.
  rewrite (holders_lookup _ x v) in Hc by done. lia.
Qed.

(** The steps of [create] with the new object [x] of the context [p]: a call that goes
    on with the same objects, and the failure that gives everything back. *)
Lemma with_ctx_spec (f : P → S → S * bool) p x w e : (∀ q s, ctx_count (f p s).1 q = ctx_count s q) →
  objs w !! x = Some (Some p) → counted (w, e) →
  ∃ s ok, with_ctx (Some p) f w = Some (with_ossl s w, ok) ∧ counted (with_ossl s w, e).
Proof.
  intros Hf Hx Hc. unfold with_ctx. simpl. rewrite decide_True by by eapply counted_alive.
  pose proof (λ q, Hf q (ossl w)) as Hq. destruct (f p (ossl w)) as [s ok]. exists s, ok. split; [done|].
  intros q. simpl. rewrite Hq. apply Hc.
Qed.

Definition created x c w (r : option (world S P * bool)) e : Prop :=
  ∃ w' ok, r = Some (w', ok) ∧ counted (w', e) ∧ objs w' = if (ok : bool) then <[x := Some c]> (objs w) else objs w.

Lemma create_step (f : P → S → S * bool) p x w w1 e (k : world S P → option (world S P * bool)) :
  (∀ q s, ctx_count (f p s).1 q = ctx_count s q) → objs w !! x = None →
  objs w1 = <[x := Some p]> (objs w) → counted (w1, e) →
  (∀ w2, objs w2 = <[x := Some p]> (objs w) → counted (w2, e) → created x p w (k w2) e) →
  created x p w ('(w2, ok) ← with_ctx (Some p) f w1;
    if negb ok then w2 ← dtor x w2; Some (w2, false) else k w2) e.
Proof.
  intros Hf Hx Ho Hc Hk.
  assert (objs w1 !! x = Some (Some p)) as Hx1 by (rewrite Ho; apply lookup_insert_eq).
  destruct (with_ctx_spec f p x w1 e Hf Hx1 Hc) as (s & ok & -> & Hs). cbn [mbind option_bind].
  destruct ok; simpl; [by apply Hk|].
  destruct (dtor_spec x (with_ossl s w1) e Hs) as (s2 & -> & C2); [by eexists|].
  exists (mkWorld s2 (delete x (objs (with_ossl s w1)))), false. split; [done|]. split; [done|].
  simpl. rewrite Ho. by rewrite delete_insert_id.
Qed.

Lemma create_spec x c k (mt : option M) w e : counted (w, e) → objs w !! x = None →
  is_Some (SSL_CTX_new (default SSLv23_server_method mt) (ossl w)).2 →
  ∃ p, created x p w (create x c k mt w) e.
Proof.
  intros Hc Hx [p Hp]. exists p. unfold create. pose proof (λ q, new_count _ (ossl w) p q Hp) as Hn.
  destruct (SSL_CTX_new _ (ossl w)) as [s0 ctx]. simpl in Hp, Hn. subst ctx.
  destruct (attach_spec x (Some p) (with_ossl s0 w)) as (s1 & -> & H1').
  { intros ? [= <-]. simpl. destruct (Hn p) as [_ ->]. rewrite decide_True by done. lia. }
  cbn [mbind option_bind]. apply create_step; [intros; apply certificate_count|done|done| |intros w2 E2 C2].
  { intros q. simpl. rewrite H1', holders_fresh, holds_Some by done. simpl.
    destruct (Hn q) as [H0' ->]. specialize (Hc q). simpl in Hc. case_decide; subst; lia. }
  cbv beta. apply create_step; [intros; apply key_count|done..|intros w3 E3 C3].
  cbv beta. apply create_step; [intros; apply check_count|done..|intros w4 E4 C4]. by exists w4, true.
Qed.

#[local] Arguments ctor_value : simpl never.
#[local] Arguments attach : simpl never.
#[local] Arguments dtor : simpl never.
#[local] Arguments create : simpl never.
#[local] Arguments retain : simpl never.
#[local] Arguments release : simpl never.

Lemma cstep_counted a (σ : state) : counted σ → allowed a σ → ∃ σ', cstep a σ = Some σ' ∧ counted σ'.
Proof.
  destruct σ as [w e]. intros Hc Ha. destruct a as [mt|x|x p|x y|x y|x|x y|x y|x p|x|x c k mt]; simpl in *.
  - pose proof (λ p q, new_count mt (ossl w) p q) as Hn. pose proof (λ q, new_fails mt (ossl w) q) as Hf.
    destruct (SSL_CTX_new mt (ossl w)) as [s [p|]]; simpl in *; (eexists; split; [done|]); intros q; simpl;
      specialize (Hc q); simpl in Hc.
    + destruct (Hn p q eq_refl) as [H0' ->]. case_decide; subst; lia.
    + by rewrite Hf.
  - eexists. split; [done|]. intros q. simpl. rewrite holders_fresh by done. apply Hc.
  - destruct Ha as [Hx Hp]. destruct (ctor_value_spec x (Some p) w) as (s & -> & Hs); [by intros ? [= <-]|].
    eexists. split; [done|]. intros q. specialize (Hc q). simpl in *. rewrite Hs, holders_fresh by done. lia.
  - destruct Ha as [Hx [v Hy]]. unfold ctor_copy. rewrite Hy. cbn [mbind option_bind].
    destruct (ctor_value_spec x v w) as (s & -> & Hs); [intros; by eapply counted_alive|].
    eexists. split; [done|]. intros q. specialize (Hc q). simpl in *. rewrite Hs, holders_fresh by done. lia.
  - destruct Ha as [Hx [v Hy]]. unfold ctor_move. rewrite Hy. simpl. eexists. split; [done|].
    intros q. specialize (Hc q). simpl in *. assert (x ≠ y) as Hn by congruence.
    rewrite holders_insert, holds_None, delete_insert_ne, holders_fresh by (rewrite ?lookup_delete_ne by congruence; congruence).
    rewrite (holders_lookup (objs w) y v q Hy) in Hc. lia.
  - destruct (dtor_spec x w e Hc Ha) as (s & -> & Hs). by eexists.
  - destruct Ha as ([v Hx] & [v' Hy] & Hn). unfold assign_copy. rewrite Hx. cbn [mbind option_bind].
    destruct (release_spec v w) as (s & -> & Hs); [intros p Hp; by apply (counted_alive w e x v)|].
    cbn [mbind option_bind with_ossl objs]. rewrite Hy. cbn [mbind option_bind].
    assert (∀ q, holders (objs w) q = holds v q + holds v' q + holders (delete y (delete x (objs w))) q) as Hh.
    { intros q. rewrite (holders_lookup _ x v), (holders_lookup (delete x _) y v'); [lia| |done].
      by rewrite lookup_delete_ne. }
    destruct (retain_spec v' (set_ctx x v' (with_ossl s w))) as (s2 & -> & Hs2).
    { intros p ->. simpl. specialize (Hs p). specialize (Hc p). specialize (Hh p). simpl in *.
      rewrite holds_Some, decide_True in Hh by done. lia. }
    eexists. split; [done|]. intros q. specialize (Hs q). specialize (Hc q). specialize (Hs2 q). simpl in *.
    rewrite holders_insert. rewrite (holders_lookup _ x v) in Hc by done. lia.
  - destruct Ha as ([v Hx] & [v' Hy]). unfold assign_move. rewrite Hx, Hy. simpl. eexists. split; [done|].
    intros q. specialize (Hc q). simpl in *. rewrite Hc. f_equal. destruct (decide (x = y)) as [->|Hn].
    + rewrite holders_insert, delete_insert_eq. assert (v = v') as -> by congruence.
      by apply holders_lookup.
    + rewrite holders_insert, delete_insert_ne, holders_insert by done.
      rewrite (holders_lookup _ x v), (holders_lookup (delete x _) y v'); [|by rewrite lookup_delete_ne|done].
      rewrite (delete_delete _ y x). lia.
  - destruct Ha as [Hx Hp]. destruct (attach_spec x (Some p) w) as (s & -> & Hs).
    { intros ? [= <-]. specialize (Hc p). simpl in Hc. lia. }
    eexists. split; [done|]. intros q. specialize (Hc q). simpl in *. rewrite Hs, holders_fresh, holds_Some by done.
    case_decide; subst; lia.
  - destruct Ha as [v Hx]. unfold reset. rewrite Hx. cbn [mbind option_bind].
    destruct (release_spec v w) as (s & -> & Hs); [intros p Hp; by apply (counted_alive w e x v)|].
    eexists. split; [done|]. intros q. specialize (Hc q). specialize (Hs q). simpl in *.
    rewrite holders_insert, holds_None. rewrite (holders_lookup _ x v) in Hc by done. lia.
  - destruct Ha as [Hx Hm]. destruct (create_spec x c k mt w e Hc Hx Hm) as (p & w' & ok & -> & Hw & _).
    by eexists.
Qed.
End Counts.

(** ** Properties *)

Section Run.
Context {S P M : Type} `{SslCtxLib S P M}.

Fixpoint crun (l : list (cop P M)) (σ : state (S:=S) (P:=P)) : option state :=
  match l with [] => Some σ | a :: l => σ ← cstep a σ; crun l σ end.

Fixpoint allowed_run (l : list (cop P M)) (σ : state (S:=S) (P:=P)) : Prop :=
  match l with
  | [] => True
  | a :: l => allowed a σ ∧ match cstep a σ with Some σ' => allowed_run l σ' | None => True end
  end.
End Run.

(** C38: Contexts are neither leaked nor used after they are gone: whatever a program
    does with the objects, no call of OpenSSL is made with a context that does not exist
    any more, and a context has as many references as objects hold it and the program
    holds itself.  A [create] that fails leaves nothing behind. *)
Theorem ssl_contexts_counted {S P M : Type} `{SslCtxLaws S P M} (s : S) (l : list (cop P M))
    (Hl : allowed_run l (mkWorld s ∅, ctx_count s)) :
  ∃ w e, crun l (mkWorld s ∅, ctx_count s) = Some (w, e) ∧
    (∀ p, ctx_count (ossl w) p = e p + holders (objs w) p) ∧
    (∀ x p, objs w !! x = Some (Some p) → 0 < ctx_count (ossl w) p) ∧
    (objs w = ∅ → ∀ p, e p = 0 → ctx_count (ossl w) p = 0).
Proof.
  assert (counted (mkWorld (P:=P) s ∅, ctx_count s)) as Hc by (intros q; unfold holders; simpl; rewrite map_fold_empty; lia).
  revert Hl Hc. generalize (mkWorld (P:=P) s ∅, ctx_count s). induction l as [|a l IH]; intros σ Hl Hc.
  - destruct σ as [w e]. exists w, e. split; [done|]. split; [apply Hc|]. split.
    + intros x p Hx. by apply (counted_alive w e x (Some p)).
    + intros Hn p Hp. specialize (Hc p). simpl in Hc. rewrite Hc, Hn, Hp. done.
  - destruct Hl as [Ha Hl]. destruct (cstep_counted a σ Hc Ha) as (σ' & E & Hc').
    simpl. rewrite E in Hl |- *. simpl. by apply IH.
Qed.

(** ** Witnesses *)

(** An OpenSSL whose contexts are numbers; a file without a name cannot be read. *)
Record ex_ossl := mkEx { ex_counts : gmap nat nat; ex_next : nat }.
#[export] Instance ex_lib : SslCtxLib ex_ossl nat unit := {|
  ctx_count s p := if decide (p < ex_next s) then default 0 (ex_counts s !! p) else 0;
  SSL_CTX_new _ s := (mkEx (<[ex_next s := 1]> (ex_counts s)) (ex_next s + 1), Some (ex_next s));
  SSL_CTX_up_ref p s := mkEx (alter (λ n, n + 1) p (ex_counts s)) (ex_next s);
  SSL_CTX_free p s := mkEx (alter (λ n, n - 1) p (ex_counts s)) (ex_next s);
  use_certificate_file _ f s := (s, negb (String.eqb f ""));
  use_PrivateKey_file _ f s := (s, negb (String.eqb f ""));
  check_private_key _ s := (s, true);
  SSLv23_server_method := tt
|}.
#[export] Instance ex_laws : SslCtxLaws ex_ossl nat unit.
Proof.
  split; try done.
  - intros m s p q [= <-]. simpl. rewrite decide_False by lia. split; [done|].
    destruct (decide (q = ex_next s)) as [->|N].
    + by rewrite decide_True, lookup_insert_eq by lia.
    + rewrite lookup_insert_ne by done. repeat case_decide; try done; lia.
  - intros p s q. simpl. intros Hp. destruct (decide (q = p)) as [->|N]; [|by rewrite lookup_alter_ne].
    rewrite lookup_alter_eq. case_decide; [|lia]. destruct (ex_counts s !! p); simpl in *; lia.
  - intros p s q. simpl. intros Hp. destruct (decide (q = p)) as [->|N]; [|by rewrite lookup_alter_ne].
    rewrite lookup_alter_eq. case_decide; [|lia]. destruct (ex_counts s !! p); simpl in *; lia.
Qed.

Definition ex_none : ex_ossl := mkEx ∅ 0.
Definition ex_use : list (cop nat unit) :=
  [Create 0 "cert" "key" None; CtorCopy 1 0; Ctor 2; AssignCopy 2 1; CtorMove 3 0; Create 4 "cert" "" None;
   RawNew tt; Attach 5 2; AssignMove 5 1; Reset 1; Dtor 0; Dtor 1; Dtor 2; Dtor 3].

Lemma ssl_contexts_counted_witness :
  ∃ w e, crun ex_use (mkWorld ex_none ∅, ctx_count ex_none) = Some (w, e) ∧
    (∀ p, ctx_count (ossl w) p = e p + holders (objs w) p) ∧
    (∀ x p, objs w !! x = Some (Some p) → 0 < ctx_count (ossl w) p) ∧
    (objs w = ∅ → ∀ p, e p = 0 → ctx_count (ossl w) p = 0).
Proof.
  apply (ssl_contexts_counted ex_none ex_use). vm_compute.
  repeat split; try lia; try discriminate; by eexists.
Defined.

(** ** What the code does not do *)

(** [operator=] does not look whether it is given the object itself: when that is the
    last one with its context, the context is freed and then used. *)
Theorem ssl_context_self_assignment :
  crun [RawNew tt; Attach 0 0; AssignCopy 0 0] (mkWorld ex_none ∅, ctx_count ex_none) = None.
Proof. vm_compute. reflexivity. Qed.
