(* ===== verification/Loops.v ===== *)
(** The loops of a process ([Loop.h], [Loop.cc], [UVLoop.h], [backend/Backend.h]): the global
    loop, the default loop of each thread, the loops for synchronous calls, the set of the
    loops of each thread that the handler of [fork] goes through, the default backend, and
    the life of a loop: what keeps it alive and how it is destroyed.

    A [LoopSP] is a variable; [ptrs] has those that are not null.  A loop is destroyed with
    the last of them, by the thread that had it ([release], as [panda::iptr] documents).
    Threads take turns (the code has no locks around what they share, the global loop and the
    default backend): an operation of one is not interrupted by another. *)
From stdpp Require Import sorting.
From S2P Require Import Prelude Machine.

(** ** Data *)

Abbreviation tid := nat.   (** threads *)
Abbreviation lid := nat.   (** addresses of loops *)
Abbreviation oid := nat.   (** objects that have a [LoopSP] *)

(** [LoopImpl::Type] *)
Inductive loop_type := LOCAL | GLOBAL | DEFAULT.

(** What keeps its loop in a member: a [Handle], a [Work], a [Resolver::Request]. *)
Inductive okind := KHandle | KWork | KResolve.

#[export] Instance okind_eq_dec : EqDecision okind.
Proof. solve_decision. Defined.

(** The variables of type [LoopSP]: [_global_loop], the [_default_loop] of a thread, the
    [loop] of row [i] of its [SyncLoop::loops], a variable of the user, the member of an
    object, a local variable of the code ([hold] in [run], [loop] in the fork handler). *)
Inductive var := VGlobal | VDefault (t : tid) | VSync (t : tid) (i : nat) | VUser (n : nat) | VObj (o : oid) | VHold (n : nat).

#[export] Instance var_eq_dec : EqDecision var.
Proof. solve_decision. Defined.

#[export] Instance var_countable : Countable var.
Proof.
  apply (inj_countable'
    (λ v, match v with
      | VGlobal => (0, 0, 0) | VDefault t => (1, t, 0) | VSync t i => (2, t, i)
      | VUser n => (3, n, 0) | VObj o => (4, o, 0) | VHold n => (5, n, 0) end)%nat
    (λ p, match p with
      | (0, _, _) => VGlobal | (1, t, _) => VDefault t | (2, t, i) => VSync t i
      | (3, n, _) => VUser n | (4, o, _) => VObj o | (_, n, _) => VHold n end)%nat).
  by intros [].
Defined.

(** [Loop], with the [_running] of its [UVLoop] and the [_exception] of its [LoopImpl];
    [ltype] and [lthread] (ghost) are how and by which thread it was made. *)
Record loop (B Exn : Type) := mkLoop {
  _backend : B;
  ltype : loop_type;
  lthread : tid;
  _handles : list oid;
  _resolver : bool;
  _running : bool;
  _exception : option Exn
}.
Arguments mkLoop {B Exn}.
Arguments _backend {B Exn}.
Arguments ltype {B Exn}.
Arguments lthread {B Exn}.
Arguments _handles {B Exn}.
Arguments _resolver {B Exn}.
Arguments _running {B Exn}.
Arguments _exception {B Exn}.

(** Why a process died (ghost): [tls.loops] of the thread was null; a loop was used after it
    was destroyed; it was destroyed with handles, or while it ran; the handler of [fork]
    moved on from an element that had been erased. *)
Inductive crash := CNullSet (t : tid) (l : lid) | CDangling (l : lid) | CHandles (l : lid) | CRunning (l : lid) | CIterator (t : tid) (l : lid).

(** The process.  [default_be] is [_default_backend]; [sync_rows] the backends of the rows of
    [SyncLoop::loops]; [tls] the [tls.loops] that are not null; [loops] the loops that exist.
    Ghosts: the next name of a variable, the time, the loops whose [handle_fork] was called,
    whether a loop was destroyed by a thread that had not made it, and the crash. *)
Record world (B Exn : Type) := mkWorld {
  default_be : option B;
  ptrs : gmap var lid;
  sync_rows : gmap tid (list (option B));
  tls : gmap tid (gset lid);
  loops : gmap lid (loop B Exn);
  objs : gmap oid okind;
  counter : nat;
  ticks : nat;
  forked : list lid;
  foreign : bool;
  crashed : option crash
}.
Arguments mkWorld {B Exn}.
Arguments default_be {B Exn}.
Arguments ptrs {B Exn}.
Arguments sync_rows {B Exn}.
Arguments tls {B Exn}.
Arguments loops {B Exn}.
Arguments objs {B Exn}.
Arguments counter {B Exn}.
Arguments ticks {B Exn}.
Arguments forked {B Exn}.
Arguments foreign {B Exn}.
Arguments crashed {B Exn}.

Section Update.
Context {B Exn : Type}.
Implicit Types (w : world B Exn) (o : loop B Exn).

Definition set_ptrs f w : world B Exn :=
  mkWorld (default_be w) (f (ptrs w)) (sync_rows w) (tls w) (loops w) (objs w) (counter w) (ticks w) (forked w) (foreign w) (crashed w).
Definition set_tls f w : world B Exn :=
  mkWorld (default_be w) (ptrs w) (sync_rows w) (f (tls w)) (loops w) (objs w) (counter w) (ticks w) (forked w) (foreign w) (crashed w).
Definition set_loops f w : world B Exn :=
  mkWorld (default_be w) (ptrs w) (sync_rows w) (tls w) (f (loops w)) (objs w) (counter w) (ticks w) (forked w) (foreign w) (crashed w).
Definition set_objs f w : world B Exn :=
  mkWorld (default_be w) (ptrs w) (sync_rows w) (tls w) (loops w) (f (objs w)) (counter w) (ticks w) (forked w) (foreign w) (crashed w).
Definition set_rows f w : world B Exn :=
  mkWorld (default_be w) (ptrs w) (f (sync_rows w)) (tls w) (loops w) (objs w) (counter w) (ticks w) (forked w) (foreign w) (crashed w).
Definition set_be b w : world B Exn :=
  mkWorld b (ptrs w) (sync_rows w) (tls w) (loops w) (objs w) (counter w) (ticks w) (forked w) (foreign w) (crashed w).
Definition log_fork l w : world B Exn :=
  mkWorld (default_be w) (ptrs w) (sync_rows w) (tls w) (loops w) (objs w) (counter w) (ticks w) (forked w ++ [l]) (foreign w) (crashed w).
Definition log_foreign b w : world B Exn :=
  mkWorld (default_be w) (ptrs w) (sync_rows w) (tls w) (loops w) (objs w) (counter w) (ticks w) (forked w) (foreign w || b) (crashed w).
Definition die c w : world B Exn :=
  mkWorld (default_be w) (ptrs w) (sync_rows w) (tls w) (loops w) (objs w) (counter w) (ticks w) (forked w) (foreign w) (Some c).
Definition count w : world B Exn :=
  mkWorld (default_be w) (ptrs w) (sync_rows w) (tls w) (loops w) (objs w) (S (counter w)) (ticks w) (forked w) (foreign w) (crashed w).
Definition tick w : world B Exn :=
  mkWorld (default_be w) (ptrs w) (sync_rows w) (tls w) (loops w) (objs w) (counter w) (S (ticks w)) (forked w) (foreign w) (crashed w).

Definition set_handles f o : loop B Exn :=
  mkLoop (_backend o) (ltype o) (lthread o) (f (_handles o)) (_resolver o) (_running o) (_exception o).
Definition set_resolver b o : loop B Exn :=
  mkLoop (_backend o) (ltype o) (lthread o) (_handles o) b (_running o) (_exception o).
Definition set_running b o : loop B Exn :=
  mkLoop (_backend o) (ltype o) (lthread o) (_handles o) (_resolver o) b (_exception o).
Definition set_exception e o : loop B Exn :=
  mkLoop (_backend o) (ltype o) (lthread o) (_handles o) (_resolver o) (_running o) e.

(** A variable that was null is given a loop. *)
Definition assign v l w : world B Exn := set_ptrs <[v := l]> w.

(** A variable with a name of its own. *)
Definition assign_user l w : world B Exn := count (assign (VUser (counter w)) l w).
Definition assign_hold l w : world B Exn := count (assign (VHold (counter w)) l w).
End Update.

(** What the program does with loops, by its variables: [set_default_backend], [new Loop],
    [Loop::global_loop], [Loop::default_loop], [SyncLoop::get], copying and dropping a
    variable, making and destroying an object with a loop, [loop->resolver()], [loop->run()],
    [fork] (the child), the end of a thread and the destructors of statics. *)
Inductive op (B : Type) :=
| SetBackend (b : option B)
| New (b : option B)
| GetGlobal
| GetDefault
| GetSync (b : option B)
| Copy (n : nat)
| Drop (n : nat)
| NewObj (k : okind) (o : oid) (n : nat)
| DropObj (o : oid)
| GetResolver (n : nat)
| Run (n : nat)
| Fork
| ThreadExit
| Exit.
Arguments SetBackend {B}.
Arguments New {B}.
Arguments GetGlobal {B}.
Arguments GetDefault {B}.
Arguments GetSync {B}.
Arguments Copy {B}.
Arguments Drop {B}.
Arguments NewObj {B}.
Arguments DropObj {B}.
Arguments GetResolver {B}.
Arguments Run {B}.
Arguments Fork {B}.
Arguments ThreadExit {B}.
Arguments Exit {B}.

(** The pending calls: an operation of the program; [UVLoop::_run], libuv's own loop, the end
    of [ltry], [~AutoResetFlag], the end of [LoopImpl::run], the destructor of a [LoopSP];
    the loop of the fork handler. *)
Inductive call (B : Type) :=
| COp (t : tid) (o : op B)
| Run_impl (t : tid) (l : lid)
| Uv_run (t : tid) (l : lid)
| Ltry (l : lid)
| Run_flag (l : lid)
| Run_end (l : lid)
| Release (t : tid) (v : var)
| Fork_from (t : tid) (k : option lid)
| Handle_fork (l : lid)
| Fork_event (t : tid) (l : lid)
| Fork_next (t : tid) (l : lid).
Arguments COp {B}.
Arguments Run_impl {B}.
Arguments Uv_run {B}.
Arguments Ltry {B}.
Arguments Run_flag {B}.
Arguments Run_end {B}.
Arguments Release {B}.
Arguments Fork_from {B}.
Arguments Handle_fork {B}.
Arguments Fork_event {B}.
Arguments Fork_next {B}.

(** The environment: the allocator; [backend::UV]; what [new_loop] of a backend throws; the
    main thread; the exceptions of the code; what the callbacks of a turn of a loop do, until
    libuv returns; what the destructor of the [excepted] that [handle_fork] returns throws, if
    anything, as nobody looks at its error; what the listeners of a [fork_event] do. *)
Class LoopEnv (B Exn : Type) := {
  malloc : world B Exn → lid;
  UV : B;
  new_loop : B → loop_type → world B Exn → option Exn;
  main_thread : tid;
  exc_null_backend : Exn;
  exc_too_late : Exn;
  exc_recursion : Exn;
  uv_next : lid → world B Exn → option (list (op B) + Exn);
  fork_unhandled : lid → world B Exn → option Exn;
  user_fork : lid → world B Exn → list (op B) + Exn
}.

(** The allocator gives an address that no loop has. *)
Class LoopEnvLaws (B Exn : Type) `{LoopEnv B Exn} := {
  malloc_fresh w : loops w !! malloc w = None
}.

(** ** The code *)

(** [UVLoop::UVLoop]: what it throws, by what [uv_default_loop] (whether it has a loop) and
    [uv_loop_init] return; [UVBackend::new_loop] is this constructor. *)
Definition UVLoop_ctor {Exn : Type} (uv_default_loop : bool) (uv_loop_init : Z) (exc_default : Exn) (uvx_error : Z → Exn)
    (type : loop_type) : option Exn :=
  match type with
  | GLOBAL => if uv_default_loop then None else Some exc_default
  | LOCAL | DEFAULT => if decide (uv_loop_init = 0%Z) then None else Some (uvx_error uv_loop_init)
  end.

Section Loops.
Context {B Exn : Type} `{EqDecision B} `{LE : LoopEnv B Exn}.
Implicit Types (w : world B Exn) (o : loop B Exn) (b : option B) (t : tid) (l : lid).

Definition register_loop t l w : world B Exn :=
  let list := default ∅ (tls w !! t) in set_tls <[t := {[l]} ∪ list]> w.

(** [None]: [tls.loops] is null. *)
Definition unregister_loop t l w : option (world B Exn) :=
  match tls w !! t with
  | None => None
  | Some list =>
      let list := list ∖ {[l]} in
      if decide (size list ≠ 0)%nat then Some (set_tls <[t := list]> w) else Some (set_tls (delete t) w)
  end.

Definition default_backend w : B := default UV (default_be w).

Definition set_default_backend t b w : world B Exn * (unit + Exn) :=
  match b with
  | None => (w, inr exc_null_backend)
  | Some b =>
      if decide (is_Some (ptrs w !! VGlobal) ∨ is_Some (ptrs w !! VDefault t)) then (w, inr exc_too_late)
      else (set_be (Some b) w, inl tt)
  end.

(** [Loop::Loop] *)
Definition Loop_ctor t b (ty : loop_type) w : world B Exn * (lid + Exn) :=
  let b := default (default_backend w) b in
  match new_loop b ty w with
  | Some e => (w, inr e)
  | None =>
      let l := malloc w in
      (register_loop t l (set_loops <[l := mkLoop b ty t [] false false None]> w), inl l)
  end.

Definition _init_global_loop t w : world B Exn * (unit + Exn) :=
  match Loop_ctor t None GLOBAL w with
  | (w, inl l) => (assign VGlobal l w, inl tt)
  | (w, inr e) => (w, inr e)
  end.

(** [Loop::global_loop], [Loop::default_loop]: the variable they return a copy of. *)
Definition global_loop t w : world B Exn * (option lid + Exn) :=
  match ptrs w !! VGlobal with
  | Some l => (w, inl (Some l))
  | None =>
      match _init_global_loop t w with
      | (w, inl _) => (w, inl (ptrs w !! VGlobal))
      | (w, inr e) => (w, inr e)
      end
  end.

Definition _init_default_loop t w : world B Exn * (unit + Exn) :=
  if decide (t = main_thread) then
    match global_loop t w with
    | (w, inl (Some l)) => (assign (VDefault t) l w, inl tt)
    | (w, inl None) => (w, inl tt)
    | (w, inr e) => (w, inr e)
    end
  else
    match Loop_ctor t None DEFAULT w with
    | (w, inl l) => (assign (VDefault t) l w, inl tt)
    | (w, inr e) => (w, inr e)
    end.

Definition default_loop t w : world B Exn * (option lid + Exn) :=
  match ptrs w !! VDefault t with
  | Some l => (w, inl (Some l))
  | None =>
      match _init_default_loop t w with
      | (w, inl _) => (w, inl (ptrs w !! VDefault t))
      | (w, inr e) => (w, inr e)
      end
  end.

Definition is_default t l w : bool := bool_decide (ptrs w !! VDefault t = Some l).
Definition is_global l w : bool := bool_decide (ptrs w !! VGlobal = Some l).

(** [SyncLoop::loops] of the thread, and [SyncLoop::get]. *)
Definition rows t w : list (option B) := default [] (sync_rows w !! t).

Definition sync_get t b w : world B Exn * (option lid + Exn) :=
  match list_find (λ b', b' = b) (rows t w) with
  | Some (i, _) => (w, inl (ptrs w !! VSync t i))
  | None =>
      match Loop_ctor t b LOCAL w with
      | (w, inl l) =>
          let i := length (rows t w) in
          (assign (VSync t i) l (set_rows <[t := rows t w ++ [b]]> w), inl (Some l))
      | (w, inr e) => (w, inr e)
      end
  end.

(** [Loop::~Loop]; [delete _impl] runs the loop, which throws when it runs already. *)
Definition Loop_dtor t l w : world B Exn * outcome (call B) Exn :=
  match loops w !! l with
  | None => (die (CDangling l) w, Aborts)
  | Some o =>
      match unregister_loop t l (log_foreign (bool_decide (lthread o ≠ t)) w) with
      | None => (die (CNullSet t l) (log_foreign (bool_decide (lthread o ≠ t)) w), Aborts)
      | Some w =>
          let o := if _resolver o then set_resolver false o else o in
          if decide (_handles o ≠ []) then (die (CHandles l) w, Aborts)
          else if _running o then (die (CRunning l) w, Aborts)
          else (set_loops (delete l) w, Calls [])
      end
  end.

(** The destructor of a [LoopSP]. *)
Definition pointed l w : Prop := map_Exists (λ _ l', l' = l) (ptrs w).

Definition release t (v : var) w : world B Exn * outcome (call B) Exn :=
  match ptrs w !! v with
  | None => (w, Calls [])
  | Some l =>
      let w := set_ptrs (delete v) w in
      if decide (pointed l w) then (w, Calls []) else Loop_dtor t l w
  end.

(** The [thread_local]s of a thread that ends are destroyed the last first. *)
Fixpoint release_all t (vs : list var) w : world B Exn * outcome (call B) Exn :=
  match vs with
  | [] => (w, Calls [])
  | v :: vs =>
      match release t v w with
      | (w, Aborts) => (w, Aborts)
      | (w, _) => release_all t vs w
      end
  end.

(** The next element of the set in the order of addresses. *)
Definition after (k : option lid) (x : lid) : Prop := match k with Some k => (k < x)%nat | None => True end.
#[export] Instance after_dec k x : Decision (after k x).
Proof. destruct k; simpl; apply _. Defined.

Definition next_after (k : option lid) (X : gset lid) : option lid :=
  head (merge_sort le (elements (filter (after k) X))).

Lemma next_after_Some k X l : next_after k X = Some l →
  l ∈ X ∧ after k l ∧ ∀ x, x ∈ X → after k x → (l ≤ x)%nat.
Proof.
  unfold next_after. set (ls := elements (filter (after k) X)).
  assert (∀ x, x ∈ merge_sort le ls ↔ x ∈ X ∧ after k x) as Hls.
  { intros x. rewrite merge_sort_Permutation. unfold ls. rewrite elem_of_elements, elem_of_filter. tauto. }
  pose proof (StronglySorted_merge_sort le ls) as Hso. destruct (merge_sort le ls) as [|y ys]; [done|]. intros [= ->].
  destruct (Hls l) as [[? ?] _]; [by left|]. split_and!; [done|done|]. intros x Hx Ha.
  pose proof (proj2 (Hls x) (conj Hx Ha)) as Hin. apply elem_of_cons in Hin as [->|Hin]; [lia|].
  apply StronglySorted_inv in Hso as [_ Hso]. rewrite Forall_forall in Hso. by apply Hso.
Qed.

Lemma next_after_None k X : next_after k X = None → ∀ x, x ∈ X → ¬ after k x.
Proof.
  unfold next_after. intros Hh x Hx Ha. assert (x ∈ merge_sort le (elements (filter (after k) X))) as Hin.
  { rewrite merge_sort_Permutation, elem_of_elements, elem_of_filter. done. }
  destruct (merge_sort _ _); [by apply not_elem_of_nil in Hin|done].
Qed.

(** An operation of the program on thread [t]. *)
Definition returned (r : world B Exn * (option lid + Exn)) : world B Exn * outcome (call B) Exn :=
  match r with
  | (w, inl (Some l)) => (assign_user l w, Calls [])
  | (w, inl None) => (w, Calls [])
  | (w, inr e) => (w, Throws e)
  end.

Definition do_op t (a : op B) w : world B Exn * outcome (call B) Exn :=
  match a with
  | SetBackend b =>
      match set_default_backend t b w with (w, inl _) => (w, Calls []) | (w, inr e) => (w, Throws e) end
  | New b =>
      match Loop_ctor t b LOCAL w with (w, inl l) => (assign_user l w, Calls []) | (w, inr e) => (w, Throws e) end
  | GetGlobal => returned (global_loop t w)
  | GetDefault => returned (default_loop t w)
  | GetSync b => returned (sync_get t b w)
  | Copy n => match ptrs w !! VUser n with Some l => (assign_user l w, Calls []) | None => (w, Calls []) end
  | Drop n => release t (VUser n) w
  | NewObj k h n =>
      match ptrs w !! VUser n, objs w !! h with
      | Some l, None =>
          let w := assign (VObj h) l (set_objs <[h := k]> w) in
          (match k with
           | KHandle => set_loops (alter (set_handles (λ hs, hs ++ [h])) l) w
           | _ => w
           end, Calls [])
      | _, _ => (w, Calls [])
      end
  | DropObj h =>
      match ptrs w !! VObj h, objs w !! h with
      | Some l, Some k =>
          let w := match k with
            | KHandle => set_loops (alter (set_handles (filter (λ h', h' ≠ h))) l) w
            | _ => w
            end in
          release t (VObj h) (set_objs (delete h) w)
      | _, _ => (w, Calls [])
      end
  | GetResolver n =>
      match ptrs w !! VUser n with
      | Some l => (set_loops (alter (set_resolver true) l) w, Calls [])
      | None => (w, Calls [])
      end
  | Run n =>
      match ptrs w !! VUser n with
      | Some l =>
          let hold := VHold (counter w) in
          (assign_hold l w, Calls [Run_impl t l; Run_end l; Release t hold])
      | None => (w, Calls [])
      end
  | Fork => (w, Calls (if decide (is_Some (tls w !! t)) then [Fork_from t None] else []))
  | ThreadExit =>
      let (w, r) := release_all t ((VSync t <$> seq 0 (length (rows t w))) ++ [VDefault t]) w in
      (set_rows (delete t) w, r)
  | Exit => release t VGlobal w
  end.

(** What each call does. *)
Definition body (c : call B) w : world B Exn * outcome (call B) Exn :=
  match c with
  | COp t a => do_op t a w
  | Run_impl t l =>
      match loops w !! l with
      | Some o =>
          if _running o then (w, Throws exc_recursion)
          else (set_loops (alter (set_running true) l) w, Calls [Uv_run t l; Run_flag l])
      | None => (die (CDangling l) w, Aborts)
      end
  | Uv_run t l =>
      match uv_next l w with
      | None => (tick w, Calls [])
      | Some (inl ops) => (tick w, Calls ((COp t <$> ops) ++ [Ltry l; Uv_run t l]))
      | Some (inr e) => (set_loops (alter (set_exception (Some e)) l) (tick w), Calls [Uv_run t l])
      end
  | Ltry l => (w, Calls [])
  | Run_flag l => (set_loops (alter (set_running false) l) w, Calls [])
  | Run_end l =>
      match loops w !! l with
      | Some o =>
          match _exception o with
          | Some e => (set_loops (alter (set_exception None) l) w, Throws e)
          | None => (w, Calls [])
          end
      | None => (die (CDangling l) w, Aborts)
      end
  | Release t v => release t v w
  | Fork_from t k =>
      match tls w !! t with
      | Some X =>
          match next_after k X with
          | None => (w, Calls [])
          | Some l =>
              match loops w !! l with
              | Some _ =>
                  let loop := VHold (counter w) in
                  (assign_hold l w, Calls [Handle_fork l; Fork_event t l; Release t loop; Fork_next t l])
              | None => (die (CDangling l) w, Aborts)
              end
          end
      | None => (w, Calls [])
      end
  | Handle_fork l => (log_fork l w, match fork_unhandled l w with Some e => Throws e | None => Calls [] end)
  | Fork_event t l =>
      match user_fork l w with
      | inl ops => (w, Calls (COp t <$> ops))
      | inr e => (w, Throws e)
      end
  | Fork_next t l =>
      if decide (l ∈ default ∅ (tls w !! t)) then (w, Calls [Fork_from t (Some l)])
      else (die (CIterator t l) w, Aborts)
  end.

(** On the way of an exception: [capture_exception], [~AutoResetFlag], [~LoopSP]. *)
Definition unwind (c : call B) (e : Exn) w : world B Exn * outcome (call B) Exn :=
  match c with
  | Ltry l => (set_loops (alter (set_exception (Some e)) l) w, Calls [])
  | Run_flag l => (set_loops (alter (set_running false) l) w, Throws e)
  | Release t v => match release t v w with (w, Aborts) => (w, Aborts) | (w, _) => (w, Throws e) end
  | _ => (w, Throws e)
  end.

Definition prog : program (world B Exn) (call B) Exn := Program body unwind.

(** A process that has not used the library yet, and any operation of any thread. *)
Definition blank w : Prop :=
  ptrs w = ∅ ∧ sync_rows w = ∅ ∧ tls w = ∅ ∧ loops w = ∅ ∧ objs w = ∅ ∧ foreign w = false ∧ crashed w = None.
Definition input w (cs : list (call B)) w' : Prop := w' = w ∧ ∃ t a, cs = [COp t a].
Definition reach : config (world B Exn) (call B) Exn → Prop := reachable prog blank input.
End Loops.

(** ** The invariant *)

Section Invariant.
Context {B Exn : Type} `{EqDecision B} `{LE : LoopEnv B Exn}.
Implicit Types (w : world B Exn) (o : loop B Exn) (b : option B) (t : tid) (l : lid).

(** What each kind of variable may point to. *)
Definition role w (v : var) o : Prop :=
  match v with
  | VGlobal => ltype o = GLOBAL
  | VDefault t => if decide (t = main_thread) then ltype o = GLOBAL else ltype o = DEFAULT ∧ lthread o = t
  | VSync t i => ltype o = LOCAL ∧ lthread o = t ∧ ∃ b, rows t w !! i = Some b ∧ ∀ c : B, b = Some c → _backend o = c
  | _ => True
  end.

(** The loops that exist are those that some variable points to; each has in its list the
    handles that point to it ([x] is one that is being destroyed), and is in the set of the
    thread that made it; and when each loop was destroyed by that thread, the sets have
    nothing else. *)
Record wf (x : option oid) w : Prop := {
  wf_role v l : ptrs w !! v = Some l → ∃ o, loops w !! l = Some o ∧ role w v o;
  wf_pointed l o : loops w !! l = Some o → ∃ v, ptrs w !! v = Some l;
  wf_handles l o h : loops w !! l = Some o →
    h ∈ _handles o ↔ objs w !! h = Some KHandle ∧ ptrs w !! VObj h = Some l ∧ x ≠ Some h;
  wf_objs h : is_Some (ptrs w !! VObj h) → is_Some (objs w !! h) ∨ x = Some h;
  wf_registered l o : loops w !! l = Some o → l ∈ default ∅ (tls w !! lthread o);
  wf_nonempty t X : tls w !! t = Some X → X ≠ ∅;
  wf_exact t l : foreign w = false → l ∈ default ∅ (tls w !! t) → ∃ o, loops w !! l = Some o ∧ lthread o = t;
  wf_user n l : ptrs w !! VUser n = Some l → (n < counter w)%nat;
  wf_hold n l : ptrs w !! VHold n = Some l → (n < counter w)%nat
}.

(** What may kill the process. *)
Definition excused w (c : crash) : Prop :=
  match c with CNullSet _ _ | CDangling _ => foreign w = true | CIterator _ _ => True | _ => False end.
Definition killed w : Prop := ∃ c, crashed w = Some c ∧ excused w c.

(** The holds of the pending calls are the loops of variables of their own; a loop that runs
    is held by the call that made it run. *)
Definition hold_of (c : call B) : option nat := match c with Release _ (VHold n) => Some n | _ => None end.
Definition holds (k : list (call B)) : list nat := omap hold_of k.
Definition plain_release (c : call B) : Prop := match c with Release _ v => ∃ n, v = VHold n | _ => True end.

Fixpoint flags w (k : list (call B)) : Prop :=
  match k with
  | [] => True
  | (Run_flag l | Run_impl _ l | Run_end l) :: k => (∃ n, n ∈ holds k ∧ ptrs w !! VHold n = Some l) ∧ flags w k
  | _ :: k => flags w k
  end.

Record stack_ok w (k : list (call B)) : Prop := {
  so_nodup : NoDup (holds k);
  so_held n : n ∈ holds k → is_Some (ptrs w !! VHold n);
  so_plain : Forall plain_release k;
  so_flags : flags w k;
  so_running l o : loops w !! l = Some o → _running o = true → Run_flag l ∈ k
}.

Definition good (c : config (world B Exn) (call B) Exn) : Prop :=
  match cmode c with
  | Aborted => killed (mem c)
  | _ => wf None (mem c) ∧ stack_ok (mem c) (stack c)
  end.

(** *** One step at a time *)

(** What an operation does to the pending calls [k]: nothing. *)
Definition keeps (k : list (call B)) w w' : Prop :=
  (∀ n l, n ∈ holds k → ptrs w !! VHold n = Some l → ptrs w' !! VHold n = Some l) ∧
  (∀ l o', loops w' !! l = Some o' → _running o' = true → ∃ o, loops w !! l = Some o ∧ _running o = true).

Lemma kept_refl k w : keeps k w w.
Proof. split; eauto. Qed.

Lemma kept_trans k w1 w2 w3 : keeps k w1 w2 → keeps k w2 w3 → keeps k w1 w3.
Proof. intros [A1 A2] [B1 B2]. split; [auto|]. intros l o H1 H2. destruct (B2 l o H1 H2) as (o2 & ? & ?). eauto. Qed.

Lemma elem_of_holds_cons n c k : n ∈ holds k → n ∈ holds (c :: k).
Proof. unfold holds. csimpl. destruct (hold_of c); [by right|done]. Qed.

Lemma flags_keeps w w' k : (∀ n l, n ∈ holds k → ptrs w !! VHold n = Some l → ptrs w' !! VHold n = Some l) →
  flags w k → flags w' k.
Proof.
  induction k as [|c k IH]; intros Hk; [done|]. specialize (IH (λ n l Hn, Hk n l (elem_of_holds_cons n c k Hn))).
  destruct c; simpl; try done; intros [(n & Hn & Hp) Hf]; (split; [exists n|]; eauto using elem_of_holds_cons).
Qed.

Lemma stack_keeps w w' k : keeps k w w' → stack_ok w k → stack_ok w' k.
Proof.
  intros [Hk Hr'] [A1 A2 A3 A4 A5]. split; [done| |done|by eapply flags_keeps|].
  - intros n Hn. destruct (A2 n Hn) as [l Hl]. exists l. by apply Hk.
  - intros l o Ho Hr. destruct (Hr' l o Ho Hr) as (o' & ? & ?). eauto.
Qed.

(** A loop that runs is held. *)
Lemma running_held w k l o : stack_ok w k → loops w !! l = Some o → _running o = true →
  ∃ n, n ∈ holds k ∧ ptrs w !! VHold n = Some l.
Proof.
  intros [_ _ _ Hf Hr] Ho Hrun. specialize (Hr l o Ho Hrun). clear Ho Hrun.
  induction k as [|c k IH]; [by apply not_elem_of_nil in Hr|]. apply elem_of_cons in Hr as [<-|Hr].
  - destruct Hf as [(n & Hn & Hp) _]. exists n. split; [by apply elem_of_holds_cons|done].
  - destruct IH as (n & Hn & Hp); [destruct c; simpl in Hf; tauto|done|].
    exists n. split; [by apply elem_of_holds_cons|done].
Qed.

(** Calls that hold nothing. *)
Definition inert (c : call B) : Prop :=
  match c with Run_impl _ _ | Run_flag _ | Run_end _ | Release _ _ => False | _ => True end.

Lemma stack_inert w cs k : Forall inert cs → stack_ok w k → stack_ok w (cs ++ k).
Proof.
  induction 1 as [|c cs Hc _ IH]; [done|]. intros Hk. destruct (IH Hk) as [A1 A2 A3 A4 A5].
  destruct c; try done; (split; [done|done|by constructor|done|]); intros l' o' Ho Hr; right; by eapply A5.
Qed.

Lemma stack_pop w c k : stack_ok w (c :: k) → hold_of c = None → (∀ l, c ≠ Run_flag l) → stack_ok w k.
Proof.
  intros [A1 A2 A3 A4 A5] Hc Hn. assert (holds (c :: k) = holds k) as E by (unfold holds; csimpl; by rewrite Hc). rewrite E in *.
  split; [done|done|by inversion A3| |].
  - destruct c; simpl in A4; tauto.
  - intros l o Ho Hr. specialize (A5 l o Ho Hr). apply elem_of_cons in A5 as [Ec|?]; [by destruct (Hn l)|done].
Qed.

Lemma good_calls w w' cs k : wf None w' → keeps k w w' → stack_ok w k → Forall inert cs → good (settle k (w', Calls cs)).
Proof. intros Hwf Hk Hs Hc. split; [done|]. by eapply stack_inert, stack_keeps. Qed.

Lemma good_throws w w' e k : wf None w' → keeps k w w' → stack_ok w k → good (settle k (w', Throws e)).
Proof. intros Hwf Hk Hs. split; [done|]. by eapply stack_keeps. Qed.

(** *** Lemmas on the parts of the state *)

Definition rows_extend w w' : Prop := ∀ t i b, rows t w !! i = Some b → rows t w' !! i = Some b.
Definition same_loop o o' : Prop := ltype o' = ltype o ∧ lthread o' = lthread o ∧ _backend o' = _backend o.

Lemma role_mono w w' v o o' : rows_extend w w' → same_loop o o' → role w v o → role w' v o'.
Proof.
  intros Hr (H1 & H2 & H3). unfold role. rewrite H1, H2, H3. destruct v; try done.
  intros (? & ? & b & ? & ?). split_and!; try done. exists b. split; auto.
Qed.

Lemma rows_extend_same w w' : sync_rows w' = sync_rows w → rows_extend w w'.
Proof. intros Hr t i b. unfold rows. by rewrite Hr. Qed.

Lemma same_loop_refl o : same_loop o o.
Proof. done. Qed.
#[local] Hint Resolve same_loop_refl rows_extend_same kept_refl : core.

(** A loop that exists is given to a variable that was null. *)
Lemma wf_assign v l o w w' :
  wf None w → ptrs w !! v = None → loops w !! l = Some o → role w v o → (∀ h, v ≠ VObj h) →
  (∀ n, v = VUser n ∨ v = VHold n → (n < counter w')%nat) → (counter w ≤ counter w')%nat →
  ptrs w' = <[v := l]> (ptrs w) → sync_rows w' = sync_rows w → tls w' = tls w → loops w' = loops w →
  objs w' = objs w → foreign w' = foreign w → wf None w'.
Proof.
  intros [W1 W2 W3 W4 W5 W6 W7 W8 W9] Hv Hl Ho Hobj Hn Hc Ep Er Et El Eo Ef.
  split; rewrite ?Ep, ?Et, ?El, ?Eo, ?Ef; try done.
  - intros v' l'. destruct (decide (v' = v)) as [->|]; simplify_map_eq.
    + intros [= <-]. exists o. split; [done|]. by eapply role_mono; eauto.
    + intros Hp. destruct (W1 v' l' Hp) as (o' & ? & ?). exists o'. split; [done|]. by eapply role_mono; eauto.
  - intros l' o' Ho'. destruct (W2 l' o' Ho') as [v' Hv']. exists v'. rewrite lookup_insert_ne; [done|congruence].
  - intros l' o' h Ho'. rewrite lookup_insert_ne by (intros E; by eapply Hobj). by apply W3.
  - intros h. rewrite lookup_insert_ne by (intros E; by eapply Hobj). apply W4.
  - intros n l'. destruct (decide (VUser n = v)) as [<-|]; simplify_map_eq; [intros _; apply Hn; by left|].
    intros Hp. specialize (W8 n l' Hp). lia.
  - intros n l'. destruct (decide (VHold n = v)) as [<-|]; simplify_map_eq; [intros _; apply Hn; by right|].
    intros Hp. specialize (W9 n l' Hp). lia.
Qed.

(** A new loop is given to a variable that was null. *)
Lemma wf_new v l o w w' :
  wf None w → ptrs w !! v = None → loops w !! l = None → _handles o = [] → role w' v o → (∀ h, v ≠ VObj h) →
  (∀ n, v = VUser n ∨ v = VHold n → (n < counter w')%nat) → (counter w ≤ counter w')%nat →
  ptrs w' = <[v := l]> (ptrs w) → rows_extend w w' →
  tls w' = <[lthread o := {[l]} ∪ default ∅ (tls w !! lthread o)]> (tls w) → loops w' = <[l := o]> (loops w) →
  objs w' = objs w → foreign w' = foreign w → wf None w'.
Proof.
  intros [W1 W2 W3 W4 W5 W6 W7 W8 W9] Hv Hl Hh Ho Hobj Hn Hc Ep Er Et El Eo Ef.
  assert (∀ v' l', ptrs w !! v' = Some l' → l' ≠ l) as Hne.
  { intros v' l' Hp ->. destruct (W1 v' l Hp) as (o' & Ho' & _). congruence. }
  split; rewrite ?Ep, ?Et, ?El, ?Eo, ?Ef.
  - intros v' l'. destruct (decide (v' = v)) as [->|]; simplify_map_eq.
    + intros [= <-]. exists o. by simplify_map_eq.
    + intros Hp. pose proof (Hne _ _ Hp). destruct (W1 v' l' Hp) as (o' & ? & ?). exists o'. simplify_map_eq.
      split; [done|]. by eapply role_mono; eauto.
  - intros l' o'. destruct (decide (l' = l)) as [->|]; simplify_map_eq; [intros _; exists v; by simplify_map_eq|].
    intros Ho'. destruct (W2 l' o' Ho') as [v' Hv']. exists v'. rewrite lookup_insert_ne; [done|congruence].
  - intros l' o' h. rewrite (lookup_insert_ne (ptrs w)) by (intros E; by eapply Hobj).
    destruct (decide (l' = l)) as [->|]; simplify_map_eq; [|by apply W3].
    intros [= <-]. rewrite Hh. split; [by intros ?%not_elem_of_nil|]. intros (_ & Hp & _). by apply Hne in Hp.
  - intros h. rewrite lookup_insert_ne by (intros E; by eapply Hobj). apply W4.
  - intros l' o'. destruct (decide (l' = l)) as [->|]; simplify_map_eq; [intros [= <-]; simplify_map_eq; set_solver|].
    intros Ho'. specialize (W5 l' o' Ho'). destruct (decide (lthread o' = lthread o)) as [E|]; simplify_map_eq; [|done].
    rewrite E in *. simplify_map_eq. set_solver.
  - intros t X. destruct (decide (t = lthread o)) as [->|]; simplify_map_eq; [intros [= <-]; set_solver|apply W6].
  - intros t l' Hf. destruct (decide (t = lthread o)) as [->|Ht]; simplify_map_eq.
    + simpl. destruct (decide (l' = l)) as [->|]; [intros _; exists o; by simplify_map_eq|].
      intros Hin. simplify_map_eq. apply W7; [done|set_solver].
    + intros Hin. destruct (W7 t l' Hf Hin) as (o' & Ho' & ?). exists o'.
      rewrite lookup_insert_ne; [done|congruence].
  - intros n l'. destruct (decide (VUser n = v)) as [<-|]; simplify_map_eq; [intros _; apply Hn; by left|].
    intros Hp. specialize (W8 n l' Hp). lia.
  - intros n l'. destruct (decide (VHold n = v)) as [<-|]; simplify_map_eq; [intros _; apply Hn; by right|].
    intros Hp. specialize (W9 n l' Hp). lia.
Qed.

(** A member of a loop that the invariant does not look at is changed. *)
Lemma wf_alter x f l w :
  (∀ o, same_loop o (f o) ∧ _handles (f o) = _handles o) → wf x w → wf x (set_loops (alter f l) w).
Proof.
  intros Hf [W1 W2 W3 W4 W5 W6 W7 W8 W9].
  assert (∀ l' o', alter f l (loops w) !! l' = Some o' →
    ∃ o, loops w !! l' = Some o ∧ same_loop o o' ∧ _handles o' = _handles o) as Hinv.
  { intros l' o'. destruct (decide (l = l')) as [->|]; [|rewrite lookup_alter_ne by done; naive_solver].
    rewrite lookup_alter_eq. destruct (loops w !! l') as [o|]; [|done]. intros [= <-]. destruct (Hf o). eauto. }
  assert (∀ l' o, loops w !! l' = Some o → ∃ o', alter f l (loops w) !! l' = Some o' ∧ same_loop o o') as Hfwd.
  { intros l' o Ho. destruct (decide (l = l')) as [->|]; [|rewrite lookup_alter_ne by done; naive_solver].
    rewrite lookup_alter_eq, Ho. simpl. destruct (Hf o). eauto. }
  split; simpl; try done.
  - intros v l' Hp. destruct (W1 v l' Hp) as (o & Ho & Hr). destruct (Hfwd l' o Ho) as (o' & ? & ?).
    exists o'. split; [done|]. by eapply (role_mono w); eauto.
  - intros l' o' Ho'. destruct (Hinv l' o' Ho') as (o & Ho & _). by apply (W2 l' o).
  - intros l' o' h Ho'. destruct (Hinv l' o' Ho') as (o & Ho & _ & ->). by apply W3.
  - intros l' o' Ho'. destruct (Hinv l' o' Ho') as (o & Ho & (_ & -> & _) & _). by apply W5.
  - intros t l' Hfo Hin. destruct (W7 t l' Hfo Hin) as (o & Ho & <-). destruct (Hfwd l' o Ho) as (o' & ? & ? & ? & ?). eauto.
Qed.

(** *** The destructor *)

(** A variable may be destroyed: that of a dying object, or of none. *)
Definition exempt (x : option oid) (v : var) : Prop :=
  match x with None => ∀ h, v ≠ VObj h | Some h => v = VObj h end.

Lemma delete_obj x v w l h : exempt x v →
  delete v (ptrs w) !! VObj h = Some l ↔ ptrs w !! VObj h = Some l ∧ x ≠ Some h.
Proof.
  intros Hx. destruct x as [h'|]; simpl in Hx; subst.
  - rewrite lookup_delete_Some. naive_solver.
  - rewrite lookup_delete_ne by (intros E; by eapply Hx). naive_solver.
Qed.

Lemma delete_other v v' l w : delete v (ptrs w) !! v' = Some l → ptrs w !! v' = Some l.
Proof. rewrite lookup_delete_Some. tauto. Qed.

Lemma wf_unpoint x v l w : wf x w → exempt x v → ptrs w !! v = Some l → pointed l (set_ptrs (delete v) w) →
  wf None (set_ptrs (delete v) w).
Proof.
  intros [W1 W2 W3 W4 W5 W6 W7 W8 W9] Hx Hv (v' & l' & Hv' & ->). simpl in Hv'.
  split; simpl; try done.
  - intros v2 l2 Hp%delete_other. by apply W1.
  - intros l2 o2 Ho. destruct (W2 l2 o2 Ho) as [v2 Hv2]. destruct (decide (v2 = v)) as [->|].
    + exists v'. simplify_eq. congruence.
    + exists v2. by rewrite lookup_delete_ne.
  - intros l2 o2 h Ho. rewrite (W3 l2 o2 h Ho), (delete_obj x) by done. naive_solver.
  - intros h [l2 [Hp Hn]%(delete_obj x)]; [|done]. left. destruct (W4 h) as [?|?]; [by eexists|done..].
  - intros n l2 Hp%delete_other. by eapply W8.
  - intros n l2 Hp%delete_other. by eapply W9.
Qed.

Lemma unregister_spec t l w w' : unregister_loop t l w = Some w' →
  w' = set_tls (λ _, tls w') w ∧
  (∀ t' l', l' ∈ default ∅ (tls w' !! t') ↔ l' ∈ default ∅ (tls w !! t') ∧ ¬ (t' = t ∧ l' = l)) ∧
  ((∀ t X, tls w !! t = Some X → X ≠ ∅) → ∀ t X, tls w' !! t = Some X → X ≠ ∅).
Proof.
  unfold unregister_loop. destruct (tls w !! t) as [X|] eqn:Et; [|done].
  case_decide as Hs; intros [= <-]; (split_and!; [done| |]); simpl.
  - intros t' l'. destruct (decide (t' = t)) as [->|]; simplify_map_eq; set_solver.
  - intros Hne t' X'. destruct (decide (t' = t)) as [->|]; simplify_map_eq; [|apply Hne].
    intros [= <-] E. rewrite E, size_empty in Hs. done.
  - assert (X ∖ {[l]} = ∅) as E.
    { by apply leibniz_equiv, size_empty_iff. }
    intros t' l'. destruct (decide (t' = t)) as [->|]; simplify_map_eq; set_solver.
  - intros Hne t' X'. destruct (decide (t' = t)) as [->|]; simplify_map_eq; [done|apply Hne].
Qed.

Lemma wf_destroyed x v l o t w w' : wf x w → exempt x v → ptrs w !! v = Some l → ¬ pointed l (set_ptrs (delete v) w) →
  loops w !! l = Some o →
  unregister_loop t l (log_foreign (bool_decide (lthread o ≠ t)) (set_ptrs (delete v) w)) = Some w' →
  wf None (set_loops (delete l) w') ∧ _handles o = [].
Proof.
  intros [W1 W2 W3 W4 W5 W6 W7 W8 W9] Hx Hv Hnp Ho (Ew & Hset & Hne)%unregister_spec.
  assert (∀ v', delete v (ptrs w) !! v' ≠ Some l) as Hno.
  { intros v' Hp. apply Hnp. by exists v', l. }
  simpl in Hset, Hne. split.
  - rewrite Ew. split; simpl.
    + intros v2 l2 Hp. assert (l2 ≠ l) as Hl by (intros ->; by eapply Hno).
      apply delete_other in Hp. destruct (W1 v2 l2 Hp) as (o2 & ? & ?). exists o2. by simplify_map_eq.
    + intros l2 o2 [Hl Ho2]%lookup_delete_Some. destruct (W2 l2 o2 Ho2) as [v2 Hv2]. exists v2.
      rewrite lookup_delete_ne; [done|congruence].
    + intros l2 o2 h [Hl Ho2]%lookup_delete_Some. rewrite (W3 l2 o2 h Ho2), (delete_obj x) by done. naive_solver.
    + intros h [l2 [Hp Hn]%(delete_obj x)]; [|done]. left. destruct (W4 h) as [?|?]; [by eexists|done..].
    + intros l2 o2 [Hl Ho2]%lookup_delete_Some. apply Hset. split; [by eapply W5|naive_solver].
    + by apply Hne.
    + intros t2 l2 [Hf Hb]%orb_false_iff [Hin Hn]%Hset. destruct (W7 t2 l2 Hf Hin) as (o2 & Ho2 & <-).
      exists o2. split; [|done]. rewrite lookup_delete_ne; [done|]. intros <-.
      apply bool_decide_eq_false in Hb. apply Hn. split; [|done]. assert (o2 = o) as -> by congruence.
      by destruct (decide (lthread o = t)).
    + intros n l2 Hp%delete_other. by eapply W8.
    + intros n l2 Hp%delete_other. by eapply W9.
  - destruct (_handles o) as [|h hs] eqn:Eh; [done|]. exfalso.
    destruct (proj1 (W3 l o h Ho)) as (_ & Hp & Hn); [rewrite Eh; by left|].
    apply (Hno (VObj h)). by apply (delete_obj x).
Qed.

(** Destroying a variable: the loop that runs has another, and so has the loop with handles. *)
Lemma release_ok x t v w :
  wf x w → exempt x v →
  (∀ l o, ptrs w !! v = Some l → loops w !! l = Some o → _running o = true → ∃ v', v' ≠ v ∧ ptrs w !! v' = Some l) →
  match release t v w with
  | (w', Calls cs) => cs = [] ∧ (is_Some (ptrs w !! v) ∨ x = None → wf None w') ∧ ptrs w' = delete v (ptrs w) ∧
      objs w' = objs w ∧ sync_rows w' = sync_rows w ∧
      (∀ l o, loops w' !! l = Some o → loops w !! l = Some o)
  | (w', Throws _) => False
  | (w', Aborts) => killed w'
  end.
Proof.
  intros Hwf Hx Hrun. unfold release. destruct (ptrs w !! v) as [l|] eqn:Hv.
  2: { split_and!; try done; [|by rewrite delete_id]. by intros [[]| ->]. }
  case_decide as Hp; [split_and!; try done; intros _; by eapply wf_unpoint|].
  unfold Loop_dtor. change (loops (set_ptrs (delete v) w)) with (loops w).
  destruct (wf_role _ _ Hwf v l Hv) as (o & Ho & _). rewrite Ho.
  destruct (unregister_loop _ _ _) as [w'|] eqn:Eu.
  - destruct (wf_destroyed x v l o t w w' Hwf Hx Hv Hp Ho Eu) as [Hwf' Hh].
    rewrite decide_False by (rewrite <-Hh; destruct (_resolver o); simpl; tauto).
    destruct (_running _) eqn:Hr.
    + exfalso. destruct (Hrun l o) as (v' & Hv' & Hp'); [done|done|by destruct (_resolver o)|].
      apply Hp. exists v', l. split; [|done]. simpl. by rewrite lookup_delete_ne.
    + destruct (unregister_spec _ _ _ _ Eu) as (Ew & _ & _). rewrite Ew in Hwf' |- *. simpl. split_and!; try done.
      intros l2 o2 [_ ?]%lookup_delete_Some. done.
  - eexists. split; [done|]. simpl. destruct (decide (lthread o = t)) as [E|E].
    + exfalso. unfold unregister_loop in Eu. simpl in Eu. pose proof (wf_registered _ _ Hwf l o Ho) as Hin.
      rewrite E in Hin. destruct (tls w !! t); [by case_decide|simpl in Hin; set_solver].
    + rewrite bool_decide_true by done. apply orb_true_r.
Qed.

(** *** Operations *)

Lemma release_good t v w k :
  wf None w → stack_ok w k → (∀ h, v ≠ VObj h) → (∀ n, v = VHold n → n ∉ holds k) →
  match release t v w with
  | (w', Calls cs) => cs = [] ∧ wf None w' ∧ keeps k w w' ∧ ptrs w' = delete v (ptrs w) ∧ sync_rows w' = sync_rows w
  | (w', Throws _) => False
  | (w', Aborts) => killed w'
  end.
Proof.
  intros Hwf Hs Hobj Hh. pose proof (release_ok None t v w Hwf Hobj) as Hr.
  ospecialize* Hr.
  { intros l o _ Ho Hrun. destruct (running_held w k l o Hs Ho Hrun) as (n & Hn & Hp).
    exists (VHold n). split; [|done]. intros <-. by apply (Hh n). }
  destruct (release t v w) as [w' [cs|e|]]; [|done..]. destruct Hr as (? & ? & Hp & _ & ? & Hl).
  split_and!; auto. split; [|eauto]. intros n l Hn Hpl. rewrite Hp, lookup_delete_ne; [done|].
  intros ->. by apply (Hh n).
Qed.

Lemma release_all_good t vs w k :
  wf None w → stack_ok w k → (∀ v, v ∈ vs → (∀ h, v ≠ VObj h) ∧ (∀ n, v ≠ VHold n)) →
  match release_all t vs w with
  | (w', Calls cs) => cs = [] ∧ wf None w' ∧ keeps k w w' ∧ sync_rows w' = sync_rows w ∧
      ∀ v l, ptrs w' !! v = Some l → v ∉ vs ∧ ptrs w !! v = Some l
  | (w', Throws _) => False
  | (w', Aborts) => killed w'
  end.
Proof.
  revert w. induction vs as [|v vs IH]; intros w Hwf Hs Hv; simpl.
  { split_and!; auto using kept_refl. intros v l Hp. split; [by apply not_elem_of_nil|done]. }
  destruct (Hv v ltac:(by left)) as [Hv1 Hv2].
  pose proof (release_good t v w k Hwf Hs Hv1 (λ n E, False_ind _ (Hv2 n E))) as Hr.
  destruct (release t v w) as [w1 [cs|e|]]; [|done..]. destruct Hr as (_ & Hwf1 & Hk1 & Ep & Er).
  specialize (IH w1 Hwf1 (stack_keeps _ _ _ Hk1 Hs)). ospecialize* IH; [intros v' Hv'; apply Hv; by right|].
  destruct (release_all t vs w1) as [w2 [cs2|e2|]]; [|done..]. destruct IH as (-> & Hwf2 & Hk2 & Er2 & Hp2).
  split_and!; [done|done|by eapply kept_trans|congruence|].
  intros v' l Hp. destruct (Hp2 v' l Hp) as [Hn Hp']. rewrite Ep in Hp'. apply lookup_delete_Some in Hp' as [Hne Hp'].
  split; [|done]. rewrite not_elem_of_cons. naive_solver.
Qed.

Lemma wf_fresh_var w n : wf None w → (counter w ≤ n)%nat → ptrs w !! VUser n = None ∧ ptrs w !! VHold n = None.
Proof.
  intros Hwf Hn. split; (destruct (ptrs w !! _) as [l|] eqn:E; [|done]).
  - pose proof (wf_user _ _ Hwf n l E). lia.
  - pose proof (wf_hold _ _ Hwf n l E). lia.
Qed.

(** A live loop is given to a new variable. *)
Lemma assign_user_good l w k : wf None w → stack_ok w k → is_Some (loops w !! l) →
  wf None (assign_user l w) ∧ keeps k w (assign_user l w).
Proof.
  intros Hwf Hs [o Ho]. split; [|split; [|eauto]].
  - eapply (wf_assign (VUser (counter w)) l o w); simpl; try done; [by apply wf_fresh_var|naive_solver lia|lia].
  - intros n l' _ Hp. simpl. by rewrite lookup_insert_ne.
Qed.

Lemma assign_hold_good l w k : wf None w → stack_ok w k → is_Some (loops w !! l) →
  wf None (assign_hold l w) ∧ keeps k w (assign_hold l w) ∧ counter w ∉ holds k.
Proof.
  intros Hwf Hs [o Ho]. pose proof (wf_fresh_var w (counter w) Hwf ltac:(lia)) as [_ Hn]. split_and!.
  - eapply (wf_assign (VHold (counter w)) l o w); simpl; try done; [naive_solver lia|lia].
  - split; [|eauto]. intros n l' _ Hp. simpl. rewrite lookup_insert_ne; [done|congruence].
  - intros Hin. destruct (so_held _ _ Hs _ Hin) as [? ?]. congruence.
Qed.

Lemma Loop_ctor_throws t b ty w w' e : Loop_ctor t b ty w = (w', inr e) → w' = w.
Proof. unfold Loop_ctor. by destruct (new_loop _ _ _) as [?|]; intros [= <- <-]. Qed.

Lemma Loop_ctor_fields t b ty w w1 r : Loop_ctor t b ty w = (w1, r) →
  ptrs w1 = ptrs w ∧ sync_rows w1 = sync_rows w ∧ counter w1 = counter w ∧ objs w1 = objs w ∧ foreign w1 = foreign w.
Proof. unfold Loop_ctor. by destruct (new_loop _ _ _) as [?|]; intros [= <- <-]. Qed.

Context `{LL : !LoopEnvLaws B Exn}.

Lemma Loop_ctor_new t b ty w w1 l w2 v k : Loop_ctor t b ty w = (w1, inl l) →
  wf None w → ptrs w !! v = None → (∀ h, v ≠ VObj h) →
  (∀ n, v = VUser n ∨ v = VHold n → (n < counter w2)%nat) → (counter w ≤ counter w2)%nat →
  ptrs w2 = <[v := l]> (ptrs w1) → rows_extend w w2 → tls w2 = tls w1 → loops w2 = loops w1 →
  objs w2 = objs w1 → foreign w2 = foreign w1 →
  role w2 v (mkLoop (default (default_backend w) b) ty t [] false false None) →
  wf None w2 ∧ keeps k w w2 ∧ loops w2 !! l = Some (mkLoop (default (default_backend w) b) ty t [] false false None).
Proof using LL.
  unfold Loop_ctor. destruct (new_loop _ _ _) as [?|]; intros [= <- <-] Hwf Hv Hobj Hn Hc Ep Er Et El Eo Ef Hr.
  simpl in *. split_and!; [| |rewrite El; by simplify_map_eq].
  - eapply (wf_new v (malloc w) (mkLoop (default (default_backend w) b) ty t [] false false None) w w2);
      rewrite ?Et, ?El; eauto using malloc_fresh.
  - split.
    + intros n l Hh Hp. rewrite Ep, lookup_insert_ne; [done|congruence].
    + intros l o. rewrite El. destruct (decide (l = malloc w)) as [->|]; simplify_map_eq; [by intros [= <-]|eauto].
Qed.

Lemma global_loop_ok t w k w' r : wf None w → global_loop t w = (w', r) →
  wf None w' ∧ keeps k w w' ∧ (∀ v, v ≠ VGlobal → ptrs w' !! v = ptrs w !! v) ∧ sync_rows w' = sync_rows w ∧
  match r with
  | inl r => ∃ l, r = Some l ∧ ptrs w' !! VGlobal = Some l
  | inr _ => True
  end.
Proof using LL.
  intros Hwf. unfold global_loop, _init_global_loop.
  destruct (ptrs w !! VGlobal) as [l|] eqn:Eg; [intros [= <- <-]; split_and!; eauto using kept_refl|].
  destruct (Loop_ctor t None GLOBAL w) as [w1 [l|e]] eqn:Ec; intros [= <- <-].
  - destruct (Loop_ctor_fields _ _ _ _ _ _ Ec) as (Ep & Er & Ecn & _).
    destruct (Loop_ctor_new _ _ _ _ _ _ (assign VGlobal l w1) VGlobal k Ec Hwf Eg) as (Hwf1 & Hk1 & _);
      try done; [naive_solver|simpl; lia|by apply rows_extend_same|].
    split_and!; [done|done| |exact Er|exists l; split; apply lookup_insert_eq].
    intros v Hv. simpl. by rewrite lookup_insert_ne, Ep.
  - apply Loop_ctor_throws in Ec as ->. split_and!; eauto using kept_refl.
Qed.

Lemma default_loop_ok t w k w' r : wf None w → default_loop t w = (w', r) →
  wf None w' ∧ keeps k w w' ∧
  match r with
  | inl r => ∃ l, r = Some l ∧ ptrs w' !! VDefault t = Some l
  | inr _ => True
  end.
Proof using LL.
  intros Hwf. unfold default_loop, _init_default_loop.
  destruct (ptrs w !! VDefault t) as [l|] eqn:Ed; [intros [= <- <-]; split_and!; eauto using kept_refl|].
  case_decide as Hm.
  - destruct (global_loop t w) as [w1 [r1|e]] eqn:Eg;
      destruct (global_loop_ok t w k _ _ Hwf Eg) as (Hwf1 & Hk1 & Hp1 & _ & Hr1); [|intros [= <- <-]; done].
    destruct Hr1 as (l & -> & Hg). intros [= <- <-].
    destruct (wf_role _ _ Hwf1 _ _ Hg) as (o & Ho & Hro). split_and!; [| |exists l; split; apply lookup_insert_eq].
    + eapply (wf_assign (VDefault t) l o w1); simpl; try done; [by rewrite Hp1|by rewrite decide_True|naive_solver].
    + eapply kept_trans; [done|]. split; [|simpl; eauto]. intros n l' _ Hp. simpl. by rewrite lookup_insert_ne.
  - destruct (Loop_ctor t None DEFAULT w) as [w1 [l|e]] eqn:Ec; intros [= <- <-].
    + destruct (Loop_ctor_fields _ _ _ _ _ _ Ec) as (Ep & Er & Ecn & _).
      destruct (Loop_ctor_new _ _ _ _ _ _ (assign (VDefault t) l w1) (VDefault t) k Ec Hwf Ed) as (Hwf1 & Hk1 & _);
        try done; [naive_solver|simpl; lia|by apply rows_extend_same|simpl; by rewrite decide_False|].
      split_and!; [done|done|exists l; split; apply lookup_insert_eq].
    + apply Loop_ctor_throws in Ec as ->. split_and!; eauto using kept_refl.
Qed.

Lemma rows_insert t v l (rs : list (option B)) w : rows t (assign v l (set_rows <[t := rs]> w)) = rs.
Proof. unfold rows. simpl. by rewrite lookup_insert_eq. Qed.

Lemma wf_row w t i l : wf None w → ptrs w !! VSync t i = Some l → is_Some (rows t w !! i).
Proof. intros Hwf Hp. destruct (wf_role _ _ Hwf _ _ Hp) as (o & _ & _ & _ & b & ? & _). by exists b. Qed.

Lemma sync_get_ok t b w k w' r : wf None w → sync_get t b w = (w', r) →
  wf None w' ∧ keeps k w w' ∧
  match r with
  | inl (Some l) => is_Some (loops w' !! l)
  | _ => True
  end.
Proof using LL.
  intros Hwf. unfold sync_get. destruct (list_find _ _) as [[i b']|] eqn:Ef.
  - intros [= <- <-]. split_and!; [done|apply kept_refl|]. destruct (ptrs w !! _) as [l|] eqn:Ep; [|done].
    destruct (wf_role _ _ Hwf _ _ Ep) as (o & ? & _). by exists o.
  - destruct (Loop_ctor t b LOCAL w) as [w1 [l|e]] eqn:Ec; intros [= <- <-].
    + destruct (Loop_ctor_fields _ _ _ _ _ _ Ec) as (Ep & Er & Ecn & _).
      assert (rows t w1 = rows t w) as Er1 by (unfold rows; by rewrite Er).
      edestruct (Loop_ctor_new t b LOCAL w w1 l
        (assign (VSync t (length (rows t w1))) l (set_rows <[t := rows t w1 ++ [b]]> w1)) (VSync t (length (rows t w1))) k Ec Hwf)
        as (Hwf1 & Hk1 & Hl1); [|try done..|split_and!; [done|done|eauto]].
      * destruct (ptrs w !! _) eqn:E; [|done]. destruct (wf_row _ _ _ _ Hwf E) as [? Hl%lookup_lt_Some].
        rewrite Er1 in Hl. lia.
      * naive_solver.
      * simpl. lia.
      * rewrite Er1. intros t' i b' Hi. unfold rows in *. simpl. rewrite Er.
        destruct (decide (t' = t)) as [->|]; [rewrite lookup_insert_eq; simpl; by apply lookup_app_l_Some|].
        by rewrite lookup_insert_ne.
      * simpl. split_and!; [done|done|]. exists b. split; [|by intros c ->].
        rewrite rows_insert. by apply list_lookup_middle.
    + apply Loop_ctor_throws in Ec as ->. split_and!; eauto using kept_refl.
Qed.

Lemma returned_good r w k : stack_ok w k → wf None r.1 → keeps k w r.1 →
  (∀ l, r.2 = inl (Some l) → is_Some (loops r.1 !! l)) → good (settle k (returned r)).
Proof.
  destruct r as [w' [[l|]|e]]; simpl; intros Hs Hwf Hk Hl.
  - destruct (assign_user_good l w' k Hwf (stack_keeps _ _ _ Hk Hs)) as [? Hk']; [by apply Hl|].
    apply (good_calls w _ []); [done|by eapply kept_trans|done|done].
  - by apply (good_calls w _ []).
  - by apply (good_throws w).
Qed.

Lemma wf_ext x w w' : wf x w → ptrs w' = ptrs w → sync_rows w' = sync_rows w → tls w' = tls w →
  loops w' = loops w → objs w' = objs w → foreign w' = foreign w → (counter w ≤ counter w')%nat → wf x w'.
Proof.
  intros [W1 W2 W3 W4 W5 W6 W7 W8 W9] Ep Er Et El Eo Ef Ec.
  split; rewrite ?Ep, ?Et, ?El, ?Eo, ?Ef; try done.
  - intros v l Hp. destruct (W1 v l Hp) as (o & ? & ?). exists o. split; [done|]. by eapply role_mono; eauto.
  - intros n l Hp. specialize (W8 n l Hp). lia.
  - intros n l Hp. specialize (W9 n l Hp). lia.
Qed.

(** The list of the handles of loop [l] is changed along with the objects. *)
Lemma wf_obj x x' f l h k w w' :
  wf x w → ptrs w' !! VObj h = Some l → (∀ v, v ≠ VObj h → ptrs w' !! v = ptrs w !! v) →
  (ptrs w !! VObj h = Some l ∨ ptrs w !! VObj h = None) →
  (∀ h', h' ≠ h → objs w' !! h' = objs w !! h') → (∀ h', h' ≠ h → x' ≠ Some h' ↔ x ≠ Some h') →
  objs w' !! h = k → is_Some k ∨ x' = Some h → is_Some (loops w !! l) →
  loops w' = alter (set_handles f) l (loops w) →
  (∀ o, loops w !! l = Some o → ∀ h', h' ≠ h → h' ∈ f (_handles o) ↔ h' ∈ _handles o) →
  (∀ o, loops w !! l = Some o → h ∈ f (_handles o) ↔ k = Some KHandle ∧ x' ≠ Some h) →
  sync_rows w' = sync_rows w → tls w' = tls w → foreign w' = foreign w → counter w' = counter w → wf x' w'.
Proof.
  intros [W1 W2 W3 W4 W5 W6 W7 W8 W9] Hh Hp Hph Ho Hx Hk Hk' Hl El Hf Hfh Er Et Ef Ec.
  assert (∀ l' o', loops w' !! l' = Some o' → ∃ o, loops w !! l' = Some o ∧ same_loop o o' ∧
    _handles o' = if decide (l' = l) then f (_handles o) else _handles o) as Hinv.
  { intros l' o'. rewrite El. destruct (decide (l' = l)) as [->|]; [|rewrite lookup_alter_ne by done; naive_solver].
    rewrite lookup_alter_eq. destruct (loops w !! l) as [o|]; [|done]. intros [= <-]. by exists o. }
  assert (∀ l' o, loops w !! l' = Some o → ∃ o', loops w' !! l' = Some o' ∧ same_loop o o') as Hfwd.
  { intros l' o Hlo. rewrite El. destruct (decide (l = l')) as [->|]; [|rewrite lookup_alter_ne by done; naive_solver].
    rewrite lookup_alter_eq, Hlo. by eexists. }
  split; rewrite ?Et, ?Ef, ?Ec; try done.
  - intros v l' Hv. destruct (decide (v = VObj h)) as [->|Hne].
    + destruct Hl as [o Hlo]. destruct (Hfwd l o Hlo) as (o' & ? & ?). exists o'. split; [congruence|done].
    + rewrite Hp in Hv by done. destruct (W1 v l' Hv) as (o & Hlo & Hr). destruct (Hfwd l' o Hlo) as (o' & ? & ?).
      exists o'. split; [done|]. by eapply (role_mono w); eauto.
  - intros l' o' Ho'. destruct (Hinv l' o' Ho') as (o & Hlo & _). destruct (W2 l' o Hlo) as [v Hv].
    destruct (decide (v = VObj h)) as [->|Hne]; [|exists v; by rewrite Hp].
    exists (VObj h). destruct Hph; congruence.
  - intros l' o' h' Ho'. destruct (Hinv l' o' Ho') as (o & Hlo & _ & ->). destruct (decide (h' = h)) as [->|Hne].
    + case_decide as Hll; [subst; rewrite Hfh by done; naive_solver|]. rewrite (W3 l' o h Hlo), Hh.
      split; [|naive_solver]. intros (_ & Hp' & _). destruct Hph; congruence.
    + rewrite Ho, Hp, (Hx h' Hne) by naive_solver. rewrite <-(W3 l' o h' Hlo). case_decide; subst; [|done]. by apply Hf.
  - intros h' Hs. destruct (decide (h' = h)) as [->|Hne]; [by rewrite Hk|].
    rewrite Hp in Hs by naive_solver. rewrite Ho by done. destruct (W4 h' Hs) as [?|Hxx]; [by left|]. right.
    destruct (decide (x' = Some h')) as [|Hn]; [done|]. by apply Hx in Hn.
  - intros l' o' Ho'. destruct (Hinv l' o' Ho') as (o & Hlo & (_ & -> & _) & _). by apply W5.
  - intros t l' Hfo Hin. destruct (W7 t l' Hfo Hin) as (o & Hlo & <-). destruct (Hfwd l' o Hlo) as (o' & ? & ? & ? & ?). eauto.
  - intros n l' Hv. rewrite Hp in Hv by done. by eapply W8.
  - intros n l' Hv. rewrite Hp in Hv by done. by eapply W9.
Qed.

Lemma good_release w v t k : wf None w → stack_ok w k → (∀ h, v ≠ VObj h) → (∀ n, v = VHold n → n ∉ holds k) →
  good (settle k (release t v w)).
Proof.
  intros Hwf Hs Hv Hn. pose proof (release_good t v w k Hwf Hs Hv Hn) as Hr.
  destruct (release t v w) as [w' [cs|e|]]; [|done..]. destruct Hr as (-> & ? & ? & _). by apply (good_calls w w' []).
Qed.

Lemma NewObj_good n h kd t w k : wf None w → stack_ok w k → good (settle k (do_op t (NewObj kd h n) w)).
Proof.
  intros Hwf Hs. simpl. destruct (ptrs w !! VUser n) as [l|] eqn:El; [|by apply (good_calls w w []); auto using kept_refl].
  destruct (objs w !! h) as [?|] eqn:Eo; [by apply (good_calls w w []); auto using kept_refl|].
  assert (ptrs w !! VObj h = None) as Ep.
  { destruct (ptrs w !! VObj h) eqn:E; [|done]. destruct (wf_objs _ _ Hwf h) as [[? ?]|?]; [by eexists|congruence|done]. }
  destruct (wf_role _ _ Hwf _ _ El) as (o & Ho & _).
  assert (∀ o, loops w !! l = Some o → h ∉ _handles o) as Hnh.
  { intros o' Ho' (? & ? & ?)%(wf_handles _ _ Hwf l o' h Ho'). congruence. }
  set (f := match kd with KHandle => λ hs, hs ++ [h] | _ => λ hs : list oid, hs end).
  set (w' := match kd with KHandle => _ | _ => _ end).
  assert (loops w' = alter (set_handles f) l (loops w) ∧ ptrs w' = <[VObj h := l]> (ptrs w) ∧ objs w' = <[h := kd]> (objs w) ∧
    sync_rows w' = sync_rows w ∧ tls w' = tls w ∧ foreign w' = foreign w ∧ counter w' = counter w) as (E1 & E2 & E3 & E4 & E5 & E6 & E7).
  { destruct kd; split_and!; try done; simpl; (rewrite alter_id; [done|by intros []]). }
  apply (good_calls w); [|split|done|done].
  - eapply (wf_obj None None f l h (Some kd) w); rewrite ?E2, ?E3; eauto; try done.
    + apply lookup_insert_eq.
    + intros v Hv. by rewrite lookup_insert_ne.
    + intros h' Hh'. by rewrite lookup_insert_ne.
    + apply lookup_insert_eq.
    + intros o' Ho' h' Hh'. destruct kd; unfold f; [rewrite elem_of_app, list_elem_of_singleton|..]; tauto.
    + intros o' Ho'. specialize (Hnh o' Ho'). destruct kd; unfold f; [rewrite elem_of_app, list_elem_of_singleton|..]; naive_solver.
  - intros m l' _ Hp. rewrite E2, lookup_insert_ne; [done|congruence].
  - intros l' o'. rewrite E1. destruct (decide (l' = l)) as [->|]; [|rewrite lookup_alter_ne by done; eauto].
    rewrite lookup_alter_eq, Ho. intros [= <-] ?. by exists o.
Qed.

Lemma DropObj_good h t w k : wf None w → stack_ok w k → good (settle k (do_op t (DropObj h) w)).
Proof.
  intros Hwf Hs. simpl. destruct (ptrs w !! VObj h) as [l|] eqn:El; [|by apply (good_calls w w []); auto using kept_refl].
  destruct (objs w !! h) as [kd|] eqn:Eo; [|by apply (good_calls w w []); auto using kept_refl].
  destruct (wf_role _ _ Hwf _ _ El) as (o & Ho & _).
  set (f := match kd with KHandle => filter (λ h', h' ≠ h) | _ => λ hs : list oid, hs end).
  set (w1 := set_objs _ _).
  assert (loops w1 = alter (set_handles f) l (loops w) ∧ ptrs w1 = ptrs w ∧ objs w1 = delete h (objs w) ∧
    sync_rows w1 = sync_rows w ∧ tls w1 = tls w ∧ foreign w1 = foreign w ∧ counter w1 = counter w) as (E1 & E2 & E3 & E4 & E5 & E6 & E7).
  { destruct kd; split_and!; try done; simpl; (rewrite alter_id; [done|by intros []]). }
  assert (wf (Some h) w1) as Hwf1.
  { eapply (wf_obj None (Some h) f l h None w); rewrite ?E2, ?E3; eauto; try done.
    - intros h' Hh'. by rewrite lookup_delete_ne.
    - naive_solver.
    - apply lookup_delete_eq.
    - intros o' Ho' h' Hh'. destruct kd; unfold f; [rewrite list_elem_of_filter|..]; tauto.
    - intros o' Ho'. pose proof (wf_handles _ _ Hwf l o' h Ho') as Hw. rewrite Eo in Hw.
      destruct kd; unfold f; [rewrite list_elem_of_filter|..]; naive_solver. }
  assert (∀ l' o', loops w1 !! l' = Some o' → ∃ o, loops w !! l' = Some o ∧ _running o' = _running o) as Hl1.
  { intros l' o'. rewrite E1. destruct (decide (l' = l)) as [->|]; [|rewrite lookup_alter_ne by done; eauto].
    rewrite lookup_alter_eq, Ho. intros [= <-]. by exists o. }
  pose proof (release_ok (Some h) t (VObj h) w1 Hwf1 eq_refl) as Hr. rewrite E2 in Hr. ospecialize* Hr.
  { intros l' o' _ Ho' Hrun. destruct (Hl1 l' o' Ho') as (o2 & Ho2 & E). rewrite E in Hrun.
    destruct (running_held w k l' o2 Hs Ho2 Hrun) as (n & _ & Hp). by exists (VHold n). }
  destruct (release t (VObj h) w1) as [w' [cs|e|]]; [|done..]. destruct Hr as (-> & Hwf' & Hp & _ & _ & Hl).
  apply (good_calls w); [apply Hwf'; left; by exists l|split|done|done].
  - intros n l' _ Hpl. by rewrite Hp, lookup_delete_ne.
  - intros l' o' Ho' Hrun. destruct (Hl1 l' o' (Hl l' o' Ho')) as (o2 & ? & E). exists o2. by rewrite <-E.
Qed.

Lemma ThreadExit_good t w k : wf None w → stack_ok w k → good (settle k (do_op t ThreadExit w)).
Proof.
  intros Hwf Hs. simpl. set (vs := (VSync t <$> seq 0 (length (rows t w))) ++ [VDefault t]).
  pose proof (release_all_good t vs w k Hwf Hs) as Hr. ospecialize* Hr.
  { intros v. unfold vs. rewrite elem_of_app, list_elem_of_fmap, list_elem_of_singleton. naive_solver. }
  destruct (release_all t vs w) as [w1 [cs|e|]]; [|done..]. destruct Hr as (-> & Hwf1 & Hk1 & Er & Hp).
  apply (good_calls w); [|by apply Hk1|done|done].
  destruct Hwf1 as [W1 W2 W3 W4 W5 W6 W7 W8 W9]. split; simpl; try done.
  intros v l Hv. destruct (W1 v l Hv) as (o & Ho & Hro). exists o. split; [done|].
  destruct v as [|t'|t' i|n|h|n]; try done. destruct Hro as (? & ? & b & Hb & ?).
  split_and!; [done|done|]. exists b. split; [|done]. unfold rows in *. simpl.
  destruct (decide (t' = t)) as [->|]; [|by rewrite lookup_delete_ne]. exfalso.
  destruct (Hp _ _ Hv) as [Hn _]. apply Hn. unfold vs. rewrite elem_of_app, list_elem_of_fmap. left. exists i. split; [done|].
  apply elem_of_seq. apply lookup_lt_Some in Hb. rewrite Er in Hb. unfold rows. lia.
Qed.

(** A loop is given to a variable [hold] of the function that goes on with [cs]. *)
Lemma good_hold w l t cs cs' k : wf None w → stack_ok w k → is_Some (loops w !! l) → Forall inert cs' →
  (∀ n, n ∉ holds k → stack_ok (assign_hold l w) (Release t (VHold n) :: cs' ++ k) →
    ptrs (assign_hold l w) !! VHold n = Some l → stack_ok (assign_hold l w) (cs ++ Release t (VHold n) :: cs' ++ k)) →
  good (settle k (assign_hold l w, Calls (cs ++ Release t (VHold (counter w)) :: cs'))).
Proof.
  intros Hwf Hs Hl Hi Hcs. destruct (assign_hold_good l w k Hwf Hs Hl) as (Hwf' & Hk & Hn).
  split; [done|]. change (stack_ok (assign_hold l w) ((cs ++ Release t (VHold (counter w)) :: cs') ++ k)). rewrite <-app_assoc.
  assert (ptrs (assign_hold l w) !! VHold (counter w) = Some l) as Hp by apply lookup_insert_eq.
  apply Hcs; [done| |done]. pose proof (stack_inert _ _ _ Hi (stack_keeps _ _ _ Hk Hs)) as Hs'.
  assert (holds (cs' ++ k) = holds k) as Eh.
  { clear -Hi. induction Hi as [|c cs' Hc _ IH]; [done|]. unfold holds in *. csimpl. by destruct c. }
  destruct Hs' as [A1 A2 A3 A4 A5]. rewrite Eh in *. split.
  - unfold holds. csimpl. change (omap hold_of (cs' ++ k)) with (holds (cs' ++ k)). rewrite Eh. by constructor.
  - intros n. unfold holds. csimpl. change (omap hold_of (cs' ++ k)) with (holds (cs' ++ k)). rewrite Eh, elem_of_cons.
    intros [->|?]; [by eexists|by apply A2].
  - constructor; [by eexists|done].
  - done.
  - intros l' o Ho Hr. right. by eapply A5.
Qed.

Lemma stack_cons_inert w c k : inert c → stack_ok w k → stack_ok w (c :: k).
Proof. intros Hc. apply (stack_inert w [c]). by constructor. Qed.

Lemma do_op_good t a w k : wf None w → stack_ok w k → good (settle k (do_op t a w)).
Proof using LL.
  intros Hwf Hs. destruct a as [b|b| | |b|n|n|kd h n|h|n|n| | |].
  - simpl. unfold set_default_backend. destruct b as [b|]; [case_decide|]; try by apply (good_throws w); auto using kept_refl.
    apply (good_calls w _ []); [by eapply wf_ext|split; simpl; eauto|done|done].
  - simpl. destruct (Loop_ctor t b LOCAL w) as [w1 [l|e]] eqn:Ec.
    + destruct (Loop_ctor_fields _ _ _ _ _ _ Ec) as (Ep & Er & Ecn & _).
      destruct (wf_fresh_var w (counter w1) Hwf ltac:(lia)) as [Hv _].
      destruct (Loop_ctor_new _ _ _ _ _ _ (assign_user l w1) _ k Ec Hwf Hv) as (Hwf1 & Hk1 & _);
        try done; [naive_solver lia|simpl; lia|by apply rows_extend_same|]. by apply (good_calls w _ []).
    + apply Loop_ctor_throws in Ec as ->. apply (good_throws w); auto using kept_refl.
  - destruct (global_loop t w) as [w1 r] eqn:Eg. destruct (global_loop_ok _ _ k _ _ Hwf Eg) as (Hwf1 & Hk1 & _ & _ & Hr).
    simpl. rewrite Eg. apply (returned_good _ w); try done. simpl. intros l ->. destruct Hr as (l' & [= <-] & Hp).
    destruct (wf_role _ _ Hwf1 _ _ Hp) as (o & ? & _). by exists o.
  - destruct (default_loop t w) as [w1 r] eqn:Eg. destruct (default_loop_ok _ _ k _ _ Hwf Eg) as (Hwf1 & Hk1 & Hr).
    simpl. rewrite Eg. apply (returned_good _ w); try done. simpl. intros l ->. destruct Hr as (l' & [= <-] & Hp).
    destruct (wf_role _ _ Hwf1 _ _ Hp) as (o & ? & _). by exists o.
  - destruct (sync_get t b w) as [w1 r] eqn:Eg. destruct (sync_get_ok _ _ _ k _ _ Hwf Eg) as (Hwf1 & Hk1 & Hr).
    simpl. rewrite Eg. apply (returned_good _ w); try done. simpl. by intros l ->.
  - simpl. destruct (ptrs w !! VUser n) as [l|] eqn:El; [|apply (good_calls w w []); auto using kept_refl].
    destruct (wf_role _ _ Hwf _ _ El) as (o & ? & _).
    destruct (assign_user_good l w k Hwf Hs) as [? ?]; [by eexists|]. by apply (good_calls w _ []).
  - apply good_release; [done|done|done|done].
  - by apply NewObj_good.
  - by apply DropObj_good.
  - simpl. destruct (ptrs w !! VUser n) as [l|] eqn:El; [|apply (good_calls w w []); auto using kept_refl].
    apply (good_calls w _ []); [by apply wf_alter|split; [done|]|done|done]. intros l' o'. simpl.
    rewrite lookup_alter_Some. intros [(-> & o & ? & ->)|[? ?]]; eauto.
  - simpl. destruct (ptrs w !! VUser n) as [l|] eqn:El; [|apply (good_calls w w []); auto using kept_refl].
    destruct (wf_role _ _ Hwf _ _ El) as (o & ? & _).
    apply (good_hold w l t [Run_impl t l; Run_end l] [] k Hwf Hs); [by eexists|done|].
    intros m Hm [A1 A2 A3 A4 A5] Hp. simpl.
    split; [done|done|by do 2 (constructor; [done|])| |intros l' o' Ho' Hr; do 2 right; by eapply A5].
    split; [exists m; split; [by left|done]|]. split; [exists m; split; [by left|done]|exact A4].
  - simpl. apply (good_calls w w); auto using kept_refl. case_decide; repeat constructor.
  - by apply ThreadExit_good.
  - apply good_release; [done|done|done|done].
Qed.

(** *** The pending calls *)

Lemma keeps_alter f l w k : (∀ o, loops w !! l = Some o → _running (f o) = true → _running o = true) →
  keeps k w (set_loops (alter f l) w).
Proof.
  intros Hf. split; [done|]. intros l' o'. simpl. rewrite lookup_alter_Some.
  intros [(-> & o & Ho & ->)|[? ?]] Hr; eauto.
Qed.

Lemma keeps_tick w k : keeps k w (tick w).
Proof. split; simpl; eauto. Qed.

Lemma wf_tick w : wf None w → wf None (tick w).
Proof. intros Hwf. by apply (wf_ext None w). Qed.
#[local] Hint Resolve wf_tick keeps_tick kept_refl : core.

Lemma capture_good w l e k cs : wf None w → stack_ok w k → Forall inert cs →
  good (settle k (set_loops (alter (set_exception (Some e)) l) w, Calls cs)).
Proof. intros Hwf Hs Hi. apply (good_calls w); [by apply wf_alter|by apply keeps_alter|done|done]. Qed.

Lemma Run_flag_good w l k : wf None w → stack_ok w (Run_flag l :: k) →
  wf None (set_loops (alter (set_running false) l) w) ∧ stack_ok (set_loops (alter (set_running false) l) w) k.
Proof.
  intros Hwf [A1 A2 A3 [_ A4] A5]. split; [by apply wf_alter|].
  split; [done|done|by inversion A3|by eapply flags_keeps; [|exact A4]|].
  intros l' o'. simpl. rewrite lookup_alter_Some. intros [(-> & o & ? & ->)|[Hne Ho]] Hr; [done|].
  specialize (A5 l' o' Ho Hr). apply elem_of_cons in A5 as [[= ->]|?]; done.
Qed.

Lemma Release_good w t v k : wf None w → stack_ok w (Release t v :: k) →
  match release t v w with
  | (w', Calls cs) => cs = [] ∧ wf None w' ∧ stack_ok w' k
  | (w', Throws _) => False
  | (w', Aborts) => killed w'
  end.
Proof.
  intros Hwf [A1 A2 A3 A4 A5]. apply Forall_cons in A3 as [[n ->] A3]. change (NoDup (n :: holds k)) in A1. apply NoDup_cons in A1 as [Hn A1].
  assert (stack_ok w k) as Hs.
  { split; [done| |done|done|]; [intros m Hm; apply A2; by apply elem_of_holds_cons|].
    intros l o Ho Hr. specialize (A5 l o Ho Hr). by apply elem_of_cons in A5 as [?|?]. }
  pose proof (release_good t (VHold n) w k Hwf Hs) as Hr. ospecialize* Hr; [done|by intros m [= <-]|].
  destruct (release t _ w) as [w' [cs|e|]]; [|done..]. destruct Hr as (-> & ? & ? & _).
  split_and!; [done|done|by eapply stack_keeps].
Qed.

Lemma body_good c w k : wf None w → stack_ok w (c :: k) → good (settle k (body c w)).
Proof using LL.
  intros Hwf Hs. destruct c as [t a|t l|t l|l|l|l|t v|t x|l|t l|t l].
  2: { simpl. pose proof Hs as [A1 A2 A3 [(n & Hn & Hp) A4] A5]. destruct (wf_role _ _ Hwf _ _ Hp) as (o & Ho & _).
    apply stack_pop in Hs; [|done..]. rewrite Ho. destruct (_running o) eqn:Hr; [by apply (good_throws w)|].
    split; [by apply wf_alter|]. simpl. apply (stack_cons_inert _ (Uv_run t l)); [done|].
    destruct Hs as [B1 B2 B3 B4 B5].
    split; [done|done|by constructor| |].
    - split; [by exists n|]. by apply (flags_keeps w).
    - intros l' o'. simpl. rewrite lookup_alter_Some. intros [(-> & ? & ? & ->)|[? Hl]]; [by left|]. right. by eapply B5. }
  4: { apply (Run_flag_good w l k Hwf Hs). }
  5: { pose proof (Release_good w t v k Hwf Hs) as Hr. simpl. destruct (release t v w) as [w' [cs|e|]]; [|done..].
    by destruct Hr as (-> & ? & ?). }
  4: pose proof (so_flags _ _ Hs) as [(n & _ & Hp) _]; destruct (wf_role _ _ Hwf _ _ Hp) as (o' & Ho' & _).
  all: apply stack_pop in Hs; [|done..]; simpl.
  - by apply do_op_good.
  - destruct (uv_next l w) as [[ops|e]|].
    + apply (good_calls w); auto. apply Forall_app. split; [by apply Forall_fmap, Forall_true|by repeat constructor].
    + apply (capture_good (tick w)); [auto|by apply (stack_keeps w); auto|by repeat constructor].
    + apply (good_calls w); auto.
  - apply (good_calls w w []); auto.
  - destruct (loops w !! l) as [o|] eqn:Ho; [|congruence]. destruct (_exception o) as [e|]; [|by apply (good_calls w w []); auto].
    apply (good_throws w); [by apply wf_alter|by apply keeps_alter|done].
  - destruct (tls w !! t) as [X|] eqn:Et; [|by apply (good_calls w w []); auto].
    destruct (next_after x X) as [l|] eqn:En; [|by apply (good_calls w w []); auto].
    destruct (loops w !! l) as [o|] eqn:Ho.
    + apply (good_hold w l t [Handle_fork l; Fork_event t l] [Fork_next t l] k Hwf Hs); [by eexists|by repeat constructor|].
      intros n _ Hs' _. by do 2 (apply stack_cons_inert; [done|]).
    + eexists. split; [done|]. simpl. destruct (foreign w) eqn:Ef; [done|]. exfalso.
      destruct (wf_exact _ _ Hwf t l Ef) as (o & ? & _); [|congruence]. rewrite Et. by destruct (next_after_Some _ _ _ En).
  - assert (wf None (log_fork l w) ∧ keeps k w (log_fork l w)) as [? ?] by (split; [by apply (wf_ext None w)|split; simpl; eauto]).
    destruct (fork_unhandled l w); [by apply (good_throws w)|by apply (good_calls w _ [])].
  - destruct (user_fork l w) as [ops|e]; [|by apply (good_throws w); auto].
    apply (good_calls w w); auto. by apply Forall_fmap, Forall_true.
  - case_decide; [apply (good_calls w w); auto; by repeat constructor|]. by eexists.
Qed.

Lemma unwind_good c e w k : wf None w → stack_ok w (c :: k) → good (settle k (unwind c e w)).
Proof.
  intros Hwf Hs. destruct c as [t a|t l|t l|l|l|l|t v|t x|l|t l|t l].
  5: { apply (Run_flag_good w l k Hwf Hs). }
  6: { pose proof (Release_good w t v k Hwf Hs) as Hr. simpl. destruct (release t v w) as [w' [cs|e'|]]; [|done..].
    by destruct Hr as (-> & ? & ?). }
  all: apply stack_pop in Hs; [|done..]; simpl; try by apply (good_throws w); auto.
  by apply (capture_good w l e k []).
Qed.

Lemma step_good c c' : good c → step prog c = Some c' → good c'.
Proof using LL.
  destruct c as [[|f k] w []]; simpl; intros Hg Hs; [done..| | |done].
  - injection Hs as <-. destruct Hg. by apply body_good.
  - injection Hs as <-. destruct Hg. by apply unwind_good.
Qed.

Lemma blank_good w : blank w → good (Config [] w Normal).
Proof.
  intros (Ep & Er & Et & El & Eo & Ef & _). split.
  - simpl. split; rewrite ?Ep, ?Et, ?El, ?Eo, ?Ef; intros *; by rewrite ?lookup_empty.
  - split; simpl; rewrite ?El; [constructor|by intros n ?%not_elem_of_nil|constructor|done|done].
Qed.

Lemma input_good w m cs w' : good (Config [] w m) → m ≠ Aborted → input w cs w' → good (Config cs w' Normal).
Proof.
  intros Hg Hm (-> & t & a & ->). assert (wf None w ∧ stack_ok w []) as [Hwf Hs] by (by destruct m).
  split; [done|]. by apply stack_cons_inert.
Qed.

Lemma reach_good c : reach c → good c.
Proof using LL. apply reachable_inv; eauto using blank_good, step_good, input_good. Qed.

(** ** The handler of [fork] *)

(** Operations that neither make nor destroy a loop, nor fork. *)
Definition quiet (a : op B) : bool := match a with Copy _ | NewObj _ _ _ | GetResolver _ => true | _ => false end.

(** What they leave alone. *)
Record calm w w' : Prop := {
  calm_tls : tls w' = tls w;
  calm_forked : forked w' = forked w;
  calm_ptrs v l : ptrs w !! v = Some l → ptrs w' !! v = Some l;
  calm_loops l : is_Some (loops w !! l) → is_Some (loops w' !! l);
  calm_counter : (counter w ≤ counter w')%nat;
  calm_hold n l : ptrs w' !! VHold n = Some l → ptrs w !! VHold n = Some l
}.

Lemma calm_refl w : calm w w.
Proof. by split. Qed.

Lemma calm_trans w1 w2 w3 : calm w1 w2 → calm w2 w3 → calm w1 w3.
Proof. intros [] []. split; try congruence; eauto; lia. Qed.

Lemma is_Some_alter f l l' w : is_Some (loops w !! l') → is_Some (alter f l (loops w) !! l').
Proof. intros [o Ho]. destruct (decide (l = l')) as [->|]; [rewrite lookup_alter_eq, Ho|rewrite lookup_alter_ne by done]; by eexists. Qed.

(** The names of variables are new, and an object with a loop exists. *)
Definition named w : Prop :=
  (∀ n l, ptrs w !! VUser n = Some l → (n < counter w)%nat) ∧ (∀ h, is_Some (ptrs w !! VObj h) → is_Some (objs w !! h)).

Lemma quiet_step t a w : quiet a → named w → ∃ w', do_op t a w = (w', Calls []) ∧ calm w w' ∧ named w'.
Proof.
  intros Ha [Hu Ho]. unfold named. destruct a as [b|b| | |b|n|n|kd h n|h|n|n| | |]; try done; simpl.
  - destruct (ptrs w !! VUser n) as [l|] eqn:El; [|exists w; split_and!; auto using calm_refl]. eexists. split_and!; [done| | |]; simpl.
    + split; simpl; try done; [|lia|intros m l'; by rewrite lookup_insert_ne].
      intros v l' Hv. rewrite lookup_insert_ne; [done|]. intros <-. apply Hu in Hv. lia.
    + intros m l'. destruct (decide (m = counter w)) as [->|]; [lia|]. rewrite lookup_insert_ne by congruence.
      intros ?%Hu. lia.
    + intros h. rewrite lookup_insert_ne by done. apply Ho.
  - destruct (ptrs w !! VUser n) as [l|] eqn:El; [|exists w; split_and!; auto using calm_refl].
    destruct (objs w !! h) as [?|] eqn:Eo; [exists w; split_and!; auto using calm_refl|].
    assert (ptrs w !! VObj h = None) as Ep.
    { destruct (ptrs w !! VObj h) eqn:E; [|done]. destruct (Ho h) as [? ?]; [by eexists|congruence]. }
    eexists. split_and!; [done| | |].
    + split; try (destruct kd; done).
      * intros v l' Hv. assert (v ≠ VObj h) by congruence. destruct kd; simpl; by rewrite lookup_insert_ne.
      * intros l'. destruct kd; [apply (is_Some_alter _ _ _ w)|done..].
      * intros m l'. destruct kd; simpl; by rewrite lookup_insert_ne.
    + intros m l'. destruct kd; simpl; rewrite lookup_insert_ne by done; apply Hu.
    + intros h'. destruct (decide (h' = h)) as [->|]; destruct kd; simpl; simplify_map_eq; eauto;
        rewrite !lookup_insert_ne by congruence; apply Ho.
  - destruct (ptrs w !! VUser n) as [l|] eqn:El; [|exists w; split_and!; auto using calm_refl].
    eexists. split_and!; [done| |done|done]. split; try done. intros l'. apply (is_Some_alter _ _ _ w).
Qed.

Lemma quiet_steps t ops w k : Forall quiet ops → named w →
  ∃ w', steps prog (Config ((COp t <$> ops) ++ k) w Normal) (Config k w' Normal) ∧ calm w w' ∧ named w'.
Proof.
  intros Ho. revert w. induction Ho as [|a ops Ha _ IH]; intros w Hn; [exists w; auto using calm_refl, steps_refl|].
  destruct (quiet_step t a w Ha Hn) as (w1 & Hs1 & Hc1 & Hn1). destruct (IH w1 Hn1) as (w2 & Hs2 & Hc2 & Hn2).
  exists w2. split_and!; [|by eapply calm_trans|done]. eapply steps_cons; [|exact Hs2].
  unfold step. csimpl. by rewrite Hs1.
Qed.

(** One element of the set: its loop is held, told of the fork, and released; it lives on. *)
Lemma fork_one t x l X w k :
  (∀ l w, fork_unhandled l w = None ∧ ∃ ops, user_fork l w = inl ops ∧ Forall quiet ops) →
  tls w !! t = Some X → next_after x X = Some l → is_Some (loops w !! l) → pointed l w → named w →
  (∀ n l, ptrs w !! VHold n = Some l → (n < counter w)%nat) →
  ∃ w', steps prog (Config (Fork_from t x :: k) w Normal) (Config (Fork_from t (Some l) :: k) w' Normal) ∧
    calm (log_fork l w) w' ∧ named w'.
Proof.
  intros Hq Ht Hx [o Ho] (v & l' & Hv & ->) Hn Hh. set (w1 := log_fork l (assign_hold l w)).
  assert (ptrs w !! VHold (counter w) = None) as Hc.
  { destruct (ptrs w !! VHold (counter w)) as [l'|] eqn:E; [|done]. apply Hh in E. lia. }
  destruct (Hq l w1) as (_ & ops & Hops & Hqo). destruct (Hq l (assign_hold l w)) as [Hun _].
  assert (named w1) as Hn1.
  { destruct Hn as [Hu Hob]. split; simpl.
    - intros n l'. rewrite lookup_insert_ne by done. intros ?%Hu. lia.
    - intros h. rewrite lookup_insert_ne by done. apply Hob. }
  destruct (quiet_steps t ops w1 ([Release t (VHold (counter w)); Fork_next t l] ++ k) Hqo Hn1) as (w2 & Hs2 & Hc2 & Hn2).
  exists (set_ptrs (delete (VHold (counter w))) w2).
  assert (v ≠ VHold (counter w)) as Hvc by congruence.
  assert (ptrs w2 !! VHold (counter w) = Some l) as Hp2 by (apply (calm_ptrs _ _ Hc2), lookup_insert_eq).
  assert (∀ v' l', ptrs w !! v' = Some l' → ptrs w2 !! v' = Some l') as Hpp.
  { intros v' l' Hv'. apply (calm_ptrs _ _ Hc2). simpl. by rewrite lookup_insert_ne by congruence. }
  split_and!.
  - eapply steps_cons; [unfold step; simpl; rewrite Ht, Hx, Ho; reflexivity|].
    eapply steps_cons; [unfold step; simpl; rewrite Hun; reflexivity|]. eapply steps_cons.
    { unfold step. simpl. fold w1. rewrite Hops. reflexivity. }
    eapply steps_trans; [exact Hs2|]. eapply steps_cons.
    { unfold step. simpl. unfold release. rewrite Hp2, decide_True; [reflexivity|].
      exists v, l. split; [|done]. simpl. rewrite lookup_delete_ne by done. by apply Hpp. }
    eapply steps_cons; [|apply steps_refl]. unfold step. simpl. rewrite (calm_tls _ _ Hc2). simpl. rewrite Ht, decide_True; [done|].
    by destruct (next_after_Some _ _ _ Hx).
  - destruct Hc2 as [C1 C2 C3 C4 C5 C6]. split; simpl in *; try done; [|lia|].
    + intros v' l' Hv'. rewrite lookup_delete_ne by congruence. by apply Hpp.
    + intros n l' [Hne Hp]%lookup_delete_Some. apply C6 in Hp. rewrite lookup_insert_ne in Hp by congruence. done.
  - destruct Hn2 as [Hu Hob]. split; simpl.
    + intros n l'. rewrite lookup_delete_ne by done. apply Hu.
    + intros h. rewrite lookup_delete_ne by done. apply Hob.
Qed.

Lemma fork_all t X k :
  (∀ l w, fork_unhandled l w = None ∧ ∃ ops, user_fork l w = inl ops ∧ Forall quiet ops) →
  ∀ n x w, (size (filter (after x) X) ≤ n)%nat → tls w !! t = Some X → (∀ l, l ∈ X → is_Some (loops w !! l) ∧ pointed l w) →
  named w → (∀ n l, ptrs w !! VHold n = Some l → (n < counter w)%nat) →
  ∃ w' ls, steps prog (Config (Fork_from t x :: k) w Normal) (Config k w' Normal) ∧
    forked w' = forked w ++ ls ∧ StronglySorted lt ls ∧ (∀ l, l ∈ ls ↔ l ∈ X ∧ after x l).
Proof.
  intros Hq n. induction n as [n IH] using lt_wf_ind. intros x w Hsz Ht Hl Hn Hh.
  destruct (next_after x X) as [l|] eqn:Hx.
  - destruct (next_after_Some _ _ _ Hx) as (HX & Ha & Hmin). destruct (Hl l HX) as [Hlive Hptd].
    destruct (fork_one t x l X w k Hq Ht Hx Hlive Hptd Hn Hh) as (w1 & Hs1 & [C1 C2 C3 C4 C5 C6] & Hn1).
    assert (∀ y, after (Some l) y → after x y) as Hlt by (intros y; destruct x; simpl in *; [lia|done]).
    assert (filter (after (Some l)) X ⊂ filter (after x) X) as Hsub.
    { split; [intros y; rewrite !elem_of_filter; naive_solver|]. intros Hc. specialize (Hc l).
      rewrite !elem_of_filter in Hc. destruct Hc as [Hc _]; [done|]. simpl in Hc. lia. }
    apply subset_size in Hsub. destruct (IH (size (filter (after (Some l)) X)) ltac:(lia) (Some l) w1) as (w2 & ls & Hs2 & Hf2 & Hso & Hin).
    + done.
    + by rewrite C1.
    + intros l' Hl'. destruct (Hl l' Hl') as [? (v & l2 & Hv & ->)]. split; [by apply C4|]. exists v, l'. split; [by apply C3|done].
    + done.
    + intros m l' Hm. apply C6, Hh in Hm. simpl in C5. lia.
    + exists w2, (l :: ls). split_and!.
      * by eapply steps_trans.
      * rewrite Hf2, C2. simpl. by rewrite <-app_assoc.
      * constructor; [done|]. apply Forall_forall. intros y [_ Hy]%Hin. done.
      * intros y. rewrite elem_of_cons, Hin. split; [intros [->|[? ?]]; auto|]. intros [Hy Hay].
        destruct (decide (y = l)) as [->|Hne]; [by left|]. right. split; [done|]. simpl. specialize (Hmin y Hy Hay). lia.
  - exists w, []. split_and!; [|by rewrite app_nil_r|constructor|].
    + eapply steps_cons; [|apply steps_refl]. unfold step. simpl. by rewrite Ht, Hx.
    + intros l. split; [by intros ?%not_elem_of_nil|]. intros [? ?]. by destruct (next_after_None _ _ Hx l).
Qed.

(** ** The loops of synchronous calls *)

(** Each row has its loop. *)
Definition synced w : Prop := ∀ t i, is_Some (rows t w !! i) → is_Some (ptrs w !! VSync t i).

(** Rows and their loops are left alone. *)
Definition same_sync w w' : Prop := sync_rows w' = sync_rows w ∧ ∀ t i, ptrs w' !! VSync t i = ptrs w !! VSync t i.

Lemma same_synced w w' : same_sync w w' → synced w → synced w'.
Proof. intros [Er Ep] Hs t i. unfold rows. rewrite Er, Ep. apply Hs. Qed.

Lemma Loop_dtor_sync t l w : same_sync w (Loop_dtor t l w).1.
Proof.
  unfold Loop_dtor. destruct (loops w !! l) as [o|]; [|done]. destruct (unregister_loop _ _ _) as [w'|] eqn:Eu; [|done].
  destruct (unregister_spec _ _ _ _ Eu) as (Ew & _). assert (same_sync w w') as Hs by (by rewrite Ew).
  destruct (decide _); [exact Hs|]. destruct (_running _); exact Hs.
Qed.

Lemma release_sync t v w :
  sync_rows (release t v w).1 = sync_rows w ∧ ∀ v', v' ≠ v → (∃ t i, v' = VSync t i) → ptrs (release t v w).1 !! v' = ptrs w !! v'.
Proof.
  unfold release. destruct (ptrs w !! v) as [l|]; [|done].
  assert (∀ v', v' ≠ v → ptrs (set_ptrs (delete v) w) !! v' = ptrs w !! v') as Hd.
  { intros v' Hv'. simpl. by rewrite lookup_delete_ne. }
  case_decide; [split; auto|]. destruct (Loop_dtor_sync t l (set_ptrs (delete v) w)) as [-> Hp].
  split; [done|]. intros v' Hv' (t' & i & ->). rewrite Hp. by apply Hd.
Qed.

Lemma release_same_sync t v w : (∀ t i, v ≠ VSync t i) → same_sync w (release t v w).1.
Proof. intros Hv. destruct (release_sync t v w) as [Hr Hp]. split; [done|]. intros t' i. apply Hp; [naive_solver|eauto]. Qed.

Lemma release_all_sync t vs w :
  sync_rows (release_all t vs w).1 = sync_rows w ∧
  ∀ v', v' ∉ vs → (∃ t i, v' = VSync t i) → ptrs (release_all t vs w).1 !! v' = ptrs w !! v'.
Proof.
  revert w. induction vs as [|v vs IH]; intros w; [done|]. simpl. destruct (release_sync t v w) as [Hr Hp].
  assert (∀ w', w' = (release t v w).1 → sync_rows w' = sync_rows w ∧
    ∀ v', v' ∉ v :: vs → (∃ t i, v' = VSync t i) → ptrs w' !! v' = ptrs w !! v') as Hw.
  { intros w' ->. split; [done|]. intros v' [? ?]%not_elem_of_cons. auto. }
  destruct (release t v w) as [w1 [cs|e|]]; simpl in *; [| |by apply Hw].
  all: destruct (IH w1) as [-> Hp2]; split; [done|]; intros v' [Hv Hvs]%not_elem_of_cons Hex;
    rewrite Hp2 by done; by apply Hp.
Qed.

Lemma global_loop_sync t w : same_sync w (global_loop t w).1.
Proof.
  unfold global_loop, _init_global_loop. destruct (ptrs w !! VGlobal); [done|].
  destruct (Loop_ctor t None GLOBAL w) as [w1 [l|e]] eqn:Ec; destruct (Loop_ctor_fields _ _ _ _ _ _ Ec) as (Ep & Er & _).
  - split; [done|]. intros t' i. simpl. by rewrite lookup_insert_ne, Ep.
  - split; [done|]. intros t' i. by rewrite <-Ep.
Qed.

Lemma default_loop_sync t w : same_sync w (default_loop t w).1.
Proof.
  unfold default_loop, _init_default_loop. destruct (ptrs w !! VDefault t); [done|]. case_decide.
  - pose proof (global_loop_sync t w) as [Hr Hp]. destruct (global_loop t w) as [w1 [[l|]|e]]; try done.
    split; [done|]. intros t' i. rewrite <-Hp. simpl. by rewrite lookup_insert_ne.
  - destruct (Loop_ctor t None DEFAULT w) as [w1 [l|e]] eqn:Ec; destruct (Loop_ctor_fields _ _ _ _ _ _ Ec) as (Ep & Er & _).
    + split; [done|]. intros t' i. simpl. by rewrite lookup_insert_ne, Ep.
    + split; [done|]. intros t' i. by rewrite <-Ep.
Qed.

Lemma sync_get_synced t b w : synced w → synced (sync_get t b w).1.
Proof.
  intros Hs. unfold sync_get. destruct (list_find _ _) as [[i b']|]; [done|].
  destruct (Loop_ctor t b LOCAL w) as [w1 [l|e]] eqn:Ec; destruct (Loop_ctor_fields _ _ _ _ _ _ Ec) as (Ep & Er & _).
  - assert (∀ t, rows t w1 = rows t w) as Er1 by (intros ?; unfold rows; by rewrite Er). rewrite Er1. intros t' i. cbn [fst].
    destruct (decide (t' = t)) as [->|Ht].
    + rewrite rows_insert. intros Hi. destruct (decide (i = length (rows t w))) as [->|Hne]; [simpl; simplify_map_eq; by eexists|].
      simpl. rewrite lookup_insert_ne, Ep by congruence. apply Hs, lookup_lt_is_Some.
      apply lookup_lt_is_Some in Hi. rewrite length_app in Hi. simpl in Hi. lia.
    + unfold rows. simpl. rewrite !lookup_insert_ne by congruence. rewrite Er, Ep. apply Hs.
  - intros t' i. unfold rows. simpl. rewrite Er, Ep. apply Hs.
Qed.

Lemma returned_sync r : same_sync r.1 (returned r).1.
Proof.
  destruct r as [w [[l|]|e]]; [|done..]. split; [done|]. intros t i. simpl. by rewrite lookup_insert_ne.
Qed.

Lemma do_op_synced t a w : synced w → synced (do_op t a w).1.
Proof.
  intros Hs. destruct a as [b|b| | |b|n|n|kd h n|h|n|n| | |].
  - simpl. unfold set_default_backend. destruct b; [case_decide|]; done.
  - simpl. destruct (Loop_ctor t b LOCAL w) as [w1 [l|e]] eqn:Ec; destruct (Loop_ctor_fields _ _ _ _ _ _ Ec) as (Ep & Er & _);
      eapply same_synced, Hs; (split; [done|]); intros t' i; simpl; [by rewrite lookup_insert_ne, Ep|by rewrite Ep].
  - eapply same_synced, same_synced, Hs; [apply returned_sync|apply global_loop_sync].
  - eapply same_synced, same_synced, Hs; [apply returned_sync|apply default_loop_sync].
  - eapply same_synced; [apply returned_sync|]. by apply sync_get_synced.
  - simpl. destruct (ptrs w !! VUser n) as [l|]; [|done]. eapply same_synced, Hs. split; [done|]. intros t' i. simpl.
    by rewrite lookup_insert_ne.
  - eapply same_synced, Hs. by apply release_same_sync.
  - simpl. destruct (ptrs w !! VUser n) as [l|], (objs w !! h) as [?|]; try done. eapply same_synced, Hs.
    destruct kd; (split; [done|]); intros t' i; simpl; by rewrite lookup_insert_ne.
  - simpl. destruct (ptrs w !! VObj h) as [l|], (objs w !! h) as [kd|]; try done.
    eapply same_synced; [by apply release_same_sync|]. eapply same_synced, Hs. by destruct kd.
  - simpl. by destruct (ptrs w !! VUser n).
  - simpl. destruct (ptrs w !! VUser n) as [l|]; [|done]. eapply same_synced, Hs. split; [done|]. intros t' i. simpl.
    by rewrite lookup_insert_ne.
  - done.
  - simpl. set (vs := _ ++ _). destruct (release_all_sync t vs w) as [Hr Hp]. destruct (release_all t vs w) as [w1 r]. simpl in *.
    intros t' i. unfold rows. simpl. destruct (decide (t' = t)) as [->|Ht]; [rewrite lookup_delete_eq; by intros []|].
    rewrite lookup_delete_ne, Hr by done. rewrite Hp; [apply Hs| |by eauto].
    unfold vs. rewrite elem_of_app, list_elem_of_fmap, list_elem_of_singleton. naive_solver.
  - eapply same_synced, Hs. by apply release_same_sync.
Qed.

Lemma body_synced c w k : wf None w → stack_ok w (c :: k) → synced w → synced (body c w).1 ∧ ∀ e, synced (unwind c e w).1.
Proof.
  intros Hwf Hso Hs. assert (∀ t v, c = Release t v → synced (release t v w).1) as Hrel.
  { intros t v ->. destruct (proj1 (Forall_cons_1 _ _ _ (so_plain _ _ Hso))) as [n ->].
    eapply same_synced, Hs. by apply release_same_sync. }
  split.
  - destruct c as [t a|t l|t l|l|l|l|t v|t x|l|t l|t l]; simpl; try done.
    + by apply do_op_synced.
    + destruct (loops w !! l) as [o|]; [|done]. by destruct (_running o).
    + by destruct (uv_next l w) as [[]|].
    + destruct (loops w !! l) as [o|]; [|done]. by destruct (_exception o).
    + by apply Hrel.
    + destruct (tls w !! t); [|done]. destruct (next_after _ _) as [l|]; [|done]. destruct (loops w !! l); [|done].
      eapply same_synced, Hs. split; [done|]. intros t' i. simpl. by rewrite lookup_insert_ne.
    + by destruct (user_fork l w).
    + by case_decide.
  - intros e. destruct c as [t a|t l|t l|l|l|l|t v|t x|l|t l|t l]; simpl; try done.
    specialize (Hrel t v eq_refl). by destruct (release t v w) as [w1 []].
Qed.

Lemma reach_synced c : reach c → cmode c ≠ Aborted → synced (mem c).
Proof using LL.
  intros Hr. assert (good c ∧ (cmode c ≠ Aborted → synced (mem c))) as [_ ?]; [|done]. revert c Hr.
  apply reachable_inv.
  - intros w Hf. split; [by apply blank_good|]. intros _ t i. simpl. unfold rows.
    destruct Hf as (_ & -> & _). rewrite lookup_empty. by intros [].
  - intros c c' [Hg Hs] Hst. split; [by eapply step_good|]. intros _.
    destruct c as [[|f k] w []]; simpl in *; try done; injection Hst as <-; destruct Hg as [Hwf Hso];
      destruct (body_synced f w k Hwf Hso) as [Hb Hu]; try (by apply Hs);
      [revert Hb; by destruct (body f w) as [? []]|specialize (Hu e); revert Hu; by destruct (unwind f e w) as [? []]].
  - intros w m cs w' [Hg Hs] Hm Hi. split; [by eapply input_good|]. intros _. destruct Hi as (-> & _). by apply Hs.
Qed.

Lemma reach_wf k w m : reach (Config k w m) → m ≠ Aborted → wf None w.
Proof using LL. intros Hg%reach_good Hm. unfold good in Hg. simpl in Hg. by destruct m as [|e|]; [destruct Hg..|]. Qed.

(** The loops that exist are known, those of a thread to its set. *)
Lemma loops_registered c l o : reach c → cmode c ≠ Aborted → loops (mem c) !! l = Some o →
  pointed l (mem c) ∧ l ∈ default ∅ (tls (mem c) !! lthread o).
Proof using LL.
  intros Hr Hm Ho. pose proof (reach_good c Hr) as Hg. unfold good in Hg.
  assert (wf None (mem c)) as Hwf by (destruct (cmode c); tauto). split; [|by eapply wf_registered].
  destruct (wf_pointed _ _ Hwf l o Ho) as [v Hv]. by exists v, l.
Qed.

Lemma default_loop_again t w w' r : default_loop t w = (w', inl r) → r = ptrs w' !! VDefault t → is_Some r →
  default_loop t w' = (w', inl r).
Proof. intros _ -> [l E]. unfold default_loop. by rewrite E. Qed.

(** [SyncLoop::get] finds what it returned. *)
Lemma sync_get_spec t b w w' r : wf None w → synced w → sync_get t b w = (w', inl r) →
  ∃ l i, r = Some l ∧ ptrs w' !! VSync t i = Some l ∧ rows t w' !! i = Some b ∧ wf None w' ∧ sync_get t b w' = (w', inl r).
Proof using LL.
  intros Hwf Hs Hg. destruct (sync_get_ok _ _ _ [] _ _ Hwf Hg) as (Hwf' & _). revert Hg.
  unfold sync_get. destruct (list_find _ _) as [[i b']|] eqn:Ef.
  - intros [= <- <-]. apply list_find_Some in Ef as Ef'. destruct Ef' as (Hi & -> & _).
    destruct (Hs t i) as [l Hl]; [by eexists|]. exists l, i. by rewrite Hl, Ef, Hl.
  - destruct (Loop_ctor t b LOCAL w) as [w1 [l|e]] eqn:Ec; intros [= <- <-].
    destruct (Loop_ctor_fields _ _ _ _ _ _ Ec) as (_ & Er & _).
    assert (rows t w1 = rows t w) as Er1 by (unfold rows; by rewrite Er).
    exists l, (length (rows t w1)). rewrite rows_insert. split_and!; [done|apply lookup_insert_eq|by apply list_lookup_middle|done|].
    rewrite Er1, list_find_app_r by done. simpl. rewrite decide_True by done. simpl. by rewrite lookup_insert_eq.
Qed.
End Invariant.

(** ** An environment to run: addresses are numbers; the listeners of a fork copy a loop. *)

Definition ex_env (uf : lid → world nat nat → list (op nat) + nat) : LoopEnv nat nat := {|
  malloc w := fresh (dom (loops w));
  UV := 0;
  new_loop _ ty _ := UVLoop_ctor true 0 1 (λ _, 2) ty;
  main_thread := 0;
  exc_null_backend := 3;
  exc_too_late := 4;
  exc_recursion := 5;
  uv_next _ _ := None;
  fork_unhandled _ _ := None;
  user_fork := uf
|}.

Lemma ex_laws uf : @LoopEnvLaws nat nat (ex_env uf).
Proof. split. intros w. apply not_elem_of_dom. simpl. apply is_fresh. Qed.

Definition ex_w0 : world nat nat := mkWorld None ∅ ∅ ∅ ∅ ∅ 0 0 [] false None.

Definition copies : lid → world nat nat → list (op nat) + nat := λ _ _, inl [Copy 0; GetResolver 0].

(** A process in which the threads do these operations, one after another. *)
Fixpoint drive `{LE : LoopEnv nat nat} (ops : list (tid * op nat)) (w : world nat nat) : option (world nat nat) :=
  match ops with
  | [] => Some w
  | (t, a) :: ops =>
      match Machine.run prog 40 (Config [COp t a] w Normal) with
      | Config [] w Normal => drive ops w
      | _ => None
      end
  end.

#[local] Arguments Machine.run : simpl never.

(** Its states are reached. *)
Lemma drive_reach `{LE : LoopEnv nat nat} ops w w' : reach (Config [] w Normal) → drive ops w = Some w' →
  reach (Config [] w' Normal).
Proof.
  revert w. induction ops as [|[t a] ops IH]; intros w Hr; simpl; [by intros [= <-]|].
  destruct (Machine.run prog 40 (Config [COp t a] w Normal)) as [[|? ?] w1 []] eqn:E; try done.
  intros Hd. eapply IH; [|exact Hd]. eapply (reachable_steps _ _ _ (Config [COp t a] w Normal)); [|rewrite <-E; apply run_steps].
  eapply reach_input; [exact Hr|done|]. split; [done|]. by exists t, a.
Qed.

(** Threads 0 (the main one) and 1 make loops; the main one forks. *)
Definition ex_ops : list (tid * op nat) := [(0, GetDefault); (1, GetDefault); (0, New None); (0, GetSync (Some 0)); (0, Drop 1)].
Definition ex_w1 : world nat nat := default ex_w0 (@drive (ex_env copies) ex_ops ex_w0).

Lemma ex_w1_reach : @reach nat nat _ (ex_env copies) (Config [] ex_w1 Normal).
Proof.
  apply (@drive_reach (ex_env copies) ex_ops ex_w0); [by apply reach_init|]. vm_compute. reflexivity.
Qed.

(** ** Properties *)

(** C28: the destructor of a loop only runs on a loop that nobody uses: whatever the threads do
    and the callbacks of its runs and forks, a loop is never destroyed while it has a handle
    ([assert(!_handles.size())] holds) or while it runs, and never used after that by a run.
    The process dies only in the two ways that the end of the file exhibits: when a loop was
    destroyed by a thread that did not make it, or in the handler of [fork] when the loop it
    has just told of the fork is gone. *)
Theorem loop_destroyed_when_unused {B Exn : Type} `{EqDecision B} `{LoopEnvLaws B Exn}
    (c : config (world B Exn) (call B) Exn) (Hr : reach c) :
  match cmode c with
  | Aborted => ∃ why, crashed (mem c) = Some why ∧
      match why with
      | CNullSet _ _ | CDangling _ => foreign (mem c) = true
      | CIterator _ _ => True
      | CHandles _ | CRunning _ => False
      end
  | _ => (∀ l o, loops (mem c) !! l = Some o → ∃ v, ptrs (mem c) !! v = Some l) ∧
      (∀ v l, ptrs (mem c) !! v = Some l → is_Some (loops (mem c) !! l)) ∧
      (∀ l o, loops (mem c) !! l = Some o → _running o = true → Run_flag l ∈ stack c)
  end.
Proof.
  apply reach_good in Hr. unfold good in Hr. destruct (cmode c); [..|exact Hr].
  all: destruct Hr as [Hwf Hs]; split_and!; [apply (wf_pointed _ _ Hwf)| |apply (so_running _ _ Hs)].
  all: intros v l Hv; destruct (wf_role _ _ Hwf v l Hv) as (o & ? & _); by exists o.
Qed.

Lemma loop_destroyed_when_unused_witness : ∃ v, ptrs ex_w1 !! v = Some 1%nat.
Proof.
  pose proof (@loop_destroyed_when_unused nat nat _ (ex_env copies) (ex_laws copies) (Config [] ex_w1 Normal)) as Ht.
  destruct Ht as (Ht & _); [apply ex_w1_reach|]. destruct (loops ex_w1 !! 1%nat) as [o|] eqn:E; [by apply (Ht 1%nat o)|].
  vm_compute in E. discriminate.
Defined.

(** C29: the sets that the handler of [fork] goes through are exact: in a process whose loops
    are destroyed by the threads that made them, a thread that forks tells each of its loops
    of the fork, [handle_fork] first, each once and in the order of their addresses, and no
    other loop; provided that [uv_loop_fork] works and the listeners of [fork_event] make and destroy
    no loop. *)
Theorem fork_tells_each_loop {B Exn : Type} `{EqDecision B} `{LoopEnvLaws B Exn} (w : world B Exn) m (t : tid)
    (Hr : reach (Config [] w m)) (Hm : m ≠ Aborted) (Hf : foreign w = false)
    (Hq : ∀ l w, fork_unhandled l w = None ∧ ∃ ops, user_fork l w = inl ops ∧ Forall quiet ops) :
  ∃ w' ls, steps prog (Config [COp t Fork] w Normal) (Config [] w' Normal) ∧ forked w' = forked w ++ ls ∧
    StronglySorted lt ls ∧ ∀ l, l ∈ ls ↔ ∃ o, loops w !! l = Some o ∧ lthread o = t.
Proof.
  apply reach_wf in Hr as Hwf; [|done].
  assert (∀ l, l ∈ default ∅ (tls w !! t) ↔ ∃ o, loops w !! l = Some o ∧ lthread o = t) as Hset.
  { intros l. split; [by apply (wf_exact _ _ Hwf)|]. intros (o & Ho & <-). by apply (wf_registered _ _ Hwf). }
  destruct (tls w !! t) as [X|] eqn:Et; simpl in Hset.
  - destruct (fork_all t X [] Hq (size (filter (after None) X)) None w) as (w' & ls & Hs & Hfo & Hso & Hin); try done.
    + intros l (o & Ho & _)%Hset. split; [by eexists|]. destruct (wf_pointed _ _ Hwf l o Ho) as [v Hv]. by exists v, l.
    + split; [apply (wf_user _ _ Hwf)|]. intros h Hh. by destruct (wf_objs _ _ Hwf h Hh).
    + apply (wf_hold _ _ Hwf).
    + exists w', ls. split_and!; [|done|done|].
      * eapply steps_cons; [|exact Hs]. unfold step. simpl. by rewrite Et, decide_True by (by eexists).
      * intros l. rewrite Hin, Hset. simpl. tauto.
  - exists w, []. split_and!; [|by rewrite app_nil_r|constructor|].
    + eapply steps_cons; [|apply steps_refl]. unfold step. simpl. rewrite Et, decide_False; [done|]. by intros [].
    + intros l. rewrite <-Hset. set_solver.
Qed.

Lemma fork_tells_each_loop_witness :
  let H := ex_env copies in
  ∃ w' ls, steps prog (Config [COp 0 Fork] ex_w1 Normal) (Config [] w' Normal) ∧ forked w' = forked ex_w1 ++ ls ∧
    StronglySorted lt ls ∧ ∀ l, l ∈ ls ↔ ∃ o, loops ex_w1 !! l = Some o ∧ lthread o = 0%nat.
Proof.
  apply (@fork_tells_each_loop nat nat _ (ex_env copies) (ex_laws copies) ex_w1 Normal 0).
  - apply ex_w1_reach.
  - done.
  - vm_compute. reflexivity.
  - intros l w. split; [reflexivity|]. exists [Copy 0; GetResolver 0]. split; [reflexivity|]. by repeat constructor.
Defined.

(** C30: the loops of a thread: [default_loop] of a thread returns the loop it returned before,
    which exists; it is the global loop for the main thread, and for each other one a loop of
    its own that nobody else has as the default; [SyncLoop::get] of a thread returns the
    loop it returned before for this backend, which exists, was made by this thread for that
    backend, and is neither the global loop nor anybody's default. *)
Theorem loops_of_a_thread {B Exn : Type} `{EqDecision B} `{LoopEnvLaws B Exn} (w : world B Exn) m (t : tid)
    (Hr : reach (Config [] w m)) (Hm : m ≠ Aborted) :
  (∀ w' r, default_loop t w = (w', inl r) → ∃ l o, r = Some l ∧ loops w' !! l = Some o ∧
    default_loop t w' = (w', inl r) ∧ is_default t l w' ∧ (∀ t', t' ≠ t → is_default t' l w' = false) ∧
    (if decide (t = main_thread) then ltype o = GLOBAL else ltype o = DEFAULT ∧ lthread o = t ∧ is_global l w' = false)) ∧
  (∀ b w' r, sync_get t b w = (w', inl r) → ∃ l o, r = Some l ∧ loops w' !! l = Some o ∧
    sync_get t b w' = (w', inl r) ∧ ltype o = LOCAL ∧ lthread o = t ∧ (∀ c : B, b = Some c → _backend o = c) ∧
    is_global l w' = false ∧ ∀ t', is_default t' l w' = false).
Proof.
  pose proof (reach_wf _ _ _ Hr Hm) as Hwf. pose proof (reach_synced _ Hr Hm) as Hs. simpl in Hs.
  assert (∀ (w' : world B Exn) l o v, wf None w' → loops w' !! l = Some o → bool_decide (ptrs w' !! v = Some l) = true → role w' v o) as Hrole.
  { intros w' l o v Hw' Ho Hv%bool_decide_eq_true. destruct (wf_role _ _ Hw' v l Hv) as (o' & ? & ?). congruence. }
  split.
  - intros w' r Hd. destruct (default_loop_ok _ _ [] _ _ Hwf Hd) as (Hwf' & _ & l & -> & Hp).
    destruct (wf_role _ _ Hwf' _ _ Hp) as (o & Ho & Hro). exists l, o.
    split_and!; [done|done|by eapply default_loop_again|by apply bool_decide_pack| |].
    + intros t' Ht. destruct (is_default t' l w') eqn:E; [|done]. specialize (Hrole w' l o _ Hwf' Ho E).
      clear -Hro Hrole Ht. simpl in *. repeat case_decide; flat; congruence.
    + simpl in Hro. case_decide; [done|]. destruct Hro as [Hty Hth]. split_and!; [done|done|].
      destruct (is_global l w') eqn:E; [|done]. specialize (Hrole w' l o _ Hwf' Ho E). simpl in Hrole. congruence.
  - intros b w' r Hd. destruct (sync_get_spec _ _ _ _ _ Hwf Hs Hd) as (l & i & -> & Hp & Hi & Hwf' & Hagain).
    destruct (wf_role _ _ Hwf' _ _ Hp) as (o & Ho & Hty & Hth & b' & Hb & Hbe). exists l, o.
    split_and!; try done; [intros c Hc; apply Hbe; congruence|..].
    + destruct (is_global l w') eqn:E; [|done]. specialize (Hrole w' l o _ Hwf' Ho E). simpl in Hrole. congruence.
    + intros t'. destruct (is_default t' l w') eqn:E; [|done]. specialize (Hrole w' l o _ Hwf' Ho E). simpl in Hrole.
      clear -Hty Hrole. case_decide; flat; congruence.
Qed.

Lemma loops_of_a_thread_witness :
  let H := ex_env copies in ∃ l, (default_loop 1 ex_w1).2 = inl (Some l) ∧ is_default 0 l ex_w1 = false.
Proof.
  destruct (@loops_of_a_thread nat nat _ (ex_env copies) (ex_laws copies) ex_w1 Normal 1) as [Ht _];
    [apply ex_w1_reach|done|].
  destruct (Ht ex_w1 (Some 1)) as (l & o & [= <-] & _ & _ & _ & Hd & _); [vm_compute; reflexivity|].
  exists 1%nat. split; [vm_compute; reflexivity|]. by apply Hd.
Defined.

(** *** What the code does not do *)

(** The listeners of a fork that drop the last variable of the loop. *)
Definition drops : lid → world nat nat → list (op nat) + nat := λ _ _, inl [Drop 0].

Definition outcome_of (uf : lid → world nat nat → list (op nat) + nat) (ops : list (tid * op nat)) (t : tid) (a : op nat) :
    option crash :=
  match @drive (ex_env uf) ops ex_w0 with
  | Some w => crashed (mem (Machine.run (@prog nat nat _ (ex_env uf)) 40 (Config [COp t a] w Normal)))
  | None => None
  end.

(** The global loop is first used by another thread than the main one: it is in the set of
    that thread, and at the end of the program the main thread, which has no loops, takes it
    out of a set it does not have: [unregister_loop] dereferences a null pointer. *)
Theorem global_loop_of_another_thread :
  outcome_of copies [(1, GetGlobal); (1, Drop 0); (1, ThreadExit); (0, ThreadExit)] 0 Exit = Some (CNullSet 0 0).
Proof. vm_compute. reflexivity. Qed.

(** The last variable of a loop is dropped by another thread, which has loops: the set of the
    thread that made it keeps the address, and a fork uses the destroyed loop. *)
Theorem loop_destroyed_elsewhere :
  outcome_of copies [(1, New None); (0, New None); (0, Drop 0)] 1 Fork = Some (CDangling 0).
Proof. vm_compute. reflexivity. Qed.

(** A listener of [fork_event] drops the loop: its destructor erases the element of the set
    that the handler of the fork stands on. *)
Theorem loop_destroyed_by_its_fork :
  outcome_of drops [(0, New None)] 0 Fork = Some (CIterator 0 0).
Proof. vm_compute. reflexivity. Qed.

(** The default backend may be set although a default loop is in use, by another thread. *)
Theorem default_backend_set_late :
  let _ := ex_env copies in
  (set_default_backend 2 (Some 7) (default ex_w0 (drive [(1, GetDefault)] ex_w0))).2 = inl ().
Proof. vm_compute. reflexivity. Qed.
