(* ===== verification/Sockets.v ===== *)
(** Opening, binding and pairing streams: the parts of [Tcp.cc], [Pipe.cc], [Tty.cc],
    [Stream.h], [UVTcp.h], [UVPipe.h], [UVTty.h] and [inc.h] of the backend that are about
    descriptors, addresses and options.

    The streams are those of [Stream], the descriptors those of [Util]: both live in one
    system [S], which the functions change in their order.  libuv's functions are a
    parameter ([SockUv]); [SockLaws] is what its documentation says of the descriptors that
    a handle owns. *)
From Stdlib Require Import Ascii.
From S2P Require Import Prelude.
From S2P Require Import Errors.
From S2P Require Import Util.
From S2P Require Import Handle.
From S2P Require Import Stream.
#[local] Open Scope Z_scope.

(** ** libuv *)

Inductive uv_tty_mode_t := UV_TTY_MODE_NORMAL | UV_TTY_MODE_RAW | UV_TTY_MODE_IO.

(** [uv_pipe_getsockname] and [uv_pipe_getpeername] are given the size of the buffer. *)
Class SockUv (S B A : Type) := {
  uv_tcp_bind : B → A → Z → S → S * option uv_errno;
  uv_tcp_getsockname : B → S → A + uv_errno;
  uv_tcp_nodelay : B → bool → S → S * option uv_errno;
  uv_tcp_keepalive : B → bool → Z → S → S * option uv_errno;
  uv_tcp_simultaneous_accepts : B → bool → S → S * option uv_errno;
  uv_fileno : B → S → Z + uv_errno;
  uv_recv_buffer_size : B → Z → S → S * (Z + uv_errno);
  uv_send_buffer_size : B → Z → S → S * (Z + uv_errno);
  uv_pipe_bind : B → string → S → S * option uv_errno;
  uv_pipe_getsockname : B → Z → S → filled * option uv_errno;
  uv_pipe_getpeername : B → Z → S → filled * option uv_errno;
  uv_pipe_pending_instances : B → Z → S → S;
  uv_pipe_pending_count : B → S → Z;
  uv_pipe_chmod : B → Z → S → S * option uv_errno;
  uv_tty_set_mode : B → uv_tty_mode_t → S → S * option uv_errno;
  uv_tty_get_winsize : B → S → Z * Z + uv_errno;
  sa_unix : list ascii → A;
  UV_TCP_IPV6ONLY : Z;
  UV_READABLE : Z;
  UV_WRITABLE : Z;
  uv_fd : S → B → option Z            (* the descriptor that a handle owns *)
}.

(** libuv: opening a descriptor makes the handle its owner, failing to changes nothing;
    closing the handle closes it; a pair of sockets or of ends of a pipe is two new
    descriptors. *)
Class SockLaws (S B A : Type) `{UvStream S B A, !Sys S A, !SockUv S B A} := {
  tcp_open_ok b fd s : (uv_tcp_open b fd s).2 = None →
    uv_fd (uv_tcp_open b fd s).1 b = Some fd ∧
    (∀ b', b' ≠ b → uv_fd (uv_tcp_open b fd s).1 b' = uv_fd s b') ∧ sys_open (uv_tcp_open b fd s).1 = sys_open s;
  tcp_open_err b fd s e : (uv_tcp_open b fd s).2 = Some e →
    (∀ b', uv_fd (uv_tcp_open b fd s).1 b' = uv_fd s b') ∧ sys_open (uv_tcp_open b fd s).1 = sys_open s;
  pipe_open_ok b fd s : (uv_pipe_open b fd s).2 = None →
    uv_fd (uv_pipe_open b fd s).1 b = Some fd ∧
    (∀ b', b' ≠ b → uv_fd (uv_pipe_open b fd s).1 b' = uv_fd s b') ∧ sys_open (uv_pipe_open b fd s).1 = sys_open s;
  read_start_fd b s b' : uv_fd (uv_read_start b s).1 b' = uv_fd s b';
  read_start_open b s : sys_open (uv_read_start b s).1 = sys_open s;
  read_stop_fd b s b' : uv_fd (uv_read_stop b s) b' = uv_fd s b';
  read_stop_open b s : sys_open (uv_read_stop b s) = sys_open s;
  uv_close_fd b s b' : uv_fd (uv_close b s) b' = if decide (b' = b) then None else uv_fd s b';
  uv_close_open b s : sys_open (uv_close b s) = sys_open s ∖ (match uv_fd s b with Some fd => {[fd]} | None => ∅ end);
  sys_call_fd op s b : uv_fd (sys_call op s).1 b = uv_fd s b;
  socketpair_ok ty pr f1 f2 s a b : (uv_socketpair ty pr f1 f2 s).2 = inl (a, b) →
    a ≠ b ∧ a ∉ sys_open s ∧ b ∉ sys_open s ∧ sys_open (uv_socketpair ty pr f1 f2 s).1 = {[a; b]} ∪ sys_open s;
  socketpair_err ty pr f1 f2 s e : (uv_socketpair ty pr f1 f2 s).2 = inr e →
    sys_open (uv_socketpair ty pr f1 f2 s).1 = sys_open s;
  socketpair_fd ty pr f1 f2 s b : uv_fd (uv_socketpair ty pr f1 f2 s).1 b = uv_fd s b;
  pipe_ok f1 f2 s a b : (uv_pipe f1 f2 s).2 = inl (a, b) →
    a ≠ b ∧ a ∉ sys_open s ∧ b ∉ sys_open s ∧ sys_open (uv_pipe f1 f2 s).1 = {[a; b]} ∪ sys_open s;
  pipe_fd f1 f2 s b : uv_fd (uv_pipe f1 f2 s).1 b = uv_fd s b
}.

(** ** The functions *)

(** [Ownership]; [TtyImpl::Mode] *)
Inductive Ownership := TRANSFER | SHARE.
Inductive tty_mode := STD | RAW | IO.

Section Sockets.
Context {S B A EC W C Exn X : Type} `{UvStream S B A} `{ErrorStack EC} `{!Sys S A} `{!SockUv S B A}.

(** The exception of [throw last_sys_error()], and what the destructor of an [excepted]
    whose error nobody looked at throws, if anything ([panda::excepted]). *)
Context (throw_error : Util.scode → X) (unhandled : Util.scode → option X).

Abbreviation st := (stream S B A EC W C Exn).

(** The system as another object has left it. *)
Definition at_sys (u : S) (s : st) : st := with_impl (hdl s) u s.

(** *** The backend *)

(** [uvx_ce] of what a function of libuv returns *)
Definition ce (r : S * option uv_errno) : S * option error_code := (r.1, uvx_ce r.2).
Definition uvx {T} (r : T + uv_errno) : excepted T error_code :=
  match r with inl x => inl x | inr e => inr (uvx_error e) end.

(** [UVTcp] *)
Definition IPV6ONLY : Z := 1.
Definition bind_flags (flags : Z) : Z := if has_flag IPV6ONLY flags then Z.lor 0 UV_TCP_IPV6ONLY else 0.
Definition uvtcp_bind (addr : A) (flags : Z) (b : B) (u : S) : S * option error_code := ce (uv_tcp_bind b addr (bind_flags flags) u).
Definition uvtcp_sockaddr (b : B) (u : S) : excepted A error_code := uvx_sockaddr (uv_tcp_getsockname b u).
Definition uvtcp_set_nodelay (enable : bool) (b : B) (u : S) : S * option error_code := ce (uv_tcp_nodelay b enable u).
Definition uvtcp_set_keepalive (enable : bool) (delay : Z) (b : B) (u : S) : S * option error_code := ce (uv_tcp_keepalive b enable delay u).
Definition uvtcp_set_simultaneous_accepts (enable : bool) (b : B) (u : S) : S * option error_code :=
  ce (uv_tcp_simultaneous_accepts b enable u).

(** [UVPipe]; the modes are bits. *)
Definition not_connected_mode : Z := 0.
Definition readable : Z := 1.
Definition writable : Z := 2.
Definition uvpipe_bind (name : string) (b : B) (u : S) : S * option error_code := ce (uv_pipe_bind b name u).
Definition uvpipe_open (file : Z) (b : B) (u : S) : S * option error_code := ce (uv_pipe_open b file u).
Definition uvpipe_pending_instances (count : Z) (b : B) (u : S) : S := uv_pipe_pending_instances b count u.
Definition uvpipe_pending_count (b : B) (u : S) : Z := uv_pipe_pending_count b u.
Definition chmod_mode (mode : Z) : Z :=
  let m := if has_flag readable mode then Z.lor 0 UV_READABLE else 0 in
  if has_flag writable mode then Z.lor m UV_WRITABLE else m.
Definition uvpipe_chmod (mode : Z) (b : B) (u : S) : S * option error_code := ce (uv_pipe_chmod b (chmod_mode mode) u).

(** [uvx_sockname]: asks for the length, then for the name. *)
Definition uvx_sockname (f : Z → filled * option uv_errno) : excepted (list ascii) error_code :=
  let (b, err) := f 0 in
  match err with
  | None | Some UV_ENOBUFS =>
      match f (f_size b) with
      | (b, None) => inl (with_length b)
      | (_, Some e) => inr (uvx_error e)
      end
  | Some e => inr (uvx_error e)
  end.
Definition uvpipe_sockname (b : B) (u : S) : excepted (list ascii) error_code := uvx_sockname (λ n, uv_pipe_getsockname b n u).
Definition uvpipe_peername (b : B) (u : S) : excepted (list ascii) error_code := uvx_sockname (λ n, uv_pipe_getpeername b n u).

(** [UVTty]; an error of [uv_tty_get_winsize] is thrown. *)
Definition uv_mode (mode : tty_mode) : uv_tty_mode_t :=
  match mode with STD => UV_TTY_MODE_NORMAL | RAW => UV_TTY_MODE_RAW | IO => UV_TTY_MODE_IO end.
Definition uvtty_set_mode (mode : tty_mode) (b : B) (u : S) : S * option error_code := ce (uv_tty_set_mode b (uv_mode mode) u).
Definition uvtty_get_winsize (b : B) (u : S) : (Z * Z) + X :=
  match uv_tty_get_winsize b u with inl wh => inl wh | inr e => inr (throw_error (Util.Code (uvx_error e))) end.

(** [uvx_fileno]; [uvx_recv_buffer_size] and [uvx_send_buffer_size], to get and to set: libuv
    gets when the value is 0. *)
Definition uvx_fileno (b : B) (u : S) : excepted Z error_code := uvx (uv_fileno b u).
Definition uvx_get_size (f : B → Z → S → S * (Z + uv_errno)) (b : B) (u : S) : S * excepted Z error_code :=
  let (u, r) := f b 0 u in (u, uvx r).
Definition uvx_set_size (f : B → Z → S → S * (Z + uv_errno)) (value : Z) (b : B) (u : S) : S * option error_code :=
  let (u, r) := f b value u in (u, match r with inl _ => None | inr e => Some (uvx_error e) end).

(** [impl()->f(...)], whose error is returned. *)
Definition on_uv (f : B → S → S * option error_code) (s : st) : st :=
  let (s, err) := on_impl f s in with_ret (ec_opt err) s.

(** *** Tcp *)

(** [sock_dup] or [file_dup] of a descriptor that is shared, then [f] *)
Definition with_ownership (dup : Z → sysm Z) (own : Ownership) (sock : Z) (f : Z → st → st * (unit + X)) (s : st) : st * (unit + X) :=
  match own with
  | TRANSFER => f sock s
  | SHARE =>
      match dup sock (uvs s) with
      | (u, inl sock) => f sock (at_sys u s)
      | (u, inr e) => (at_sys u s, inr (throw_error e))
      end
  end.

(** [Tcp::open] *)
Definition open (sock : Z) (own : Ownership) (s : st) : st * (unit + X) :=
  with_ownership sock_dup own sock (λ sock s, (tcp_open sock s, inl tt)) s.

(** [Tcp::bind]; the address of [*] and the answer of the resolver are arguments. *)
Definition bind (addr : A) (flags : Z) (s : st) : st :=
  let (s, code) := on_impl (uvtcp_bind addr flags) s in
  with_ret (match code with Some e => ec_nest (Unievent bind_error) (ec_of e) | None => ec_ok end) s.
Definition bind_host (host : string) (broadcast : A) (resolved : A + error_code) (flags : Z) (s : st) : st :=
  if decide (host = "*"%string) then bind broadcast flags s else
  match resolved with
  | inl a => bind a flags s
  | inr e => with_ret (ec_of e) s
  end.

(** [Stream::fileno], [Tcp::socket] *)
Definition fileno (s : st) : excepted Z error_code :=
  match _impl (hdl s) with
  | Some b => handle_fd_excepted 0 (uvx_fileno b (uvs s))
  | None => inl 0
  end.
Definition tcp_socket (s : st) : excepted Z error_code := fileno s.

(** [Tcp::sockaddr]; [Tcp::peeraddr] is [tcp_peeraddr]. *)
Definition tcp_sockaddr (s : st) : st * excepted A error_code :=
  let (s, b) := stream_impl s in (s, handle_fd_excepted sa_default (uvtcp_sockaddr b (uvs s))).

Definition set_nodelay (enable : bool) : st → st := on_uv (uvtcp_set_nodelay enable).
Definition set_keepalive (enable : bool) (delay : Z) : st → st := on_uv (uvtcp_set_keepalive enable delay).
Definition set_simultaneous_accepts (enable : bool) : st → st := on_uv (uvtcp_set_simultaneous_accepts enable).

(** [Stream::recv_buffer_size], [send_buffer_size], to get and to set *)
Definition get_recv_buffer_size : st → st * excepted Z error_code := on_impl (uvx_get_size uv_recv_buffer_size).
Definition get_send_buffer_size : st → st * excepted Z error_code := on_impl (uvx_get_size uv_send_buffer_size).
Definition set_recv_buffer_size (value : Z) : st → st := on_uv (uvx_set_size uv_recv_buffer_size value).
Definition set_send_buffer_size (value : Z) : st → st := on_uv (uvx_set_size uv_send_buffer_size value).

(** [Tcp::setsockopt]: [socket().value()] throws; the result of the call is dropped. *)
Definition tcp_setsockopt (level optname : Z) (optval : list ascii) (s : st) : st * (unit + X) :=
  match tcp_socket s with
  | inr e => (s, inr (throw_error (Util.Code e)))
  | inl sock =>
      match Util.setsockopt sock level optname optval (uvs s) with
      | (u, inl _) => (at_sys u s, inl tt)
      | (u, inr e) => (at_sys u s, match unhandled e with Some x => inr x | None => inl tt end)
      end
  end.

(** [reset()] of a stream without requests and filters: [_reset] *)
Definition idle_reset (s : st) : st := reset_rest (do_reset s).1.

(** The result of [pair]: both streams, in the system as it is at the end, and the error of
    the system or that of [open]. *)
Definition pair_result : Type := st * st * (unit + (Util.scode + EC)).

(** [Tcp::pair] *)
Definition tcp_pair (type protocol : Z) (h1 h2 : st) : pair_result :=
  match Util.socketpair type protocol nonblock_pipe nonblock_pipe (uvs h1) with
  | (u, inr e) => (at_sys u h1, at_sys u h2, inr (inl e))
  | (u, inl (fd1, fd2)) =>
      let h1 := tcp_open fd1 (at_sys u h1) in
      let h2 := if ec_bool (ret h1) then at_sys (uvs h1) h2 else tcp_open fd2 (at_sys (uvs h1) h2) in
      let res := if ec_bool (ret h1) then ret h1 else ret h2 in
      if negb (ec_bool res) then (at_sys (uvs h2) h1, h2, inl tt) else
      let h1 := idle_reset (at_sys (uvs h2) h1) in
      let h2 := idle_reset (at_sys (uvs h1) h2) in
      let u := (Util.close fd1 (uvs h2)).1 in
      let u := (Util.close fd2 u).1 in
      (at_sys u h1, at_sys u h2, inr (inr res))
  end.

(** *** Pipe *)

(** [Pipe::open]: the [excepted] made of an error of the backend is not returned. *)
Definition pipe_open_file (file mode : Z) (s : st) : st * (unit + X) :=
  let (s, error) := on_impl (uvpipe_open file) s in
  match error ≫= λ e, unhandled (Util.Code e) with
  | Some x => (s, inr x)
  | None =>
      let (s, error) :=
        if mode =? not_connected_mode then (s, error) else
        let s := if has_flag readable mode then s else read_stop s in
        let (s, error) := set_connect_result true s in
        (if has_flag writable mode then s else clear_out_connected s, error) in
      (with_ret (ec_opt error) s, inl tt)
  end.
Definition pipe_open (file mode : Z) (own : Ownership) : st → st * (unit + X) :=
  with_ownership file_dup own file (λ file, pipe_open_file file mode).

Definition pipe_bind (name : string) : st → st := on_uv (uvpipe_bind name).
Definition pending_instances (count : Z) (s : st) : st :=
  (on_impl (λ b u, (uvpipe_pending_instances count b u, tt)) s).1.
Definition pending_count (s : st) : st * Z := let (s, b) := stream_impl s in (s, uvpipe_pending_count b (uvs s)).
Definition pipe_chmod (mode : Z) : st → st := on_uv (uvpipe_chmod mode).

(** [Pipe::sockname], [peername], [sockaddr], [peeraddr] *)
Definition pipe_name (f : B → S → excepted (list ascii) error_code) (s : st) : st * excepted (list ascii) error_code :=
  let (s, b) := stream_impl s in (s, handle_fd_excepted [] (f b (uvs s))).
Definition sockname : st → st * excepted (list ascii) error_code := pipe_name uvpipe_sockname.
Definition peername : st → st * excepted (list ascii) error_code := pipe_name uvpipe_peername.
Definition name2addr (res : excepted (list ascii) error_code) : excepted A error_code :=
  match res with inl name => inl (sa_unix name) | inr e => inr e end.
Definition pipe_sockaddr (s : st) : st * excepted A error_code := let (s, r) := sockname s in (s, name2addr r).
Definition pipe_peeraddr (s : st) : st * excepted A error_code := let (s, r) := peername s in (s, name2addr r).

(** [Pipe::pair]; an exception of [open] goes on. *)
Definition pipe_pair (h1 h2 : st) : st * st * ((unit + (Util.scode + EC)) + X) :=
  match Util.pipe nonblock_pipe nonblock_pipe (uvs h1) with
  | (u, inr e) => (at_sys u h1, at_sys u h2, inl (inr (inl e)))
  | (u, inl (fd1, fd2)) =>
      match pipe_open_file fd1 readable (at_sys u h1) with
      | (h1, inr x) => (h1, at_sys (uvs h1) h2, inr x)
      | (h1, inl _) =>
          match (if ec_bool (ret h1) then (at_sys (uvs h1) h2, inl tt) else pipe_open_file fd2 writable (at_sys (uvs h1) h2)) with
          | (h2, inr x) => (at_sys (uvs h2) h1, h2, inr x)
          | (h2, inl _) =>
              let res := if ec_bool (ret h1) then ret h1 else ret h2 in
              if negb (ec_bool res) then (at_sys (uvs h2) h1, h2, inl (inl tt)) else
              let h1 := idle_reset (at_sys (uvs h2) h1) in
              let h2 := idle_reset (at_sys (uvs h1) h2) in
              (at_sys (uvs h2) h1, h2, inl (inr (inr res)))
          end
      end
  end.

(** *** Tty *)

Definition set_mode (mode : tty_mode) : st → st := on_uv (uvtty_set_mode mode).
Definition get_winsize (s : st) : st * ((Z * Z) + X) :=
  let (s, b) := stream_impl s in (s, uvtty_get_winsize b (uvs s)).
End Sockets.

(** ** Lemmas *)

Section Lemmas.
Context {S B A EC W C Exn X : Type} `{SL : SockLaws S B A} `{ErrorStack EC} `{!SysLaws S A}.
#[local] Abbreviation st := (stream S B A EC W C Exn).
Implicit Types (s : st) (b : B) (fd : Z).

(** A call of the backend of a stream that has its handle. *)
Lemma on_impl_some {T} (f : B → S → S * T) s b : _impl (hdl s) = Some b →
  on_impl f s = (with_impl (hdl s) (f b (uvs s)).1 s, (f b (uvs s)).2).
Proof.
  intros Hb. unfold on_impl, stream_impl, impl. destruct s as [fl fi wq cb [i w] u rq ty re cbad ex us el]. simpl in *. subst i.
  simpl. by destruct (f b u).
Qed.

(** The same descriptors, and the same handle of the backend. *)
Record same_fds s s' : Prop := {
  sf_impl : hdl s' = hdl s;
  sf_tty : tty s' = tty s;
  sf_open : sys_open (uvs s') = sys_open (uvs s);
  sf_fd b : uv_fd (uvs s') b = uv_fd (uvs s) b
}.

Lemma same_fds_refl s : same_fds s s.
Proof. done. Qed.

Lemma same_fds_trans s1 s2 s3 : same_fds s1 s2 → same_fds s2 s3 → same_fds s1 s3.
Proof. intros [] []. split; congruence. Qed.

Lemma same_fds_ret e s : same_fds s (with_ret e s).
Proof. done. Qed.

Lemma same_fds_flags f s : same_fds s (with_flags f s).
Proof. done. Qed.

Lemma on_impl_fds {T} (f : B → S → S * T) s b :
  _impl (hdl s) = Some b → (∀ u, sys_open (f b u).1 = sys_open u) → (∀ u b', uv_fd (f b u).1 b' = uv_fd u b') →
  same_fds s (on_impl f s).1.
Proof. intros Hb Ho Hf. rewrite (on_impl_some f s b Hb). split; simpl; auto. Qed.

Lemma read_start_fds s b : _impl (hdl s) = Some b → same_fds s (_read_start s).1.
Proof using SL.
  intros Hb. unfold _read_start. destruct (reading s || _); [done|].
  pose proof (on_impl_fds uv_read_start s b Hb (read_start_open b) (read_start_fd b)) as Hs.
  destruct (on_impl uv_read_start s) as [s1 err]. destruct (uvx_ce err); [done|]. exact (same_fds_trans _ s1 _ Hs (same_fds_flags _ s1)).
Qed.

Lemma read_stop_fds s b : _impl (hdl s) = Some b → same_fds s (read_stop s).
Proof using SL.
  intros Hb. unfold read_stop. destruct (negb _); [done|].
  pose proof (on_impl_fds (λ b u, (uv_read_stop b u, tt)) (set_wantread false s) b Hb (read_stop_open b) (read_stop_fd b)) as Hs.
  destruct (on_impl _ _) as [s1 []].
  exact (same_fds_trans _ _ _ (same_fds_flags _ s) (same_fds_trans _ _ _ Hs (same_fds_flags _ s1))).
Qed.

Lemma set_connect_result_fds ok s b : _impl (hdl s) = Some b → same_fds s (set_connect_result ok s).1.
Proof using SL.
  intros Hb. unfold set_connect_result. destruct ok; [|done]. destruct (wantread _); [|done].
  eapply same_fds_trans; [|by apply (read_start_fds (with_flags _ (with_flags _ s)) b)].
  exact (same_fds_trans _ _ _ (same_fds_flags _ s) (same_fds_flags _ _)).
Qed.

(** *** [Tcp::open] *)

(** Either the handle owns the socket, or nothing has changed and an error is returned. *)
Lemma tcp_open_spec fd s b : _impl (hdl s) = Some b →
  hdl (tcp_open fd s) = hdl s ∧ tty (tcp_open fd s) = tty s ∧ sys_open (uvs (tcp_open fd s)) = sys_open (uvs s) ∧
  (∀ b', b' ≠ b → uv_fd (uvs (tcp_open fd s)) b' = uv_fd (uvs s) b') ∧
  (uv_fd (uvs (tcp_open fd s)) b = Some fd ∨
   uv_fd (uvs (tcp_open fd s)) b = uv_fd (uvs s) b ∧ ec_bool (ret (tcp_open fd s)) = true).
Proof using SL.
  intros Hb. unfold tcp_open. rewrite (on_impl_some _ s b Hb).
  destruct (uv_tcp_open b fd (uvs s)) as [u [e|]] eqn:E; simpl.
  - pose proof (tcp_open_err b fd (uvs s) e) as He. rewrite E in He. destruct (He eq_refl) as [Hf Ho].
    split_and!; auto. right. split; [apply Hf|apply ec_bool_of].
  - pose proof (tcp_open_ok b fd (uvs s)) as He. rewrite E in He. destruct (He eq_refl) as (Hf & Hf' & Ho).
    set (s1 := with_impl (hdl s) u s). assert (same_fds s1 (tcp_peeraddr s1).1) as Hp.
    { unfold tcp_peeraddr, stream_impl, impl. subst s1. simpl. rewrite Hb. by split. }
    destruct (tcp_peeraddr s1) as [s2 r]. simpl in Hp.
    assert (∀ s3, same_fds s1 s3 → hdl s3 = hdl s ∧ tty s3 = tty s ∧ sys_open (uvs s3) = sys_open (uvs s) ∧
      (∀ b', b' ≠ b → uv_fd (uvs s3) b' = uv_fd (uvs s) b') ∧
      (uv_fd (uvs s3) b = Some fd ∨ uv_fd (uvs s3) b = uv_fd (uvs s) b ∧ ec_bool (ret s3) = true)) as Hok.
    { intros s3 [E1 E2 E3 E4]. simpl in *. split_and!; [done|done|congruence| |left; by rewrite E4].
      intros b' Hb'. by rewrite E4, Hf'. }
    assert (∀ e, same_fds s1 (with_ret e s2)) as Hok2 by (intros e; exact (same_fds_trans _ _ _ Hp (same_fds_ret e s2))).
    destruct r as [a|e]; [|apply Hok, Hok2]. destruct (sa_bool a); [|apply Hok, Hok2].
    pose proof (set_connect_result_fds true s2 b) as Hc. rewrite (sf_impl _ _ Hp) in Hc. specialize (Hc Hb).
    destruct (set_connect_result true s2) as [s3 err]. apply Hok.
    exact (same_fds_trans _ _ _ Hp (same_fds_trans _ _ _ Hc (same_fds_ret _ s3))).
Qed.

(** [reset()] closes the descriptor of the handle. *)
Lemma idle_reset_spec s b : _impl (hdl s) = Some b → tty s = false →
  uvs (idle_reset s) = uv_close b (uvs s) ∧ _impl (hdl (idle_reset s)) = None.
Proof.
  intros Hb Ht. unfold idle_reset, reset_rest, on_reset, do_reset, reset. rewrite Hb. simpl. by rewrite Ht.
Qed.

Lemma close_spec fd (u : S) : sys_open (Util.close fd u).1 = sys_open u ∖ {[fd]} ∧ ∀ b, uv_fd (Util.close fd u).1 b = uv_fd u b.
Proof using SL SysLaws0.
  unfold Util.close, call0, Util.bind. destruct (call_spec (Close fd) u) as [(v & a & Hv & ->)|(n & Hn & ->)]; simpl;
    (split; [apply close_open|intros; apply sys_call_fd]).
Qed.

(** [fds] is what two handles own besides the descriptors that were open. *)
Lemma close_pair fd1 fd2 (X0 : gset Z) (u : S) : fd1 ∉ X0 → fd2 ∉ X0 →
  X0 ⊆ sys_open u → sys_open u ⊆ {[fd1; fd2]} ∪ X0 →
  sys_open (Util.close fd2 (Util.close fd1 u).1).1 = X0.
Proof using SL SysLaws0.
  intros. destruct (close_spec fd1 u) as [E1 _]. destruct (close_spec fd2 (Util.close fd1 u).1) as [E2 _].
  rewrite E2, E1. set_solver.
Qed.

(** The end of a pair that fails: both streams are reset and both descriptors closed. *)
Lemma pair_fails (k1 k2 : st) b1 b2 fd1 fd2 (X0 : gset Z) :
  _impl (hdl k1) = Some b1 → _impl (hdl k2) = Some b2 → tty k1 = false → tty k2 = false → b1 ≠ b2 →
  fd1 ∉ X0 → fd2 ∉ X0 → sys_open (uvs k2) = {[fd1; fd2]} ∪ X0 →
  uv_fd (uvs k2) b1 = None ∨ uv_fd (uvs k2) b1 = Some fd1 → uv_fd (uvs k2) b2 = None ∨ uv_fd (uvs k2) b2 = Some fd2 →
  let r1 := idle_reset (at_sys (uvs k2) k1) in
  let r2 := idle_reset (at_sys (uvs r1) k2) in
  let u := (Util.close fd2 (Util.close fd1 (uvs r2)).1).1 in
  sys_open u = X0 ∧ uv_fd u b1 = None ∧ uv_fd u b2 = None.
Proof using SL SysLaws0.
  intros Hb1 Hb2 Ht1 Ht2 Hb Hn1 Hn2 Ho Hf1 Hf2 r1 r2 u.
  assert (uvs r2 = uv_close b2 (uv_close b1 (uvs k2))) as E.
  { unfold r2, r1. rewrite (proj1 (idle_reset_spec (at_sys _ k2) b2 Hb2 Ht2)). simpl.
    by rewrite (proj1 (idle_reset_spec (at_sys _ k1) b1 Hb1 Ht1)). }
  assert (∀ b, uv_fd u b = if decide (b = b2) then None else if decide (b = b1) then None else uv_fd (uvs k2) b) as Hfd.
  { intros b. unfold u. rewrite (proj2 (close_spec fd2 _)), (proj2 (close_spec fd1 _)), E. by rewrite !uv_close_fd. }
  rewrite !Hfd. split_and!; [|by repeat case_decide|by rewrite decide_True].
  apply close_pair; [done|done|..]; rewrite E, !uv_close_open, uv_close_fd, Ho, (decide_False (P := b2 = b1)) by done;
    destruct Hf1 as [->| ->], Hf2 as [->| ->]; set_solver.
Qed.
End Lemmas.

(** ** Properties *)

(** C39: [Tcp::pair] leaks no descriptor and gives each stream its own: when it succeeds,
    two new descriptors are open besides the others and each of the two streams owns one of
    them; when it fails, in the system call or in either [open], the descriptors that are
    open are the same as before and neither stream owns one. For two streams of one loop
    that have handles and nothing open yet. *)
Theorem tcp_pair_exact {S B A EC W C Exn : Type} `{SL : SockLaws S B A} `{ErrorStack EC} `{!SysLaws S A}
    (type protocol : Z) (h1 h2 : stream S B A EC W C Exn) (b1 b2 : B)
    (Hb1 : _impl (hdl h1) = Some b1) (Hb2 : _impl (hdl h2) = Some b2) (Hb : b1 ≠ b2)
    (Ht1 : tty h1 = false) (Ht2 : tty h2 = false)
    (Hf1 : uv_fd (uvs h1) b1 = None) (Hf2 : uv_fd (uvs h1) b2 = None) :
  let '(h1', h2', res) := tcp_pair type protocol h1 h2 in
  uvs h1' = uvs h2' ∧
  match res with
  | inl _ => ∃ fd1 fd2, fd1 ≠ fd2 ∧ fd1 ∉ sys_open (uvs h1) ∧ fd2 ∉ sys_open (uvs h1) ∧
      sys_open (uvs h1') = {[fd1; fd2]} ∪ sys_open (uvs h1) ∧
      uv_fd (uvs h1') b1 = Some fd1 ∧ uv_fd (uvs h1') b2 = Some fd2
  | inr _ => sys_open (uvs h1') = sys_open (uvs h1) ∧ uv_fd (uvs h1') b1 = None ∧ uv_fd (uvs h1') b2 = None
  end.
Proof.
  unfold tcp_pair, Util.socketpair. pose proof (socketpair_ok type protocol (pair_flags nonblock_pipe) (pair_flags nonblock_pipe) (uvs h1)) as Sok.
  pose proof (socketpair_err type protocol (pair_flags nonblock_pipe) (pair_flags nonblock_pipe) (uvs h1)) as Serr.
  pose proof (socketpair_fd type protocol (pair_flags nonblock_pipe) (pair_flags nonblock_pipe) (uvs h1)) as Sfd.
  destruct (uv_socketpair _ _ _ _ _) as [u [[fd1 fd2]|e]]; simpl in *.
  2: { split; [done|]. rewrite !Sfd. split; [by eapply Serr|done]. }
  destruct (Sok fd1 fd2 eq_refl) as (Hne & Hn1 & Hn2 & Ho).
  destruct (tcp_open_spec fd1 (at_sys u h1) b1 Hb1) as (A1 & A2 & A3 & A4 & A5).
  set (k1 := tcp_open fd1 (at_sys u h1)) in *. simpl in *.
  destruct (ec_bool (ret k1)) eqn:Er1; rewrite ?Er1; simpl.
  - split; [done|]. apply (pair_fails k1 (at_sys (uvs k1) h2)); simpl; rewrite ?A1, ?A2, ?A3; try done.
    + destruct A5 as [->|[-> _]]; [by right|left; by rewrite Sfd].
    + left. by rewrite A4, Sfd.
  - destruct A5 as [A5|[_ A5]]; [|congruence].
    destruct (tcp_open_spec fd2 (at_sys (uvs k1) h2) b2 Hb2) as (B1 & B2 & B3 & B4 & B5).
    set (k2 := tcp_open fd2 (at_sys (uvs k1) h2)) in *. simpl in *.
    destruct (ec_bool (ret k2)) eqn:Er2; rewrite ?Er2; simpl.
    + split; [done|]. apply (pair_fails k1 k2); rewrite ?A1, ?A2, ?B1, ?B2, ?B3, ?A3; try done.
      * right. by rewrite B4.
      * destruct B5 as [->|[-> _]]; [by right|left]. by rewrite A4, Sfd.
    + destruct B5 as [B5|[_ B5]]; [|congruence]. split; [done|]. exists fd1, fd2. by rewrite B3, A3, B4.
Qed.

(** A shared socket stays with its owner: the stream is given a duplicate. *)
Theorem open_shared {S B A EC W C Exn X : Type} `{SL : SockLaws S B A} `{ErrorStack EC} `{!SysLaws S A}
    (throw_error : Util.scode → X) (sock : Z) (s : stream S B A EC W C Exn) (b : B) (Hb : _impl (hdl s) = Some b) :
  match open throw_error sock SHARE s with
  | (s', inl _) => ∃ fd, fd ∉ sys_open (uvs s) ∧ sys_open (uvs s') = {[fd]} ∪ sys_open (uvs s) ∧
      (ec_bool (ret s') = false → uv_fd (uvs s') b = Some fd)
  | (s', inr _) => sys_open (uvs s') = sys_open (uvs s)
  end.
Proof.
  unfold open, with_ownership, sock_dup. pose proof (file_dup_spec sock (uvs s)) as Hd.
  destruct (file_dup sock (uvs s)) as [u [fd|e]]; [|by destruct Hd].
  destruct Hd as (Hn & Ho & _). exists fd.
  destruct (tcp_open_spec fd (at_sys u s) b Hb) as (_ & _ & E & _ & Ef). simpl in *. rewrite E, Ho.
  split_and!; [done|done|]. intros Hr. destruct Ef as [?|[_ ?]]; [done|congruence].
Qed.

(** The name of a pipe is returned whole, whatever its length: libuv says how long it is
    when the buffer is too small. *)
Theorem sockname_whole (f : Z → filled * option uv_errno) (name : list ascii)
    (Hfits : ∀ n, Z.of_nat (length name) < n → f n = (mkFilled name (Z.of_nat (length name)), None))
    (Hsmall : ∀ n, n ≤ Z.of_nat (length name) → (f n).2 = Some UV_ENOBUFS ∧ f_size (f n).1 = Z.of_nat (length name) + 1) :
  uvx_sockname f = inl name.
Proof.
  unfold uvx_sockname. destruct (Hsmall 0) as [E1 E2]; [lia|]. destruct (f 0) as [b e]. simpl in *. subst e.
  rewrite E2, Hfits by lia. unfold with_length. simpl. by rewrite Nat2Z.id, take_ge.
Qed.

(** ** A system to run *)

(** Descriptors count up; [o_refuse] are the handles that libuv refuses to open; [o_stale]
    (ghost) are the descriptors that were closed when they were not open. *)
Record ex_os := mkOs { o_uv : ex_uv; o_next : Z; o_fds : gset Z; o_own : gmap nat Z; o_refuse : list nat; o_stale : list Z }.

Definition os_open (b : nat) (fd : Z) (o : ex_os) : ex_os * option uv_errno :=
  if decide (b ∈ o_refuse o) then (o, Some UV_EINVAL)
  else (mkOs (o_uv o) (o_next o) (o_fds o) (<[b := fd]> (o_own o)) (o_refuse o) (o_stale o), None).

Definition os_close (fd : Z) (o : ex_os) : ex_os :=
  mkOs (o_uv o) (o_next o) (o_fds o ∖ {[fd]}) (o_own o) (o_refuse o) (if decide (fd ∈ o_fds o) then o_stale o else o_stale o ++ [fd]).

Definition os_fresh (o : ex_os) : Z := fresh (o_fds o).
Definition os_dup (o : ex_os) : ex_os * Z :=
  (mkOs (o_uv o) (o_next o) ({[os_fresh o]} ∪ o_fds o) (o_own o) (o_refuse o) (o_stale o), os_fresh o).
Definition os_pair (o : ex_os) : ex_os * (Z * Z) :=
  let (o, a) := os_dup o in let (o, b) := os_dup o in (o, (a, b)).

#[export] Instance os_core : UvCore ex_os nat := {|
  uv_init o := let (u, b) := uv_init (o_uv o) in (mkOs u (o_next o) (o_fds o) (o_own o) (o_refuse o) (o_stale o), b);
  uv_ref b o := o; uv_unref b o := o;
  uv_close b o :=
    match o_own o !! b with
    | Some fd => mkOs (uv_close b (o_uv o)) (o_next o) (o_fds o ∖ {[fd]}) (delete b (o_own o)) (o_refuse o) (o_stale o)
    | None => mkOs (uv_close b (o_uv o)) (o_next o) (o_fds o) (o_own o) (o_refuse o) (o_stale o)
    end;
  uv_run_closed o := o; uv_opened o := uv_opened (o_uv o); uv_closing o := uv_closing (o_uv o);
  uv_has_ref o b := true
|}.

#[export] Instance os_stream : UvStream ex_os nat nat := {|
  uv_listen _ _ o := (o, None); uv_read_start _ o := (o, None); uv_read_stop _ o := o;
  uv_write _ _ _ o := (o, None); uv_write_queue_size _ _ := 0; uv_shutdown _ _ o := (o, None);
  uv_tcp_connect _ _ _ o := (o, None); uv_pipe_connect _ _ _ o := o;
  uv_tcp_open := os_open; uv_pipe_open := os_open;
  uv_tcp_getpeername _ _ := inl 7%nat; sa_default := 0%nat; sa_bool a := negb (a =? 0)%nat
|}.

#[export] Instance os_sys : Sys ex_os nat := {|
  sys_call op o := match op with
    | GetFd fd => (o, Ok 0 None)
    | Dup fd => let (o, fd) := os_dup o in (o, Ok fd None)
    | Close fd => (os_close fd o, Ok 0 None)
    | _ => (o, Errno 38)
    end;
  uv_socketpair _ _ _ _ o := let (o, p) := os_pair o in (o, inl p);
  uv_pipe _ _ o := let (o, p) := os_pair o in (o, inl p);
  uv_gettimeofday _ := inr UV_ENOSYS; uv_os_gethostname _ _ := (mkFilled [] 0, None);
  uv_resident_set_memory _ := inr UV_ENOSYS; uv_interface_addresses o := (o, inl []);
  uv_free_interface_addresses _ o := o; uv_cpu_info o := (o, inl []); uv_free_cpu_info _ o := o;
  uv_getrusage _ := inr UV_ENOSYS; uv_os_uname _ := inr UV_ENOSYS; uv_random _ o := (o, inr UV_ENOSYS);
  uv_get_process_title _ _ := inr UV_ENOSYS; uv_set_process_title _ o := (o, None);
  uv_guess_handle _ _ := UV_FILE; UV_NONBLOCK_PIPE := 64; FD_CLOEXEC := 1; O_NONBLOCK := 2048;
  sys_open := o_fds; sys_fd_flags _ _ := 0; sys_status _ _ := 0
|}.

#[export] Instance os_sock : SockUv ex_os nat nat := {|
  uv_tcp_bind _ _ _ o := (o, None); uv_tcp_getsockname _ _ := inl 7%nat; uv_tcp_nodelay _ _ o := (o, None);
  uv_tcp_keepalive _ _ _ o := (o, None); uv_tcp_simultaneous_accepts _ _ o := (o, None); uv_fileno _ _ := inr UV_EBADF;
  uv_recv_buffer_size _ n o := (o, inl n); uv_send_buffer_size _ n o := (o, inl n); uv_pipe_bind _ _ o := (o, None);
  uv_pipe_getsockname _ _ _ := (mkFilled [] 0, None); uv_pipe_getpeername _ _ _ := (mkFilled [] 0, None);
  uv_pipe_pending_instances _ _ o := o; uv_pipe_pending_count _ _ := 0; uv_pipe_chmod _ _ o := (o, None);
  uv_tty_set_mode _ _ o := (o, None); uv_tty_get_winsize _ _ := inr UV_EINVAL; sa_unix _ := 0%nat;
  UV_TCP_IPV6ONLY := 1; UV_READABLE := 1; UV_WRITABLE := 2; uv_fd o b := o_own o !! b
|}.

Lemma os_dup_spec o o' fd : os_dup o = (o', fd) → fd ∉ o_fds o ∧ o_fds o' = {[fd]} ∪ o_fds o ∧ o_own o' = o_own o.
Proof. intros [= <- <-]. split_and!; [apply (is_fresh (o_fds o))|done|done]. Qed.

Lemma os_pair_spec o o' a b : os_pair o = (o', (a, b)) →
  a ≠ b ∧ a ∉ o_fds o ∧ b ∉ o_fds o ∧ o_fds o' = {[a; b]} ∪ o_fds o ∧ o_own o' = o_own o.
Proof.
  unfold os_pair. destruct (os_dup o) as [o1 a1] eqn:E1. destruct (os_dup o1) as [o2 b1] eqn:E2. intros [= <- <- <-].
  apply os_dup_spec in E1 as (? & F1 & ?), E2 as (? & F2 & ?). rewrite F2, F1 in *. split_and!; [set_solver..|congruence].
Qed.

#[export] Instance os_sys_laws : SysLaws ex_os nat.
Proof.
  split; try done; simpl; intros.
  - by simplify_eq.
  - simplify_eq. split_and!; [apply (is_fresh (o_fds σ))|done..].
Qed.

#[local] Opaque os_pair.

#[export] Instance os_sock_laws : SockLaws ex_os nat nat.
Proof.
  split; try done; simpl.
  - intros b fd o. unfold os_open. case_decide; [done|]. intros _. simpl. rewrite lookup_insert_eq. split_and!; try done.
    intros b' Hb'. by rewrite lookup_insert_ne.
  - intros b fd o e. unfold os_open. by case_decide.
  - intros b fd o. unfold os_open. case_decide; [done|]. intros _. simpl. rewrite lookup_insert_eq. split_and!; try done.
    intros b' Hb'. by rewrite lookup_insert_ne.
  - intros b o b'. destruct (o_own o !! b) as [fd|] eqn:E; simpl.
    + case_decide as Hb; [subst; apply lookup_delete_eq|by rewrite lookup_delete_ne].
    + case_decide; by subst.
  - intros b o. destruct (o_own o !! b); simpl; set_solver.
  - intros op o b. by destruct op.
  - intros _ _ _ _ o a b. destruct (os_pair o) as [o' [a' b']] eqn:E. simpl. intros [= <- <-].
    by apply os_pair_spec in E as (? & ? & ? & ? & ?).
  - intros _ _ o a b. destruct (os_pair o) as [o' [a' b']] eqn:E. simpl. intros [= <- <-].
    by apply os_pair_spec in E as (? & ? & ? & ? & ?).
Qed.

(** Two streams; the handles in [refuse] cannot be opened. *)
Definition os_st := stream ex_os nat nat (list error_code) unit unit nat.
Definition os0 (refuse : list nat) : ex_os := mkOs ex_uv0 3 {[ 0; 1; 2 ]} ∅ refuse [].
Definition os_h1 (refuse : list nat) : os_st := new_stream (os0 refuse) tt tt.
Definition os_h2 (refuse : list nat) : os_st := new_stream (uvs (os_h1 refuse)) tt tt.
Definition os_at (refuse : list nat) : os_st := at_sys (uvs (os_h2 refuse)) (os_h1 refuse).

Lemma tcp_pair_exact_witness :
  let r := tcp_pair 1 0 (os_at []) (os_h2 []) in
  ∃ fd1 fd2, fd1 ≠ fd2 ∧ sys_open (uvs r.1.1) = {[fd1; fd2]} ∪ {[0; 1; 2]} ∧
    uv_fd (uvs r.1.1) 0%nat = Some fd1 ∧ uv_fd (uvs r.1.1) 1%nat = Some fd2.
Proof.
  pose proof (tcp_pair_exact 1 0 (os_at []) (os_h2 []) 0%nat 1%nat) as Ht.
  destruct (tcp_pair 1 0 (os_at []) (os_h2 [])) as [[h1 h2] [u|e]] eqn:E; [|by vm_compute in E].
  destruct Ht as (_ & fd1 & fd2 & Hne & _ & _ & Ho & F1 & F2); try reflexivity; [done|].
  exists fd1, fd2. exact (conj Hne (conj Ho (conj F1 F2))).
Defined.

(** ** What the code does not do *)

(** The second [open] of [Tcp::pair] fails: resetting the first stream has closed its
    descriptor, which [pair] closes once more; another thread may have got it meanwhile. *)
Theorem tcp_pair_closes_twice :
  let r := tcp_pair 1 0 (os_at [1%nat]) (os_h2 [1%nat]) in
  (if r.2 is inr _ then True else False) ∧ length (o_stale (uvs r.1.1)) = 1%nat ∧
  o_stale (uvs (tcp_pair 1 0 (os_at [0%nat]) (os_h2 [0%nat])).1.1) = [].
Proof. vm_compute. done. Qed.

(** A shared socket that libuv refuses: the duplicate is nobody's. *)
Theorem open_shared_leaks :
  let s := (open (X:=unit) (λ _, tt) 1 SHARE (os_h1 [0%nat])).1 in
  ec_bool (ret s) = true ∧ size (sys_open (uvs s)) = 4%nat ∧ uv_fd (uvs s) 0%nat = None.
Proof. vm_compute. done. Qed.

(** [Pipe::open] does not return the error of libuv.  If nothing is thrown for it, it says
    that all is well, the pipe is marked connected, and [Pipe::pair] succeeds with a stream
    that has no descriptor; if it is thrown, [Pipe::pair] leaks both descriptors. *)
Theorem pipe_open_ignores_error :
  let r := pipe_pair (X:=unit) (λ _, None) (os_at [1%nat]) (os_h2 [1%nat]) in
  r.2 = inl (inl tt) ∧ out_connected r.1.2 = true ∧ uv_fd (uvs r.1.2) 1%nat = None ∧
  let r := pipe_pair (λ _, Some tt) (os_at [0%nat]) (os_h2 [0%nat]) in
  r.2 = inr tt ∧ size (sys_open (uvs r.1.1)) = 5%nat ∧
  uv_fd (uvs r.1.1) 0%nat = None ∧ uv_fd (uvs r.1.1) 1%nat = None.
Proof. vm_compute. done. Qed.
